(* ===== verification/_CoqProject ===== *)
-Q . S2P
Prelude.v
Async.v
Payload.v
F64.v
Selection.v
Probe.v
DebugApi.v
PayloadTrace.v
RpcClient.v
FlashblockBuilder.v
FlashblocksService.v
Server.v
ServerProps.v
ServerExamples.v
ServerSystem.v
ServerTests.v
Pipeline.v
Requests.v
HealthCheck.v
HealthTests.v
FlashblocksWs.v
ReceiverTasks.v
FlashblocksTests.v
Proxy.v
Net.v
ProxyTests.v
Launch.v
FlashblocksCache.v
RateLimit.v
RedisRateLimit.v
RedisStore.v
RedisTasks.v
RedisConcurrent.v
RedisPermits.v
RateLimitTests.v
WsAuth.v
WsServer.v
WsFanout.v
WsTests.v
WsMain.v
WsSystem.v
WsUpstreams.v
Tracing.v
Main.v
