(* ===== verification/Prelude.v ===== *)
(** * rollup-boost: a verification development

    rollup-boost is a proxy between the consensus node of an OP-stack rollup
    (op-node) and its execution clients.  It answers the Engine API from the L2
    execution node and uses a second node, the builder, beside it: forkchoice
    updates and new payloads go to both, and [engine_getPayload] may return the
    block that the builder built.  Its promise is that the builder can never make
    the chain stop: whatever the builder does, the answers are the L2 node's or
    were accepted by it.  The repository has three programs: rollup-boost itself,
    an RPC overlay for nodes that follow flashblocks (flashblocks-rpc), and a
    WebSocket proxy that distributes flashblocks (websocket-proxy).

    ** Parts, and the files that model them

    Shared by all files:
    - [Prelude]: results, panics, machine integers, strings ([split], [trim],
      [starts_with]), transitive closures, notations, automation.
    - [Async]: concurrent handlers.  A handler is a [prog]: a tree of critical
      sections on the shared state ([atomic], [read], [modify]), requests to other
      processes ([await]), observations ([emit]: spawned tasks, metrics, span
      fields) and panics.  [every p P] says that [P trace outcome] holds of every
      run: for every reply to every request, and for every change that other tasks
      make to the state between two steps.  [run] executes a program against a
      fixed environment, [alone] without interference, and [join] is [tokio::join!]
      under an arbitrary schedule.  [respects] is rely and guarantee: what a program
      ensures when the replies and the other tasks behave; [max_requests] bounds the
      requests of every run.

    crates/rollup-boost and crates/rollup-boost-types:
    - [Payload]: payload.rs and flashblocks.rs of the types crate (envelopes,
      newPayload requests, flashblock messages, conversions).
    - [PayloadTrace]: [PayloadTraceContext] (payload.rs).
    - [F64], [Selection]: binary64 arithmetic, and selection.rs over it.
    - [Probe], [DebugApi]: probe.rs; debug_api.rs, server and client, with its gauge
      (metrics.rs).
    - [RpcClient]: client/rpc.rs and engine_api.rs.  The trait [EngineApiExt] is a
      class; the class [BuilderClient] is the contract that the server relies on.
    - [FlashblockBuilder], [FlashblocksService]: flashblocks/service.rs.
    - [Server], [ServerProps], [ServerExamples]: server.rs, its theorems, and its
      runs on concrete inputs.  The state behind [Arc]s and locks is [Shared].
    - [ServerSystem]: any number of handlers of server.rs and the tasks they spawn at
      once, as one transition system with a log of the requests.
    - [Requests]: the number of requests that a handler of server.rs sends.
    - [Pipeline]: what flashblocks/launcher.rs starts, receiver, channel, service task
      and the handlers beside them, as one transition system.
    - [HealthCheck]: health.rs, with the modules [Clock] and [Checker].
    - [FlashblocksWs]: flashblocks/args.rs, inbound.rs, outbound.rs, in the modules
      [Config], [Inbound], [Outbound].
    - [ReceiverTasks]: the ping and message tasks of all connections of the receiver
      (inbound.rs) side by side, as one transition system.
    - [Proxy]: proxy.rs, client/http.rs, client/auth.rs, the middleware of cli.rs.
    - [Launch]: [new_from_args] (server.rs), flashblocks/launcher.rs, cli.rs.
    - [Tracing]: tracing.rs, the fields of the spans of server.rs and client/rpc.rs,
      version.rs and build.rs.
    - [Main]: metrics.rs, [RollupBoostServiceArgs::run] (cli.rs) and bin/main.rs.

    crates/flashblocks-rpc: [FlashblocksCache] (cache.rs, flashblocks.rs, rpc.rs,
    bin/main.rs).

    crates/websocket-proxy:
    - [Net]: the text of IP addresses and numbers, as the standard library prints
      and parses them.
    - [RateLimit], [RedisRateLimit]: the two limiters of rate_limit.rs.
    - [RedisStore]: the Redis that several instances of the second share, a store
      whose commands may be refused or lose their replies; [RedisTasks],
      [RedisConcurrent], [RedisPermits]: those instances, with the single commands of
      all operations interleaved, while instances start and crash and clean up after
      each other.
    - [WsAuth]: auth.rs and the configuration in main.rs.
    - [WsServer]: server.rs, client.rs, metrics.rs.
    - [WsFanout]: registry.rs, subscriber.rs and the listener of main.rs, in the
      modules [Registry], [Subscriber], [Fanout].
    - [WsMain]: main.rs, arguments, start-up up to the bound listener, ping task,
      shutdown.
    - [WsSystem]: all of these together, as one transition system: endpoint, limiter,
      broadcast channel, listener, ping task, and the loop and the reader task of
      every client.
    - [WsUpstreams]: the subscribers of all upstreams (subscriber.rs, spawned in
      main.rs) as tasks beside each other and beside those of [WsSystem].

    Unit tests of the sources, run on the model: [ServerTests] (server.rs),
    [HealthTests] (health.rs), [ProxyTests] (proxy.rs), [FlashblocksTests]
    (flashblocks/service.rs, flashblocks/inbound.rs, selection.rs), [RateLimitTests]
    (rate_limit.rs), [WsTests] (auth.rs, server.rs and subscriber.rs of the proxy),
    [test_debug_client] in [DebugApi].  Each test is a function with the name it has
    in the source; an [Example] evaluates them.

    ** What the theorems show

    - The engine handlers ([ServerProps]): forkchoiceUpdated and newPayload answer
      with the L2 node's reply to exactly one request, except that a reply with the
      status INVALID becomes an internal error; getPayload returns
      the L2 payload or one that the L2 node validated (or, with external state
      root, built) during the same run, and fails only with the L2 node's error;
      the Disabled mode leaves the builder alone, the DryRun mode returns the L2
      payload; what happens to health and to the trace context.  They are proved
      against the contract [BuilderClient], which [RpcClient] and
      [FlashblocksService] implement; [main_serves] shows that every service that
      starts meets their assumptions, and [main_starts] that it does start.
    - All handlers at once ([ServerSystem]): what one handler leaves in the shared state
      for another is backed by what the nodes replied ([shared_state_backed]), and
      every request has its reason in the log: the builder is asked only for payloads
      it was told to build, and a block is rebuilt on the forkchoice state for which
      its id was given out ([requests_justified]).
    - Termination ([Requests]): a handler sends at most one, two or four requests,
      whatever happens.
    - Flashblocks: any sequence of messages leaves the builder with a run of
      flashblocks 0, 1, 2, ..., and the payload it builds is the one they describe; the
      builder does not compare payload ids, the service around it does: it refines a
      specification with a payload id and the run received for it; getPayload answers
      from that run or from one builder request.  From the receiver to the publisher
      every flashblock received is waiting, in hand, ignored, refused, or accepted and
      then published, in order ([pipeline_invariant]).
    - Selection: the floating-point test is the exact comparison below [2 ^ 53].
    - Health: the verdict of a round, the bounds and the drift of the clock.
    - Tracing: the differences between builder and L2 block that reach the
      histograms are those of payloads of the same run.
    - The HTTP proxy: where each request goes, and whose answer is returned.
    - WebSocket receiver and publisher: what is passed on, counters, that a
      connection never ends without an error, when the receiver panics.  With the
      tasks of all connections running side by side ([ReceiverTasks]), every
      connection keeps its order, connections do not mix while pings are sent, and a
      message task that was left behind times out.
    - The RPC overlay: what the cache serves is described by one run of received
      flashblocks 0, 1, 2, ..., whose payload ids it does not compare
      ([payloads_mixed]).
    - The rate limiters: the limits of the in-memory one hold in every reachable state,
      when exactly it admits a connection; balance of the Redis counters; a cleanup
      deletes only what it takes for dead, and all that an instance without a heartbeat
      left for IPv4 addresses.  Across all instances that share a Redis a limit can be
      exceeded when attempts overlap ([check_then_increment_race]), when a counter
      cannot be read ([failed_read_admits]) and when an instance starts during a
      cleanup ([cleanup_start_race]); without the last two, and under the other
      conditions of [favourable], it is exceeded by less than the number of attempts
      that overlap ([overshoot_bounded]).  The limit of a single instance holds
      exactly and no permit is lost, whatever fails ([instance_limit_exact]).
    - The WebSocket proxy: what it is made of for which arguments and when it
      refuses to start, which API keys are accepted, who is let in, which address
      counts, when a silent client is disconnected.  Of the whole proxy ([WsSystem]):
      every client gets a gapless run of what is broadcast, everything if it keeps
      up; with the in-memory limiter, the limits hold for the connections themselves
      and nothing leaks; the metrics are what the connections did; a pending send keeps a connection.  Of
      several upstreams ([WsUpstreams]): what is broadcast is a merge of all frames of
      their connections, each upstream's in order ([upstreams_merge]); their metrics
      are the sums of what the subscribers do alone, and what the gauge of upstream
      connections really counts ([upstream_gauge_exact]).

    ** Conventions and bounds

    Rust's integers are [Z] (or [nat] for counts in maps), with wrap-around and
    saturation written out where the code can reach them ([as_i64],
    [u64_saturating_sub], [usize_add], [mod 2 ^ 64]), as in a release build.  An [outcome] is a value or a panic.
    Loops that never end ([HealthHandle::spawn], the receivers, [select!] loops) are
    functions of the finite list of events they have seen so far, so a theorem for
    all lists speaks of every prefix of their life.  The only fuel is that of
    printing numbers ([print_digits], 20 digits; [parse_usize_print_dec] and
    [parse_i64_print_i64] show that it is enough for 64 bits) and of reading the
    groups of an IPv6 address.  Third-party code is a parameter: the
    alloy, reth and jsonrpsee types are fields of [EngineTypes] and [ChainTypes], and
    JSON, JWT, brotli, LRU caches and backoffs are section variables; nothing is
    assumed of them unless a theorem says so.  The eviction of moka's cache is a
    change made by the environment, and timeouts are error replies.

    ** What is not modelled

    Command line parsing (derived by clap), the text of log lines, the export of
    spans, the Prometheus recorder, sockets and signals: they are parameters whose
    results may be anything, or do not affect what the programs answer.  The
    reth node around the overlay, the integration tests (which start containers) and
    the fields of log messages are left out.  The time that passes inside a handler is
    outside the model as well, and so are the scheduler's fairness and the size of
    socket buffers: a step of a task may be delayed for ever.  In [WsSystem] the
    limiter is the in-memory one; the Redis limiter has its own transition system in
    [RedisConcurrent], whose store follows the documentation of the Redis commands that
    the limiter uses.  Which of the branches that are ready a [select!] polls first is
    left open, except that [proxy_start] includes the first poll of the server.  In
    [WsUpstreams] the ping task of an upstream connection appears as the event that its
    send failed; a ping interval of zero, on which it panics, only silences it. *)
From stdpp Require Export base gmap strings list pretty.
From Stdlib Require Export ZArith Lia Ascii.

(** ** Results, panics *)

(** Rust's [Result<T, E>]. *)
Inductive result (T E : Type) : Type :=
| Ok (t : T)
| Err (e : E).
Arguments Ok {T E} t.
Arguments Err {T E} e.

(** What the evaluation of a piece of code ends with: a value, or a panic
    ([unwrap] on [None], [expect] on [Err], an arithmetic trap). *)
Inductive outcome (A : Type) : Type :=
| Returned (a : A)
| Panicked (msg : string).
Arguments Returned {A} a.
Arguments Panicked {A} msg.

Definition is_ok {T E} (r : result T E) : bool :=
  match r with Ok _ => true | Err _ => false end.

Definition map_err {T E F} (f : E -> F) (r : result T E) : result T F :=
  match r with Ok t => Ok t | Err e => Err (f e) end.

Definition map_ok {T U E} (f : T -> U) (r : result T E) : result U E :=
  match r with Ok t => Ok (f t) | Err e => Err e end.

Declare Scope rust_scope.
Delimit Scope rust_scope with rust.

(** The [?] operator on pure results. *)
Notation "'let?' x ':=' r 'in' k" :=
  (match r with Ok x => k | Err e => Err e end)
  (at level 10, x name, r at level 100, k at level 200) : rust_scope.

#[global] Instance result_eq_dec {T E} `{EqDecision T, EqDecision E} :
  EqDecision (result T E).
Proof. solve_decision. Defined.

#[global] Instance outcome_eq_dec {A} `{EqDecision A} : EqDecision (outcome A).
Proof. solve_decision. Defined.

Lemma is_ok_map_err {T E F} (f : E -> F) (r : result T E) :
  is_ok (map_err f r) = is_ok r.
Proof. by destruct r. Qed.

(** ** Machine integers *)

Section MachineIntegers.
Local Open Scope Z_scope.

Definition u64_max : Z := 2 ^ 64 - 1.
(** [x as i64] for a [u64] or [usize], and wrapping [i64] arithmetic. *)
Definition as_i64 (x : Z) : Z := (x + 2 ^ 63) mod 2 ^ 64 - 2 ^ 63.

Definition u64_saturating_sub (a b : Z) : Z := Z.max 0 (a - b).
(** [+] on [usize] in a release build, where it wraps around. *)
Definition usize_add (a b : Z) : Z := (a + b) mod 2 ^ 64.

Lemma as_i64_small x : - 2 ^ 63 <= x < 2 ^ 63 -> as_i64 x = x.
Proof. intros H. unfold as_i64. rewrite Z.mod_small; lia. Qed.

Lemma as_i64_range x : - 2 ^ 63 <= as_i64 x < 2 ^ 63.
Proof. unfold as_i64. pose proof (Z.mod_pos_bound (x + 2 ^ 63) (2 ^ 64)). lia. Qed.

Lemma u64_saturating_sub_gt a b m :
  0 <= m -> u64_saturating_sub a b > m <-> a > b + m.
Proof. unfold u64_saturating_sub. lia. Qed.

End MachineIntegers.

(** ** Strings

    Rust's [str] methods the sources use, on byte strings. *)

Definition colon : ascii := ":"%char.
Definition comma : ascii := ","%char.
Definition equals : ascii := "="%char.

Definition str_is_empty (s : string) : bool :=
  match s with EmptyString => true | _ => false end.

(** [s.split(c)]: never empty, and ["".split(c)] is [[""]]. *)
Fixpoint split (c : ascii) (s : string) : list string :=
  match s with
  | EmptyString => [EmptyString]
  | String a r =>
      if decide (a = c) then EmptyString :: split c r
      else match split c r with
           | x :: xs => String a x :: xs
           | [] => [String a EmptyString]
           end
  end.

(** [s.splitn(2, c)]. *)
Fixpoint splitn2 (c : ascii) (s : string) : list string :=
  match s with
  | EmptyString => [EmptyString]
  | String a r =>
      if decide (a = c) then [EmptyString; r]
      else match splitn2 c r with
           | x :: xs => String a x :: xs
           | [] => [String a EmptyString]
           end
  end.

(** The inverse of [split]. *)
Fixpoint join_with (c : ascii) (l : list string) : string :=
  match l with
  | [] => EmptyString
  | [x] => x
  | x :: xs => (x ++ String c (join_with c xs))%string
  end.

(** [s.starts_with(p)]. *)
Fixpoint starts_with (p s : string) : bool :=
  match p, s with
  | EmptyString, _ => true
  | String a p', String b s' => if decide (a = b) then starts_with p' s' else false
  | String _ _, EmptyString => false
  end.

(** ASCII white space, as [str::trim] removes it. *)
Definition is_space (a : ascii) : bool :=
  let n := Ascii.nat_of_ascii a in
  (n =? 32)%nat || ((9 <=? n)%nat && (n <=? 13)%nat).

Fixpoint trim_start (s : string) : string :=
  match s with
  | EmptyString => EmptyString
  | String a r => if is_space a then trim_start r else s
  end.

Fixpoint trim_end (s : string) : string :=
  match s with
  | EmptyString => EmptyString
  | String a r =>
      match trim_end r with
      | EmptyString => if is_space a then EmptyString else String a EmptyString
      | r' => String a r'
      end
  end.

Definition trim (s : string) : string := trim_end (trim_start s).

Definition lower_char (a : ascii) : ascii :=
  let n := N_of_ascii a in
  if ((65 <=? n) && (n <=? 90))%N then ascii_of_N (n + 32) else a.

(** [str::to_lowercase] on ASCII text. *)
Fixpoint to_lowercase (s : string) : string :=
  match s with
  | EmptyString => EmptyString
  | String a s => String (lower_char a) (to_lowercase s)
  end.

(** [c] occurs in [s]. *)
Fixpoint has_char (c : ascii) (s : string) : bool :=
  match s with
  | EmptyString => false
  | String a r => if decide (a = c) then true else has_char c r
  end.

Lemma split_ne c s : split c s <> [].
Proof.
  destruct s as [|a r]; simpl; [done|].
  case_decide; [done|]. by destruct (split c r).
Qed.

Lemma split_no_sep c s : has_char c s = false -> split c s = [s].
Proof.
  induction s as [|a r IH]; simpl; [done|].
  case_decide; [done|]. intros Hc. by rewrite IH.
Qed.

Lemma split_app_sep c x r :
  has_char c x = false -> split c (x ++ String c r)%string = x :: split c r.
Proof.
  induction x as [|a x IH]; simpl.
  - intros _. by rewrite decide_True by done.
  - case_decide; [done|]. intros Hc. by rewrite IH.
Qed.

Lemma split_app c x r : split c (x ++ String c r)%string = split c x ++ split c r.
Proof.
  induction x as [|a x IH]; simpl; [by rewrite decide_True|].
  case_decide; [by rewrite IH|]. rewrite IH.
  destruct (split c x) eqn:Hx; [by destruct (split_ne c x)|done].
Qed.

(** Splitting undoes joining pieces that do not contain the separator. *)
Lemma split_join c l :
  l <> [] -> Forall (fun x => has_char c x = false) l -> split c (join_with c l) = l.
Proof.
  induction l as [|x l IH]; intros Hne Hall; [done|].
  inversion Hall as [|? ? Hx Hl]; subst.
  destruct l as [|y l]; [by apply split_no_sep|].
  change (join_with c (x :: y :: l)) with (x ++ String c (join_with c (y :: l)))%string.
  rewrite split_app_sep by done. f_equal. by apply IH.
Qed.

Lemma has_char_app c x y : has_char c (x ++ y)%string = has_char c x || has_char c y.
Proof. induction x as [|a x IH]; simpl; [done|]. by case_decide. Qed.

Lemma splitn2_app c x r :
  has_char c x = false -> splitn2 c (x ++ String c r)%string = [x; r].
Proof.
  induction x as [|a x IH]; simpl.
  - intros _. by rewrite decide_True by done.
  - case_decide; [done|]. intros Hc. by rewrite IH.
Qed.

(** ** Lists *)

Lemma last_snoc_inv {A} (l : list A) x : last l = Some x -> exists l', l = l' ++ [x].
Proof.
  induction l as [|y l IH] using rev_ind; [done|].
  rewrite last_snoc. intros [= ->]. by exists l.
Qed.

Lemma last_None_inv {A} (l : list A) : last l = None -> l = [].
Proof.
  induction l as [|y l IH] using rev_ind; [done|]. by rewrite last_snoc.
Qed.

(** ** Reachability *)

Inductive star {A : Type} (R : A -> A -> Prop) : A -> A -> Prop :=
| star_refl a : star R a a
| star_snoc a b c : star R a b -> R b c -> star R a c.

Lemma star_step {A} (R : A -> A -> Prop) a b c : R a b -> star R b c -> star R a c.
Proof. intros Hab Hbc. induction Hbc; eauto using @star. Qed.

Lemma star_invariant {A} (R : A -> A -> Prop) (P : A -> Prop) a b :
  (forall x y, P x -> R x y -> P y) -> P a -> star R a b -> P b.
Proof. intros Hstep Ha Hs. induction Hs; eauto. Qed.

(** ** Automation *)

Create HintDb boost.
#[export] Hint Resolve as_i64_small as_i64_range star_refl star_snoc : boost.
Create Rewrite HintDb boost_simpl.
#[export] Hint Rewrite @is_ok_map_err : boost_simpl.

(** Case analysis on every [match] of the goal, closing the trivial cases. *)
Ltac cases := repeat (case_match; simplify_eq/=; try done).
