(* ===== verification/Async.v ===== *)
(** * Asynchronous code

    The handlers of rollup-boost are [async fn]s that run on a shared runtime:
    between two awaits, and between two lock acquisitions, any other task may
    change the shared state.  This file gives the effect trees in which the
    handlers are written, their execution against an arbitrary environment, the
    postcondition calculus used to reason about every run, and [tokio::join!].

    - [Atomic f k] is one critical section on the shared state ([lock()],
      [read().await], an atomic, one call on a concurrent map);
    - [Await c k] is one request to an external service and its reply;
    - [Emit o k] is an observable act without a reply (a spawned task, a span
      field, a counter);
    - [Panic m] is a panic of the task. *)
From S2P Require Import Prelude.

Section Programs.
Context {Call : Type} {Reply : Call -> Type} {Obs : Type}.

Inductive prog (S A : Type) : Type :=
| Ret (a : A)
| Panic (msg : string)
| Atomic (X : Type) (f : S -> X * S) (k : X -> prog S A)
| Await (c : Call) (k : Reply c -> prog S A)
| Emit (o : Obs) (k : prog S A).

Arguments Ret {S A} a.
Arguments Panic {S A} msg.
Arguments Atomic {S A X} f k.
Arguments Await {S A} c k.
Arguments Emit {S A} o k.

(** What a run of a task leaves in its trace: the shared state before and after
    each of its critical sections, and its requests with their replies. *)
Inductive event (S : Type) : Type :=
| EvAtomic (before after : S)
| EvAwait (c : Call) (r : Reply c)
| EvEmit (o : Obs).

Arguments EvAtomic {S} before after.
Arguments EvAwait {S} c r.
Arguments EvEmit {S} o.

Fixpoint bind {S A B} (p : prog S A) (q : A -> prog S B) : prog S B :=
  match p with
  | Ret a => q a
  | Panic m => Panic m
  | Atomic f k => Atomic f (fun x => bind (k x) q)
  | Await c k => Await c (fun r => bind (k r) q)
  | Emit o k => Emit o (bind k q)
  end.

(** A critical section that reads, one that writes. *)
Definition atomic {S X} (f : S -> X * S) : prog S X := Atomic f Ret.
Definition read {S X} (f : S -> X) : prog S X := Atomic (fun s => (f s, s)) Ret.
Definition modify {S} (f : S -> S) : prog S unit := Atomic (fun s => (tt, f s)) Ret.
Definition await {S} (c : Call) : prog S (Reply c) := Await c Ret.
Definition emit {S} (o : Obs) : prog S unit := Emit o (Ret tt).

(** A component's program acting on the part of a larger state that a getter
    and a setter delimit. *)
Fixpoint zoom {S T A} (get : S -> T) (set : T -> S -> S) (p : prog T A) : prog S A :=
  match p with
  | Ret a => Ret a
  | Panic m => Panic m
  | Atomic f k =>
      Atomic (fun s => let (x, t) := f (get s) in (x, set t s)) (fun x => zoom get set (k x))
  | Await c k => Await c (fun r => zoom get set (k r))
  | Emit o k => Emit o (zoom get set k)
  end.

(** ** [tokio::join!]

    Both futures are polled by the same task; [sch] says which of them makes the
    next step ([true] for the first one; the first one when [sch] is
    exhausted).  A panic of one future is a panic of the task. *)
Fixpoint join {S A B} (p : prog S A) (sch : list bool) : prog S B -> prog S (A * B) :=
  (fix join_q (sch : list bool) (q : prog S B) {struct q} : prog S (A * B) :=
     match p with
     | Ret a => bind q (fun b => Ret (a, b))
     | _ =>
         match q with
         | Ret b => bind p (fun a => Ret (a, b))
         | _ =>
             if match sch with [] => true | x :: _ => x end then
               match p with
               | Ret a => bind q (fun b => Ret (a, b))
               | Panic m => Panic m
               | Atomic f k => Atomic f (fun x => join (k x) (tail sch) q)
               | Await c k => Await c (fun r => join (k r) (tail sch) q)
               | Emit o k => Emit o (join k (tail sch) q)
               end
             else
               match q with
               | Ret b => bind p (fun a => Ret (a, b))
               | Panic m => Panic m
               | Atomic f k => Atomic f (fun x => join_q (tail sch) (k x))
               | Await c k => Await c (fun r => join_q (tail sch) (k r))
               | Emit o k => Emit o (join_q (tail sch) k)
               end
         end
     end) sch.

(** ** Execution

    An environment chooses the reply to every request and what the other tasks
    do to the shared state before each step, from everything that has happened
    so far. *)
Record env (S : Type) := {
  respond : list (event S) -> forall c : Call, Reply c;
  interfere : list (event S) -> S -> S
}.
Arguments respond {S}.
Arguments interfere {S}.

Fixpoint exec {S A} (e : env S) (p : prog S A) (s : S) (h : list (event S))
  : outcome A * S * list (event S) :=
  match p with
  | Ret a => (Returned a, s, h)
  | Panic m => (Panicked m, s, h)
  | Atomic f k =>
      let s1 := interfere e h s in
      let (x, s2) := f s1 in
      exec e (k x) s2 (h ++ [EvAtomic s1 s2])
  | Await c k =>
      let r := respond e h c in
      exec e (k r) (interfere e h s) (h ++ [EvAwait c r])
  | Emit o k => exec e k s (h ++ [EvEmit o])
  end.

Definition run {S A} (e : env S) (p : prog S A) (s : S) := exec e p s [].

(** The projections of a run. *)
Definition run_outcome {S A} (e : env S) (p : prog S A) (s : S) : outcome A :=
  (run e p s).1.1.
Definition run_state {S A} (e : env S) (p : prog S A) (s : S) : S := (run e p s).1.2.
Definition run_trace {S A} (e : env S) (p : prog S A) (s : S) : list (event S) :=
  (run e p s).2.

(** ** Every run

    [every p Q]: whatever the replies and whatever state each critical section
    finds, [Q] holds of the trace and the outcome of [p]. *)
Fixpoint every {S A} (p : prog S A) (Q : list (event S) -> outcome A -> Prop) : Prop :=
  match p with
  | Ret a => Q [] (Returned a)
  | Panic m => Q [] (Panicked m)
  | Atomic f k =>
      forall s, every (k (f s).1) (fun t o => Q (EvAtomic s (f s).2 :: t) o)
  | Await c k => forall r, every (k r) (fun t o => Q (EvAwait c r :: t) o)
  | Emit o k => every k (fun t r => Q (EvEmit o :: t) r)
  end.

Lemma every_mono {S A} (p : prog S A) (Q Q' : list (event S) -> outcome A -> Prop) :
  (forall t o, Q t o -> Q' t o) -> every p Q -> every p Q'.
Proof.
  revert Q Q'. induction p as [a|m|X f k IH|c k IH|o k IH]; simpl; intros Q Q' HQ.
  - apply HQ.
  - apply HQ.
  - intros H s. eapply IH; [|apply H]. auto.
  - intros H r. eapply IH; [|apply H]. auto.
  - intros H. eapply IH; [|apply H]. auto.
Qed.

Lemma every_conj {S A} (p : prog S A) (Q Q' : list (event S) -> outcome A -> Prop) :
  every p Q -> every p Q' -> every p (fun t o => Q t o /\ Q' t o).
Proof.
  revert Q Q'. induction p as [a|m|X f k IH|c k IH|o k IH]; simpl; intros Q Q' H H'; auto.
Qed.

Lemma every_True {S A} (p : prog S A) : every p (fun _ _ => True).
Proof. induction p; simpl; auto. Qed.

(** Sequencing: a panic of the first part is the panic of the whole. *)
Lemma every_bind {S A B} (p : prog S A) (q : A -> prog S B)
    (P : list (event S) -> outcome A -> Prop) (Q : list (event S) -> outcome B -> Prop) :
  every p P ->
  (forall t m, P t (Panicked m) -> Q t (Panicked m)) ->
  (forall t a, P t (Returned a) -> every (q a) (fun t' o => Q (t ++ t') o)) ->
  every (bind p q) Q.
Proof.
  revert P Q. induction p as [a|m|X f k IH|c k IH|o k IH]; simpl; intros P Q HP Hm HQ.
  - exact (HQ [] a HP).
  - by apply Hm.
  - intros s. eapply IH; [apply HP| |]; simpl; auto.
    intros t a Ha. exact (HQ _ _ Ha).
  - intros r. eapply IH; [apply HP| |]; simpl; auto.
    intros t a Ha. exact (HQ _ _ Ha).
  - eapply IH; [apply HP| |]; simpl; auto.
    intros t a Ha. exact (HQ _ _ Ha).
Qed.

Lemma every_read {S X A} (f : S -> X) (q : X -> prog S A) Q :
  (forall s, every (q (f s)) (fun t o => Q (EvAtomic s s :: t) o)) ->
  every (bind (read f) q) Q.
Proof. done. Qed.

Lemma every_emit {S A} (o : Obs) (q : unit -> prog S A) Q :
  every (q tt) (fun t r => Q (EvEmit o :: t) r) -> every (bind (emit o) q) Q.
Proof. done. Qed.

Lemma exec_every {S A} (e : env S) (p : prog S A) s h
    (Q : list (event S) -> outcome A -> Prop) :
  every p (fun t o => Q (h ++ t) o) ->
  Q (exec e p s h).2 (exec e p s h).1.1.
Proof.
  revert s h Q. induction p as [a|m|X f k IH|c k IH|o k IH]; simpl; intros s h Q H.
  - by rewrite app_nil_r in H.
  - by rewrite app_nil_r in H.
  - destruct (f (interfere e h s)) as [x s2] eqn:Hf. apply IH.
    specialize (H (interfere e h s)). rewrite Hf in H. simpl in H.
    eapply every_mono; [|apply H]. intros t o'. by rewrite <- app_assoc.
  - apply IH. specialize (H (respond e h c)).
    eapply every_mono; [|apply H]. intros t o'. by rewrite <- app_assoc.
  - apply IH. eapply every_mono; [|apply H]. intros t o'. by rewrite <- app_assoc.
Qed.

(** What holds of every run holds of the run in any environment from any state. *)
Lemma run_every {S A} (e : env S) (p : prog S A) s
    (Q : list (event S) -> outcome A -> Prop) :
  every p Q -> Q (run_trace e p s) (run_outcome e p s).
Proof. intros H. exact (exec_every e p s [] Q H). Qed.

(** ** Sequential reasoning *)

Lemma exec_bind {S A B} (e : env S) (p : prog S A) (q : A -> prog S B) s h :
  exec e (bind p q) s h =
    match exec e p s h with
    | (Returned a, s', h') => exec e (q a) s' h'
    | (Panicked m, s', h') => (Panicked m, s', h')
    end.
Proof.
  revert s h. induction p as [a|m|X f k IH|c k IH|o k IH]; simpl; intros s h; auto.
  by destruct (f (interfere e h s)).
Qed.

(** No other task runs meanwhile. *)
Definition quiet {S} (e : env S) : Prop := forall h s, interfere e h s = s.

(** The final state of a program that makes no request, alone. *)
Fixpoint alone {S A} (p : prog S A) (s : S) : option (A * S) :=
  match p with
  | Ret a => Some (a, s)
  | Atomic f k => let (x, s') := f s in alone (k x) s'
  | Emit _ k => alone k s
  | Panic _ | Await _ _ => None
  end.

Lemma alone_exec {S A} (e : env S) (p : prog S A) s h a s' :
  quiet e -> alone p s = Some (a, s') -> (exec e p s h).1 = (Returned a, s').
Proof.
  intros He. revert s h. induction p as [b|m|X f k IH|c k IH|o k IH]; simpl; intros s h H;
    simplify_eq; auto.
  rewrite He. destruct (f s) as [x s2] eqn:Hf. by apply IH.
Qed.

Lemma alone_bind {S A B} (p : prog S A) (q : A -> prog S B) s :
  alone (bind p q) s = match alone p s with Some (a, s') => alone (q a) s' | None => None end.
Proof.
  revert s. induction p as [b|m|X f k IH|c k IH|o k IH]; simpl; intros s; auto.
  by destruct (f s).
Qed.

(** Programs that never change the state themselves. *)
Fixpoint keeps {S A} (p : prog S A) : Prop :=
  match p with
  | Ret _ | Panic _ => True
  | Atomic f k => forall s, (f s).2 = s /\ keeps (k (f s).1)
  | Await c k => forall r, keeps (k r)
  | Emit _ k => keeps k
  end.

Lemma keeps_bind {S A B} (p : prog S A) (q : A -> prog S B) :
  keeps p -> (forall a, keeps (q a)) -> keeps (bind p q).
Proof.
  induction p as [a|m|X f k IH|c k IH|o k IH]; simpl; intros Hp Hq; auto.
  intros s. destruct (Hp s). auto.
Qed.

Lemma keeps_exec {S A} (e : env S) (p : prog S A) s h :
  quiet e -> keeps p -> (exec e p s h).1.2 = s.
Proof.
  intros He. revert s h. induction p as [a|m|X f k IH|c k IH|o k IH]; simpl; intros s h Hp; auto.
  - rewrite He. destruct (Hp s) as [Hs Hk]. destruct (f s) as [x s2]. simpl in *. subst. auto.
  - rewrite He. auto.
Qed.

(** In this environment [p] returns and takes the state from [s] to [s']. *)
Definition leads {S A} (e : env S) (p : prog S A) (s s' : S) : Prop :=
  forall h, exists a h', exec e p s h = (Returned a, s', h').

Lemma leads_bind {S A B} (e : env S) (p : prog S A) (q : A -> prog S B) s s' s'' :
  leads e p s s' -> (forall a, leads e (q a) s' s'') -> leads e (bind p q) s s''.
Proof.
  intros Hp Hq h. destruct (Hp h) as (a & h' & Hh). rewrite exec_bind, Hh. apply Hq.
Qed.

Lemma leads_alone {S A} (e : env S) (p : prog S A) s a s' :
  quiet e -> alone p s = Some (a, s') -> leads e p s s'.
Proof.
  intros He Ha h. pose proof (alone_exec e p s h a s' He Ha) as H.
  destruct (exec e p s h) as [os h']. simpl in H. subst os. eauto.
Qed.

Lemma leads_keeps {S A} (e : env S) (p : prog S A) s :
  quiet e -> keeps p -> every p (fun _ o => exists a, o = Returned a) -> leads e p s s.
Proof.
  intros He Hk Hr h. pose proof (keeps_exec e p s h He Hk) as Hs.
  destruct (exec_every e p s h (fun _ o => exists a, o = Returned a) Hr) as [a Ha].
  destruct (exec e p s h) as [[o s'] h']. simpl in *. subst. eauto.
Qed.

(** [zoom] runs the component on its part of the state. *)
Lemma alone_zoom {S T A} (get : S -> T) (set : T -> S -> S) (p : prog T A) s :
  (forall s, set (get s) s = s) -> (forall t s, get (set t s) = t) ->
  (forall t t' s, set t (set t' s) = set t s) ->
  alone (zoom get set p) s =
    match alone p (get s) with Some (a, t) => Some (a, set t s) | None => None end.
Proof.
  intros H1 H2 H3. revert s. induction p as [b|m|X f k IH|c k IH|o k IH]; simpl; intros s; auto.
  - by rewrite H1.
  - destruct (f (get s)) as [x t]. rewrite IH, H2.
    destruct (alone (k x) t) as [[? ?]|]; [|done]. by rewrite H3.
Qed.

(** Every run of a zoomed program is a run of the component: the requests, the
    observable acts and the outcome are the component's, and the component's
    critical sections see the component's part of the state. *)
Definition zoom_event {S T} (get : S -> T) (v : event S) : event T :=
  match v with
  | EvAtomic s s' => EvAtomic (get s) (get s')
  | EvAwait c r => EvAwait c r
  | EvEmit o => EvEmit o
  end.

Lemma every_zoom {S T A} (get : S -> T) (set : T -> S -> S) (p : prog T A) Q :
  (forall t s, get (set t s) = t) ->
  every p Q -> every (zoom get set p) (fun t o => Q (zoom_event get <$> t) o).
Proof.
  intros Hgs. revert Q. induction p as [b|m|X f k IH|c k IH|o k IH]; simpl; intros Q H; auto.
  - intros s. specialize (H (get s)). destruct (f (get s)) as [x t]. simpl in *.
    eapply every_mono; [|apply (IH _ _ H)]. intros t' o'. simpl. by rewrite Hgs.
  - intros r. exact (IH _ _ (H r)).
  - exact (IH _ H).
Qed.

(** The requests of a zoomed program are the component's. *)
Lemma zoom_event_await {S T} (get : S -> T) (t : list (event S)) c (r : Reply c) :
  EvAwait c r ∈ (zoom_event get <$> t) -> EvAwait c r ∈ t.
Proof.
  intros (v & Hv & Hin)%list_elem_of_fmap.
  set (lift := fun v : event T => match v with EvAwait c r => Some (EvAwait (S := S) c r) | _ => None end).
  apply (f_equal lift) in Hv. destruct v; simpl in Hv; [done| |done]. apply (inj Some) in Hv. by rewrite Hv.
Qed.

(** ** Traces event by event

    A condition on every single event of a run is compositional. *)
Definition all_events {S A} (P : event S -> Prop) (p : prog S A) : Prop :=
  every p (fun t _ => Forall P t).

Lemma all_events_bind {S A B} (P : event S -> Prop) (p : prog S A) (q : A -> prog S B) :
  all_events P p -> (forall a, all_events P (q a)) -> all_events P (bind p q).
Proof.
  intros Hp Hq. eapply every_bind; [exact Hp|done|].
  intros t a Ht. eapply every_mono; [|apply Hq]. intros t' o Ht'. by apply Forall_app.
Qed.

Lemma all_events_ret {S A} (P : event S -> Prop) (a : A) : all_events P (Ret a).
Proof. constructor. Qed.

Lemma all_events_atomic {S X} (P : event S -> Prop) (f : S -> X * S) :
  (forall s, P (EvAtomic s (f s).2)) -> all_events P (atomic f).
Proof. intros H s. by repeat constructor. Qed.

Lemma all_events_emit {S} (P : event S -> Prop) (o : Obs) :
  P (EvEmit o) -> all_events P (emit o).
Proof. intros H. by repeat constructor. Qed.

Lemma all_events_zoom {S T A} (get : S -> T) (set : T -> S -> S) (P : event S -> Prop)
    (Q : event T -> Prop) (p : prog T A) :
  (forall t s, get (set t s) = t) -> (forall v, Q (zoom_event get v) -> P v) ->
  all_events Q p -> all_events P (zoom get set p).
Proof.
  intros Hgs HPQ Hp. eapply every_mono; [|by apply every_zoom, Hp].
  intros t o Ht. cbn in Ht. rewrite Forall_fmap in Ht. eapply Forall_impl; [exact Ht|exact HPQ].
Qed.

Lemma all_events_mono {S A} (P Q : event S -> Prop) (p : prog S A) :
  (forall v, P v -> Q v) -> all_events P p -> all_events Q p.
Proof. intros H. apply every_mono. intros t o Ht. by eapply Forall_impl. Qed.

(** ** Interleavings *)

Inductive interleaving {X : Type} : list X -> list X -> list X -> Prop :=
| il_nil : interleaving [] [] []
| il_left x a b c : interleaving a b c -> interleaving (x :: a) b (x :: c)
| il_right x a b c : interleaving a b c -> interleaving a (x :: b) (x :: c).

Lemma interleaving_left {X} (l : list X) : interleaving l [] l.
Proof. induction l; constructor; auto. Qed.

Lemma interleaving_right {X} (l : list X) : interleaving [] l l.
Proof. induction l; constructor; auto. Qed.

Lemma interleaving_filter {X} (P : X -> Prop) `{!forall x, Decision (P x)} a b c :
  interleaving a b c -> interleaving (filter P a) (filter P b) (filter P c).
Proof.
  induction 1; [constructor| |]; rewrite !filter_cons; case_decide;
    try constructor; auto.
Qed.

Lemma interleaving_nil_r {X} (a c : list X) : interleaving a [] c -> c = a.
Proof.
  intros H. remember [] as b eqn:Hb. induction H; simplify_eq; [done|]. by rewrite IHinterleaving.
Qed.

Lemma interleaving_elem {X} (x : X) a b c :
  interleaving a b c -> x ∈ c <-> x ∈ a \/ x ∈ b.
Proof.
  induction 1; rewrite ?elem_of_cons; [rewrite elem_of_nil|..]; tauto.
Qed.

(** Joined futures: each of them has a run of its own, and the trace is an
    interleaving of theirs; the join panics only when one of them does. *)
Definition join_spec {S A B} (P : list (event S) -> outcome A -> Prop)
    (Q : list (event S) -> outcome B -> Prop) (R : list (event S) -> outcome (A * B) -> Prop) :=
  (forall t1 t2 t a b, interleaving t1 t2 t ->
     P t1 (Returned a) -> Q t2 (Returned b) -> R t (Returned (a, b))) /\
  (forall t1 t m, t1 `sublist_of` t -> P t1 (Panicked m) -> R t (Panicked m)) /\
  (forall t2 t m, t2 `sublist_of` t -> Q t2 (Panicked m) -> R t (Panicked m)).

Lemma join_spec_left {S A B} v P Q (R : list (event S) -> outcome (A * B) -> Prop) :
  join_spec P Q R ->
  join_spec (fun t o => P (v :: t) o) Q (fun t o => R (v :: t) o).
Proof.
  intros (HR & Hp & Hq). split_and!; intros.
  - eapply HR; [by apply il_left|..]; eauto.
  - eapply Hp; [by apply sublist_skip|]; eauto.
  - eapply Hq; [by apply sublist_cons|]; eauto.
Qed.

Lemma join_spec_right {S A B} v P Q (R : list (event S) -> outcome (A * B) -> Prop) :
  join_spec P Q R ->
  join_spec P (fun t o => Q (v :: t) o) (fun t o => R (v :: t) o).
Proof.
  intros (HR & Hp & Hq). split_and!; intros.
  - eapply HR; [by apply il_right|..]; eauto.
  - eapply Hp; [by apply sublist_cons|]; eauto.
  - eapply Hq; [by apply sublist_skip|]; eauto.
Qed.

Lemma join_spec_bind_p {S A B} (p : prog S A) (b : B) P Q R :
  join_spec P Q R -> Q [] (Returned b) -> every p P ->
  every (bind p (fun a => Ret (a, b))) R.
Proof.
  intros (HR & Hp & Hq) HQ HP. eapply every_bind; [exact HP| |].
  - intros t m. by apply Hp.
  - intros t a Ha. simpl. rewrite app_nil_r. eapply HR; eauto using interleaving_left.
Qed.

Lemma join_spec_bind_q {S A B} (q : prog S B) (a : A) P Q R :
  join_spec P Q R -> P [] (Returned a) -> every q Q ->
  every (bind q (fun b => Ret (a, b))) R.
Proof.
  intros (HR & Hp & Hq) HP HQ. eapply every_bind; [exact HQ| |].
  - intros t m. by apply Hq.
  - intros t b Hb. simpl. rewrite app_nil_r. eapply HR; eauto using interleaving_right.
Qed.

Lemma every_join {S A B} (p : prog S A) (q : prog S B) sch P Q R :
  every p P -> every q Q -> join_spec P Q R -> every (join p sch q) R.
Proof.
  revert sch q P Q R.
  induction p as [a|m|X f k IH|c k IH|o k IH]; intros sch q; revert sch;
    (induction q as [b|m'|X' f' k' IHq|c' k' IHq|o' k' IHq]; intros sch P Q R HP HQ H).
  all: try (apply (join_spec_bind_q _ a P Q R H HP HQ)).
  all: try (apply (join_spec_bind_p _ b P Q R H HQ HP)).
  all: pose proof H as (HR & Hp & Hq); destruct sch as [|[|] sch]; simpl.
  all: first
    [ by eapply Hp; [apply sublist_nil_l|]
    | by eapply Hq; [apply sublist_nil_l|]
    | intros x; eapply IH; [apply HP|exact HQ|by apply join_spec_left]
    | eapply IH; [apply HP|exact HQ|by apply join_spec_left]
    | intros x; eapply IHq; [exact HP|apply HQ|by apply join_spec_right]
    | eapply IHq; [exact HP|apply HQ|by apply join_spec_right] ].
Qed.

(** ** Rely and guarantee

    [respects I G R O p Q]: while the state that each critical section finds
    satisfies [I] and every reply satisfies [R], the program keeps [I], sends only
    requests in [G], emits only what is in [O], and returns a value in [Q]. *)
Section Respects.
Context {S : Type} (I : S -> Prop) (G : Call -> Prop) (R : forall c, Reply c -> Prop) (O : Obs -> Prop).

Fixpoint respects {A} (p : prog S A) (Q : A -> Prop) : Prop :=
  match p with
  | Ret a => Q a
  | Panic _ => True
  | Atomic f k => forall s, I s -> I (f s).2 /\ respects (k (f s).1) Q
  | Await c k => G c /\ forall r, R c r -> respects (k r) Q
  | Emit o k => O o /\ respects k Q
  end.

Lemma respects_bind {A B} (p : prog S A) (q : A -> prog S B) P Q :
  respects p P -> (forall a, P a -> respects (q a) Q) -> respects (bind p q) Q.
Proof.
  intros Hp Hq. induction p as [a|m|X f k IH|c k IH|o k IH]; simpl in *; auto.
  - intros s Hs. destruct (Hp s Hs). auto.
  - destruct Hp. auto.
  - destruct Hp. auto.
Qed.

End Respects.

Lemma respects_zoom {S T A} (get : S -> T) (set : T -> S -> S) (I : S -> Prop) (J : T -> Prop)
    G R O (p : prog T A) Q :
  (forall s, I s -> J (get s)) -> (forall t s, I s -> J t -> I (set t s)) ->
  respects J G R O p Q -> respects I G R O (zoom get set p) Q.
Proof.
  intros Hget Hset. induction p as [a|m|X f k IH|c k IH|o k IH]; simpl; auto.
  - intros Hp s Hs. destruct (Hp _ (Hget s Hs)) as [H1 H2]. destruct (f (get s)) as [x t].
    simpl in *. auto.
  - intros [? ?]. auto.
  - intros [? ?]. auto.
Qed.

(** ** Bounded numbers of requests

    No run of [p] sends more than [n] requests. *)
Fixpoint max_requests {S A} (n : nat) (p : prog S A) : Prop :=
  match p with
  | Ret _ | Panic _ => True
  | Atomic f k => forall s, max_requests n (k (f s).1)
  | Await c k => match n with O => False | Datatypes.S n => forall r, max_requests n (k r) end
  | Emit _ k => max_requests n k
  end.

Lemma max_requests_mono {S A} (p : prog S A) n m : (n <= m)%nat -> max_requests n p -> max_requests m p.
Proof.
  revert n m. induction p as [a|x|X f k IH|c k IH|o k IH]; simpl; intros n m Hle; auto.
  - intros Hp s. by eapply IH.
  - destruct n; [done|]. destruct m; [lia|]. intros Hp r. eapply IH; [|apply Hp]. lia.
  - by apply IH.
Qed.

Lemma max_requests_bind {S A B} (p : prog S A) (q : A -> prog S B) n m :
  max_requests n p -> (forall a, max_requests m (q a)) -> max_requests (n + m) (bind p q).
Proof.
  intros Hp Hq. revert n Hp. induction p as [a|x|X f k IH|c k IH|o k IH]; simpl; intros n Hp; auto.
  - eapply max_requests_mono; [|apply Hq]. lia.
  - destruct n; [done|]. simpl. auto.
Qed.

Lemma max_requests_join {S A B} (p : prog S A) (q : prog S B) sch n m :
  max_requests n p -> max_requests m q -> max_requests (n + m) (join p sch q).
Proof.
  revert sch q n m. induction p as [a|x|X f k IH|c k IH|o k IH]; intros sch q; revert sch;
    (induction q as [b|x'|X' f' k' IHq|c' k' IHq|o' k' IHq]; intros sch n m HP HQ).
  all: try (eapply (max_requests_mono _ (m + 0)); [lia|];
    apply (max_requests_bind _ (fun b => Ret (a, b)) m 0); [exact HQ|done]).
  all: try (eapply (max_requests_mono _ (n + 0)); [lia|];
    apply (max_requests_bind _ (fun a => Ret (a, b)) n 0); [exact HP|done]).
  all: destruct sch as [|[|] sch]; simpl; first
    [ done
    | intros s; by apply IH
    | intros s; by apply IHq
    | by apply IH
    | by apply IHq
    | destruct n; [done|]; simpl; intros r; by apply IH
    | destruct m as [|m]; [done|]; rewrite Nat.add_succ_r; intros r; apply IHq; [done|apply HQ] ].
Qed.

Lemma max_requests_zoom {S T A} (get : S -> T) (set : T -> S -> S) (p : prog T A) n :
  max_requests n p -> max_requests n (zoom get set p).
Proof.
  revert n. induction p as [a|x|X f k IH|c k IH|o k IH]; simpl; intros n Hp; auto.
  - intros s. specialize (Hp (get s)). destruct (f (get s)). simpl in *. auto.
  - destruct n; auto.
Qed.

(** The requests of a trace. *)
Definition is_await {S} (v : event S) : bool := match v with EvAwait _ _ => true | _ => false end.
Definition count_requests {S} (t : list (event S)) : nat :=
  length (filter (fun v => is_await v = true) t).

Lemma max_requests_every {S A} (p : prog S A) n :
  max_requests n p -> every p (fun t _ => (count_requests t <= n)%nat).
Proof.
  revert n. induction p as [a|x|X f k IH|c k IH|o k IH]; simpl; intros n Hp.
  - unfold count_requests. simpl. lia.
  - unfold count_requests. simpl. lia.
  - intros s. eapply every_mono; [|by apply IH, Hp]. intros t o. unfold count_requests.
    by rewrite filter_cons_False.
  - destruct n as [|n]; [done|]. intros r. eapply every_mono; [|by apply IH, Hp].
    intros t o. unfold count_requests. rewrite filter_cons_True by done. simpl. lia.
  - eapply every_mono; [|by apply IH, Hp]. intros t o'. unfold count_requests.
    by rewrite filter_cons_False.
Qed.

Lemma interleaving_Forall {X} (P : X -> Prop) a b c :
  interleaving a b c -> Forall P a -> Forall P b -> Forall P c.
Proof. induction 1; intros Ha Hb; [done|inversion Ha|inversion Hb]; subst; constructor; auto. Qed.

End Programs.

Arguments prog {Call} Reply Obs S A.
Arguments event {Call} Reply Obs S.
Arguments env {Call} Reply Obs S.
Arguments Ret {Call Reply Obs S A} a.
Arguments Panic {Call Reply Obs S A} msg.
Arguments Atomic {Call Reply Obs S A X} f k.
Arguments Await {Call Reply Obs S A} c k.
Arguments Emit {Call Reply Obs S A} o k.
Arguments EvAtomic {Call Reply Obs S} before after.
Arguments EvAwait {Call Reply Obs S} c r.
Arguments EvEmit {Call Reply Obs S} o.
Arguments respond {Call Reply Obs S}.
Arguments interfere {Call Reply Obs S}.

Declare Scope prog_scope.
Delimit Scope prog_scope with prog.

Notation "'let*' x ':=' p 'in' q" := (bind p (fun x => q))
  (at level 10, x pattern, p at level 100, q at level 200) : prog_scope.
Notation "p ';;' q" := (bind p (fun _ => q))
  (at level 100, q at level 200, right associativity) : prog_scope.

(** The [?] operator of an [async fn] that returns a result. *)
Notation "'let*?' x ':=' p 'in' q" :=
  (bind p (fun r => match r with Ok x => q | Err e => Ret (Err e) end))
  (at level 10, x name, p at level 100, q at level 200) : prog_scope.

(** Run the primitive steps of a program whose shape is known. *)
Ltac every_simpl := repeat (progress simpl || intro).
