(* ===== verification/Payload.v ===== *)
(** * Payloads

    The data of crates/rollup-boost-types: the Engine API payload envelopes
    ([payload.rs]) and the flashblock messages ([flashblocks.rs]), with the
    accessors and conversions of [payload.rs].

    The structs of the alloy crates that the sources build field by field
    ([ExecutionPayloadV1..V3], the [OpExecutionPayloadEnvelope]s,
    [PayloadAttributes], [OpPayloadAttributes], [ForkchoiceState],
    [ForkchoiceUpdated]) are records with those fields.  Everything of those
    crates that the sources only pass around or query through a method is a
    field of the class [EngineTypes]. *)
From S2P Require Import Prelude.

(** Fixed-width words as integers, byte strings as lists of integers. *)
Abbreviation B256 := Z (only parsing).
Abbreviation Address := Z (only parsing).
Abbreviation Bloom := Z (only parsing).
Abbreviation U256 := Z (only parsing).
Abbreviation PayloadId := Z (only parsing).
Abbreviation Bytes := (list Z) (only parsing).

(** What the program uses of the types it does not define. *)
Class EngineTypes := {
  Withdrawal : Set;
  BlobsBundleV1 : Set;
  BlobsBundleV1_default : BlobsBundleV1;
  (** [alloy_rpc_types_engine::PayloadStatus] *)
  PayloadStatus : Set;
  PayloadStatus_is_invalid : PayloadStatus -> bool;
  PayloadStatus_status_string : PayloadStatus -> string;
  (** [ForkchoiceUpdated::is_invalid], as a function of its two fields *)
  ForkchoiceUpdated_is_invalid : PayloadStatus -> option PayloadId -> bool;
  (** [alloy_rpc_types_eth::Block], of which only [header.timestamp] is read *)
  Block : Set;
  Block_timestamp : Block -> Z;
  (** [tracing::Id] *)
  SpanId : Set;
  (** [jsonrpsee::types::ErrorObjectOwned] *)
  ErrorObject : Set;
  ErrorObject_code : ErrorObject -> Z;
  ErrorObject_owned : Z -> string -> ErrorObject;
  ErrorObject_owned_code : forall c m, ErrorObject_code (ErrorObject_owned c m) = c;
  (** The variants of [jsonrpsee::core::client::Error] other than [Call] *)
  TransportError : Set;
  TransportError_string : TransportError -> string;
  IoError : Set;
  IoError_string : IoError -> string;
  JwtError : Set;
  JwtError_string : JwtError -> string;
  (** [serde_json::Value] *)
  JsonValue : Set
}.

Section Payload.
Context {ET : EngineTypes}.

(** ** Structs of the Engine API *)

Record ExecutionPayloadV1 : Set := {
  parent_hash : B256;
  fee_recipient : Address;
  state_root : B256;
  receipts_root : B256;
  logs_bloom : Bloom;
  prev_randao : B256;
  block_number : Z;
  gas_limit : Z;
  gas_used_v1 : Z;
  timestamp : Z;
  extra_data : Bytes;
  base_fee_per_gas : U256;
  block_hash : B256;
  transactions_v1 : list Bytes
}.

Record ExecutionPayloadV2 : Set := {
  payload_inner_v1 : ExecutionPayloadV1;
  withdrawals_v2 : list Withdrawal
}.

Record ExecutionPayloadV3 : Set := {
  payload_inner_v2 : ExecutionPayloadV2;
  blob_gas_used : Z;
  excess_blob_gas : Z
}.

Record OpExecutionPayloadV4 : Set := {
  payload_inner_v3 : ExecutionPayloadV3;
  withdrawals_root_v4 : B256
}.

Record OpExecutionPayloadEnvelopeV3 : Set := {
  execution_payload_v3 : ExecutionPayloadV3;
  block_value_v3 : U256;
  blobs_bundle_v3 : BlobsBundleV1;
  should_override_builder_v3 : bool;
  parent_beacon_block_root_v3 : B256
}.

Record OpExecutionPayloadEnvelopeV4 : Set := {
  execution_payload_v4 : OpExecutionPayloadV4;
  block_value_v4 : U256;
  blobs_bundle_v4 : BlobsBundleV1;
  should_override_builder_v4 : bool;
  parent_beacon_block_root_v4 : B256;
  execution_requests_v4 : list Bytes
}.

Record PayloadAttributes : Set := {
  pa_timestamp : Z;
  pa_prev_randao : B256;
  pa_suggested_fee_recipient : Address;
  pa_withdrawals : option (list Withdrawal);
  pa_parent_beacon_block_root : option B256
}.

Record OpPayloadAttributes : Set := {
  payload_attributes_of : PayloadAttributes;
  oa_transactions : option (list Bytes);
  no_tx_pool : option bool;
  oa_gas_limit : option Z;
  eip_1559_params : option Z;
  min_base_fee : option Z
}.

Record ForkchoiceState : Set := {
  head_block_hash : B256;
  safe_block_hash : B256;
  finalized_block_hash : B256
}.

Record ForkchoiceUpdated : Set := {
  payload_status : PayloadStatus;
  payload_id : option PayloadId
}.

(** [alloy_rpc_types_engine::ExecutionPayload]; the program builds only its V3. *)
Inductive ExecutionPayload : Set :=
| EP_V3 (p : ExecutionPayloadV3).

Definition as_v1 (p : ExecutionPayload) : ExecutionPayloadV1 :=
  match p with EP_V3 p => payload_inner_v1 (payload_inner_v2 p) end.

(** ** payload.rs: envelopes *)

Inductive PayloadVersion : Set := V3 | V4.

Inductive PayloadSource : Set := L2 | Builder.

Inductive OpExecutionPayloadEnvelope : Set :=
| EnvelopeV3 (p : OpExecutionPayloadEnvelopeV3)
| EnvelopeV4 (p : OpExecutionPayloadEnvelopeV4).

#[global] Instance PayloadVersion_eq_dec : EqDecision PayloadVersion.
Proof. solve_decision. Defined.
#[global] Instance PayloadSource_eq_dec : EqDecision PayloadSource.
Proof. solve_decision. Defined.

Definition as_str (v : PayloadVersion) : string :=
  match v with V3 => "v3" | V4 => "v4" end.

Definition PayloadSource_to_string (s : PayloadSource) : string :=
  match s with L2 => "l2" | Builder => "builder" end.

Definition is_builder (s : PayloadSource) : bool :=
  match s with Builder => true | _ => false end.

Definition is_l2 (s : PayloadSource) : bool :=
  match s with L2 => true | _ => false end.

Definition version (e : OpExecutionPayloadEnvelope) : PayloadVersion :=
  match e with EnvelopeV3 _ => V3 | EnvelopeV4 _ => V4 end.

Definition gas_used (e : OpExecutionPayloadEnvelope) : Z :=
  match e with
  | EnvelopeV3 p => gas_used_v1 (payload_inner_v1 (payload_inner_v2 (execution_payload_v3 p)))
  | EnvelopeV4 p =>
      gas_used_v1 (payload_inner_v1 (payload_inner_v2 (payload_inner_v3 (execution_payload_v4 p))))
  end.

Definition transactions (e : OpExecutionPayloadEnvelope) : list Bytes :=
  match e with
  | EnvelopeV3 p => transactions_v1 (payload_inner_v1 (payload_inner_v2 (execution_payload_v3 p)))
  | EnvelopeV4 p =>
      transactions_v1 (payload_inner_v1 (payload_inner_v2 (payload_inner_v3 (execution_payload_v4 p))))
  end.

Definition tx_count (e : OpExecutionPayloadEnvelope) : Z :=
  match e with
  | EnvelopeV3 p =>
      Z.of_nat (length (transactions_v1 (payload_inner_v1 (payload_inner_v2 (execution_payload_v3 p)))))
  | EnvelopeV4 p =>
      Z.of_nat (length (transactions_v1
        (payload_inner_v1 (payload_inner_v2 (payload_inner_v3 (execution_payload_v4 p))))))
  end.

Definition payload_attributes (e : OpExecutionPayloadEnvelope) : PayloadAttributes :=
  match e with
  | EnvelopeV3 p =>
      let v2 := payload_inner_v2 (execution_payload_v3 p) in
      {| pa_timestamp := timestamp (payload_inner_v1 v2);
         pa_prev_randao := prev_randao (payload_inner_v1 v2);
         pa_suggested_fee_recipient := fee_recipient (payload_inner_v1 v2);
         pa_withdrawals := Some (withdrawals_v2 v2);
         pa_parent_beacon_block_root := Some (parent_beacon_block_root_v3 p) |}
  | EnvelopeV4 p =>
      let v2 := payload_inner_v2 (payload_inner_v3 (execution_payload_v4 p)) in
      {| pa_timestamp := timestamp (payload_inner_v1 v2);
         pa_prev_randao := prev_randao (payload_inner_v1 v2);
         pa_suggested_fee_recipient := fee_recipient (payload_inner_v1 v2);
         pa_withdrawals := Some (withdrawals_v2 v2);
         pa_parent_beacon_block_root := Some (parent_beacon_block_root_v4 p) |}
  end.

(** [From<OpExecutionPayloadEnvelope> for ExecutionPayload] *)
Definition ExecutionPayload_from_envelope (e : OpExecutionPayloadEnvelope) : ExecutionPayload :=
  match e with
  | EnvelopeV3 v3 => EP_V3 (execution_payload_v3 v3)
  | EnvelopeV4 v4 => EP_V3 (payload_inner_v3 (execution_payload_v4 v4))
  end.

(** ** payload.rs: newPayload requests *)

Record NewPayloadV3 : Set := {
  np3_payload : ExecutionPayloadV3;
  np3_versioned_hashes : list B256;
  np3_parent_beacon_block_root : B256
}.

Record NewPayloadV4 : Set := {
  np4_payload : OpExecutionPayloadV4;
  np4_versioned_hashes : list B256;
  np4_parent_beacon_block_root : B256;
  np4_execution_requests : list Bytes
}.

Inductive NewPayload : Set :=
| NP_V3 (p : NewPayloadV3)
| NP_V4 (p : NewPayloadV4).

Definition NewPayload_version (n : NewPayload) : PayloadVersion :=
  match n with NP_V3 _ => V3 | NP_V4 _ => V4 end.

(** [From<OpExecutionPayloadEnvelope> for NewPayload] *)
Definition NewPayload_from_envelope (e : OpExecutionPayloadEnvelope) : NewPayload :=
  match e with
  | EnvelopeV3 v3 =>
      NP_V3 {| np3_payload := execution_payload_v3 v3;
               np3_versioned_hashes := [];
               np3_parent_beacon_block_root := parent_beacon_block_root_v3 v3 |}
  | EnvelopeV4 v4 =>
      NP_V4 {| np4_payload := execution_payload_v4 v4;
               np4_versioned_hashes := [];
               np4_parent_beacon_block_root := parent_beacon_block_root_v4 v4;
               np4_execution_requests := execution_requests_v4 v4 |}
  end.

(** [From<NewPayload> for ExecutionPayload] *)
Definition ExecutionPayload_from_new_payload (n : NewPayload) : ExecutionPayload :=
  match n with
  | NP_V3 v3 => EP_V3 (np3_payload v3)
  | NP_V4 v4 => EP_V3 (payload_inner_v3 (np4_payload v4))
  end.

(** ** flashblocks.rs *)

Record ExecutionPayloadFlashblockDeltaV1 : Set := {
  d_state_root : B256;
  d_receipts_root : B256;
  d_logs_bloom : Bloom;
  d_gas_used : Z;
  d_block_hash : B256;
  d_transactions : list Bytes;
  d_withdrawals : list Withdrawal;
  d_withdrawals_root : B256;
  d_blob_gas_used : option Z
}.

Record ExecutionPayloadBaseV1 : Set := {
  b_parent_beacon_block_root : B256;
  b_parent_hash : B256;
  b_fee_recipient : Address;
  b_prev_randao : B256;
  b_block_number : Z;
  b_gas_limit : Z;
  b_timestamp : Z;
  b_extra_data : Bytes;
  b_base_fee_per_gas : U256
}.

Record FlashblocksPayloadV1 : Set := {
  fb_payload_id : PayloadId;
  fb_index : Z;
  fb_base : option ExecutionPayloadBaseV1;
  fb_diff : ExecutionPayloadFlashblockDeltaV1;
  fb_metadata : JsonValue
}.

(** ** Conversions agree *)

Lemma new_payload_same_execution_payload e :
  ExecutionPayload_from_new_payload (NewPayload_from_envelope e) =
  ExecutionPayload_from_envelope e.
Proof. by destruct e. Qed.

Lemma new_payload_same_version e : NewPayload_version (NewPayload_from_envelope e) = version e.
Proof. by destruct e. Qed.

Lemma accessors_read_the_execution_payload e :
  gas_used e = gas_used_v1 (as_v1 (ExecutionPayload_from_envelope e)) /\
  transactions e = transactions_v1 (as_v1 (ExecutionPayload_from_envelope e)) /\
  tx_count e = Z.of_nat (length (transactions e)).
Proof. by destruct e. Qed.

End Payload.

(** ** A concrete instance

    Used by the examples: the opaque types are small concrete ones. *)
Module Demo.

#[export] Instance types : EngineTypes := {|
  Withdrawal := Z;
  BlobsBundleV1 := unit;
  BlobsBundleV1_default := tt;
  PayloadStatus := bool;
  PayloadStatus_is_invalid := negb;
  PayloadStatus_status_string := fun b => if b then "VALID" else "INVALID";
  ForkchoiceUpdated_is_invalid := fun b _ => negb b;
  Block := Z;
  Block_timestamp := id;
  SpanId := Z;
  ErrorObject := Z * string;
  ErrorObject_code := fst;
  ErrorObject_owned := pair;
  ErrorObject_owned_code := fun _ _ => eq_refl;
  TransportError := string;
  TransportError_string := id;
  IoError := string;
  IoError_string := id;
  JwtError := string;
  JwtError_string := id;
  JsonValue := Z
|}.

Definition v1 (gas hash parent : Z) (txs : list (list Z)) : ExecutionPayloadV1 :=
  {| parent_hash := parent; fee_recipient := 7; state_root := 8; receipts_root := 9;
     logs_bloom := 0; prev_randao := 3; block_number := 42; gas_limit := 30000000;
     gas_used_v1 := gas; timestamp := 1700000000; extra_data := []; base_fee_per_gas := 7;
     block_hash := hash; transactions_v1 := txs |}.

Definition v3 (gas hash parent : Z) (txs : list (list Z)) : ExecutionPayloadV3 :=
  {| payload_inner_v2 := {| payload_inner_v1 := v1 gas hash parent txs; withdrawals_v2 := [] |};
     blob_gas_used := 0; excess_blob_gas := 0 |}.

Definition envelope (gas hash : Z) (txs : list (list Z)) : OpExecutionPayloadEnvelope :=
  EnvelopeV3 {| execution_payload_v3 := v3 gas hash 100 txs; block_value_v3 := 0;
                blobs_bundle_v3 := tt; should_override_builder_v3 := false;
                parent_beacon_block_root_v3 := 5 |}.

Definition attributes (no_pool : option bool) : OpPayloadAttributes :=
  {| payload_attributes_of :=
       {| pa_timestamp := 1700000000; pa_prev_randao := 3; pa_suggested_fee_recipient := 7;
          pa_withdrawals := Some []; pa_parent_beacon_block_root := Some 5%Z |};
     oa_transactions := None; no_tx_pool := no_pool; oa_gas_limit := Some 30000000%Z;
     eip_1559_params := None; min_base_fee := None |}.

Definition forkchoice : ForkchoiceState :=
  {| head_block_hash := 100; safe_block_hash := 99; finalized_block_hash := 98 |}.

End Demo.
