(* ===== verification/F64.v ===== *)
(** * Non-negative [f64] arithmetic

    The part of IEEE-754 binary64 that the sources use: conversion of a [u64],
    multiplication and comparison of non-negative finite numbers.  A number is a
    dyadic [mant * 2 ^ expo]; [round_ne] rounds to 53 significant bits, to
    nearest with ties to even.  Products of a converted [u64] and a constant near
    1 stay far from the overflow and subnormal ranges, so neither occurs. *)
From S2P Require Import Prelude.
From Stdlib Require Import SpecFloat.

Local Open Scope Z_scope.

Record f64 : Set := F64 { mant : Z; expo : Z }.

Definition round_ne (m e : Z) : f64 :=
  let s := Z.log2 m + 1 - 53 in
  if s <=? 0 then F64 m e
  else
    let q := m / 2 ^ s in
    let r := m mod 2 ^ s in
    let half := 2 ^ (s - 1) in
    let q' := if (half <? r) || ((r =? half) && Z.odd q) then q + 1 else q in
    F64 q' (e + s).

(** [n as f64] for an unsigned integer. *)
Definition f64_of_u64 (n : Z) : f64 := round_ne n 0.

Definition f64_mul (x y : f64) : f64 := round_ne (mant x * mant y) (expo x + expo y).

Definition f64_ltb (x y : f64) : bool :=
  if expo x <=? expo y then mant x <? mant y * 2 ^ (expo y - expo x)
  else mant x * 2 ^ (expo x - expo y) <? mant y.

(** The literal [0.1]: 0x3FB999999999999A. *)
Definition f64_tenth : f64 := F64 7205759403792794 (-56).

(** ** Agreement with the Standard Library's executable IEEE-754 *)

Definition sf_of_Z (n : Z) : spec_float := binary_normalize 53 1024 n 0 false.
Definition sf_tenth : spec_float := S754_finite false 7205759403792794 (-56).
Definition sf_lt_tenth (b l : Z) : bool :=
  SFltb (sf_of_Z b) (SFmul 53 1024 (sf_of_Z l) sf_tenth).

Definition lt_tenth (b l : Z) : bool :=
  f64_ltb (f64_of_u64 b) (f64_mul (f64_of_u64 l) f64_tenth).

Definition sample : list Z :=
  [0; 1; 2; 9; 10; 11; 99; 100; 101; 30000000; 300000000; 299999999; 300000001;
   2 ^ 49 - 1; 2 ^ 53 - 1; 2 ^ 53; 2 ^ 53 + 1; 2 ^ 53 + 3; 922337203685477580;
   922337203685477581; 922337203685477632; 2 ^ 63; 2 ^ 64 - 1; 1844674407370955161;
   1844674407370955162; 1844674407370955264].

Example f64_agrees_with_SpecFloat :
  forallb (fun b => forallb (fun l => Bool.eqb (lt_tenth b l) (sf_lt_tenth b l)) sample) sample = true.
Proof. vm_compute. reflexivity. Qed.

(** ** Rounding *)

Lemma round_ne_exact m e : 0 <= m < 2 ^ 53 -> round_ne m e = F64 m e.
Proof.
  intros H. unfold round_ne.
  destruct (Z.leb_spec (Z.log2 m + 1 - 53) 0) as [|Hgt]; [done|].
  destruct (Z.eq_dec m 0) as [->|]; [simpl in Hgt; lia|].
  assert (Z.log2 m < 53) by (apply Z.log2_lt_pow2; lia). lia.
Qed.

(** The rounded value is within half a unit in the last place. *)
Lemma round_ne_half_ulp m e (s := Z.log2 m + 1 - 53) :
  0 < s ->
  exists q, round_ne m e = F64 q (e + s) /\ - 2 ^ s <= 2 * (q * 2 ^ s - m) <= 2 ^ s.
Proof.
  intros Hs. unfold round_ne. fold s.
  destruct (Z.leb_spec s 0); [lia|]. eexists; split; [reflexivity|].
  assert (Hp : 2 ^ s = 2 * 2 ^ (s - 1)) by (rewrite <- Z.pow_succ_r by lia; f_equal; lia).
  assert (0 < 2 ^ (s - 1)) by (apply Z.pow_pos_nonneg; lia).
  pose proof (Z.div_mod m (2 ^ s) ltac:(lia)) as Hdm.
  pose proof (Z.mod_pos_bound m (2 ^ s) ltac:(lia)) as Hr.
  set (q := m / 2 ^ s) in *. set (r := m mod 2 ^ s) in *. rewrite Hp in *.
  set (h := 2 ^ (s - 1)) in *.
  destruct (Z.ltb_spec h r); simpl; [nia|].
  destruct (Z.eqb_spec r h); simpl; [destruct (Z.odd q); nia|nia].
Qed.

Lemma f64_of_u64_exact n : 0 <= n < 2 ^ 53 -> f64_of_u64 n = F64 n 0.
Proof. apply round_ne_exact. Qed.

(** Comparison of an integer with a product that needs rounding. *)
Lemma ltb_int_rounded b q e :
  e < 0 -> f64_ltb (F64 b 0) (F64 q e) = (b * 2 ^ (- e) <? q).
Proof.
  intros He. unfold f64_ltb. simpl.
  destruct (Z.leb_spec 0 e); [lia|]. by rewrite Z.sub_0_l.
Qed.

(** The product that gets rounded has at least 53 significant bits. *)
Lemma product_bits l :
  0 < l < 2 ^ 53 -> 0 < Z.log2 (l * 7205759403792794) + 1 - 53 <= 53 \/ l * 7205759403792794 < 2 ^ 53.
Proof.
  intros H. destruct (Z_lt_le_dec (l * 7205759403792794) (2 ^ 53)); [by right|left].
  assert (53 <= Z.log2 (l * 7205759403792794)).
  { apply Z.log2_le_pow2; lia. }
  assert (Z.log2 (l * 7205759403792794) < 106).
  { apply Z.log2_lt_pow2; [lia|]. change (2 ^ 106) with (2 ^ 53 * 2 ^ 53). nia. }
  lia.
Qed.

(** When [l] is ten times [b], the error of the literal [0.1] is below half a
    unit in the last place. *)
Lemma tenfold_error b :
  0 < b -> 8 * b < 2 ^ (Z.log2 (10 * b * 7205759403792794) + 1 - 53).
Proof.
  intros Hb.
  assert (Hlog : Z.log2 b + 56 <= Z.log2 (10 * b * 7205759403792794)).
  { apply Z.log2_le_pow2; [lia|]. rewrite Z.pow_add_r; try lia; [|apply Z.log2_nonneg].
    pose proof (Z.log2_spec b Hb). change (2 ^ 56) with 72057594037927936. lia. }
  pose proof (Z.log2_spec b Hb) as [_ Hup]. pose proof (Z.log2_nonneg b).
  apply Z.lt_le_trans with (2 ^ (Z.log2 b + 4)).
  - replace (Z.log2 b + 4) with (3 + Z.succ (Z.log2 b)) by lia.
    rewrite Z.pow_add_r by lia. change (2 ^ 3) with 8. lia.
  - apply Z.pow_le_mono_r; lia.
Qed.

(** The rounded product [q * p / 2 ^ 56], with [p] the weight of its last bit. *)
Lemma rounded_product_compare b l q p w :
  0 <= b < 2 ^ 53 -> 0 < l < 2 ^ 53 -> 0 < p <= 2 ^ 53 -> w * p = 2 ^ 56 ->
  (l = 10 * b -> 8 * b < p) ->
  - p <= 2 * (q * p - l * 7205759403792794) <= p ->
  (b * w <? q) = (10 * b <? l).
Proof.
  change (2 ^ 56) with 72057594037927936. change (2 ^ 53) with 9007199254740992.
  intros Hb Hl Hp Hw Hten Hq.
  destruct (Z.ltb_spec (10 * b) l); [apply Z.ltb_lt|apply Z.ltb_ge].
  - assert (b * w * p < q * p) by nia. nia.
  - assert (q * p < (b * w + 1) * p); [|nia].
    destruct (Z.eq_dec l (10 * b)) as [->|]; [specialize (Hten eq_refl)|]; nia.
Qed.

(** For integers below [2 ^ 53] the floating-point test [b < l * 0.1] is the
    exact comparison [10 * b < l]. *)
Lemma lt_tenth_exact b l :
  0 <= b < 2 ^ 53 -> 0 <= l < 2 ^ 53 -> lt_tenth b l = (10 * b <? l).
Proof.
  intros Hb Hl. unfold lt_tenth, f64_mul. rewrite !f64_of_u64_exact by done.
  unfold f64_tenth. simpl mant. simpl expo.
  destruct (Z.eq_dec l 0) as [->|Hl0].
  { rewrite round_ne_exact by lia. rewrite ltb_int_rounded by lia.
    transitivity false; [apply Z.ltb_ge|symmetry; apply Z.ltb_ge]; lia. }
  destruct (product_bits l) as [Hs|Hsmall]; [lia| |].
  - destruct (round_ne_half_ulp (l * 7205759403792794) (0 + -56)) as (q & -> & Hq); [lia|].
    set (s := Z.log2 (l * 7205759403792794) + 1 - 53) in *.
    rewrite ltb_int_rounded by lia.
    apply rounded_product_compare with (p := 2 ^ s); try lia.
    + split; [apply Z.pow_pos_nonneg; lia|apply Z.pow_le_mono_r; lia].
    + rewrite <- Z.pow_add_r by lia. f_equal; lia.
    + intros ->. apply tenfold_error; lia.
  - rewrite round_ne_exact by lia. rewrite ltb_int_rounded by lia.
    change (- (0 + -56)) with 56. change (2 ^ 56) with 72057594037927936.
    apply eq_true_iff_eq. rewrite !Z.ltb_lt. lia.
Qed.
