(* ===== verification/Selection.v ===== *)
(** * Block selection policy

    crates/rollup-boost/src/selection.rs. *)
From S2P Require Import Prelude F64 Payload.

Local Open Scope Z_scope.

Inductive BlockSelectionPolicy : Set := GasUsed.

Section Selection.
Context {ET : EngineTypes}.

Definition select_block (policy : BlockSelectionPolicy)
    (builder_payload l2_payload : OpExecutionPayloadEnvelope)
  : OpExecutionPayloadEnvelope * PayloadSource :=
  match policy with
  | GasUsed =>
      let builder_gas := f64_of_u64 (gas_used builder_payload) in
      let l2_gas := f64_of_u64 (gas_used l2_payload) in
      if f64_ltb builder_gas (f64_mul l2_gas f64_tenth)
      then (l2_payload, L2)
      else (builder_payload, Builder)
  end.

(** The source that is reported is the source of the block that is selected. *)
Lemma select_block_source policy b l :
  select_block policy b l = (l, L2) \/ select_block policy b l = (b, Builder).
Proof. destruct policy; simpl. case_match; auto. Qed.

(** C18: the policy selects the L2 block exactly when the builder block uses less
    than a tenth of its gas, for every gas amount below [2 ^ 53]: the rounding of
    the floating-point test never changes the decision, in particular not at the
    boundary of exactly 10%. *)
Theorem select_block_ten_percent (b l : OpExecutionPayloadEnvelope) :
  0 <= gas_used b < 2 ^ 53 -> 0 <= gas_used l < 2 ^ 53 ->
  select_block GasUsed b l =
    if 10 * gas_used b <? gas_used l then (l, L2) else (b, Builder).
Proof.
  intros Hb Hl. unfold select_block.
  change (f64_ltb _ _) with (lt_tenth (gas_used b) (gas_used l)).
  by rewrite lt_tenth_exact.
Qed.

End Selection.

Lemma select_block_ten_percent_witness :
  select_block GasUsed (Demo.envelope 2100 1 []) (Demo.envelope 21000 2 []) =
    (Demo.envelope 2100 1 [], Builder) /\
  select_block GasUsed (Demo.envelope 2099 1 []) (Demo.envelope 21000 2 []) =
    (Demo.envelope 21000 2 [], L2).
Proof.
  split; (etrans; [apply select_block_ten_percent; by vm_compute|reflexivity]).
Defined.
