(* ===== verification/Probe.v ===== *)
(** * Health probes

    crates/rollup-boost/src/probe.rs: the health status that the server and the
    health checker share, and the HTTP layer that answers the probe paths. *)
From S2P Require Import Prelude.

Inductive Health : Set := Healthy | PartialContent | ServiceUnavailable.

#[global] Instance Health_eq_dec : EqDecision Health.
Proof. solve_decision. Defined.

Definition Health_default : Health := Healthy.

Record Probes : Set := { health_of : Health }.

Definition Probes_default : Probes := {| health_of := Health_default |}.

Definition set_health (value : Health) (p : Probes) : Probes := {| health_of := value |}.

Definition health (p : Probes) : Health := health_of p.

(** An HTTP response as the probes build it: status and body. *)
Record Response : Set := { status : Z; body : string }.

Definition ok : Response := {| status := 200; body := "OK" |}.
Definition partial_content : Response := {| status := 206; body := "Partial Content" |}.
Definition service_unavailable : Response :=
  {| status := 503; body := "Service Unavailable" |}.

(** [From<Health> for Response] *)
Definition Response_from_health (h : Health) : Response :=
  match h with
  | Healthy => ok
  | PartialContent => partial_content
  | ServiceUnavailable => service_unavailable
  end.

(** [ProbeService::call]: the paths it answers itself; [None] hands the request
    to the inner service. *)
Definition probe_call (probes : Probes) (path : string) : option Response :=
  if String.eqb path "/healthz" then Some (Response_from_health (health probes))
  else if String.eqb path "/readyz" then Some ok
  else if String.eqb path "/livez" then Some ok
  else None.

(** [/healthz] reports the current health, distinct statuses for distinct
    healths; [/readyz] and [/livez] answer 200 whatever the health; every other
    path reaches the inner service. *)
Theorem probe_call_spec (probes : Probes) (path : string) :
  (path = "/healthz" ->
     exists r, probe_call probes path = Some r /\
       (status r = 200 <-> health probes = Healthy) /\
       (status r = 206 <-> health probes = PartialContent) /\
       (status r = 503 <-> health probes = ServiceUnavailable))%Z /\
  (path = "/readyz" \/ path = "/livez" -> probe_call probes path = Some ok) /\
  (path <> "/healthz" -> path <> "/readyz" -> path <> "/livez" ->
     probe_call probes path = None).
Proof.
  unfold probe_call. split_and!.
  - intros ->. simpl. eexists; split; [done|].
    destruct (health probes); simpl; split_and!; split; done.
  - by intros [->| ->].
  - intros H1 H2 H3. by rewrite !(proj2 (String.eqb_neq _ _)).
Qed.
