(* ===== verification/DebugApi.v ===== *)
(** * Execution mode and the debug API

    crates/rollup-boost/src/debug_api.rs: the execution mode shared by the RPC
    server, the health checker and the debug server, the two methods of the debug
    server, and the client that calls them. *)
From S2P Require Import Prelude F64.

Inductive ExecutionMode : Set := Enabled | DryRun | Disabled.

#[global] Instance ExecutionMode_eq_dec : EqDecision ExecutionMode.
Proof. solve_decision. Defined.

Definition is_dry_run (m : ExecutionMode) : bool :=
  match m with DryRun => true | _ => false end.
Definition is_disabled (m : ExecutionMode) : bool :=
  match m with Disabled => true | _ => false end.
Definition is_enabled (m : ExecutionMode) : bool :=
  match m with Enabled => true | _ => false end.

Definition to_metric_value (m : ExecutionMode) : f64 :=
  match m with Enabled => F64 3 0 | DryRun => F64 2 0 | Disabled => F64 1 0 end.

(** The state of a debug server: the shared mode and the gauge it maintains. *)
Record DebugServer : Set := {
  execution_mode_cell : ExecutionMode;
  execution_mode_gauge : option f64
}.

(** [update_execution_mode_gauge] of metrics.rs: from the value of the process-wide
    gauge ([None] before it is first set) to its new value. *)
Definition update_execution_mode_gauge (m : ExecutionMode) (gauge : option f64) : option f64 :=
  Some (to_metric_value m).

Definition DebugServer_execution_mode (s : DebugServer) : ExecutionMode :=
  execution_mode_cell s.

(** [DebugServer::set_execution_mode]. *)
Definition DebugServer_set_execution_mode (m : ExecutionMode) (s : DebugServer) : DebugServer :=
  {| execution_mode_cell := m;
     execution_mode_gauge := update_execution_mode_gauge m (execution_mode_gauge s) |}.

(** [DebugServer::run] binds its address, which may fail, and registers the gauge
    before it starts to serve. *)
Definition DebugServer_run {E} (bound : result unit E) (s : DebugServer)
  : result unit E * DebugServer :=
  match bound with
  | Err e => (Err e, s)
  | Ok _ =>
      let current_mode := DebugServer_execution_mode s in
      (Ok tt,
       {| execution_mode_cell := execution_mode_cell s;
          execution_mode_gauge :=
            update_execution_mode_gauge current_mode (execution_mode_gauge s) |})
  end.

(** The RPC methods: request, response and new state. *)
Definition debug_setExecutionMode (request : ExecutionMode) (s : DebugServer)
  : ExecutionMode * DebugServer :=
  (request, DebugServer_set_execution_mode request s).

Definition debug_getExecutionMode (s : DebugServer) : ExecutionMode :=
  DebugServer_execution_mode s.

Inductive debug_request : Set :=
| SetExecutionMode (m : ExecutionMode)
| GetExecutionMode.

Definition debug_step (s : DebugServer) (r : debug_request) : DebugServer :=
  match r with
  | SetExecutionMode m => (debug_setExecutionMode m s).2
  | GetExecutionMode => s
  end.

Definition last_set (m : ExecutionMode) (rs : list debug_request) : ExecutionMode :=
  fold_left (fun m r => match r with SetExecutionMode m' => m' | _ => m end) rs m.

(** After any sequence of debug requests to a server that started, the mode that
    [getExecutionMode] returns is the last one set, and the gauge shows the
    current mode. *)
Theorem debug_sequence {E} (s : DebugServer) (rs : list debug_request) :
  let s' := fold_left debug_step rs (DebugServer_run (E := E) (Ok tt) s).2 in
  debug_getExecutionMode s' = last_set (execution_mode_cell s) rs /\
  execution_mode_gauge s' = Some (to_metric_value (debug_getExecutionMode s')).
Proof.
  cbn zeta. unfold DebugServer_run. cbn [snd].
  assert (H : forall s', execution_mode_gauge s' = Some (to_metric_value (execution_mode_cell s')) ->
    execution_mode_cell (fold_left debug_step rs s') = last_set (execution_mode_cell s') rs /\
    execution_mode_gauge (fold_left debug_step rs s') =
      Some (to_metric_value (execution_mode_cell (fold_left debug_step rs s')))).
  { induction rs as [|r rs IH]; intros s' Hg; [done|]. simpl.
    destruct r as [m|]; [by apply IH|by apply IH]. }
  exact (H {| execution_mode_cell := _; execution_mode_gauge := _ |} eq_refl).
Qed.

(** ** Names of the modes *)

(** The serde names (snake case), which travel in requests and responses. *)
Definition ExecutionMode_to_json (m : ExecutionMode) : string :=
  match m with Enabled => "enabled" | DryRun => "dry_run" | Disabled => "disabled" end.

Definition ExecutionMode_from_json (s : string) : option ExecutionMode :=
  if String.eqb s "enabled" then Some Enabled
  else if String.eqb s "dry_run" then Some DryRun
  else if String.eqb s "disabled" then Some Disabled
  else None.

(** The names on the command line (kebab case, [clap::ValueEnum]). *)
Definition ExecutionMode_from_arg (s : string) : option ExecutionMode :=
  if String.eqb s "enabled" then Some Enabled
  else if String.eqb s "dry-run" then Some DryRun
  else if String.eqb s "disabled" then Some Disabled
  else None.

(** ** The client *)

(** What happens to a call: it reaches the server and its answer comes back, it
    does not reach the server, or only the answer is lost. *)
Inductive fate (E : Type) : Type := Delivered | RequestLost (e : E) | ReplyLost (e : E).
Arguments Delivered {E}.
Arguments RequestLost {E} e.
Arguments ReplyLost {E} e.

Section DebugClient.
Context {E : Type} (invalid_params : string -> E) (invalid_reply : string -> E).

(** [DebugClient::new]: the client, or the error of an invalid URL. *)
Definition DebugClient_new (build : string -> result unit E) (url : string) : result string E :=
  match build url with Ok _ => Ok url | Err e => Err e end.

(** The server side of one call: decode the parameter, run the method, encode the
    response. *)
Definition serve_debug (r : debug_request) (s : DebugServer) : result string E * DebugServer :=
  match r with
  | SetExecutionMode m =>
      let text := ExecutionMode_to_json m in
      match ExecutionMode_from_json text with
      | Some m =>
          let '(response, s) := debug_setExecutionMode m s in
          (Ok (ExecutionMode_to_json response), s)
      | None => (Err (invalid_params text), s)
      end
  | GetExecutionMode => (Ok (ExecutionMode_to_json (debug_getExecutionMode s)), s)
  end.

(** [DebugClient::set_execution_mode] and [DebugClient::get_execution_mode]. *)
Definition debug_call (f : fate E) (r : debug_request) (s : DebugServer)
  : result ExecutionMode E * DebugServer :=
  match f with
  | RequestLost e => (Err e, s)
  | ReplyLost e => (Err e, (serve_debug r s).2)
  | Delivered =>
      match serve_debug r s with
      | (Ok text, s) =>
          (match ExecutionMode_from_json text with
           | Some m => Ok m
           | None => Err (invalid_reply text)
           end, s)
      | (Err e, s) => (Err e, s)
      end
  end.

Definition DebugClient_set_execution_mode (f : fate E) (m : ExecutionMode) :=
  debug_call f (SetExecutionMode m).
Definition DebugClient_get_execution_mode (f : fate E) := debug_call f GetExecutionMode.

(** The requests of [calls] that reached the server. *)
Definition reached (calls : list (fate E * debug_request)) : list debug_request :=
  omap (fun c => match c.1 with RequestLost _ => None | _ => Some c.2 end) calls.

Fixpoint debug_calls (calls : list (fate E * debug_request)) (s : DebugServer)
  : list (result ExecutionMode E) * DebugServer :=
  match calls with
  | [] => ([], s)
  | (f, r) :: calls =>
      let '(x, s) := debug_call f r s in
      let '(xs, s) := debug_calls calls s in (x :: xs, s)
  end.

Lemma mode_json_roundtrip m : ExecutionMode_from_json (ExecutionMode_to_json m) = Some m.
Proof. by destruct m. Qed.

Lemma debug_call_step f r s :
  (debug_call f r s).2 = match f with RequestLost _ => s | _ => debug_step s r end.
Proof. by destruct f, r as [[]|], s as [[] ?]. Qed.

Lemma debug_calls_state calls s :
  (debug_calls calls s).2 = fold_left debug_step (reached calls) s.
Proof.
  revert s. induction calls as [|[f r] calls IH]; intros s; [done|]. simpl.
  pose proof (debug_call_step f r s) as H. destruct (debug_call f r s) as [x s'].
  specialize (IH s'). destruct (debug_calls calls s') as [xs s'']. simpl in *. subst.
  by destruct f.
Qed.

(** A client over an unreliable connection: after any calls, a delivered
    [get_execution_mode] returns the last mode whose request reached the server,
    also when the answer to that request was lost; and the gauge shows it. *)
Theorem debug_client_reads_last (s : DebugServer) (calls : list (fate E * debug_request)) :
  let s' := (debug_calls calls (DebugServer_run (E := E) (Ok tt) s).2).2 in
  (DebugClient_get_execution_mode Delivered s').1 =
    Ok (last_set (execution_mode_cell s) (reached calls)) /\
  execution_mode_gauge s' =
    Some (to_metric_value (last_set (execution_mode_cell s) (reached calls))).
Proof.
  cbn zeta. destruct (debug_sequence (E := E) s (reached calls)) as [H1 H2].
  rewrite debug_calls_state. rewrite H1 in H2. split; [|exact H2]. clear H2.
  set (s' := fold_left _ _ _) in *. clearbody s'. unfold DebugClient_get_execution_mode.
  cbn. by rewrite mode_json_roundtrip, H1.
Qed.

End DebugClient.

(** [test_debug_client] of debug_api.rs. *)
Definition test_debug_client : list (result ExecutionMode string) :=
  let server := {| execution_mode_cell := Enabled; execution_mode_gauge := None |} in
  let server := (DebugServer_run (E := string) (Ok tt) server).2 in
  (debug_calls (fun s => s) (fun s => s)
    [(Delivered, SetExecutionMode Disabled); (Delivered, GetExecutionMode);
     (Delivered, SetExecutionMode Enabled); (Delivered, GetExecutionMode)] server).1.

Example test_debug_client_passes :
  test_debug_client = [Ok Disabled; Ok Disabled; Ok Enabled; Ok Enabled].
Proof. reflexivity. Qed.
