(* ===== verification/PayloadTrace.v ===== *)
(** * Payload trace context

    [PayloadTraceContext] of crates/rollup-boost-types/src/payload.rs: which
    payload ids the builder is building, and which ids were started on a given
    parent block.  Each cache operation is one critical section.  The caches
    are bounded: an entry may disappear between any two of them, which in this
    development is one of the things other tasks may do to the state. *)
From S2P Require Import Prelude Async Payload.

Section PayloadTraceContext.
Context {ET : EngineTypes}.

Definition CACHE_SIZE : Z := 100.

Record PayloadTrace : Set := {
  builder_has_payload : bool;
  trace_id_of : option SpanId
}.

Record PayloadTraceContext : Type := {
  block_hash_to_payload_ids : gmap B256 (list PayloadId);
  payload_ids : gmap PayloadId PayloadTrace
}.

Definition PayloadTraceContext_new : PayloadTraceContext :=
  {| block_hash_to_payload_ids := ∅; payload_ids := ∅ |}.

Section Operations.
Context {Call : Type} {Reply : Call -> Type} {Obs : Type}.
Abbreviation M := (prog Reply Obs PayloadTraceContext).
Local Open Scope prog_scope.

(** [self.payload_id.insert(..)] *)
Definition insert_payload_id (id : PayloadId) (tr : PayloadTrace) (c : PayloadTraceContext) :=
  {| block_hash_to_payload_ids := block_hash_to_payload_ids c;
     payload_ids := <[id := tr]> (payload_ids c) |}.

(** [self.payload_id.remove(..)] *)
Definition remove_payload_id (id : PayloadId) (c : PayloadTraceContext) :=
  {| block_hash_to_payload_ids := block_hash_to_payload_ids c;
     payload_ids := delete id (payload_ids c) |}.

(** [self.block_hash_to_payload_ids.entry(..).and_upsert_with(..)] *)
Definition push_payload_id (parent : B256) (id : PayloadId) (c : PayloadTraceContext) :=
  {| block_hash_to_payload_ids :=
       <[parent := match block_hash_to_payload_ids c !! parent with
                   | Some payloads => payloads ++ [id]
                   | None => [id]
                   end]> (block_hash_to_payload_ids c);
     payload_ids := payload_ids c |}.

Definition store (id : PayloadId) (parent : B256) (b : bool) (tr : option SpanId) : M unit :=
  modify (insert_payload_id id {| builder_has_payload := b; trace_id_of := tr |}) ;;
  modify (push_payload_id parent id).

Definition trace_id (id : PayloadId) : M (option SpanId) :=
  read (fun c => match payload_ids c !! id with Some context => trace_id_of context | None => None end).

Definition has_builder_payload (id : PayloadId) : M bool :=
  read (fun c => match payload_ids c !! id with
                 | Some x => builder_has_payload x
                 | None => false
                 end).

(** The stream of [filter_map] over the ids, one cache lookup each. *)
Fixpoint collect_trace_ids (ids : list PayloadId) : M (list SpanId) :=
  match ids with
  | [] => Ret []
  | id :: ids =>
      let* tr := trace_id id in
      let* rest := collect_trace_ids ids in
      Ret (match tr with Some t => t :: rest | None => rest end)
  end.

Definition trace_ids_from_parent_hash (parent : B256) : M (option (list SpanId)) :=
  let* ids := read (fun c => block_hash_to_payload_ids c !! parent) in
  match ids with
  | Some ids => let* trs := collect_trace_ids ids in Ret (Some trs)
  | None => Ret None
  end.

Fixpoint remove_payload_ids (ids : list PayloadId) : M unit :=
  match ids with
  | [] => Ret tt
  | id :: ids => modify (remove_payload_id id) ;; remove_payload_ids ids
  end.

Definition remove_by_parent_hash (parent : B256) : M unit :=
  let* ids := atomic (fun c =>
    (block_hash_to_payload_ids c !! parent,
     {| block_hash_to_payload_ids := delete parent (block_hash_to_payload_ids c);
        payload_ids := payload_ids c |})) in
  match ids with
  | Some ids => remove_payload_ids ids
  | None => Ret tt
  end.

(** ** Sequential behaviour *)

Definition ids_of (parent : B256) (c : PayloadTraceContext) : list PayloadId :=
  default [] (block_hash_to_payload_ids c !! parent).

Lemma ids_of_insert parent l m p :
  ids_of parent {| block_hash_to_payload_ids := <[parent := l]> m; payload_ids := p |} = l.
Proof. unfold ids_of. simpl. by rewrite lookup_insert_eq. Qed.

Lemma remove_payload_ids_alone ids c :
  alone (remove_payload_ids ids) c =
    Some (tt, {| block_hash_to_payload_ids := block_hash_to_payload_ids c;
                 payload_ids := filter (fun kv => kv.1 ∉ ids) (payload_ids c) |}).
Proof.
  revert c. induction ids as [|id ids IH]; intros c; simpl.
  - do 2 f_equal. destruct c as [b p]. simpl. f_equal. symmetry.
    apply map_filter_id. intros i x _. apply not_elem_of_nil.
  - rewrite IH. simpl. do 3 f_equal. apply map_eq. intros i.
    apply option_eq. intros x. rewrite !map_lookup_filter_Some. simpl.
    rewrite lookup_delete_Some, not_elem_of_cons.
    split; intros; destruct_and?; split_and!; auto.
Qed.

(** What a stored payload looks like to the queries. *)
Lemma store_alone id parent b tr c :
  alone (store id parent b tr) c =
    Some (tt, {| block_hash_to_payload_ids :=
                   <[parent := ids_of parent c ++ [id]]> (block_hash_to_payload_ids c);
                 payload_ids :=
                   <[id := {| builder_has_payload := b; trace_id_of := tr |}]> (payload_ids c) |}).
Proof.
  simpl. do 2 f_equal. unfold push_payload_id, ids_of. simpl. do 2 f_equal.
  by destruct (block_hash_to_payload_ids c !! parent).
Qed.

Lemma remove_by_parent_hash_alone parent c :
  alone (remove_by_parent_hash parent) c =
    Some (tt, {| block_hash_to_payload_ids := delete parent (block_hash_to_payload_ids c);
                 payload_ids := filter (fun kv => kv.1 ∉ ids_of parent c) (payload_ids c) |}).
Proof.
  unfold remove_by_parent_hash, ids_of. simpl.
  destruct (block_hash_to_payload_ids c !! parent) as [ids|] eqn:Hp; simpl.
  - by rewrite remove_payload_ids_alone.
  - do 3 f_equal. symmetry. apply map_filter_id. intros i x _. apply not_elem_of_nil.
Qed.

Lemma collect_trace_ids_alone ids c :
  alone (collect_trace_ids ids) c =
    Some (omap (fun id => payload_ids c !! id ≫= trace_id_of) ids, c).
Proof.
  revert c. induction ids as [|id ids IH]; intros c; [done|].
  simpl. rewrite alone_bind, IH.
  destruct (payload_ids c !! id) as [x|]; [|done]. cbn. by destruct (trace_id_of x).
Qed.

Lemma trace_ids_alone parent c :
  alone (trace_ids_from_parent_hash parent) c =
    Some (match block_hash_to_payload_ids c !! parent with
          | Some ids => Some (omap (fun id => payload_ids c !! id ≫= trace_id_of) ids)
          | None => None
          end, c).
Proof.
  unfold trace_ids_from_parent_hash. simpl.
  destruct (block_hash_to_payload_ids c !! parent); [|done].
  by rewrite alone_bind, collect_trace_ids_alone.
Qed.

Lemma has_builder_payload_alone id c :
  alone (has_builder_payload id) c =
    Some (match payload_ids c !! id with Some x => builder_has_payload x | None => false end, c).
Proof. done. Qed.

(** Everything started on [parent] is forgotten, and nothing else is: after a
    [newPayload] on [parent], the builder is no longer asked for the payloads
    stored under it. *)
Definition lifecycle (id : PayloadId) (parent : B256) (b : bool) (tr : option SpanId)
  : M (bool * option (list SpanId) * bool * option (list SpanId)) :=
  store id parent b tr ;;
  let* has1 := has_builder_payload id in
  let* ids1 := trace_ids_from_parent_hash parent in
  remove_by_parent_hash parent ;;
  let* has2 := has_builder_payload id in
  let* ids2 := trace_ids_from_parent_hash parent in
  Ret (has1, ids1, has2, ids2).

(** A stored payload is found with its flag and its trace id, by its id and
    by its parent; after [remove_by_parent_hash] it is found by neither, and the
    payloads of other parents are untouched. *)
Theorem lifecycle_alone id parent b tr c :
  exists c' trs,
    alone (lifecycle id parent b tr) c = Some ((b, Some trs, false, None), c') /\
    (forall t, tr = Some t -> t ∈ trs) /\
    (forall id', id' ∉ ids_of parent c -> id' <> id -> payload_ids c' !! id' = payload_ids c !! id').
Proof.
  unfold lifecycle.
  rewrite alone_bind, store_alone, alone_bind, has_builder_payload_alone; cbn [payload_ids].
  rewrite alone_bind, trace_ids_alone; cbn [block_hash_to_payload_ids payload_ids].
  rewrite alone_bind, remove_by_parent_hash_alone, alone_bind, has_builder_payload_alone.
  rewrite alone_bind, trace_ids_alone; cbn [block_hash_to_payload_ids payload_ids alone].
  rewrite !ids_of_insert, !lookup_insert_eq, !lookup_delete_eq; cbn [default builder_has_payload].
  rewrite map_lookup_filter, lookup_insert_eq; simpl.
  rewrite option_guard_False by set_solver.
  eexists _, _. split_and!; [done| |].
  - intros t ->. apply list_elem_of_omap. exists id. split; [set_solver|].
    by rewrite lookup_insert_eq.
  - intros id' Hid Hne. simpl. rewrite map_lookup_filter, lookup_insert_ne by done.
    destruct (payload_ids c !! id') as [x|]; simpl; [|done].
    rewrite option_guard_True; [done|]. rewrite not_elem_of_app, not_elem_of_cons.
    auto using not_elem_of_nil.
Qed.

End Operations.
End PayloadTraceContext.
