(* ===== verification/RpcClient.v ===== *)
(** * Engine API clients

    crates/rollup-boost/src/client/rpc.rs and engine_api.rs: the requests that
    go to an execution client, the JSON-RPC client that sends them and checks
    the replies, the trait [EngineApiExt] that the server uses the builder
    through, and what the server relies on of an implementation of it. *)
From S2P Require Import Prelude Async Payload.

Local Open Scope Z_scope.

Section RpcClient.
Context {ET : EngineTypes}.

(** ** Requests *)

(** [BlockNumberOrTag], of which the program itself builds only [Latest]. *)
Inductive BlockNumberOrTag : Set :=
| Latest | Finalized | Safe | Earliest | Pending | Number (n : Z).

(** The methods of the trait [EngineApi] (server.rs). *)
Inductive engine_request : Set :=
| Req_forkchoiceUpdatedV3 (s : ForkchoiceState) (a : option OpPayloadAttributes)
| Req_getPayloadV3 (id : PayloadId)
| Req_newPayloadV3 (p : ExecutionPayloadV3) (hashes : list B256) (root : B256)
| Req_getPayloadV4 (id : PayloadId)
| Req_newPayloadV4 (p : OpExecutionPayloadV4) (hashes : list B256) (root : B256)
    (requests : list Bytes)
| Req_getBlockByNumber (n : BlockNumberOrTag) (full : bool).

(** A request and the node it is sent to. *)
Definition Call : Set := PayloadSource * engine_request.

(** [jsonrpsee::core::client::Error] *)
Inductive JsonrpseeError : Set :=
| ClientCall (e : ErrorObject)
| ClientOther (e : TransportError).

Definition Reply (c : Call) : Set :=
  match c.2 with
  | Req_forkchoiceUpdatedV3 _ _ => result ForkchoiceUpdated JsonrpseeError
  | Req_getPayloadV3 _ => result OpExecutionPayloadEnvelopeV3 JsonrpseeError
  | Req_newPayloadV3 _ _ _ => result PayloadStatus JsonrpseeError
  | Req_getPayloadV4 _ => result OpExecutionPayloadEnvelopeV4 JsonrpseeError
  | Req_newPayloadV4 _ _ _ _ => result PayloadStatus JsonrpseeError
  | Req_getBlockByNumber _ _ => result Block JsonrpseeError
  end.

(** What the handlers do besides requests: background tasks, span fields,
    metrics and messages handed to the WebSocket publisher. *)
Inductive task : Set :=
| Spawn_builder_new_payload (n : NewPayload)
| Spawn_builder_fork_choice_updated (s : ForkchoiceState) (a : option OpPayloadAttributes)
| Spawn_finalising_get_payload (id : PayloadId) (v : PayloadVersion).

Inductive Obs : Set :=
| Spawn (t : task)
| SpanStr (field value : string)
| SpanInt (field : string) (value : Z)
| SpanFollows (cause : SpanId)
| BlocksCreated (source : PayloadSource)
| Metric (name : string) (value : Z)
| Publish (p : FlashblocksPayloadV1).

Abbreviation M S := (prog Reply Obs S).
Local Open Scope prog_scope.

(** ** Errors *)

Definition INTERNAL_ERROR : Z := 13.

Inductive RpcClientError : Set :=
| Jsonrpsee (e : JsonrpseeError)
| InvalidPayload (s : string)
| Io (e : IoError)
| Jwt (e : JwtError).

Abbreviation ClientResult T := (result T RpcClientError).

(** [Code for jsonrpsee::core::client::Error], [for RpcClientError], [for Result]. *)
Definition JsonrpseeError_code (e : JsonrpseeError) : Z :=
  match e with ClientCall call => ErrorObject_code call | _ => INTERNAL_ERROR end.

Definition RpcClientError_code (e : RpcClientError) : Z :=
  match e with Jsonrpsee e => JsonrpseeError_code e | _ => INTERNAL_ERROR end.

Definition result_code {T E} (code : E -> Z) (r : result T E) : Z :=
  match r with Ok _ => 0 | Err e => code e end.

(** [set_code] records the code in the span and passes the value on. *)
Definition set_code {S T} (code : T -> Z) (x : T) : M S T :=
  emit (SpanInt "code" (code x)) ;; Ret x.

(** [From<RpcClientError> for ErrorObjectOwned], with the [Display] of the
    other variants. *)
Definition ErrorObject_from (e : RpcClientError) : ErrorObject :=
  match e with
  | Jsonrpsee (ClientCall error_object) => error_object
  | Jsonrpsee (ClientOther e) => ErrorObject_owned INTERNAL_ERROR (TransportError_string e)
  | InvalidPayload s => ErrorObject_owned INTERNAL_ERROR ("Invalid payload: " ++ s)%string
  | Io e => ErrorObject_owned INTERNAL_ERROR (IoError_string e)
  | Jwt e => ErrorObject_owned INTERNAL_ERROR (JwtError_string e)
  end.

(** ** The client *)

Record RpcClient : Set := {
  auth_rpc : string;
  payload_source : PayloadSource
}.

Section Methods.
Context {S : Type}.

(** One call on [auth_client]: [.await.set_code()?]. *)
Definition lift_reply {T} (r : result T JsonrpseeError) : M S (ClientResult T) :=
  let* r := set_code (result_code JsonrpseeError_code) r in
  Ret (map_err Jsonrpsee r).

Definition rpc_fork_choice_updated_v3 (self : RpcClient) (s : ForkchoiceState)
    (a : option OpPayloadAttributes) : M S (ClientResult ForkchoiceUpdated) :=
  let* r := await (payload_source self, Req_forkchoiceUpdatedV3 s a) in
  let*? res := lift_reply r in
  match payload_id res with
  | Some id => emit (SpanInt "payload_id" id)
  | None => Ret tt
  end ;;
  if ForkchoiceUpdated_is_invalid (payload_status res) (payload_id res) then
    set_code (result_code RpcClientError_code)
      (Err (InvalidPayload (PayloadStatus_status_string (payload_status res))))
  else Ret (Ok res).

Definition rpc_get_payload_v3 (self : RpcClient) (id : PayloadId)
  : M S (ClientResult OpExecutionPayloadEnvelopeV3) :=
  emit (SpanInt "payload_id" id) ;;
  let* r := await (payload_source self, Req_getPayloadV3 id) in
  lift_reply r.

Definition rpc_new_payload_v3 (self : RpcClient) (p : ExecutionPayloadV3)
    (hashes : list B256) (root : B256) : M S (ClientResult PayloadStatus) :=
  let* r := await (payload_source self, Req_newPayloadV3 p hashes root) in
  let*? res := lift_reply r in
  if PayloadStatus_is_invalid res then
    let* e := set_code RpcClientError_code (InvalidPayload (PayloadStatus_status_string res)) in
    Ret (Err e)
  else Ret (Ok res).

Definition rpc_get_payload_v4 (self : RpcClient) (id : PayloadId)
  : M S (ClientResult OpExecutionPayloadEnvelopeV4) :=
  let* r := await (payload_source self, Req_getPayloadV4 id) in
  lift_reply r.

Definition rpc_get_payload (self : RpcClient) (id : PayloadId) (v : PayloadVersion)
  : M S (ClientResult OpExecutionPayloadEnvelope) :=
  match v with
  | V3 =>
      let* r := rpc_get_payload_v3 self id in
      let*? p := set_code (result_code RpcClientError_code) r in
      Ret (Ok (EnvelopeV3 p))
  | V4 =>
      let* r := rpc_get_payload_v4 self id in
      let*? p := set_code (result_code RpcClientError_code) r in
      Ret (Ok (EnvelopeV4 p))
  end.

Definition rpc_new_payload_v4 (self : RpcClient) (p : OpExecutionPayloadV4)
    (hashes : list B256) (root : B256) (requests : list Bytes)
  : M S (ClientResult PayloadStatus) :=
  let* r := await (payload_source self, Req_newPayloadV4 p hashes root requests) in
  let*? res := lift_reply r in
  if PayloadStatus_is_invalid res then
    let* e := set_code RpcClientError_code (InvalidPayload (PayloadStatus_status_string res)) in
    Ret (Err e)
  else Ret (Ok res).

Definition rpc_new_payload (self : RpcClient) (n : NewPayload)
  : M S (ClientResult PayloadStatus) :=
  match n with
  | NP_V3 n =>
      rpc_new_payload_v3 self (np3_payload n) (np3_versioned_hashes n)
        (np3_parent_beacon_block_root n)
  | NP_V4 n =>
      rpc_new_payload_v4 self (np4_payload n) (np4_versioned_hashes n)
        (np4_parent_beacon_block_root n) (np4_execution_requests n)
  end.

Definition rpc_get_block_by_number (self : RpcClient) (n : BlockNumberOrTag) (full : bool)
  : M S (ClientResult Block) :=
  let* r := await (payload_source self, Req_getBlockByNumber n full) in
  lift_reply r.

End Methods.

(** ** The trait [EngineApiExt]

    [T] is the state an implementation keeps behind [&self]. *)
Class EngineApiExt (T : Type) := {
  fork_choice_updated_v3 :
    ForkchoiceState -> option OpPayloadAttributes -> M T (ClientResult ForkchoiceUpdated);
  new_payload : NewPayload -> M T (ClientResult PayloadStatus);
  get_payload : PayloadId -> PayloadVersion -> M T (ClientResult OpExecutionPayloadEnvelope);
  get_block_by_number : BlockNumberOrTag -> bool -> M T (ClientResult Block)
}.

(** [impl EngineApiExt for RpcClient] *)
Definition RpcClient_EngineApiExt (self : RpcClient) : EngineApiExt unit := {|
  fork_choice_updated_v3 := rpc_fork_choice_updated_v3 self;
  new_payload := rpc_new_payload self;
  get_payload := rpc_get_payload self;
  get_block_by_number := rpc_get_block_by_number self
|}.

(** ** What the server relies on *)

(** The event is a request to [src]. *)
Definition is_request_to (src : PayloadSource) {S} (v : event Reply Obs S) : bool :=
  match v with EvAwait c _ => bool_decide (c.1 = src) | _ => false end.

(** The requests of a trace that go to [src], with their replies. *)
Definition requests_to (src : PayloadSource) {S} (t : list (event Reply Obs S)) :=
  filter (fun v => is_request_to src v = true) t.

(** The run neither panics nor talks to any node but [src]. *)
Definition confined (src : PayloadSource) {S A} (t : list (event Reply Obs S)) (o : outcome A)
  : Prop :=
  (exists a, o = Returned a) /\ Forall (fun v => forall s, is_request_to s v = true -> s = src) t.

Lemma confined_other src src' {S A} (t : list (event Reply Obs S)) (o : outcome A) :
  src <> src' -> confined src t o -> requests_to src' t = [].
Proof.
  intros Hne [_ H]. unfold requests_to. induction H as [|v t Hv _ IH]; [done|].
  rewrite filter_cons. case_decide as Hd; [|done]. by apply Hv in Hd.
Qed.

Lemma confined_zoom src {S T A} (get : S -> T) (t : list (event Reply Obs S)) (o : outcome A) :
  confined src (zoom_event get <$> t) o -> confined src t o.
Proof.
  intros [Ho H]. split; [done|]. rewrite Forall_fmap in H.
  eapply Forall_impl; [exact H|]. intros v Hv s Hs. apply Hv. by destruct v.
Qed.

(** Confinement is compositional. *)
Lemma confined_bind src {S A B} (p : M S A) (q : A -> M S B) :
  every p (confined src) -> (forall a, every (q a) (confined src)) ->
  every (bind p q) (confined src).
Proof.
  intros Hp Hq. eapply every_bind; [exact Hp| |].
  - by intros t m [[? ?] _].
  - intros t a [_ Ht]. eapply every_mono; [|apply Hq]. intros t' o [Ho Ht'].
    split; [done|]. by apply Forall_app.
Qed.

Lemma confined_ret src {S A} (a : A) : every (Ret a : M S A) (confined src).
Proof. split; [eauto|constructor]. Qed.

Lemma confined_emit src {S} (o : Obs) : every (emit o : M S unit) (confined src).
Proof. split; [eauto|repeat constructor; by intros]. Qed.

Lemma confined_atomic src {S X} (f : S -> X * S) : every (atomic f : M S X) (confined src).
Proof. intros s. split; [eauto|repeat constructor; by intros]. Qed.

(** ** One request per method

    [calls_once c f]: the run consists of the single request [c], apart from the
    span fields it sets, and returns [f] of the reply. *)
Definition essential {S} (v : event Reply Obs S) : bool :=
  match v with EvEmit (SpanInt _ _) => false | _ => true end.

Definition calls_once {A} (c : Call) (f : Reply c -> A) {S}
    (t : list (event Reply Obs S)) (o : outcome A) : Prop :=
  exists r, filter (fun v => essential v = true) t = [EvAwait c r] /\ o = Returned (f r).

(** An implementation never panics and never sends anything to the L2 node,
    [get_payload] returns a payload of the version it was asked for, and
    [get_block_by_number] is the builder node's answer. *)
Class BuilderClient (T : Type) `{!EngineApiExt T} : Prop := {
  fork_choice_updated_v3_confined s a : every (fork_choice_updated_v3 s a) (confined Builder);
  new_payload_confined n : every (new_payload n) (confined Builder);
  get_payload_confined id v : every (get_payload id v) (confined Builder);
  get_block_by_number_once n full :
    every (get_block_by_number n full)
      (calls_once (Builder, Req_getBlockByNumber n full) (map_err Jsonrpsee));
  get_payload_version id v :
    every (get_payload id v) (fun _ o => forall p, o = Returned (Ok p) -> version p = v)
}.

Lemma requests_to_essential src {S} (t : list (event Reply Obs S)) :
  requests_to src t = requests_to src (filter (fun v => essential v = true) t).
Proof.
  unfold requests_to. rewrite list_filter_filter. apply list_filter_iff.
  intros v. destruct v as [| |[]]; simpl; split; intros; destruct_and?; auto.
Qed.

Lemma calls_once_requests {A} c (f : Reply c -> A) {S} (t : list (event Reply Obs S)) o :
  calls_once c f t o -> exists r, requests_to c.1 t = [EvAwait c r] /\ o = Returned (f r).
Proof.
  intros (r & Ht & ->). exists r. split; [|done]. rewrite requests_to_essential, Ht.
  unfold requests_to. rewrite filter_cons_True; [done|]. simpl. by rewrite bool_decide_true.
Qed.

Lemma calls_once_confined {A} c (f : Reply c -> A) {S} (t : list (event Reply Obs S)) o :
  calls_once c f t o -> confined c.1 t o.
Proof.
  intros (r & Ht & ->). split; [eauto|]. apply Forall_forall. intros v Hv s Hs.
  assert (Hin : v ∈ filter (fun v => essential v = true) t).
  { apply list_elem_of_filter. split; [by destruct v|done]. }
  rewrite Ht in Hin. apply list_elem_of_singleton in Hin as ->. simpl in Hs.
  by apply bool_decide_eq_true in Hs.
Qed.

Definition fcu_result (r : result ForkchoiceUpdated JsonrpseeError)
  : ClientResult ForkchoiceUpdated :=
  match r with
  | Ok res =>
      if ForkchoiceUpdated_is_invalid (payload_status res) (payload_id res)
      then Err (InvalidPayload (PayloadStatus_status_string (payload_status res)))
      else Ok res
  | Err e => Err (Jsonrpsee e)
  end.

Definition status_result (r : result PayloadStatus JsonrpseeError) : ClientResult PayloadStatus :=
  match r with
  | Ok res =>
      if PayloadStatus_is_invalid res
      then Err (InvalidPayload (PayloadStatus_status_string res))
      else Ok res
  | Err e => Err (Jsonrpsee e)
  end.

(** The request a [newPayload] becomes, and the one [getPayload] becomes. *)
Definition new_payload_request (n : NewPayload) : engine_request :=
  match n with
  | NP_V3 n => Req_newPayloadV3 (np3_payload n) (np3_versioned_hashes n)
                 (np3_parent_beacon_block_root n)
  | NP_V4 n => Req_newPayloadV4 (np4_payload n) (np4_versioned_hashes n)
                 (np4_parent_beacon_block_root n) (np4_execution_requests n)
  end.

Definition get_payload_request (id : PayloadId) (v : PayloadVersion) : engine_request :=
  match v with V3 => Req_getPayloadV3 id | V4 => Req_getPayloadV4 id end.

Definition new_payload_result (src : PayloadSource) (n : NewPayload)
  : Reply (src, new_payload_request n) -> ClientResult PayloadStatus :=
  match n with NP_V3 _ => status_result | NP_V4 _ => status_result end.

Definition get_payload_result (src : PayloadSource) (id : PayloadId) (v : PayloadVersion)
  : Reply (src, get_payload_request id v) -> ClientResult OpExecutionPayloadEnvelope :=
  match v with
  | V3 => fun r => map_ok EnvelopeV3 (map_err Jsonrpsee r)
  | V4 => fun r => map_ok EnvelopeV4 (map_err Jsonrpsee r)
  end.

Ltac one_request :=
  cbn; let r := fresh "r" in intros r; destruct r as [res|e]; cbn;
  repeat match goal with
  | |- context [match payload_id ?x with _ => _ end] => destruct (payload_id x) eqn:?; cbn
  | |- context [if ?b then _ else _] => destruct b eqn:?; cbn
  end;
  first [exists (Ok res) | exists (Err e)]; cbn;
  (split; [reflexivity|]);
  repeat match goal with H : _ = ?b |- context [if _ then _ else _] => rewrite H end; reflexivity.

Lemma rpc_fork_choice_updated_v3_once {S} self s a :
  every (rpc_fork_choice_updated_v3 (S := S) self s a)
    (calls_once (payload_source self, Req_forkchoiceUpdatedV3 s a) fcu_result).
Proof. one_request. Qed.

Lemma rpc_new_payload_once {S} self n :
  every (rpc_new_payload (S := S) self n)
    (calls_once (payload_source self, new_payload_request n) (new_payload_result _ n)).
Proof. destruct n; one_request. Qed.

Lemma rpc_get_payload_once {S} self id v :
  every (rpc_get_payload (S := S) self id v)
    (calls_once (payload_source self, get_payload_request id v) (get_payload_result _ id v)).
Proof. destruct v; one_request. Qed.

Lemma rpc_get_block_by_number_once {S} self n full :
  every (rpc_get_block_by_number (S := S) self n full)
    (calls_once (payload_source self, Req_getBlockByNumber n full) (map_err Jsonrpsee)).
Proof. one_request. Qed.

Lemma get_payload_result_version src id v r p :
  get_payload_result src id v r = Ok p -> version p = v.
Proof. destruct v; simpl; destruct r; simpl; intros; by simplify_eq. Qed.

Lemma rpc_get_payload_version {S} self id v :
  every (rpc_get_payload (S := S) self id v)
    (fun _ o => forall p, o = Returned (Ok p) -> version p = v).
Proof.
  eapply every_mono; [|apply rpc_get_payload_once]. intros t o (r & _ & ->) p [= H].
  by eapply get_payload_result_version.
Qed.

Lemma once_confined {S A} (p : M S A) c f src :
  c.1 = src -> every p (calls_once c f) -> every p (confined src).
Proof. intros <-. apply every_mono. intros t o. apply calls_once_confined. Qed.

(** A client of the builder is a [BuilderClient]. *)
Lemma RpcClient_BuilderClient self :
  payload_source self = Builder ->
  @BuilderClient unit (RpcClient_EngineApiExt self).
Proof.
  intros Hsrc. split; intros.
  - by eapply once_confined; [|apply (rpc_fork_choice_updated_v3_once self s a)].
  - by eapply once_confined; [|apply (rpc_new_payload_once self n)].
  - by eapply once_confined; [|apply (rpc_get_payload_once self id v)].
  - pose proof (rpc_get_block_by_number_once (S := unit) self n full) as H.
    by rewrite Hsrc in H.
  - apply rpc_get_payload_version.
Qed.

(** ** Silent programs

    No request, no panic. *)
Definition silent {S A} (t : list (event Reply Obs S)) (o : outcome A) : Prop :=
  (exists a, o = Returned a) /\ Forall (fun v => forall s, is_request_to s v = false) t.

Lemma silent_requests src {S A} (t : list (event Reply Obs S)) (o : outcome A) :
  silent t o -> requests_to src t = [].
Proof.
  intros [_ H]. unfold requests_to. induction H as [|v t Hv _ IH]; [done|].
  rewrite filter_cons_False; [done|]. by rewrite Hv.
Qed.

Lemma silent_bind {S A B} (p : M S A) (q : A -> M S B) :
  every p silent -> (forall a, every (q a) silent) -> every (bind p q) silent.
Proof.
  intros Hp Hq. eapply every_bind; [exact Hp| |].
  - by intros t m [[? ?] _].
  - intros t a [_ Ht]. eapply every_mono; [|apply Hq]. intros t' o [Ho Ht'].
    split; [done|]. by apply Forall_app.
Qed.

Lemma silent_ret {S A} (a : A) : every (Ret a : M S A) silent.
Proof. split; [eauto|constructor]. Qed.

Lemma silent_emit {S} (o : Obs) : every (emit o : M S unit) silent.
Proof. split; [eauto|by repeat constructor]. Qed.

Lemma silent_atomic {S X} (f : S -> X * S) : every (atomic f : M S X) silent.
Proof. intros s. split; [eauto|by repeat constructor]. Qed.

Lemma silent_zoom {S T A} (get : S -> T) (set : T -> S -> S) (p : M T A) :
  (forall t s, get (set t s) = t) -> every p silent -> every (zoom get set p) silent.
Proof.
  intros Hgs Hp. eapply every_mono; [|by apply every_zoom, Hp].
  intros t o [Ho Ht]. split; [done|]. rewrite Forall_fmap in Ht.
  eapply Forall_impl; [exact Ht|]. intros v Hv s. specialize (Hv s). by destruct v.
Qed.

Lemma confined_every_zoom src {S T A} (get : S -> T) (set : T -> S -> S) (p : M T A) :
  (forall t s, get (set t s) = t) -> every p (confined src) ->
  every (zoom get set p) (confined src).
Proof.
  intros Hgs Hp. eapply every_mono; [|by apply every_zoom, Hp].
  intros t o. apply confined_zoom.
Qed.

Lemma requests_to_app src {S} (t t' : list (event Reply Obs S)) :
  requests_to src (t ++ t') = requests_to src t ++ requests_to src t'.
Proof. apply filter_app. Qed.

(** ** Client configuration *)

(** The errors that reach [eyre::Report] while the program starts: messages of
    [bail!], and the errors converted by [?]. *)
Inductive Report : Set :=
| Report_msg (m : string)
| Report_client (e : RpcClientError)
| Report_jwt (e : JwtError)
| Report_io (e : IoError)
| Report_addr_parse.

(** A JWT secret, the loader of a secret file, and jsonrpsee's builder of the
    HTTP transport (URL, secret of the authentication layer, timeout in ms). *)
Section ClientArgs.
Context {JwtSecret : Set} (JwtSecret_from_file : string -> result JwtSecret JwtError)
  (transport_build : string -> JwtSecret -> Z -> result unit JsonrpseeError).

(** [RpcClient::new] *)
Definition RpcClient_new (auth_rpc : string) (auth_rpc_jwt_secret : JwtSecret) (timeout : Z)
    (source : PayloadSource) : result RpcClient RpcClientError :=
  match transport_build auth_rpc auth_rpc_jwt_secret timeout with
  | Err e => Err (Jsonrpsee e)
  | Ok _ => Ok {| auth_rpc := auth_rpc; payload_source := source |}
  end.

Record ClientArgs : Set := {
  url : string;
  jwt_token : option JwtSecret;
  jwt_path : option string;
  timeout : Z
}.

Definition get_auth_jwt (self : ClientArgs) : result JwtSecret Report :=
  match jwt_token self with
  | Some secret => Ok secret
  | None =>
      match jwt_path self with
      | Some path => map_err Report_jwt (JwtSecret_from_file path)
      | None => Err (Report_msg "Missing Client JWT secret")
      end
  end.

Definition new_rpc_client (self : ClientArgs) (source : PayloadSource) : result RpcClient Report :=
  match get_auth_jwt self with
  | Err e => Err e
  | Ok secret => map_err Report_client (RpcClient_new (url self) secret (timeout self) source)
  end.

(** The structs that [define_client_args!] generates and their conversion. *)
Record PrefixedArgs : Set := {
  p_url : string;
  p_jwt_token : option JwtSecret;
  p_jwt_path : option string;
  p_timeout : Z
}.

Definition ClientArgs_from (a : PrefixedArgs) : ClientArgs :=
  {| url := p_url a; jwt_token := p_jwt_token a; jwt_path := p_jwt_path a;
     timeout := p_timeout a |}.

End ClientArgs.

End RpcClient.

Abbreviation M S := (prog Reply Obs S).
Abbreviation ClientResult T := (result T RpcClientError).

(** The methods are reasoned about through their specifications. *)
#[global] Arguments rpc_fork_choice_updated_v3 : simpl never.
#[global] Arguments rpc_new_payload : simpl never.
#[global] Arguments rpc_get_payload : simpl never.
#[global] Arguments rpc_get_block_by_number : simpl never.

(** Programs without requests, by their structure. *)
Ltac silent_tac :=
  repeat first
    [ apply silent_ret | apply silent_emit | apply silent_atomic
    | apply silent_bind; [|intros ?]
    | match goal with |- every (match ?x with _ => _ end) _ => destruct x eqn:? end
    | match goal with |- every (if ?x then _ else _) _ => destruct x eqn:? end ].

#[export] Hint Resolve rpc_fork_choice_updated_v3_once rpc_new_payload_once
  rpc_get_payload_once rpc_get_block_by_number_once : boost.
