(* ===== verification/FlashblockBuilder.v ===== *)
(** * Assembling a block from flashblocks

    [FlashblockBuilder] of crates/rollup-boost/src/flashblocks/service.rs: it
    accepts the flashblocks of one block in order and builds the block's payload
    from what it has accepted. *)
From S2P Require Import Prelude Payload.

Local Open Scope Z_scope.

Inductive FlashblocksError : Set :=
| MissingBasePayload | UnexpectedBasePayload | MissingDelta | InvalidIndex | MissingPayload.

(** Its [Display]. *)
Definition FlashblocksError_to_string (e : FlashblocksError) : string :=
  match e with
  | MissingBasePayload => "Missing base payload for initial flashblock"
  | UnexpectedBasePayload => "Unexpected base payload for non-initial flashblock"
  | MissingDelta => "Missing delta for flashblock"
  | InvalidIndex => "Invalid index for flashblock"
  | MissingPayload => "Missing payload"
  end.

#[global] Instance FlashblocksError_eq_dec : EqDecision FlashblocksError.
Proof. solve_decision. Defined.

Section FlashblockBuilder.
Context {ET : EngineTypes}.

Record FlashblockBuilder : Set := {
  base : option ExecutionPayloadBaseV1;
  flashblocks : list ExecutionPayloadFlashblockDeltaV1
}.

Definition FlashblockBuilder_new : FlashblockBuilder := {| base := None; flashblocks := [] |}.

(** [extend(&mut self, payload)]: the result and the builder afterwards. *)
Definition extend (payload : FlashblocksPayloadV1) (self : FlashblockBuilder)
  : result unit FlashblocksError * FlashblockBuilder :=
  if negb (fb_index payload =? Z.of_nat (length (flashblocks self))) then
    (Err InvalidIndex, self)
  else if fb_index payload =? 0 then
    match fb_base payload with
    | Some b =>
        (Ok tt, {| base := Some b; flashblocks := flashblocks self ++ [fb_diff payload] |})
    | None => (Err MissingBasePayload, self)
    end
  else
    match fb_base payload with
    | Some _ => (Err UnexpectedBasePayload, self)
    | None =>
        (Ok tt, {| base := base self; flashblocks := flashblocks self ++ [fb_diff payload] |})
    end.

(** The fold over the deltas that accumulates transactions and withdrawals. *)
Definition accumulate (ds : list ExecutionPayloadFlashblockDeltaV1)
  : list Bytes * list Withdrawal :=
  fold_left (fun acc d => (acc.1 ++ d_transactions d, acc.2 ++ d_withdrawals d)) ds ([], []).

Definition build_envelope (self : FlashblockBuilder) (v : PayloadVersion)
  : result OpExecutionPayloadEnvelope FlashblocksError :=
  match base self with
  | None => Err MissingPayload
  | Some base =>
      match last (flashblocks self) with
      | None => Err MissingDelta
      | Some diff =>
          let (transactions, withdrawals) := accumulate (flashblocks self) in
          let withdrawals_root := d_withdrawals_root diff in
          let execution_payload :=
            {| blob_gas_used := default 0 (d_blob_gas_used diff);
               excess_blob_gas := 0;
               payload_inner_v2 :=
                 {| withdrawals_v2 := withdrawals;
                    payload_inner_v1 :=
                      {| parent_hash := b_parent_hash base;
                         fee_recipient := b_fee_recipient base;
                         state_root := d_state_root diff;
                         receipts_root := d_receipts_root diff;
                         logs_bloom := d_logs_bloom diff;
                         prev_randao := b_prev_randao base;
                         block_number := b_block_number base;
                         gas_limit := b_gas_limit base;
                         gas_used_v1 := d_gas_used diff;
                         timestamp := b_timestamp base;
                         extra_data := b_extra_data base;
                         base_fee_per_gas := b_base_fee_per_gas base;
                         block_hash := d_block_hash diff;
                         transactions_v1 := transactions |} |} |} in
          Ok (match v with
              | V3 => EnvelopeV3
                  {| parent_beacon_block_root_v3 := b_parent_beacon_block_root base;
                     block_value_v3 := 0;
                     blobs_bundle_v3 := BlobsBundleV1_default;
                     should_override_builder_v3 := false;
                     execution_payload_v3 := execution_payload |}
              | V4 => EnvelopeV4
                  {| parent_beacon_block_root_v4 := b_parent_beacon_block_root base;
                     block_value_v4 := 0;
                     blobs_bundle_v4 := BlobsBundleV1_default;
                     should_override_builder_v4 := false;
                     execution_payload_v4 :=
                       {| withdrawals_root_v4 := withdrawals_root;
                          payload_inner_v3 := execution_payload |};
                     execution_requests_v4 := [] |}
              end)
      end
  end.

Definition into_envelope (self : FlashblockBuilder) (v : PayloadVersion)
  : result OpExecutionPayloadEnvelope FlashblocksError := build_envelope self v.

Lemma build_envelope_version b v e : build_envelope b v = Ok e -> version e = v.
Proof.
  unfold build_envelope. destruct (base b), (last (flashblocks b)); try done.
  destruct (accumulate _). intros [= <-]. by destruct v.
Qed.

(** ** Sequences of flashblocks *)

(** Feed messages in order; rejected ones leave no trace. *)
Definition feed (self : FlashblockBuilder) (ps : list FlashblocksPayloadV1) : FlashblockBuilder :=
  fold_left (fun b p => (extend p b).2) ps self.

Fixpoint accepted (self : FlashblockBuilder) (ps : list FlashblocksPayloadV1)
  : list FlashblocksPayloadV1 :=
  match ps with
  | [] => []
  | p :: ps =>
      match extend p self with
      | (Ok _, self') => p :: accepted self' ps
      | (Err _, self') => accepted self' ps
      end
  end.

(** A flashblock that may come [i]th: its index is [i], and it carries the base
    exactly when it is the first. *)
Definition fits (i : nat) (p : FlashblocksPayloadV1) : Prop :=
  fb_index p = Z.of_nat i /\ (is_Some (fb_base p) <-> i = 0%nat).

(** A run of flashblocks: indices 0, 1, 2, ..., the base in the first and only there.
    Like the code, this does not look at the payload ids: that the flashblocks of a run
    are of one payload is the business of the service ([operations_refine]). *)
Definition well_formed (ps : list FlashblocksPayloadV1) : Prop :=
  forall i p, ps !! i = Some p -> fits i p.

(** The builder after accepting exactly [ps]. *)
Definition holds (ps : list FlashblocksPayloadV1) (b : FlashblockBuilder) : Prop :=
  flashblocks b = fb_diff <$> ps /\ base b = head ps ≫= fb_base.

Lemma extend_err_same p b e : (extend p b).1 = Err e -> (extend p b).2 = b.
Proof. unfold extend. cases. Qed.

(** A flashblock is accepted exactly when it fits. *)
Lemma extend_ok_iff p b :
  (extend p b).1 = Ok tt <-> fits (length (flashblocks b)) p.
Proof.
  unfold extend, fits.
  destruct (Z.eqb_spec (fb_index p) (Z.of_nat (length (flashblocks b)))) as [Heq|Hne]; simpl;
    [|split; [done|intros [? _]; lia]].
  destruct (Z.eqb_spec (fb_index p) 0) as [Hz|Hz]; destruct (fb_base p) as [bs|]; simpl;
    split; try done.
  - intros _. split; [done|]. split; [intros _; lia|eauto].
  - intros [_ [_ H]]. destruct H as [? H]; [lia|done].
  - intros [_ [H _]]. specialize (H ltac:(eauto)). lia.
  - intros _. split; [done|]. split; [by intros [? ?]|intros; lia].
Qed.

Lemma extend_ok_holds p b ps :
  holds ps b -> (extend p b).1 = Ok tt -> holds (ps ++ [p]) (extend p b).2.
Proof.
  intros [Hf Hb] Hok. pose proof (proj1 (extend_ok_iff p b) Hok) as [Hi Hbase].
  revert Hok. unfold extend. rewrite Hi, Z.eqb_refl. simpl. rewrite Hf, length_fmap in *.
  destruct ps as [|q ps]; simpl in *.
  - destruct (fb_base p) eqn:Hp; [|done]. intros _. split; simpl; [done|by rewrite Hp].
  - destruct (Z.eqb_spec (Z.of_nat (S (length ps))) 0); [lia|].
    destruct (fb_base p); [done|]. intros _. split; simpl; [by rewrite fmap_app|done].
Qed.

Lemma holds_new : holds [] FlashblockBuilder_new.
Proof. done. Qed.

Lemma holds_length ps b : holds ps b -> length (flashblocks b) = length ps.
Proof. intros [-> _]. apply length_fmap. Qed.

Lemma well_formed_snoc ps p :
  well_formed (ps ++ [p]) <-> well_formed ps /\ fits (length ps) p.
Proof.
  unfold well_formed. split.
  - intros H. split.
    + intros i q Hq. apply H. by apply lookup_app_l_Some.
    + apply H. by rewrite lookup_app_r, Nat.sub_diag by lia.
  - intros [H Hp] i q. rewrite lookup_app_Some. intros [Hq|[Hlen Hq]]; [auto|].
    destruct (i - length ps)%nat eqn:E; simplify_list_eq.
    by replace i with (length ps) by lia.
Qed.

(** The builder after any sequence of messages holds exactly the accepted ones,
    and those are a run. *)
Lemma feed_holds ps0 b ps :
  holds ps0 b -> well_formed ps0 ->
  holds (ps0 ++ accepted b ps) (feed b ps) /\ well_formed (ps0 ++ accepted b ps).
Proof.
  revert ps0 b. induction ps as [|p ps IH]; intros ps0 b Hh Hw; simpl.
  { by rewrite app_nil_r. }
  pose proof (extend_ok_iff p b) as Hiff. pose proof (extend_ok_holds p b ps0 Hh) as Hok.
  pose proof (extend_err_same p b) as Herr.
  destruct (extend p b) as [[[]|e] b'] eqn:E; simpl in *.
  - rewrite (cons_middle p), app_assoc. apply IH; [auto|].
    apply well_formed_snoc. split; [done|]. rewrite <- (holds_length _ _ Hh). by apply Hiff.
  - rewrite (Herr e eq_refl). by apply IH.
Qed.

(** All of [ps] is accepted exactly when [ps] continues what the builder holds. *)
Lemma accepted_all ps0 b ps :
  holds ps0 b -> well_formed ps0 -> well_formed (ps0 ++ ps) -> accepted b ps = ps.
Proof.
  revert ps0 b. induction ps as [|p ps IH]; intros ps0 b Hh Hw Hall; simpl; [done|].
  rewrite (cons_middle p), app_assoc in Hall.
  assert (Hp : well_formed (ps0 ++ [p])).
  { intros i q Hq. apply Hall. by apply lookup_app_l_Some. }
  pose proof (extend_ok_holds p b ps0 Hh) as Hok.
  pose proof (extend_ok_iff p b) as Hiff. rewrite (holds_length _ _ Hh) in Hiff.
  apply well_formed_snoc in Hp as Hp'. pose proof (proj2 Hiff (proj2 Hp')) as Hp''.
  destruct (extend p b) as [[[]|e] b'] eqn:E; simpl in *; [|done].
  f_equal. eauto.
Qed.

Lemma accumulate_concat ds :
  accumulate ds = (mjoin (d_transactions <$> ds), mjoin (d_withdrawals <$> ds)).
Proof.
  unfold accumulate.
  assert (H : forall acc, fold_left
      (fun acc d => (acc.1 ++ d_transactions d, acc.2 ++ d_withdrawals d)) ds acc =
      (acc.1 ++ mjoin (d_transactions <$> ds), acc.2 ++ mjoin (d_withdrawals <$> ds))).
  { induction ds as [|d ds IH]; intros [ts ws]; simpl; [by rewrite !app_nil_r|].
    rewrite IH. simpl. by rewrite !app_assoc. }
  by rewrite H.
Qed.

(** ** The block that is built *)

(** What the payload of a block made of the flashblocks [ps] must say: the base
    of the first, the roots, gas and hash of the last, and the transactions and
    withdrawals of all of them in order. *)
Record describes (ps : list FlashblocksPayloadV1) (v : PayloadVersion)
    (e : OpExecutionPayloadEnvelope) : Prop := {
  desc_version : version e = v;
  desc_transactions : transactions e = mjoin (d_transactions <$> (fb_diff <$> ps));
  desc_withdrawals :
    pa_withdrawals (payload_attributes e) = Some (mjoin (d_withdrawals <$> (fb_diff <$> ps)));
  desc_first : exists p b, head ps = Some p /\ fb_base p = Some b /\
    parent_hash (as_v1 (ExecutionPayload_from_envelope e)) = b_parent_hash b /\
    block_number (as_v1 (ExecutionPayload_from_envelope e)) = b_block_number b /\
    gas_limit (as_v1 (ExecutionPayload_from_envelope e)) = b_gas_limit b /\
    base_fee_per_gas (as_v1 (ExecutionPayload_from_envelope e)) = b_base_fee_per_gas b /\
    extra_data (as_v1 (ExecutionPayload_from_envelope e)) = b_extra_data b /\
    pa_timestamp (payload_attributes e) = b_timestamp b /\
    pa_prev_randao (payload_attributes e) = b_prev_randao b /\
    pa_suggested_fee_recipient (payload_attributes e) = b_fee_recipient b /\
    pa_parent_beacon_block_root (payload_attributes e) = Some (b_parent_beacon_block_root b);
  desc_last : exists p, last ps = Some p /\
    gas_used e = d_gas_used (fb_diff p) /\
    state_root (as_v1 (ExecutionPayload_from_envelope e)) = d_state_root (fb_diff p) /\
    receipts_root (as_v1 (ExecutionPayload_from_envelope e)) = d_receipts_root (fb_diff p) /\
    logs_bloom (as_v1 (ExecutionPayload_from_envelope e)) = d_logs_bloom (fb_diff p) /\
    block_hash (as_v1 (ExecutionPayload_from_envelope e)) = d_block_hash (fb_diff p) /\
    (forall x, ExecutionPayload_from_envelope e = EP_V3 x ->
       blob_gas_used x = default 0 (d_blob_gas_used (fb_diff p))) /\
    (forall x, e = EnvelopeV4 x ->
       withdrawals_root_v4 (execution_payload_v4 x) = d_withdrawals_root (fb_diff p))
}.

Lemma build_envelope_holds ps b v :
  holds ps b -> well_formed ps ->
  match build_envelope b v with
  | Ok e => ps <> [] /\ describes ps v e
  | Err e => ps = [] /\ e = MissingPayload
  end.
Proof.
  intros [Hf Hb] Hw. unfold build_envelope. destruct ps as [|p ps].
  { by rewrite Hb. }
  destruct (Hw 0%nat p eq_refl) as [_ [_ Hbase]]. destruct (Hbase eq_refl) as [bs Hbs].
  simpl in Hb. rewrite Hb, Hbs, Hf, fmap_last, accumulate_concat.
  destruct (last (p :: ps)) as [q|] eqn:Hlast; [|by apply last_None_inv in Hlast].
  simpl. split; [done|]. split; try (destruct v; done).
  - exists p, bs. destruct v; done.
  - exists q. destruct v; split_and!; try done; by intros ? [= <-].
Qed.

(** C9: whatever messages arrive, in whatever order, the builder ends up holding
    exactly the ones it accepted, in order; their indices are 0, 1, 2, ..., and the
    first and no other has the base; [build_envelope] returns the payload they
    describe, and before the first is accepted it reports [MissingPayload].  The payload
    ids play no part in it. *)
Theorem feed_then_build (ps : list FlashblocksPayloadV1) (v : PayloadVersion) :
  let b := feed FlashblockBuilder_new ps in
  let acc := accepted FlashblockBuilder_new ps in
  well_formed acc /\ flashblocks b = fb_diff <$> acc /\
  match build_envelope b v with
  | Ok e => acc <> [] /\ describes acc v e
  | Err e => acc = [] /\ e = MissingPayload
  end.
Proof.
  destruct (feed_holds [] FlashblockBuilder_new ps holds_new ltac:(done)) as [Hh Hw].
  simpl in *. split_and!; [done|apply Hh|by apply build_envelope_holds].
Qed.

(** C17: a complete, in-order sequence of flashblocks of a block is accepted
    entirely, so its payload can be built. *)
Theorem in_order_accepted (ps : list FlashblocksPayloadV1) (v : PayloadVersion) :
  well_formed ps -> ps <> [] ->
  accepted FlashblockBuilder_new ps = ps /\
  exists e, build_envelope (feed FlashblockBuilder_new ps) v = Ok e /\ describes ps v e.
Proof.
  intros Hw Hne.
  assert (Hacc : accepted FlashblockBuilder_new ps = ps).
  { by apply (accepted_all []); [apply holds_new| |]. }
  split; [done|].
  pose proof (feed_holds [] FlashblockBuilder_new ps holds_new ltac:(done)) as [Hh Hw'].
  rewrite Hacc in *. simpl in *.
  pose proof (build_envelope_holds ps _ v Hh Hw) as Hb.
  destruct (build_envelope _ v) as [e|e]; [by exists e; destruct Hb|by destruct Hb].
Qed.

(** The errors of [extend]: a wrong index is reported first, then a missing
    base in the first flashblock, then a base in a later one; an error changes
    nothing. *)
Theorem extend_errors (p : FlashblocksPayloadV1) (b : FlashblockBuilder) :
  let n := Z.of_nat (length (flashblocks b)) in
  (fb_index p <> n -> extend p b = (Err InvalidIndex, b)) /\
  (fb_index p = n -> n = 0 -> fb_base p = None -> extend p b = (Err MissingBasePayload, b)) /\
  (fb_index p = n -> n <> 0 -> is_Some (fb_base p) ->
     extend p b = (Err UnexpectedBasePayload, b)) /\
  (fits (length (flashblocks b)) p <-> (extend p b).1 = Ok tt).
Proof.
  intros n. split_and!; [..|symmetry; apply extend_ok_iff]; unfold extend; fold n.
  - intros H. by rewrite (proj2 (Z.eqb_neq _ _) H).
  - intros -> -> ->. done.
  - intros -> H [bs ->]. by rewrite Z.eqb_refl, (proj2 (Z.eqb_neq _ _) H).
Qed.

End FlashblockBuilder.

(** ** Examples *)

Module Examples.
Import Demo.

Definition delta (gas hash : Z) (txs : list (list Z)) : ExecutionPayloadFlashblockDeltaV1 :=
  {| d_state_root := hash + 1; d_receipts_root := hash + 2; d_logs_bloom := 0;
     d_gas_used := gas; d_block_hash := hash; d_transactions := txs; d_withdrawals := [];
     d_withdrawals_root := 4; d_blob_gas_used := None |}.

Definition base0 : ExecutionPayloadBaseV1 :=
  {| b_parent_beacon_block_root := 5; b_parent_hash := 100; b_fee_recipient := 7;
     b_prev_randao := 3; b_block_number := 42; b_gas_limit := 30000000;
     b_timestamp := 1700000000; b_extra_data := []; b_base_fee_per_gas := 7 |}.

Definition fb (id index : Z) (b : option ExecutionPayloadBaseV1) (gas hash : Z)
    (txs : list (list Z)) : FlashblocksPayloadV1 :=
  {| fb_payload_id := id; fb_index := index; fb_base := b; fb_diff := delta gas hash txs;
     fb_metadata := 0 |}.

Definition block : list FlashblocksPayloadV1 :=
  [fb 11 0 (Some base0) 21000 500 [[1]]; fb 11 1 None 42000 600 [[2]; [3]]].

Lemma block_well_formed : well_formed block.
Proof.
  intros [|[|i]] p Hp; simpl in Hp; simplify_eq; (split; [done|]); simpl.
  - split; eauto.
  - split; [by intros [? ?]|done].
Qed.

Lemma in_order_accepted_witness :
  well_formed block /\ accepted FlashblockBuilder_new block = block.
Proof.
  split; [apply block_well_formed|].
  apply (in_order_accepted block V3); [apply block_well_formed|done].
Defined.

Example build_block :
  match build_envelope (feed FlashblockBuilder_new block) V4 with
  | Ok e => (gas_used e, transactions e) = (42000, [[1]; [2]; [3]])
  | Err _ => False
  end.
Proof. reflexivity. Qed.

(** Flashblocks of different payloads make a run: the builder accepts both. *)
Example payload_ids_not_compared :
  let ps := [fb 11 0 (Some base0) 21000 500 [[1]]; fb 22 1 None 42000 600 [[2]]] in
  accepted FlashblockBuilder_new ps = ps.
Proof. reflexivity. Qed.

End Examples.
