(* ===== verification/FlashblocksService.v ===== *)
(** * The flashblocks service

    [FlashblocksService] of crates/rollup-boost/src/flashblocks/service.rs: the
    builder client that serves [getPayload] from the flashblocks it has
    received, and falls back to the builder's RPC when it has none for the
    payload asked for.  Each lock of the service guards one critical section. *)
From S2P Require Import Prelude Async Payload RpcClient FlashblockBuilder.

Local Open Scope Z_scope.
Local Open Scope prog_scope.

(** The messages of the service's actor. *)
Inductive FlashblocksEngineMessage {ET : EngineTypes} : Set :=
| FlashblocksPayloadV1_message (payload : FlashblocksPayloadV1).

Section FlashblocksService.
Context {ET : EngineTypes}.

(** [reth_optimism_payload_builder::payload_id_optimism] *)
Context (payload_id_optimism : B256 -> OpPayloadAttributes -> Z -> PayloadId).

(** The state behind the locks of the service. *)
Record FlashblocksService : Set := {
  current_payload_id : option PayloadId;
  best_payload : FlashblockBuilder;
  max_flashblocks : Z
}.

Definition FlashblocksService_initial : FlashblocksService :=
  {| current_payload_id := None; best_payload := FlashblockBuilder_new; max_flashblocks := 0 |}.

(** [FlashblocksService::new], which fails when the publisher cannot listen at its
    address. *)
Definition FlashblocksService_new {P} (ws_pub : result P IoError)
  : result (P * FlashblocksService) IoError :=
  map_ok (fun p => (p, FlashblocksService_initial)) ws_pub.

Definition set_id (id : PayloadId) (s : FlashblocksService) : FlashblocksService :=
  {| current_payload_id := Some id; best_payload := best_payload s;
     max_flashblocks := max_flashblocks s |}.

Definition set_best (b : FlashblockBuilder) (s : FlashblocksService) : FlashblocksService :=
  {| current_payload_id := current_payload_id s; best_payload := b;
     max_flashblocks := max_flashblocks s |}.

Definition set_max (n : Z) (s : FlashblocksService) : FlashblocksService :=
  {| current_payload_id := current_payload_id s; best_payload := best_payload s;
     max_flashblocks := n |}.

Abbreviation S := FlashblocksService.

(** [FlashblocksServiceMetrics::record_flashblocks] *)
Definition record_flashblocks {T} (flashblocks_count max_flashblocks : Z) : M T unit :=
  let reduced_flashblocks := u64_saturating_sub max_flashblocks flashblocks_count in
  emit (Metric "flashblocks_gauge" flashblocks_count) ;;
  emit (Metric "flashblocks_counter" flashblocks_count) ;;
  emit (Metric "flashblocks_missing_histogram" reduced_flashblocks) ;;
  emit (Metric "flashblocks_missing_gauge" reduced_flashblocks) ;;
  emit (Metric "flashblocks_missing_counter" reduced_flashblocks).

(** The critical section of [get_best_payload]: under the write lock of
    [best_payload], the count, [fetch_max], and the builder taken out. *)
Definition take_best (s : S) : (Z * Z * FlashblockBuilder) * S :=
  let n := Z.of_nat (length (flashblocks (best_payload s))) in
  let m := Z.max (max_flashblocks s) n in
  ((n, m, best_payload s), set_best FlashblockBuilder_new (set_max m s)).

Definition get_best_payload (v : PayloadVersion) (id : PayloadId)
  : M S (result OpExecutionPayloadEnvelope FlashblocksError) :=
  let* current := read current_payload_id in
  if bool_decide (current <> Some id) then Ret (Err MissingPayload)
  else
    let* x := atomic take_best in
    let '(n, m, b) := x in
    record_flashblocks n m ;;
    emit (SpanInt "flashblocks_count" n) ;;
    Ret (into_envelope b v).

Definition set_current_payload_id (id : PayloadId) : M S unit :=
  modify (set_id id) ;;
  modify (set_best FlashblockBuilder_new).

Definition on_event (e : FlashblocksEngineMessage) : M S unit :=
  match e with
  | FlashblocksPayloadV1_message payload =>
      emit (Metric "messages_processed" 1) ;;
      let* current := read current_payload_id in
      match current with
      | Some id =>
          if bool_decide (id <> fb_payload_id payload) then
            emit (Metric "current_payload_id_mismatch" 1)
          else
            let* r := atomic (fun s =>
              let (r, b) := extend payload (best_payload s) in (r, set_best b s)) in
            match r with
            | Err e => emit (Metric "extend_payload_errors" 1)
            | Ok tt => emit (Publish payload)
            end
      | None => Ret tt
      end
  end.

(** [run]: the messages of the channel, one after the other. *)
Fixpoint service_run (stream : list FlashblocksPayloadV1) : M S unit :=
  match stream with
  | [] => Ret tt
  | event :: stream => on_event (FlashblocksPayloadV1_message event) ;; service_run stream
  end.

(** ** [impl EngineApiExt for FlashblocksService] *)

Section Client.
Context (client : RpcClient).

Definition fb_fork_choice_updated_v3 (s : ForkchoiceState) (a : option OpPayloadAttributes)
  : M S (ClientResult ForkchoiceUpdated) :=
  match a with
  | Some attr => set_current_payload_id (payload_id_optimism (head_block_hash s) attr 3)
  | None => Ret tt
  end ;;
  let*? resp := rpc_fork_choice_updated_v3 client s a in
  match payload_id resp with
  | Some id =>
      let* current_payload := read current_payload_id in
      if bool_decide (current_payload <> Some id) then set_current_payload_id id else Ret tt
  | None => Ret tt
  end ;;
  Ret (Ok resp).

Definition fb_new_payload (n : NewPayload) : M S (ClientResult PayloadStatus) :=
  rpc_new_payload client n.

Definition fb_get_payload (id : PayloadId) (v : PayloadVersion)
  : M S (ClientResult OpExecutionPayloadEnvelope) :=
  let* r := get_best_payload v id in
  match r with
  | Ok payload =>
      emit (Spawn (Spawn_finalising_get_payload id v)) ;;
      Ret (Ok payload)
  | Err e =>
      let*? result := rpc_get_payload client id v in
      Ret (Ok result)
  end.

Definition fb_get_block_by_number (n : BlockNumberOrTag) (full : bool) : M S (ClientResult Block) :=
  rpc_get_block_by_number client n full.

Definition FlashblocksService_EngineApiExt : EngineApiExt S := {|
  fork_choice_updated_v3 := fb_fork_choice_updated_v3;
  new_payload := fb_new_payload;
  get_payload := fb_get_payload;
  get_block_by_number := fb_get_block_by_number
|}.

End Client.

(** ** The service as a builder client *)

Lemma get_best_payload_confined v id : every (get_best_payload v id) (confined Builder).
Proof.
  apply confined_bind; [apply confined_atomic|]. intros current.
  case_bool_decide; [apply confined_ret|].
  apply confined_bind; [apply confined_atomic|]. intros [[n m] b].
  repeat (apply confined_bind; [|intros _]); try apply confined_emit.
  apply confined_ret.
Qed.

Lemma set_current_payload_id_confined id : every (set_current_payload_id id) (confined Builder).
Proof. apply confined_bind; [apply confined_atomic|intros; apply confined_atomic]. Qed.

Lemma fb_get_payload_version client id v :
  every (fb_get_payload client id v)
    (fun _ o => forall p, o = Returned (Ok p) -> version p = v).
Proof.
  assert (Hrpc : every (let*? result := rpc_get_payload client id v in Ret (Ok result))
    (fun (_ : list (event Reply Obs S)) o => forall p, o = Returned (Ok p) -> version p = v)).
  { eapply every_bind; [apply rpc_get_payload_version|by intros|].
    intros t [p|e] H; simpl; intros p' [= ->]. by apply H. }
  unfold fb_get_payload, get_best_payload. cbn. intros s0. case_bool_decide; cbn.
  { by eapply every_mono; [|apply Hrpc]. }
  intros s. destruct (into_envelope (best_payload s) v) as [p|e] eqn:Hb; cbn.
  - intros p' [= <-]. by eapply build_envelope_version.
  - by eapply every_mono; [|apply Hrpc].
Qed.

(** The flashblocks service keeps the contract of a builder client: no
    operation panics, none of them sends anything to the L2 node, and
    [get_payload] returns the version asked for. *)
Theorem FlashblocksService_BuilderClient (client : RpcClient) :
  payload_source client = Builder ->
  @BuilderClient _ S (FlashblocksService_EngineApiExt client).
Proof.
  intros Hsrc. split; intros.
  - apply confined_bind.
    { destruct a; [apply set_current_payload_id_confined|apply confined_ret]. }
    intros _. apply confined_bind.
    { by eapply once_confined; [|apply rpc_fork_choice_updated_v3_once]. }
    intros [resp|e]; [|apply confined_ret].
    apply confined_bind; [|intros; apply confined_ret].
    destruct (payload_id resp); [|apply confined_ret].
    apply confined_bind; [apply confined_atomic|]. intros current.
    case_bool_decide; [apply set_current_payload_id_confined|apply confined_ret].
  - by eapply once_confined; [|apply rpc_new_payload_once].
  - apply confined_bind; [apply get_best_payload_confined|]. intros [p|e].
    { apply confined_bind; [apply confined_emit|intros; apply confined_ret]. }
    apply confined_bind; [by eapply once_confined; [|apply rpc_get_payload_once]|].
    intros [r|e']; apply confined_ret.
  - pose proof (rpc_get_block_by_number_once (S := S) client n full) as H.
    by rewrite Hsrc in H.
  - apply fb_get_payload_version.
Qed.

(** ** getPayload from flashblocks *)

(** The builder, as the critical section of [get_best_payload] found it. *)
Definition taken (t : list (event Reply Obs S)) (b : FlashblockBuilder) : Prop :=
  exists s s', EvAtomic s s' ∈ t /\ best_payload s = b /\ best_payload s' = FlashblockBuilder_new.

(** C11: [getPayload] answers either with the payload of the flashblocks taken
    out of the service (which is then empty), the payload id having matched, and
    without asking the builder for it; or with the builder's reply to exactly one
    [getPayload] request, when the id did not match or nothing could be built. *)
Theorem fb_get_payload_spec (client : RpcClient) (id : PayloadId) (v : PayloadVersion) :
  every (fb_get_payload client id v) (fun t o =>
    (exists p b, o = Returned (Ok p) /\ taken t b /\ build_envelope b v = Ok p /\
       (exists s s', EvAtomic s s' ∈ t /\ current_payload_id s = Some id) /\
       EvEmit (Spawn (Spawn_finalising_get_payload id v)) ∈ t /\
       Forall (fun x => forall src, is_request_to src x = false) t) \/
    (exists r, requests_to (payload_source client) t =
         [EvAwait (payload_source client, get_payload_request id v) r] /\
       o = Returned (get_payload_result _ id v r) /\
       ((exists s s', EvAtomic s s' ∈ t /\ current_payload_id s <> Some id) \/
        (exists b e, taken t b /\ build_envelope b v = Err e)))).
Proof.
  unfold fb_get_payload, get_best_payload. cbn. intros s0. case_bool_decide as Hid; cbn.
  - eapply every_bind; [apply rpc_get_payload_once| |].
    { by intros t m (? & _ & ?). }
    intros t r Hr. apply calls_once_requests in Hr as (r' & Ht & [= ->]).
    destruct (get_payload_result _ id v r') as [p|e] eqn:Hres; simpl; right; exists r';
      rewrite app_nil_r; (split; [exact Ht|]); (split; [by rewrite Hres|]);
      left; exists s0, s0; split; [left|done|left|done].
  - intros s. destruct (into_envelope (best_payload s) v) as [p|e] eqn:Hb; cbn.
    + left. exists p, (best_payload s). split; [done|]. split_and!.
      * exists s, (set_best FlashblockBuilder_new (set_max (Z.max (max_flashblocks s)
          (Z.of_nat (length (flashblocks (best_payload s))))) s)). split; [|done]. set_solver.
      * done.
      * exists s0, s0. by split; [left|].
      * set_solver.
      * repeat constructor; by intros.
    + eapply every_bind; [apply rpc_get_payload_once| |].
      { by intros t m (? & _ & ?). }
      intros t r Hr. apply calls_once_requests in Hr as (r' & Ht & [= ->]).
      destruct (get_payload_result _ id v r') as [p|e'] eqn:Hres; simpl; right; exists r';
        rewrite app_nil_r; (split; [exact Ht|]); (split; [by rewrite Hres|]);
        right; exists (best_payload s), e; (split; [|done]);
        eexists s, _; (split; [right; left|done]).
Qed.

(** ** Refinement

    The specification: the id of the payload being built and the flashblocks
    received for it, in order. *)
Record building : Set := { b_id : option PayloadId; b_flashblocks : list FlashblocksPayloadV1 }.

Definition spec_next (b : building) (p : FlashblocksPayloadV1) : Prop :=
  b_id b = Some (fb_payload_id p) /\ fits (length (b_flashblocks b)) p.

(** The service operations, each run to completion. *)
Inductive operation : Set :=
| OpSetId (id : PayloadId)
| OpEvent (p : FlashblocksPayloadV1)
| OpGet (v : PayloadVersion) (id : PayloadId).

Inductive response : Set :=
| Done
| Got (r : result OpExecutionPayloadEnvelope FlashblocksError).

(** What [OpGet] may answer when the flashblocks [ps] have been received. *)
Definition answer_of (ps : list FlashblocksPayloadV1) (v : PayloadVersion)
    (r : result OpExecutionPayloadEnvelope FlashblocksError) : Prop :=
  match r with
  | Ok e => ps <> [] /\ describes ps v e
  | Err e => ps = [] /\ e = MissingPayload
  end.

Inductive spec_step : building -> operation -> response -> building -> Prop :=
| spec_set_id b id :
    spec_step b (OpSetId id) Done {| b_id := Some id; b_flashblocks := [] |}
| spec_accept b p :
    spec_next b p ->
    spec_step b (OpEvent p) Done {| b_id := b_id b; b_flashblocks := b_flashblocks b ++ [p] |}
| spec_ignore b p : ~ spec_next b p -> spec_step b (OpEvent p) Done b
| spec_get b v id r : b_id b = Some id -> answer_of (b_flashblocks b) v r ->
    spec_step b (OpGet v id) (Got r) {| b_id := b_id b; b_flashblocks := [] |}
| spec_get_other b v id : b_id b <> Some id ->
    spec_step b (OpGet v id) (Got (Err MissingPayload)) b.

Inductive spec_run : building -> list operation -> list response -> building -> Prop :=
| spec_run_nil b : spec_run b [] [] b
| spec_run_cons b op r b' ops rs b'' :
    spec_step b op r b' -> spec_run b' ops rs b'' -> spec_run b (op :: ops) (r :: rs) b''.

Definition op_prog (op : operation) : M S response :=
  match op with
  | OpSetId id => set_current_payload_id id ;; Ret Done
  | OpEvent p => on_event (FlashblocksPayloadV1_message p) ;; Ret Done
  | OpGet v id => let* r := get_best_payload v id in Ret (Got r)
  end.

Fixpoint ops_prog (ops : list operation) : M S (list response) :=
  match ops with
  | [] => Ret []
  | op :: ops => let* r := op_prog op in let* rs := ops_prog ops in Ret (r :: rs)
  end.

(** The service state implements the specification state. *)
Definition implements (s : S) (b : building) : Prop :=
  current_payload_id s = b_id b /\
  holds (b_flashblocks b) (best_payload s) /\
  well_formed (b_flashblocks b) /\
  Forall (fun p => b_id b = Some (fb_payload_id p)) (b_flashblocks b).

Definition refines (s : S) (b : building) (op : operation) : Prop :=
  exists r s' b', alone (op_prog op) s = Some (r, s') /\ spec_step b op r b' /\ implements s' b'.

Lemma on_event_refines s b p : implements s b -> refines s b (OpEvent p).
Proof.
  intros (Hid & Hh & Hw & Hall). unfold refines. simpl. rewrite Hid.
  destruct (b_id b) as [id|] eqn:Hb; simpl.
  2: { exists Done, s, b. split_and!; [done| |unfold implements; rewrite Hb; done].
       apply spec_ignore. intros [H _]. by rewrite Hb in H. }
  case_bool_decide as Hne; simpl.
  { exists Done, s, b. split_and!; [done| |unfold implements; rewrite Hb; done].
    apply spec_ignore. intros [H _]. rewrite Hb in H. by simplify_eq. }
  subst id. pose proof (extend_ok_iff p (best_payload s)) as Hiff.
  pose proof (extend_ok_holds p _ _ Hh) as Hok. pose proof (extend_err_same p (best_payload s)) as Herr.
  rewrite (holds_length _ _ Hh) in Hiff.
  destruct (extend p (best_payload s)) as [[[]|e] b'] eqn:E; simpl in *.
  - eexists _, _, _. split_and!; [done|apply spec_accept; split; [done|by apply Hiff]|].
    unfold implements. simpl. rewrite Hb. split_and!; auto.
    + apply well_formed_snoc. split; [done|by apply Hiff].
    + apply Forall_app. split; [done|by constructor].
  - rewrite (Herr e eq_refl). exists Done, (set_best (best_payload s) s), b. split_and!; [done| |].
    + apply spec_ignore. intros [_ H]. by apply Hiff in H.
    + unfold implements. simpl. by rewrite Hb, <- Hid in *.
Qed.

Lemma get_best_refines s b v id : implements s b -> refines s b (OpGet v id).
Proof.
  intros (Hid & Hh & Hw & Hall). unfold refines. simpl. case_bool_decide as Hne; simpl.
  - eexists _, s, b. split_and!; [done|apply spec_get_other; congruence|done].
  - eexists _, _, _. split_and!; [done|apply spec_get; [congruence|by apply build_envelope_holds]|].
    unfold implements. simpl. split_and!; [congruence|done|done|constructor].
Qed.

Lemma operation_refines s b op : implements s b -> refines s b op.
Proof.
  intros H. destruct op as [id|p|v id].
  - eexists _, _, _. split_and!; [done|apply spec_set_id|]. repeat split; [done..|constructor].
  - by apply on_event_refines.
  - by apply get_best_refines.
Qed.

(** C10: operations that run one at a time implement the specification: from a
    state that implements [b], every sequence of operations completes, with
    responses that the specification allows, and ends in a state that implements
    the specification's.  In particular the service only ever holds flashblocks
    of the payload it is currently building, from index 0 on without gaps, and
    [get_best_payload] returns the payload that exactly these describe. *)
Theorem operations_refine (s : S) (b : building) (ops : list operation) :
  implements s b ->
  exists rs s' b', alone (ops_prog ops) s = Some (rs, s') /\
    spec_run b ops rs b' /\ implements s' b'.
Proof.
  revert s b. induction ops as [|op ops IH]; intros s b Hi; cbn [ops_prog].
  { exists [], s, b. by split_and!; [|constructor|]. }
  destruct (operation_refines s b op Hi) as (r & s1 & b1 & Ha & Hs & Hi1).
  destruct (IH s1 b1 Hi1) as (rs & s2 & b2 & Ha2 & Hs2 & Hi2).
  exists (r :: rs), s2, b2. split_and!; [|by econstructor|done].
  by rewrite alone_bind, Ha, alone_bind, Ha2.
Qed.

Lemma initial_implements :
  implements FlashblocksService_initial {| b_id := None; b_flashblocks := [] |}.
Proof. repeat split; [done..|constructor]. Qed.

(** The count of flashblocks that [get_best_payload] records is never above
    the maximum it records with it, and the maximum never decreases. *)
Theorem take_best_max (s : S) :
  let '((n, m, _), s') := take_best s in
  n <= m /\ max_flashblocks s <= max_flashblocks s' /\ max_flashblocks s' = m /\
  best_payload s' = FlashblockBuilder_new.
Proof. simpl. split_and!; [lia|lia|done|done]. Qed.

End FlashblocksService.

(** ** Examples *)

Module ServiceExamples.
Import Demo FlashblockBuilder.Examples.

Definition payload_id_of (h : Z) (a : OpPayloadAttributes) (v : Z) : Z := h + v.

Lemma operations_refine_witness :
  exists rs s' b',
    alone (ops_prog [OpSetId 11; OpEvent (fb 11 0 (Some base0) 21000 500 [[1]]); OpGet V3 11])
      FlashblocksService_initial = Some (rs, s') /\
    spec_run {| b_id := None; b_flashblocks := [] |}
      [OpSetId 11; OpEvent (fb 11 0 (Some base0) 21000 500 [[1]]); OpGet V3 11] rs b' /\
    implements s' b'.
Proof. apply operations_refine, initial_implements. Defined.

Definition builder_rpc : RpcClient := {| auth_rpc := "builder"; payload_source := Builder |}.

Lemma FlashblocksService_BuilderClient_witness :
  payload_source builder_rpc = Builder /\
  @BuilderClient _ _ (FlashblocksService_EngineApiExt payload_id_of builder_rpc).
Proof. split; [done|]. by apply (FlashblocksService_BuilderClient payload_id_of builder_rpc). Defined.

(** Another task switches to payload 22 between the id check of [on_event] and
    its [extend]. *)
Definition switching_env : env Reply Obs FlashblocksService :=
  {| respond := fun _ c =>
       match c as c return Reply c with
       | (_, Req_forkchoiceUpdatedV3 _ _) => Err (ClientOther "down"%string)
       | (_, Req_getPayloadV3 _) => Err (ClientOther "down"%string)
       | (_, Req_newPayloadV3 _ _ _) => Err (ClientOther "down"%string)
       | (_, Req_getPayloadV4 _) => Err (ClientOther "down"%string)
       | (_, Req_newPayloadV4 _ _ _ _) => Err (ClientOther "down"%string)
       | (_, Req_getBlockByNumber _ _) => Err (ClientOther "down"%string)
       end;
     interfere := fun h s =>
       if (length h =? 2)%nat then
         match alone (set_current_payload_id 22) s with Some (_, s') => s' | None => s end
       else s |}.

Definition serving (id : Z) : FlashblocksService :=
  {| current_payload_id := Some id; best_payload := FlashblockBuilder_new; max_flashblocks := 0 |}.

(** The id check and the extension of [on_event] are two critical sections:
    when [set_current_payload_id] runs between them, the first flashblock of the
    old payload becomes the first flashblock of the new one.  The service then
    rejects the new payload's own first flashblock with [InvalidIndex] and would
    serve the old block's contents for the new payload id. *)
Theorem on_event_race :
  let s' := run_state switching_env
    (on_event (FlashblocksPayloadV1_message (fb 11 0 (Some base0) 21000 500 [[1]]))) (serving 11) in
  current_payload_id s' = Some 22 /\
  flashblocks (best_payload s') = [delta 21000 500 [[1]]] /\
  (extend (fb 22 0 (Some base0) 21000 900 [[9]]) (best_payload s')).1 = Err InvalidIndex.
Proof. vm_compute. done. Qed.

End ServiceExamples.
