(* ===== verification/Server.v ===== *)
(** * The rollup-boost server

    [RollupBoostServer] of crates/rollup-boost/src/server.rs: the Engine API that
    the consensus node talks to.  Every request goes to the L2 client; the
    builder is used beside it, through [EngineApiExt].  Handlers run concurrently
    with each other, with the health checker and with the debug API, all of which
    share [Shared]. *)
From S2P Require Import Prelude Async Payload PayloadTrace RpcClient F64 Selection Probe.
From S2P Require Import DebugApi.

Local Open Scope Z_scope.
Local Open Scope prog_scope.

Section Server.
Context {ET : EngineTypes} {T : Type} `{EA : !EngineApiExt T}.

(** The immutable fields of [RollupBoostServer]. *)
Record RollupBoostServer : Set := {
  l2_client : RpcClient;
  block_selection_policy : option BlockSelectionPolicy;
  external_state_root : bool;
  ignore_unhealthy_builders : bool
}.

(** The fields with interior mutability, and the state of the builder client. *)
Record Shared : Type := {
  builder_client : T;
  payload_trace_context : PayloadTraceContext;
  execution_mode : ExecutionMode;
  probes : Probes;
  payload_to_fcu_request : gmap PayloadId (ForkchoiceState * option OpPayloadAttributes)
}.

(** The state that [RollupBoostServer::new] starts with. *)
Definition Shared_new (builder : T) (initial_execution_mode : ExecutionMode) (p : Probes) : Shared :=
  {| builder_client := builder;
     payload_trace_context := PayloadTraceContext_new;
     execution_mode := initial_execution_mode;
     probes := p;
     payload_to_fcu_request := ∅ |}.

(** [RollupBoostServer::new], with the gauge of the execution mode before and
    after. *)
Definition RollupBoostServer_new (l2 : RpcClient) (builder : T)
    (initial_execution_mode : ExecutionMode) (policy : option BlockSelectionPolicy) (p : Probes)
    (external_state_root ignore_unhealthy_builders : bool) (gauge : option f64)
  : RollupBoostServer * Shared * option f64 :=
  let gauge := update_execution_mode_gauge initial_execution_mode gauge in
  ({| l2_client := l2;
      block_selection_policy := policy;
      external_state_root := external_state_root;
      ignore_unhealthy_builders := ignore_unhealthy_builders |},
   Shared_new builder initial_execution_mode p, gauge).

Definition set_builder_client (x : T) (s : Shared) : Shared :=
  {| builder_client := x; payload_trace_context := payload_trace_context s;
     execution_mode := execution_mode s; probes := probes s;
     payload_to_fcu_request := payload_to_fcu_request s |}.

Definition set_payload_trace_context (x : PayloadTraceContext) (s : Shared) : Shared :=
  {| builder_client := builder_client s; payload_trace_context := x;
     execution_mode := execution_mode s; probes := probes s;
     payload_to_fcu_request := payload_to_fcu_request s |}.

(** [set_execution_mode] and [get_execution_mode] of the server. *)
Definition set_execution_mode (x : ExecutionMode) (s : Shared) : Shared :=
  {| builder_client := builder_client s; payload_trace_context := payload_trace_context s;
     execution_mode := x; probes := probes s;
     payload_to_fcu_request := payload_to_fcu_request s |}.

Definition get_execution_mode (s : Shared) : ExecutionMode := execution_mode s.

Definition set_probes (x : Probes) (s : Shared) : Shared :=
  {| builder_client := builder_client s; payload_trace_context := payload_trace_context s;
     execution_mode := execution_mode s; probes := x;
     payload_to_fcu_request := payload_to_fcu_request s |}.

Definition set_fcu_requests
    (x : gmap PayloadId (ForkchoiceState * option OpPayloadAttributes)) (s : Shared) : Shared :=
  {| builder_client := builder_client s; payload_trace_context := payload_trace_context s;
     execution_mode := execution_mode s; probes := probes s; payload_to_fcu_request := x |}.

Abbreviation MS A := (M Shared A).
Abbreviation RpcResult X := (result X ErrorObject).

(** The components' operations inside the server. *)
Definition on_builder {A} (p : M T A) : MS A := zoom builder_client set_builder_client p.
Definition on_trace {A} (p : M PayloadTraceContext A) : MS A :=
  zoom payload_trace_context set_payload_trace_context p.
Definition put_health (h : Health) : MS unit :=
  modify (fun s => set_probes (set_health h (probes s)) s).

(** The implicit [From<RpcClientError>] of [?] and [.into()]. *)
Definition into_rpc {X} (r : ClientResult X) : RpcResult X := map_err ErrorObject_from r.

Section Handlers.
Context (self : RollupBoostServer).

Definition should_skip_unhealthy_builder : MS bool :=
  if ignore_unhealthy_builders self then
    let* h := read (fun s => health (probes s)) in
    Ret (match h with Healthy => false | _ => true end)
  else Ret false.

(** ** engine_newPayload *)

Fixpoint follow_causes (causes : list SpanId) : MS unit :=
  match causes with
  | [] => Ret tt
  | c :: causes => emit (SpanFollows c) ;; follow_causes causes
  end.

Definition server_new_payload (np : NewPayload) : MS (RpcResult PayloadStatus) :=
  let execution_payload := ExecutionPayload_from_new_payload np in
  let parent_hash := parent_hash (as_v1 execution_payload) in
  let* causes := on_trace (trace_ids_from_parent_hash parent_hash) in
  match causes with Some causes => follow_causes causes | None => Ret tt end ;;
  on_trace (remove_by_parent_hash parent_hash) ;;
  let* mode := read execution_mode in
  let* sync :=
    (if negb (is_disabled mode) then
       let* skip := should_skip_unhealthy_builder in Ret (negb skip)
     else Ret false) in
  (if sync : bool then emit (Spawn (Spawn_builder_new_payload np)) else Ret tt) ;;
  let* r := rpc_new_payload (l2_client self) np in
  Ret (into_rpc r).

(** ** engine_getPayload *)

Record BuilderPayloadResult : Set := {
  bp_payload : option OpExecutionPayloadEnvelope;
  builder_api_failed : bool
}.

Abbreviation BuilderResult := (RpcResult BuilderPayloadResult).

(** The attributes that make the L2 client rebuild the builder's block. *)
Definition external_attributes (builder_payload : OpExecutionPayloadEnvelope)
    (attrs : option OpPayloadAttributes) : OpPayloadAttributes :=
  match attrs with
  | Some attrs =>
      {| payload_attributes_of := payload_attributes_of attrs;
         oa_transactions := Some (transactions builder_payload);
         no_tx_pool := Some true;
         oa_gas_limit := oa_gas_limit attrs;
         eip_1559_params := eip_1559_params attrs;
         min_base_fee := min_base_fee attrs |}
  | None =>
      {| payload_attributes_of := payload_attributes builder_payload;
         oa_transactions := Some (transactions builder_payload);
         no_tx_pool := Some true;
         oa_gas_limit := None;
         eip_1559_params := None;
         min_base_fee := None |}
  end.

Definition calculate_external_state_root (builder_payload : OpExecutionPayloadEnvelope)
    (id : PayloadId) (v : PayloadVersion) : MS (RpcResult (option OpExecutionPayloadEnvelope)) :=
  let* fcu_info := atomic (fun s =>
    (payload_to_fcu_request s !! id,
     set_fcu_requests (delete id (payload_to_fcu_request s)) s)) in
  match fcu_info with
  | None => Panic "called `Option::unwrap()` on a `None` value"
  | Some (fcu_state, fcu_attrs) =>
      let new_payload_attrs := external_attributes builder_payload fcu_attrs in
      let* l2_result := rpc_fork_choice_updated_v3 (l2_client self) fcu_state
                          (Some new_payload_attrs) in
      match into_rpc l2_result with
      | Err e => Ret (Err e)
      | Ok l2_result =>
          match payload_id l2_result with
          | Some new_payload_id =>
              let* l2_payload := rpc_get_payload (l2_client self) new_payload_id v in
              match l2_payload with
              | Ok new_payload => Ret (Ok (Some new_payload))
              | Err e => Ret (Ok None)
              end
          | None => Ret (Ok None)
          end
      end
  end.

(** The future [builder_fut] of [get_payload]. *)
Definition builder_fut (id : PayloadId) (v : PayloadVersion) : MS BuilderResult :=
  let* cause := on_trace (trace_id id) in
  match cause with Some c => emit (SpanFollows c) | None => Ret tt end ;;
  let* has := on_trace (has_builder_payload id) in
  if negb has then
    emit (SpanStr "builder_has_payload" "false") ;;
    Ret (Ok {| bp_payload := None; builder_api_failed := true |})
  else
    emit (SpanStr "builder_has_payload" "true") ;;
    let* payload := on_builder (get_payload id v) in
    match payload with
    | Err e => Ret (Ok {| bp_payload := None; builder_api_failed := true |})
    | Ok payload =>
        if negb (external_state_root self) then
          let* st := rpc_new_payload (l2_client self) (NewPayload_from_envelope payload) in
          match into_rpc st with
          | Err e => Ret (Err e)
          | Ok _ => Ret (Ok {| bp_payload := Some payload; builder_api_failed := false |})
          end
        else
          let* external_payload := calculate_external_state_root payload id v in
          match external_payload with
          | Err e => Ret (Err e)
          | Ok p => Ret (Ok {| bp_payload := p; builder_api_failed := false |})
          end
    end.

(** The differences recorded in the span, in [i64] arithmetic. *)
Definition gas_delta (b l : OpExecutionPayloadEnvelope) : Z :=
  as_i64 (as_i64 (gas_used b) - as_i64 (gas_used l)).
Definition tx_count_delta (b l : OpExecutionPayloadEnvelope) : Z :=
  as_i64 (as_i64 (tx_count b) - as_i64 (tx_count l)).

(** The choice between the two payloads once both futures are done. *)
Definition evaluate (l2_payload : ClientResult OpExecutionPayloadEnvelope)
    (builder_payload : BuilderResult)
  : MS (RpcResult (OpExecutionPayloadEnvelope * PayloadSource)) :=
  match l2_payload with
  | Err e => put_health ServiceUnavailable ;; Ret (Err (ErrorObject_from e))
  | Ok l2_payload =>
      put_health Healthy ;;
      let (builder_payload, builder_api_failed) :=
        match builder_payload with
        | Ok r => (bp_payload r, builder_api_failed r)
        | Err e => (None, true)
        end in
      match builder_payload with
      | Some builder_payload =>
          emit (SpanInt "gas_delta" (gas_delta builder_payload l2_payload)) ;;
          emit (SpanInt "tx_count_delta" (tx_count_delta builder_payload l2_payload)) ;;
          let* mode := read execution_mode in
          Ret (Ok (if is_dry_run mode then (l2_payload, L2)
                   else match block_selection_policy self with
                        | Some policy => select_block policy builder_payload l2_payload
                        | None => (builder_payload, Builder)
                        end))
      | None =>
          let* mode := read execution_mode in
          (if is_enabled mode && builder_api_failed then put_health PartialContent else Ret tt) ;;
          Ret (Ok (l2_payload, L2))
      end
  end.

(** The path of the disabled execution mode. *)
Definition get_payload_disabled (id : PayloadId) (v : PayloadVersion)
  : MS (RpcResult OpExecutionPayloadEnvelope) :=
  let* r := rpc_get_payload (l2_client self) id v in
  match r with
  | Ok payload =>
      put_health Healthy ;;
      emit (SpanStr "payload_source" (PayloadSource_to_string L2)) ;;
      emit (BlocksCreated L2) ;;
      Ret (Ok payload)
  | Err e => put_health ServiceUnavailable ;; Ret (Err (ErrorObject_from e))
  end.

Definition server_get_payload (sch : list bool) (id : PayloadId) (v : PayloadVersion)
  : MS (RpcResult OpExecutionPayloadEnvelope) :=
  let* mode := read execution_mode in
  if is_disabled mode then get_payload_disabled id v
  else
    let* r := join (rpc_get_payload (l2_client self) id v) sch (builder_fut id v) in
    let (l2_payload, builder_payload) := r in
    let*? chosen := evaluate l2_payload builder_payload in
    emit (SpanStr "payload_source" (PayloadSource_to_string chosen.2)) ;;
    emit (BlocksCreated chosen.2) ;;
    Ret (Ok chosen.1).

Definition INVALID_REQUEST_CODE : Z := -32600.

Definition get_payload_v3 (sch : list bool) (id : PayloadId)
  : MS (RpcResult OpExecutionPayloadEnvelopeV3) :=
  let*? p := server_get_payload sch id V3 in
  Ret (match p with
       | EnvelopeV3 v3 => Ok v3
       | EnvelopeV4 _ =>
           Err (ErrorObject_owned INVALID_REQUEST_CODE "Payload version 4 not supported")
       end).

Definition get_payload_v4 (sch : list bool) (id : PayloadId)
  : MS (RpcResult OpExecutionPayloadEnvelopeV4) :=
  let*? p := server_get_payload sch id V4 in
  Ret (match p with
       | EnvelopeV4 v4 => Ok v4
       | EnvelopeV3 _ =>
           Err (ErrorObject_owned INVALID_REQUEST_CODE "Payload version 4 not supported")
       end).

Definition new_payload_v3 (p : ExecutionPayloadV3) (hashes : list B256) (root : B256)
  : MS (RpcResult PayloadStatus) :=
  server_new_payload (NP_V3 {| np3_payload := p; np3_versioned_hashes := hashes;
                               np3_parent_beacon_block_root := root |}).

Definition new_payload_v4 (p : OpExecutionPayloadV4) (hashes : list B256) (root : B256)
    (requests : list Bytes) : MS (RpcResult PayloadStatus) :=
  server_new_payload (NP_V4 {| np4_payload := p; np4_versioned_hashes := hashes;
                               np4_parent_beacon_block_root := root;
                               np4_execution_requests := requests |}).

Definition server_get_block_by_number (n : BlockNumberOrTag) (full : bool)
  : MS (RpcResult Block) :=
  let* r := rpc_get_block_by_number (l2_client self) n full in
  Ret (into_rpc r).

(** ** engine_forkchoiceUpdatedV3 *)

Definition insert_fcu_request (id : PayloadId) (s : ForkchoiceState)
    (a : option OpPayloadAttributes) : MS unit :=
  if external_state_root self then
    modify (fun st => set_fcu_requests (<[id := (s, a)]> (payload_to_fcu_request st)) st)
  else Ret tt.

Definition server_fork_choice_updated_v3 (sch : list bool) (span : option SpanId)
    (s : ForkchoiceState) (a : option OpPayloadAttributes) : MS (RpcResult ForkchoiceUpdated) :=
  let l2_fut := rpc_fork_choice_updated_v3 (l2_client self) s a in
  let* mode := read execution_mode in
  if is_disabled mode then let* r := l2_fut in Ret (into_rpc r)
  else
    let* skip := should_skip_unhealthy_builder in
    if skip : bool then let* r := l2_fut in Ret (into_rpc r)
    else
      match a with
      | Some attrs =>
          if default false (no_tx_pool attrs) then
            let* r := l2_fut in
            match into_rpc r with
            | Err e => Ret (Err e)
            | Ok l2_response =>
                match payload_id l2_response with
                | Some id => on_trace (store id (head_block_hash s) false span)
                | None => Ret tt
                end ;;
                Ret (Ok l2_response)
            end
          else
            let* r := join l2_fut sch (on_builder (fork_choice_updated_v3 s a)) in
            let (l2_result, builder_result) := r in
            match into_rpc l2_result with
            | Err e => Ret (Err e)
            | Ok l2_response =>
                match payload_id l2_response with
                | Some id =>
                    on_trace (store id (head_block_hash s) (is_ok builder_result) span) ;;
                    insert_fcu_request id s a
                | None => Ret tt
                end ;;
                Ret (Ok l2_response)
            end
      | None =>
          emit (Spawn (Spawn_builder_fork_choice_updated s a)) ;;
          let* r := l2_fut in
          match into_rpc r with
          | Err e => Ret (Err e)
          | Ok l2_response =>
              match payload_id l2_response with
              | Some id => insert_fcu_request id s a
              | None => Ret tt
              end ;;
              Ret (Ok l2_response)
          end
      end.

End Handlers.
End Server.
