(* ===== verification/ServerProps.v ===== *)
(** * Properties of the server

    Proved against the interface [BuilderClient]; they hold of the server over a
    plain RPC client and over the flashblocks service alike.  "Every run" ranges
    over all replies of the two nodes, all interleavings of the joined futures
    and all changes other tasks make to the shared state between two steps. *)
From S2P Require Import Prelude Async Payload PayloadTrace RpcClient Selection Probe DebugApi Server.

Local Open Scope Z_scope.
Local Open Scope prog_scope.

Section ServerProps.
Context {ET : EngineTypes} {T : Type} `{EA : !EngineApiExt T} {BC : BuilderClient T}.
Context (self : RollupBoostServer) (Hl2 : payload_source (l2_client self) = L2).

Abbreviation Ev := (event Reply Obs (Shared (T := T))).

(** ** Parts of the handlers *)

Lemma on_trace_silent {A} (p : M PayloadTraceContext A) :
  every p silent -> every (on_trace (T := T) p) silent.
Proof. by apply silent_zoom. Qed.

Lemma on_builder_confined {A} (p : M T A) :
  every p (confined Builder) -> every (on_builder p) (confined Builder).
Proof. by apply confined_every_zoom. Qed.

Lemma on_builder_version id v :
  every (on_builder (get_payload id v))
    (fun (_ : list Ev) o => forall p, o = Returned (Ok p) -> version p = v).
Proof.
  apply (every_zoom builder_client set_builder_client (get_payload id v)
    (fun _ o => forall p, o = Returned (Ok p) -> version p = v)); [done|].
  apply get_payload_version.
Qed.

Lemma store_silent id h b sp : every (store id h b sp) silent.
Proof. unfold store. silent_tac. Qed.

Lemma collect_trace_ids_silent ids : every (collect_trace_ids ids) silent.
Proof.
  induction ids; cbn [collect_trace_ids]; [apply silent_ret|].
  apply silent_bind; [apply silent_atomic|intros ?]. by silent_tac.
Qed.

Lemma trace_ids_silent h : every (trace_ids_from_parent_hash h) silent.
Proof.
  unfold trace_ids_from_parent_hash. silent_tac. apply collect_trace_ids_silent.
Qed.

Lemma remove_payload_ids_silent ids : every (remove_payload_ids ids) silent.
Proof. induction ids; cbn [remove_payload_ids]; by silent_tac. Qed.

Lemma remove_by_parent_hash_silent h : every (remove_by_parent_hash h) silent.
Proof. unfold remove_by_parent_hash. silent_tac. apply remove_payload_ids_silent. Qed.

Lemma skip_silent : every (should_skip_unhealthy_builder (T := T) self) silent.
Proof. unfold should_skip_unhealthy_builder. silent_tac. Qed.

Lemma insert_fcu_request_silent id s a :
  every (insert_fcu_request (T := T) self id s a) silent.
Proof. unfold insert_fcu_request. silent_tac. Qed.

Lemma follow_causes_silent cs : every (follow_causes (T := T) cs) silent.
Proof. induction cs; cbn [follow_causes]; by silent_tac. Qed.

(** A silent program that ends with a known value. *)
Lemma silent_returns {S A} (p : M S unit) (a : A) :
  every p silent -> every (bind p (fun _ => Ret a)) (fun t o => silent t o /\ o = Returned a).
Proof.
  intros Hp. eapply every_bind; [exact Hp|by intros t m [[? ?] _]|].
  intros t [] [_ Ht]. split; [split; [eauto|]|done]. by rewrite app_nil_r.
Qed.

(** The L2 request first, then silent steps. *)
Lemma l2_then {X A} (p : M Shared X) c (f : Reply c -> X) (q : X -> M Shared A) (g : X -> A) :
  c.1 = L2 -> every p (calls_once c f) ->
  (forall x, every (q x) (fun t o => silent t o /\ o = Returned (g x))) ->
  every (bind p q) (fun (t : list Ev) o =>
    exists r, requests_to L2 t = [EvAwait c r] /\ o = Returned (g (f r))).
Proof.
  intros Hc Hp Hq. eapply every_bind; [exact Hp|by intros t m (? & _ & ?)|].
  intros t x Hx. apply calls_once_requests in Hx as (r & Ht & [= ->]).
  eapply every_mono; [|apply Hq]. intros t' o [Hs ->]. exists r. split; [|done].
  by rewrite requests_to_app, (silent_requests _ _ _ Hs), app_nil_r, <- Hc.
Qed.

(** The L2 request joined with builder work. *)
Lemma l2_join {X Y} (p : M Shared X) c (f : Reply c -> X) (q : M Shared Y) sch :
  c.1 = L2 -> every p (calls_once c f) -> every q (confined Builder) ->
  every (join p sch q) (fun (t : list Ev) o =>
    exists r y, requests_to L2 t = [EvAwait c r] /\ o = Returned (f r, y)).
Proof.
  intros Hc Hp Hq. eapply every_join; [exact Hp|exact Hq|]. split_and!.
  - intros t1 t2 t x y Hi H1 H2. apply calls_once_requests in H1 as (r & Ht & [= ->]).
    exists r, y. split; [|done]. rewrite Hc in Ht.
    apply (interleaving_filter (fun v => is_request_to L2 v = true)) in Hi.
    change (filter _ t1) with (requests_to L2 t1) in Hi.
    change (filter _ t2) with (requests_to L2 t2) in Hi.
    rewrite Ht, (confined_other Builder L2 t2 _ ltac:(done) H2) in Hi.
    by apply interleaving_nil_r in Hi.
  - by intros t1 t m _ (? & _ & ?).
  - by intros t2 t m _ [[? ?] _].
Qed.

Lemma silent_first {X A} (p : M Shared X) (q : X -> M Shared A) (R : list Ev -> outcome A -> Prop) :
  every p silent ->
  (forall x, every (q x) (fun t o => exists r, requests_to L2 t = r /\ R r o)) ->
  every (bind p q) (fun t o => exists r, requests_to L2 t = r /\ R r o).
Proof.
  intros Hp Hq. eapply every_bind; [exact Hp|by intros t m [[? ?] _]|].
  intros t x Hs. eapply every_mono; [|apply Hq]. intros t' o (r & Hr & HR).
  exists r. split; [|done]. by rewrite requests_to_app, (silent_requests _ _ _ Hs).
Qed.

(** ** The L2 client *)

Lemma l2_fcu_once s a :
  every (rpc_fork_choice_updated_v3 (S := Shared (T := T)) (l2_client self) s a)
    (calls_once (L2, Req_forkchoiceUpdatedV3 s a) fcu_result).
Proof.
  destruct (l2_client self) as [uri src]. simpl in Hl2. subst src.
  apply rpc_fork_choice_updated_v3_once.
Qed.

Lemma l2_new_payload_once n :
  every (rpc_new_payload (S := Shared (T := T)) (l2_client self) n)
    (calls_once (L2, new_payload_request n) (new_payload_result L2 n)).
Proof.
  destruct (l2_client self) as [uri src]. simpl in Hl2. subst src. apply rpc_new_payload_once.
Qed.

Lemma l2_get_payload_once id v :
  every (rpc_get_payload (S := Shared (T := T)) (l2_client self) id v)
    (calls_once (L2, get_payload_request id v) (get_payload_result L2 id v)).
Proof.
  destruct (l2_client self) as [uri src]. simpl in Hl2. subst src. apply rpc_get_payload_once.
Qed.

(** ** forkchoiceUpdated and newPayload answer with the L2 node's reply *)

Lemma l2_fcu_tail s a (q : ClientResult ForkchoiceUpdated -> M Shared (result ForkchoiceUpdated ErrorObject)) :
  (forall x, every (q x) (fun t o => silent t o /\ o = Returned (into_rpc x))) ->
  every (bind (rpc_fork_choice_updated_v3 (l2_client self) s a) q) (fun (t : list Ev) o =>
    exists r, requests_to L2 t = [EvAwait (L2, Req_forkchoiceUpdatedV3 s a) r] /\
      o = Returned (into_rpc (fcu_result r))).
Proof.
  intros Hq. apply (l2_then _ (L2, Req_forkchoiceUpdatedV3 s a) fcu_result q into_rpc);
    [done|apply l2_fcu_once|exact Hq].
Qed.

(** The continuations after the L2 reply are silent and pass it on. *)
Lemma into_rpc_tail {X} (x : ClientResult X) (k : X -> M (Shared (T := T)) unit) :
  (forall y, every (k y) silent) ->
  every (match into_rpc x with
         | Err e => Ret (Err e)
         | Ok y => k y ;; Ret (Ok y)
         end) (fun t o => silent t o /\ o = Returned (into_rpc x)).
Proof.
  intros Hk. destruct x as [y|e]; simpl; [by apply silent_returns|].
  split; [apply (silent_ret (S := Shared (T := T)))|done].
Qed.

Lemma l2_requests_mono (t : list Ev) v :
  (forall src, is_request_to src v = false) -> requests_to L2 (v :: t) = requests_to L2 t.
Proof. intros H. unfold requests_to. rewrite filter_cons_False; [done|]. by rewrite H. Qed.

(** *** What the consensus client is told

    The handlers pass the L2 node's replies on through [RpcClient], which turns a reply
    with an INVALID status into an error.  Spelled out, the answers are these. *)

(** The answer to an error of the L2 node, or of the way to it. *)
Definition relayed_error (e : JsonrpseeError) : ErrorObject :=
  match e with
  | ClientCall error_object => error_object
  | ClientOther e => ErrorObject_owned INTERNAL_ERROR (TransportError_string e)
  end.

Definition invalid_error (status : string) : ErrorObject :=
  ErrorObject_owned INTERNAL_ERROR ("Invalid payload: " ++ status)%string.

(** The answer to a reply to [engine_forkchoiceUpdatedV3]. *)
Definition relayed_fcu (r : result ForkchoiceUpdated JsonrpseeError) : result ForkchoiceUpdated ErrorObject :=
  match r with
  | Err e => Err (relayed_error e)
  | Ok res =>
      if ForkchoiceUpdated_is_invalid (payload_status res) (payload_id res)
      then Err (invalid_error (PayloadStatus_status_string (payload_status res)))
      else Ok res
  end.

(** The answer to a reply to [engine_newPayload]. *)
Definition relayed_status (r : result PayloadStatus JsonrpseeError) : result PayloadStatus ErrorObject :=
  match r with
  | Err e => Err (relayed_error e)
  | Ok res =>
      if PayloadStatus_is_invalid res then Err (invalid_error (PayloadStatus_status_string res)) else Ok res
  end.

(** The reply to a newPayload request, which has the same type in both versions. *)
Definition status_reply (src : PayloadSource) (n : NewPayload)
  : Reply (src, new_payload_request n) -> result PayloadStatus JsonrpseeError :=
  match n with NP_V3 _ => id | NP_V4 _ => id end.

Lemma relayed_fcu_spec r : into_rpc (fcu_result r) = relayed_fcu r.
Proof. destruct r as [res|[e|e]]; cbn; [by case_match|done|done]. Qed.

Lemma relayed_status_spec src n r :
  into_rpc (new_payload_result src n r) = relayed_status (status_reply src n r).
Proof.
  destruct n; cbn in r |- *; (destruct r as [res|[e|e]]; cbn; [by case_match|done|done]).
Qed.

Lemma fork_choice_updated_relays (sch : list bool) (span : option SpanId)
    (s : ForkchoiceState) (a : option OpPayloadAttributes) :
  every (server_fork_choice_updated_v3 (T := T) self sch span s a) (fun t o =>
    exists r, requests_to L2 t = [EvAwait (L2, Req_forkchoiceUpdatedV3 s a) r] /\
      o = Returned (into_rpc (fcu_result r))).
Proof.
  assert (Hplain : every (let* r := rpc_fork_choice_updated_v3 (l2_client self) s a in
      Ret (into_rpc r)) (fun (t : list Ev) o =>
      exists r, requests_to L2 t = [EvAwait (L2, Req_forkchoiceUpdatedV3 s a) r] /\
        o = Returned (into_rpc (fcu_result r)))).
  { apply l2_fcu_tail. intros x. split; [apply (silent_ret (S := Shared (T := T)))|done]. }
  unfold server_fork_choice_updated_v3. cbn zeta. apply every_read. intros s0.
  destruct (is_disabled (execution_mode s0)); [exact Hplain|].
  eapply every_bind; [apply skip_silent|by intros t m [[? ?] _]|].
  intros ts skip Hs. eapply every_mono with (Q := fun t o =>
    exists r, requests_to L2 t = [EvAwait (L2, Req_forkchoiceUpdatedV3 s a) r] /\
      o = Returned (into_rpc (fcu_result r))).
  { intros t o (r & Hr & Ho). exists r. split; [|done].
    by rewrite l2_requests_mono, requests_to_app, (silent_requests _ _ _ Hs). }
  destruct skip; [exact Hplain|]. destruct a as [attrs|].
  - destruct (default false (no_tx_pool attrs)).
    + apply l2_fcu_tail. intros x. apply into_rpc_tail. intros y.
      destruct (payload_id y); [apply on_trace_silent, store_silent|apply silent_ret].
    + eapply every_bind; [apply (l2_join _ (L2, Req_forkchoiceUpdatedV3 s (Some attrs)) fcu_result)|..].
      * done.
      * apply l2_fcu_once.
      * apply on_builder_confined, fork_choice_updated_v3_confined.
      * by intros t m (? & ? & _ & ?).
      * intros t [l2r br] (r & y & Ht & [= -> ->]). cbn beta iota.
        eapply every_mono; [|apply into_rpc_tail].
        -- intros t' o [Ht' ->]. exists r. split; [|done].
           by rewrite requests_to_app, Ht, (silent_requests _ _ _ Ht'), app_nil_r.
        -- intros z. destruct (payload_id z); [|apply silent_ret].
           apply silent_bind; [apply on_trace_silent, store_silent|].
           intros _. apply insert_fcu_request_silent.
  - apply every_emit. eapply every_mono; [|apply (l2_fcu_tail s None)].
    + intros t o (r & Hr & Ho). exists r. by rewrite l2_requests_mono.
    + intros x. apply into_rpc_tail. intros y.
      destruct (payload_id y); [apply insert_fcu_request_silent|apply silent_ret].
Qed.

(** C1: [engine_forkchoiceUpdatedV3] is sent to the L2 node exactly once, and the
    answer depends on the L2 node's reply alone: its error, if it is one; an internal
    error that names the status, if the status is INVALID; and the reply as it is
    otherwise.  A failing, slow or inconsistent builder never changes the answer, and
    the handler never panics. *)
Theorem fork_choice_updated_l2_reply (sch : list bool) (span : option SpanId)
    (s : ForkchoiceState) (a : option OpPayloadAttributes) :
  every (server_fork_choice_updated_v3 (T := T) self sch span s a) (fun t o =>
    exists r, requests_to L2 t = [EvAwait (L2, Req_forkchoiceUpdatedV3 s a) r] /\
      o = Returned (relayed_fcu r)).
Proof.
  eapply every_mono; [|apply fork_choice_updated_relays].
  intros t o (r & Hr & ->). exists r. by rewrite relayed_fcu_spec.
Qed.

Lemma new_payload_relays (np : NewPayload) :
  every (server_new_payload (T := T) self np) (fun t o =>
    exists r, requests_to L2 t = [EvAwait (L2, new_payload_request np) r] /\
      o = Returned (into_rpc (new_payload_result L2 np r))).
Proof.
  unfold server_new_payload. cbn zeta.
  set (R := fun (rs : list Ev) (o : outcome (result PayloadStatus ErrorObject)) =>
    exists r, rs = [EvAwait (L2, new_payload_request np) r] /\
      o = Returned (into_rpc (new_payload_result L2 np r))).
  eapply every_mono with (Q := fun t o => exists rs, requests_to L2 t = rs /\ R rs o).
  { intros t o (rs & Hrs & r & -> & Ho). by exists r. }
  apply silent_first; [apply on_trace_silent, trace_ids_silent|]. intros causes.
  apply silent_first; [destruct causes; [apply follow_causes_silent|apply silent_ret]|]. intros _.
  apply silent_first; [apply on_trace_silent, remove_by_parent_hash_silent|]. intros _.
  apply silent_first; [apply silent_atomic|]. intros mode.
  apply silent_first.
  { destruct (negb (is_disabled mode)); [|apply silent_ret].
    apply silent_bind; [apply skip_silent|intros; apply silent_ret]. }
  intros sync. apply silent_first; [destruct sync; [apply silent_emit|apply silent_ret]|]. intros _.
  eapply every_mono; [|apply (l2_then _ (L2, new_payload_request np) (new_payload_result L2 np) _ into_rpc);
    [done|apply l2_new_payload_once|]].
  - intros t o (r & Hr & Ho). exists (requests_to L2 t). split; [done|]. by exists r.
  - intros x. split; [apply (silent_ret (S := Shared (T := T)))|done].
Qed.

(** C3: [engine_newPayload] sends the payload to the L2 node exactly once, and the
    answer depends on the L2 node's reply alone: its error, if it is one; an internal
    error that names the status, if the status is INVALID; and the status as it is
    otherwise, whatever the builder does.  The handler never panics. *)
Theorem new_payload_l2_reply (np : NewPayload) :
  every (server_new_payload (T := T) self np) (fun t o =>
    exists r, requests_to L2 t = [EvAwait (L2, new_payload_request np) r] /\
      o = Returned (relayed_status (status_reply L2 np r))).
Proof.
  eapply every_mono; [|apply new_payload_relays].
  intros t o (r & Hr & ->). exists r. by rewrite relayed_status_spec.
Qed.

(** ** getPayload *)

(** The L2 node accepted [p] as a new payload during the run. *)
Definition validated (t : list Ev) (p : OpExecutionPayloadEnvelope) : Prop :=
  exists r st, EvAwait (L2, new_payload_request (NewPayload_from_envelope p)) r ∈ t /\
    new_payload_result L2 (NewPayload_from_envelope p) r = Ok st.

(** The L2 node built [p] during the run, for some payload id. *)
Definition built_by_l2 (t : list Ev) (v : PayloadVersion) (p : OpExecutionPayloadEnvelope) : Prop :=
  exists id r, EvAwait (L2, get_payload_request id v) r ∈ t /\ get_payload_result L2 id v r = Ok p.

(** What the builder future may yield. *)
Definition builder_outcome (v : PayloadVersion) (t : list Ev)
    (o : outcome (result BuilderPayloadResult ErrorObject)) (id : PayloadId) : Prop :=
  match o with
  | Returned (Ok r) =>
      forall p, bp_payload r = Some p ->
        version p = v /\
        if external_state_root self then built_by_l2 t v p else validated t p
  | Returned (Err _) => True
  | Panicked _ =>
      external_state_root self = true /\
      exists s s', EvAtomic s s' ∈ t /\ payload_to_fcu_request s !! id = None
  end.

Lemma calls_once_elem {A S} c (f : Reply c -> A) (t : list (event Reply Obs S)) o :
  calls_once c f t o -> exists r, EvAwait c r ∈ t /\ o = Returned (f r).
Proof.
  intros (r & Ht & ->). exists r. split; [|done].
  assert (H : EvAwait c r ∈ filter (fun v => essential v = true) t) by (rewrite Ht; left).
  by apply list_elem_of_filter in H as [_ H].
Qed.

Lemma external_outcome p id v :
  external_state_root self = true ->
  every (calculate_external_state_root (T := T) self p id v) (fun t o =>
    match o with
    | Returned (Ok (Some q)) => version q = v /\ built_by_l2 t v q
    | Returned _ => True
    | Panicked _ => exists s s', EvAtomic s s' ∈ t /\ payload_to_fcu_request s !! id = None
    end).
Proof.
  intros Hext. unfold calculate_external_state_root. cbn. intros s.
  destruct (payload_to_fcu_request s !! id) as [[fs fa]|] eqn:Hreq.
  2: { exists s, (set_fcu_requests (delete id (payload_to_fcu_request s)) s). split; [left|done]. }
  eapply every_bind; [apply l2_fcu_once|by intros t m (? & _ & ?)|].
  intros t [res|e] _; simpl; [|done]. destruct (payload_id res) as [id'|]; simpl; [|done].
  eapply every_bind; [apply l2_get_payload_once|by intros t' m (? & _ & ?)|].
  intros t' [q|e] Hq; simpl; [|done].
  apply calls_once_elem in Hq as (r & Hr & [= Hq]). split.
  - by eapply get_payload_result_version.
  - exists id', r. split; [set_solver|done].
Qed.

Lemma builder_outcome_mono v id (t t' : list Ev) o :
  t ⊆ t' -> builder_outcome v t o id -> builder_outcome v t' o id.
Proof.
  intros Hsub. destruct o as [[r|e]|m]; simpl; [|done|].
  - intros H p Hp. destruct (H p Hp) as [Hv Hb]. split; [done|].
    destruct (external_state_root self).
    + destruct Hb as (id' & r' & Hin & Hr). exists id', r'. auto.
    + destruct Hb as (r' & st & Hin & Hr). exists r', st. auto.
  - intros (Hext & s & s' & Hin & Hn). eauto 6.
Qed.

Lemma outcome_after {X} (p : M Shared X) q v id
    (Q : list Ev -> outcome X -> Prop) :
  every p Q -> (forall t m, ~ Q t (Panicked m)) ->
  (forall t x, Q t (Returned x) -> every (q x) (fun t o => builder_outcome v t o id)) ->
  every (bind p q) (fun t o => builder_outcome v t o id).
Proof.
  intros Hp Hm Hq. eapply every_bind; [exact Hp|by intros t m H; apply Hm in H|].
  intros t x Hx. eapply every_mono; [|apply (Hq t x Hx)]. intros t' o.
  apply builder_outcome_mono. set_solver.
Qed.

(** The check of a payload that the builder returned. *)
Lemma check_outcome p id v :
  version p = v ->
  every (if negb (external_state_root self) then
           let* st := rpc_new_payload (l2_client self) (NewPayload_from_envelope p) in
           match into_rpc st with
           | Err e => Ret (Err e)
           | Ok _ => Ret (Ok {| bp_payload := Some p; builder_api_failed := false |})
           end
         else
           let* external_payload := calculate_external_state_root (T := T) self p id v in
           match external_payload with
           | Err e => Ret (Err e)
           | Ok p => Ret (Ok {| bp_payload := p; builder_api_failed := false |})
           end) (fun t o => builder_outcome v t o id).
Proof.
  intros Hv. destruct (external_state_root self) eqn:Hext; simpl negb; cbn iota.
  - eapply every_bind; [apply (external_outcome p id v Hext)| |].
    + intros t m H. unfold builder_outcome. by rewrite Hext.
    + intros t [[q|]|e] H; simpl; [|done|done]. intros q' [= <-]. rewrite app_nil_r, Hext. exact H.
  - eapply every_bind; [apply l2_new_payload_once|by intros t m (? & _ & ?)|].
    intros t [st|e] H; simpl; [|done]. intros q [= <-]. rewrite app_nil_r, Hext.
    apply calls_once_elem in H as (r & Hr & [= Hst]). split; [done|]. by exists r, st.
Qed.

Lemma builder_fut_outcome id v :
  every (builder_fut self id v) (fun t o => builder_outcome v t o id).
Proof.
  assert (Hs : forall X (t : list Ev) (m : string), ~ silent t (Panicked m : outcome X)).
  { by intros X t m [[? ?] _]. }
  unfold builder_fut.
  apply (outcome_after _ _ _ _ silent); [apply on_trace_silent, silent_atomic|apply Hs|].
  intros _ cause _.
  apply (outcome_after _ _ _ _ silent);
    [destruct cause; [apply silent_emit|apply silent_ret]|apply Hs|]. intros _ _ _.
  apply (outcome_after _ _ _ _ silent); [apply on_trace_silent, silent_atomic|apply Hs|].
  intros _ has _. destruct has; simpl negb; cbn iota; [|by apply every_emit; simpl].
  apply every_emit. apply every_mono with (Q := fun t o => builder_outcome v t o id).
  { intros t o. apply builder_outcome_mono. set_solver. }
  eapply outcome_after.
  - apply every_conj; [apply on_builder_confined, get_payload_confined|].
    apply on_builder_version.
  - by intros t m [[[? ?] _] _].
  - intros t [p|e] [_ Hv]; [|done]. apply check_outcome, (Hv p eq_refl).
Qed.

(** Both futures, and what is chosen from them. *)
Lemma get_payload_join sch id v :
  every (join (rpc_get_payload (l2_client self) id v) sch (builder_fut self id v))
    (fun (t : list Ev) o =>
      match o with
      | Returned (l2p, bp) =>
          (exists r, EvAwait (L2, get_payload_request id v) r ∈ t /\
             l2p = get_payload_result L2 id v r) /\
          builder_outcome v t (Returned bp) id
      | Panicked m => external_state_root self = true /\
          exists s s', EvAtomic s s' ∈ t /\ payload_to_fcu_request s !! id = None
      end).
Proof.
  eapply every_join; [apply l2_get_payload_once|apply builder_fut_outcome|]. split_and!.
  - intros t1 t2 t a b Hi H1 H2. apply calls_once_elem in H1 as (r & Hr & [= ->]). split.
    + exists r. split; [|done]. apply (interleaving_elem _ _ _ _ Hi). by left.
    + eapply builder_outcome_mono; [|exact H2]. intros x Hx.
      apply (interleaving_elem _ _ _ _ Hi). by right.
  - by intros t1 t m _ (? & _ & ?).
  - intros t2 t m Hsub (Hext & s & s' & Hin & Hn). split; [done|]. exists s, s'. split; [|done].
    eapply elem_of_submseteq; [exact Hin|by apply sublist_submseteq].
Qed.

(** The payload that [evaluate] picks, and the errors it reports. *)
Definition chosen_from (l2p : ClientResult OpExecutionPayloadEnvelope)
    (bp : result BuilderPayloadResult ErrorObject)
    (o : outcome (result (OpExecutionPayloadEnvelope * PayloadSource) ErrorObject)) : Prop :=
  match l2p with
  | Err e => o = Returned (Err (ErrorObject_from e))
  | Ok l2 =>
      o = Returned (Ok (l2, L2)) \/
      exists r p, bp = Ok r /\ bp_payload r = Some p /\ o = Returned (Ok (p, Builder))
  end.

Lemma evaluate_chosen l2p bp :
  every (evaluate (T := T) self l2p bp) (fun t o => silent t o /\ chosen_from l2p bp o).
Proof.
  apply every_conj.
  { unfold evaluate. destruct l2p; [|by silent_tac].
    apply silent_bind; [apply silent_atomic|intros _].
    destruct bp as [[[p|] f]|e]; cbn beta iota; by silent_tac. }
  destruct l2p as [l2|e]; [|by intros s]. intros s.
  destruct bp as [[[p|] f]|e]; cbn; [intros s'|intros s'; destruct (_ && _); cbn; intros; by left..].
  destruct (is_dry_run (execution_mode s')); [by left|].
  destruct (block_selection_policy self) as [pol|]; [|right; eauto 6].
  destruct (select_block_source pol p l2) as [->| ->]; [by left|right; eauto 6].
Qed.

(** What [getPayload] does, in one statement; the theorems below are its faces. *)
Lemma get_payload_every sch id v :
  every (server_get_payload self sch id v) (fun (t : list Ev) o =>
    match o with
    | Returned res =>
        exists r, EvAwait (L2, get_payload_request id v) r ∈ t /\
          match get_payload_result L2 id v r with
          | Err e => res = Err (ErrorObject_from e)
          | Ok l2 => exists p, res = Ok p /\
              (p = l2 \/
               version p = v /\
               if external_state_root self then built_by_l2 t v p else validated t p)
          end
    | Panicked m => external_state_root self = true /\
        exists s s', EvAtomic s s' ∈ t /\ payload_to_fcu_request s !! id = None
    end).
Proof.
  unfold server_get_payload. apply every_read. intros s0.
  destruct (is_disabled (execution_mode s0)).
  - unfold get_payload_disabled.
    eapply every_bind; [apply l2_get_payload_once|by intros t m (? & _ & ?)|].
    intros t x Hx. apply calls_once_elem in Hx as (r & Hr & [= ->]).
    destruct (get_payload_result L2 id v r) as [p|e] eqn:Hres; cbn; intros s1;
      exists r; (split; [set_solver|]); rewrite Hres; eauto.
  - eapply every_bind; [apply get_payload_join| |].
    + intros t m (Hext & s & s' & Hin & Hn). split; [done|]. exists s, s'. split; [set_solver|done].
    + intros t [l2p bp] [(r & Hr & ->) Hb]. cbn beta iota.
      eapply every_bind; [apply evaluate_chosen|by intros t' m [[[? ?] _] _]|].
      intros t' res [_ Hch]. unfold chosen_from in Hch.
      destruct (get_payload_result L2 id v r) as [l2|e] eqn:Hres.
      2: { injection Hch as ->. exists r. split; [set_solver|]. by rewrite Hres. }
      destruct Hch as [[= ->]|(rb & p & -> & Hp & [= ->])]; cbn; exists r;
        (split; [set_solver|]); rewrite Hres; eexists; (split; [done|]); [by left|right].
      destruct (Hb p Hp) as [Hv Hb']. split; [done|]. destruct (external_state_root self).
      * destruct Hb' as (id' & r' & Hin & ?). exists id', r'. split; [set_solver|done].
      * destruct Hb' as (r' & st & Hin & ?). exists r', st. split; [set_solver|done].
Qed.

(** C2: without external state root, [engine_getPayload] fails exactly when the
    L2 node's own [getPayload] fails, with the same error; otherwise it returns
    the L2 payload, or a builder payload that the L2 node accepted through
    [newPayload] during this very run.  No behaviour of the builder makes it fail
    or panic. *)
Theorem get_payload_l2_or_validated (sch : list bool) (id : PayloadId) (v : PayloadVersion) :
  external_state_root self = false ->
  every (server_get_payload (T := T) self sch id v) (fun t o =>
    exists r, EvAwait (L2, get_payload_request id v) r ∈ t /\
      match get_payload_result L2 id v r with
      | Err e => o = Returned (Err (ErrorObject_from e))
      | Ok l2 => exists p, o = Returned (Ok p) /\ (p = l2 \/ validated t p)
      end).
Proof.
  intros Hext. eapply every_mono; [|apply get_payload_every].
  intros t [res|m]; rewrite Hext; [|by intros [? _]].
  intros (r & Hr & H). exists r. split; [done|].
  destruct (get_payload_result L2 id v r); [|by subst].
  destruct H as (p & -> & [->|[_ Hp]]); eauto.
Qed.

(** C4: with external state root, every payload that [engine_getPayload] returns
    was built by the L2 node itself during the run; the handler panics only when
    it finds no forkchoice request stored under the payload id. *)
Theorem get_payload_external_state_root (sch : list bool) (id : PayloadId) (v : PayloadVersion) :
  external_state_root self = true ->
  every (server_get_payload (T := T) self sch id v) (fun t o =>
    match o with
    | Returned (Ok p) => built_by_l2 t v p
    | Returned (Err e) =>
        exists r e', EvAwait (L2, get_payload_request id v) r ∈ t /\
          get_payload_result L2 id v r = Err e' /\ e = ErrorObject_from e'
    | Panicked _ => exists s s', EvAtomic s s' ∈ t /\ payload_to_fcu_request s !! id = None
    end).
Proof.
  intros Hext. eapply every_mono; [|apply get_payload_every].
  intros t [res|m]; rewrite Hext; [|by intros [_ ?]]. intros (r & Hr & H).
  destruct (get_payload_result L2 id v r) as [l2|e'] eqn:Hres.
  - destruct H as (p & -> & [->|[_ Hp]]); [by exists id, r|done].
  - subst res. by exists r, e'.
Qed.

Lemma get_payload_version_of sch id v :
  every (server_get_payload (T := T) self sch id v) (fun t o =>
    match o with
    | Returned (Ok p) => version p = v
    | Returned (Err e) =>
        exists r e', EvAwait (L2, get_payload_request id v) r ∈ t /\
          get_payload_result L2 id v r = Err e' /\ e = ErrorObject_from e'
    | Panicked _ => True
    end).
Proof.
  eapply every_mono; [|apply get_payload_every]. intros t [res|m]; [|done].
  intros (r & Hr & H). destruct (get_payload_result L2 id v r) as [l2|e'] eqn:Hres.
  - destruct H as (p & -> & [->|[Hv _]]); [by eapply get_payload_result_version|done].
  - subst res. by exists r, e'.
Qed.

(** [engine_getPayloadV3] and [engine_getPayloadV4] never report a version
    mismatch: whatever error they return is the L2 node's error. *)
Theorem get_payload_no_version_error (sch : list bool) (id : PayloadId) :
  every (get_payload_v3 (T := T) self sch id) (fun t o => forall e, o = Returned (Err e) ->
    exists r e', EvAwait (L2, Req_getPayloadV3 id) r ∈ t /\ r = Err e' /\
      e = ErrorObject_from (Jsonrpsee e')) /\
  every (get_payload_v4 (T := T) self sch id) (fun t o => forall e, o = Returned (Err e) ->
    exists r e', EvAwait (L2, Req_getPayloadV4 id) r ∈ t /\ r = Err e' /\
      e = ErrorObject_from (Jsonrpsee e')).
Proof.
  split; (eapply every_bind; [apply (get_payload_version_of sch id)|done|]);
    intros t [p|e] H; cbn in *; [by destruct p| |by destruct p|];
    destruct H as (r & e' & Hr & Hres & ->); intros e0 [= <-]; rewrite app_nil_r;
    (destruct r as [q|e1]; [done|]); simpl in Hres; simplify_eq; by exists (Err e1), e1.
Qed.

(** ** Execution modes *)

(** Every critical section of the run found the execution mode [m]. *)
Definition in_mode (m : ExecutionMode) (t : list Ev) : Prop :=
  Forall (fun v => match v with EvAtomic s _ => execution_mode s = m | _ => True end) t.

(** The builder is contacted: by a request or by a background task. *)
Definition contacts_builder {S} (v : event Reply Obs S) : bool :=
  is_request_to Builder v || match v with EvEmit (Spawn _) => true | _ => false end.

Definition leaves_builder_alone {S} (t : list (event Reply Obs S)) : Prop :=
  Forall (fun v => contacts_builder v = false) t.

Lemma calls_once_alone {S A} c (f : Reply c -> A) (t : list (event Reply Obs S)) o :
  c.1 = L2 -> calls_once c f t o -> leaves_builder_alone t.
Proof.
  intros Hc (r & Ht & _). apply Forall_forall. intros v Hv.
  destruct (essential v) eqn:He; [|by destruct v as [| |[]]].
  assert (Hin : v ∈ filter (fun v => essential v = true) t) by by apply list_elem_of_filter.
  rewrite Ht in Hin. apply list_elem_of_singleton in Hin as ->.
  unfold contacts_builder. simpl. by rewrite Hc.
Qed.

(** Programs that neither panic nor contact the builder. *)
Definition aloof {S A} (t : list (event Reply Obs S)) (o : outcome A) : Prop :=
  (exists a, o = Returned a) /\ leaves_builder_alone t.

Lemma aloof_bind {S A B} (p : M S A) (q : A -> M S B) :
  every p aloof -> (forall a, every (q a) aloof) -> every (bind p q) aloof.
Proof.
  intros Hp Hq. eapply every_bind; [exact Hp|by intros t m [[? ?] _]|].
  intros t a [_ Ht]. eapply every_mono; [|apply Hq]. intros t' o [Ho Ht'].
  split; [done|]. by apply Forall_app.
Qed.

Lemma aloof_once {S A} (p : M S A) c f :
  c.1 = L2 -> every p (calls_once c f) -> every p aloof.
Proof.
  intros Hc. apply every_mono. intros t o H. split; [|by eapply calls_once_alone].
  destruct H as (r & _ & ->). eauto.
Qed.

Lemma aloof_ret {S A} (a : A) : every (Ret a : M S A) aloof.
Proof. split; [eauto|constructor]. Qed.

Lemma aloof_atomic {S X} (f : S -> X * S) : every (atomic f : M S X) aloof.
Proof. intros s. split; [eauto|by repeat constructor]. Qed.

Lemma aloof_emit {S} (o : Obs) :
  match o with Spawn _ => False | _ => True end -> every (emit o : M S unit) aloof.
Proof. intros Ho. split; [eauto|repeat constructor]. by destruct o. Qed.

Lemma aloof_zoom {S U A} (get : S -> U) (set : U -> S -> S) (p : M U A) :
  (forall t s, get (set t s) = t) -> every p aloof -> every (zoom get set p) aloof.
Proof.
  intros Hgs Hp. eapply every_mono; [|by apply every_zoom, Hp].
  intros t o [Ho Ht]. split; [done|]. unfold leaves_builder_alone in *.
  rewrite Forall_fmap in Ht. eapply Forall_impl; [exact Ht|]. intros v Hv. by destruct v.
Qed.

Lemma remove_by_parent_hash_aloof h : every (remove_by_parent_hash h) aloof.
Proof.
  apply aloof_bind; [apply aloof_atomic|]. intros [ids|]; [|apply aloof_ret].
  induction ids; cbn [remove_payload_ids]; [apply aloof_ret|].
  by apply aloof_bind; [apply aloof_atomic|].
Qed.

Lemma trace_ids_aloof h : every (trace_ids_from_parent_hash h) aloof.
Proof.
  apply aloof_bind; [apply aloof_atomic|]. intros [ids|]; [|apply aloof_ret].
  apply aloof_bind; [|intros; apply aloof_ret].
  induction ids; cbn [collect_trace_ids]; [apply aloof_ret|].
  apply aloof_bind; [apply aloof_atomic|intros].
  by apply aloof_bind; [|intros; apply aloof_ret].
Qed.

Lemma follow_causes_aloof cs : every (follow_causes (T := T) cs) aloof.
Proof.
  induction cs; cbn [follow_causes]; [apply aloof_ret|].
  by apply aloof_bind; [apply aloof_emit|].
Qed.

Lemma aloof_then {A B} m (p : M Shared A) (q : A -> M Shared B) :
  every p aloof ->
  (forall a, every (q a) (fun t o => in_mode m t -> leaves_builder_alone t)) ->
  every (bind p q) (fun t o => in_mode m t -> leaves_builder_alone t).
Proof.
  intros Hp Hq. eapply every_bind; [exact Hp|by intros t n [[? ?] _]|].
  intros t a [_ Ht]. eapply every_mono; [|apply Hq]. intros t' o H Hm.
  apply Forall_app in Hm as [_ Hm]. apply Forall_app. split; [exact Ht|exact (H Hm)].
Qed.

Lemma aloof_alone {A} m (p : M Shared A) :
  every p aloof -> every p (fun t o => in_mode m t -> leaves_builder_alone t).
Proof. apply every_mono. by intros t o [_ ?]. Qed.

(** A handler that first looks at the mode. *)
Lemma guarded_by_mode {A} m (q : ExecutionMode -> M Shared A) :
  every (q m) (fun t o => in_mode m t -> leaves_builder_alone t) ->
  every (let* mode := read execution_mode in q mode)
    (fun t o => in_mode m t -> leaves_builder_alone t).
Proof.
  intros Hq. apply every_read. intros s.
  destruct (decide (execution_mode s = m)) as [->|Hne].
  - eapply every_mono; [|exact Hq]. intros t o H Hm. inversion Hm; subst.
    constructor; [done|by apply H].
  - eapply every_mono; [|apply every_True]. intros t o _ Hm. by inversion Hm.
Qed.

(** C7: while the execution mode is [Disabled], no handler contacts the builder:
    no request is sent to it and no background task for it is started. *)
Theorem disabled_isolates_builder :
  (forall sch span s a, every (server_fork_choice_updated_v3 (T := T) self sch span s a)
     (fun t o => in_mode Disabled t -> leaves_builder_alone t)) /\
  (forall np, every (server_new_payload (T := T) self np)
     (fun t o => in_mode Disabled t -> leaves_builder_alone t)) /\
  (forall sch id v, every (server_get_payload (T := T) self sch id v)
     (fun t o => in_mode Disabled t -> leaves_builder_alone t)).
Proof.
  split_and!; intros.
  - apply guarded_by_mode, aloof_alone. cbn iota.
    apply aloof_bind; [by eapply aloof_once; [|apply l2_fcu_once]|intros; apply aloof_ret].
  - unfold server_new_payload. cbn zeta.
    apply aloof_then; [by apply aloof_zoom, trace_ids_aloof|]. intros causes.
    apply aloof_then; [destruct causes; [apply follow_causes_aloof|apply aloof_ret]|]. intros _.
    apply aloof_then; [by apply aloof_zoom, remove_by_parent_hash_aloof|]. intros _.
    apply guarded_by_mode, aloof_alone. cbn -[rpc_new_payload].
    apply aloof_bind; [by eapply aloof_once; [|apply l2_new_payload_once]|intros; apply aloof_ret].
  - apply guarded_by_mode, aloof_alone. cbn iota. unfold get_payload_disabled.
    apply aloof_bind; [by eapply aloof_once; [|apply l2_get_payload_once]|].
    intros [p|e]; (apply aloof_bind; [apply aloof_atomic|intros _]); [|apply aloof_ret].
    repeat (apply aloof_bind; [by apply aloof_emit|intros _]). apply aloof_ret.
Qed.

Lemma evaluate_dry_run l2p bp :
  every (evaluate (T := T) self l2p bp) (fun t o => in_mode DryRun t ->
    o = Returned (into_rpc (map_ok (fun p => (p, L2)) l2p))).
Proof.
  destruct l2p as [l2|e]; [|by intros s]. intros s.
  destruct bp as [[[p|] f]|e]; cbn; intros s'.
  - intros Hm. do 3 apply Forall_cons in Hm as [_ Hm]. apply Forall_cons in Hm as [-> _]. done.
  - destruct (_ && _); by cbn.
  - destruct (_ && _); by cbn.
Qed.

Lemma dry_run_returned sch id v :
  every (server_get_payload (T := T) self sch id v) (fun t o =>
    in_mode DryRun t -> forall res, o = Returned res ->
    exists r, EvAwait (L2, get_payload_request id v) r ∈ t /\
      res = into_rpc (get_payload_result L2 id v r)).
Proof.
  apply every_read. intros s0. destruct (execution_mode s0) eqn:Hmode.
  1, 3: eapply every_mono; [|apply every_True]; intros t o _ Hm; inversion Hm; congruence.
  cbn iota. eapply every_bind; [apply get_payload_join|done|].
  intros t [l2p bp] [(r & Hr & ->) _]. cbn beta iota.
  eapply every_bind; [apply every_conj; [apply evaluate_chosen|apply evaluate_dry_run]| |].
  { by intros t' m [[[[? ?] _] _] _]. }
  intros t' res [_ Hdry].
  destruct res as [[p src]|e]; cbn; intros Hm res [= <-]; exists r; (split; [set_solver|]).
  all: apply Forall_cons in Hm as [_ Hm]; apply Forall_app in Hm as [_ Hm];
    apply Forall_app in Hm as [Hm _]; specialize (Hdry Hm).
  all: destruct (get_payload_result L2 id v r); simpl in *; by simplify_eq.
Qed.

(** C8: while the execution mode is [DryRun], [engine_getPayload] answers with the L2
    node's reply, payload or error, whatever the builder built; it panics only with
    external state root, when it finds no forkchoice request stored under the payload
    id. *)
Theorem dry_run_returns_l2 (sch : list bool) (id : PayloadId) (v : PayloadVersion) :
  every (server_get_payload (T := T) self sch id v) (fun t o =>
    in_mode DryRun t ->
    match o with
    | Returned res =>
        exists r, EvAwait (L2, get_payload_request id v) r ∈ t /\
          res = into_rpc (get_payload_result L2 id v r)
    | Panicked _ =>
        external_state_root self = true /\
        exists s s', EvAtomic s s' ∈ t /\ payload_to_fcu_request s !! id = None
    end).
Proof.
  eapply every_mono; [|apply every_conj; [apply dry_run_returned|apply get_payload_every]].
  intros t [res|m] [Hd Hp] Hm; [by apply Hd|]. exact Hp.
Qed.

(** ** Health *)

(** The builder's part failed: no payload, and not for lack of asking. *)
Definition builder_failed (bp : result BuilderPayloadResult ErrorObject) : bool :=
  match bp with
  | Ok r => match bp_payload r with Some _ => false | None => builder_api_failed r end
  | Err _ => true
  end.

(** After [getPayload] the health is [ServiceUnavailable] when the L2 node
    failed; otherwise it is [PartialContent] when the builder failed in the
    [Enabled] mode, and [Healthy] in all other cases. *)
Theorem evaluate_health (l2p : ClientResult OpExecutionPayloadEnvelope)
    (bp : result BuilderPayloadResult ErrorObject) (s : Shared (T := T)) :
  exists res s', alone (evaluate self l2p bp) s = Some (res, s') /\
    execution_mode s' = execution_mode s /\
    health (probes s') =
      if is_ok l2p then
        if is_enabled (execution_mode s) && builder_failed bp then PartialContent else Healthy
      else ServiceUnavailable.
Proof.
  destruct l2p as [l2|e]; [|by eexists _, _].
  destruct bp as [[[p|] f]|e]; simpl.
  - eexists _, _. split_and!; [done|done|]. by rewrite andb_false_r.
  - destruct (is_enabled (execution_mode s)), f; simpl; by eexists _, _.
  - destruct (is_enabled (execution_mode s)); simpl; by eexists _, _.
Qed.

(** ** newPayload forgets the payloads of its parent *)

Lemma rpc_new_payload_keeps n : keeps (rpc_new_payload (S := Shared (T := T)) (l2_client self) n).
Proof.
  destruct n; simpl; intros [res|e]; simpl; try done;
    by destruct (PayloadStatus_is_invalid res).
Qed.

Lemma follow_causes_keeps cs : keeps (follow_causes (T := T) cs).
Proof. by induction cs. Qed.

Lemma silent_leads {A} (e : env Reply Obs (Shared (T := T))) (p : M Shared A) s :
  quiet e -> keeps p -> every p silent -> leads e p s s.
Proof.
  intros He Hk Hs. apply leads_keeps; [done|done|].
  eapply every_mono; [|exact Hs]. by intros t o [? _].
Qed.

Lemma on_trace_alone {A} (p : M PayloadTraceContext A) (s : Shared (T := T)) :
  alone (on_trace p) s =
    match alone p (payload_trace_context s) with
    | Some (a, c) => Some (a, set_payload_trace_context c s)
    | None => None
    end.
Proof. by apply alone_zoom; [intros []| |]. Qed.

Definition forget_parent (parent : B256) (c : PayloadTraceContext) : PayloadTraceContext :=
  {| block_hash_to_payload_ids := delete parent (block_hash_to_payload_ids c);
     payload_ids := filter (fun kv => kv.1 ∉ ids_of parent c) (payload_ids c) |}.

(** A [newPayload] on a parent block, undisturbed, removes from the trace
    context exactly what was started on that parent, and changes nothing else. *)
Theorem new_payload_forgets_parent (e : env Reply Obs (Shared (T := T))) (np : NewPayload)
    (s : Shared (T := T)) :
  quiet e ->
  run_state e (server_new_payload self np) s =
    set_payload_trace_context
      (forget_parent (parent_hash (as_v1 (ExecutionPayload_from_new_payload np)))
         (payload_trace_context s)) s.
Proof.
  intros He. set (parent := parent_hash _).
  assert (H : leads e (server_new_payload self np) s
    (set_payload_trace_context (forget_parent parent (payload_trace_context s)) s)).
  2: { destruct (H []) as (a & h & Hx). unfold run_state, run. by rewrite Hx. }
  unfold server_new_payload. cbn zeta. fold parent.
  eapply leads_bind.
  { eapply leads_alone; [done|]. by rewrite on_trace_alone, trace_ids_alone. }
  intros causes. replace (set_payload_trace_context (payload_trace_context s) s) with s by by destruct s.
  eapply leads_bind.
  { apply silent_leads; [done|destruct causes; [apply follow_causes_keeps|done]|].
    destruct causes; [apply follow_causes_silent|apply silent_ret]. }
  intros _. eapply leads_bind.
  { eapply leads_alone; [done|]. by rewrite on_trace_alone, remove_by_parent_hash_alone. }
  intros _. fold (forget_parent parent (payload_trace_context s)).
  set (s1 := set_payload_trace_context _ s).
  eapply leads_bind; [by apply silent_leads; [|by cbn|apply silent_atomic]|]. intros mode.
  eapply leads_bind.
  { apply silent_leads; [done| |].
    - destruct (negb _); [|done]. unfold should_skip_unhealthy_builder. by destruct (ignore_unhealthy_builders self).
    - destruct (negb _); [|apply silent_ret].
      apply silent_bind; [apply skip_silent|intros; apply silent_ret]. }
  intros sync. eapply leads_bind.
  { by destruct sync; apply silent_leads; try apply silent_emit; try apply silent_ret. }
  intros _. eapply leads_bind.
  { apply leads_keeps; [done|apply rpc_new_payload_keeps|].
    eapply every_mono; [|apply rpc_new_payload_once]. intros t o (r & _ & ->). eauto. }
  intros r h. by eexists _, _.
Qed.

End ServerProps.
