(* ===== verification/ServerExamples.v ===== *)
(** * The server on concrete inputs

    A server over two plain RPC clients, with replies fixed by a small
    environment: the theorems of [ServerProps] applied to its runs, and what
    happens when a payload is asked for twice with external state root. *)
From S2P Require Import Prelude Async Payload PayloadTrace RpcClient Selection.
From S2P Require Import Probe DebugApi Server ServerProps.
Import Demo.

Local Open Scope Z_scope.
Local Open Scope prog_scope.

Module ServerExamples.

Definition l2 : RpcClient := {| auth_rpc := "http://l2:8551"; payload_source := L2 |}.
Definition builder : RpcClient :=
  {| auth_rpc := "http://builder:8551"; payload_source := Builder |}.

#[local] Instance builder_api : EngineApiExt unit := RpcClient_EngineApiExt builder.
#[local] Instance builder_laws : BuilderClient unit := RpcClient_BuilderClient builder eq_refl.

Definition server (external : bool) : RollupBoostServer :=
  {| l2_client := l2; block_selection_policy := None;
     external_state_root := external; ignore_unhealthy_builders := false |}.

Definition start (mode : ExecutionMode) : Shared (T := unit) :=
  Shared_new tt mode Probes_default.

(** Both nodes accept everything; the payload id is 11, the builder's block has
    the hash 202 and the L2 node's the hash 201; [latest] is the timestamp of the
    latest block. *)
Definition reply_with (latest : Z) (c : Call) : Reply c :=
  match c with
  | (src, r) =>
      match r as r return Reply (src, r) with
      | Req_forkchoiceUpdatedV3 _ _ => Ok {| payload_status := true; payload_id := Some 11 |}
      | Req_getPayloadV3 _ =>
          match envelope 21000 (match src with L2 => 201 | Builder => 202 end) [] with
          | EnvelopeV3 p => Ok p
          | EnvelopeV4 _ => Err (ClientOther "unreachable")
          end
      | Req_getPayloadV4 _ => Err (ClientOther "no V4 payload")
      | Req_newPayloadV3 _ _ _ => Ok true
      | Req_newPayloadV4 _ _ _ _ => Ok true
      | Req_getBlockByNumber _ _ => Ok latest
      end
  end.

Definition reply : forall c : Call, Reply c := reply_with 0.

Definition quiet_env : env Reply Obs (Shared (T := unit)) :=
  {| respond := fun _ c => reply c; interfere := fun _ s => s |}.

Definition fcu (self : RollupBoostServer) :=
  server_fork_choice_updated_v3 (T := unit) self [] (Some 1) forkchoice (Some (attributes None)).

Definition after_fcu (self : RollupBoostServer) : Shared (T := unit) :=
  run_state quiet_env (fcu self) (start Enabled).

Definition hash_of (p : OpExecutionPayloadEnvelope) : Z :=
  block_hash (as_v1 (ExecutionPayload_from_envelope p)).

(** The builder's block is returned after a forkchoice update with attributes. *)
Example builder_block_returned :
  match run_outcome quiet_env (server_get_payload (server false) [] 11 V3) (after_fcu (server false))
  with Returned (Ok p) => hash_of p = 202 | _ => False end.
Proof. vm_compute. reflexivity. Qed.

Definition payload_message : NewPayload := NewPayload_from_envelope (envelope 21000 300 []).

Lemma fork_choice_updated_l2_reply_witness :
  exists r, requests_to L2 (run_trace quiet_env (fcu (server false)) (start Enabled)) =
      [EvAwait (L2, Req_forkchoiceUpdatedV3 forkchoice (Some (attributes None))) r] /\
    run_outcome quiet_env (fcu (server false)) (start Enabled) = Returned (relayed_fcu r).
Proof.
  apply (run_every quiet_env (fcu (server false)) (start Enabled)
    (fun t o => exists r, requests_to L2 t =
      [EvAwait (L2, Req_forkchoiceUpdatedV3 forkchoice (Some (attributes None))) r] /\
      o = Returned (relayed_fcu r))).
  apply (fork_choice_updated_l2_reply (server false) eq_refl).
Defined.

(** A payload that the L2 node finds invalid is answered with an internal error, not with
    the status of the node. *)
Definition invalid_env : env Reply Obs (Shared (T := unit)) :=
  {| respond := fun _ c =>
       match c with
       | (src, r) =>
           match r as r return Reply (src, r) with
           | Req_newPayloadV3 _ _ _ => Ok false
           | r => reply (src, r)
           end
       end;
     interfere := fun _ s => s |}.

Example invalid_status_becomes_error :
  run_outcome invalid_env (server_new_payload (T := unit) (server false) payload_message) (start Enabled) =
    Returned (Err (invalid_error (PayloadStatus_status_string false))).
Proof. by vm_compute. Qed.

Lemma new_payload_l2_reply_witness :
  every (server_new_payload (T := unit) (server false) payload_message) (fun t o =>
    exists r, requests_to L2 t = [EvAwait (L2, new_payload_request payload_message) r] /\
      o = Returned (relayed_status (status_reply L2 payload_message r))).
Proof. apply (new_payload_l2_reply (server false) eq_refl). Defined.

Lemma get_payload_l2_or_validated_witness :
  every (server_get_payload (T := unit) (server false) [false] 11 V3) (fun t o =>
    exists r, EvAwait (L2, get_payload_request 11 V3) r ∈ t /\
      match get_payload_result L2 11 V3 r with
      | Err e => o = Returned (Err (ErrorObject_from e))
      | Ok l2 => exists p, o = Returned (Ok p) /\ (p = l2 \/ validated t p)
      end).
Proof. apply (get_payload_l2_or_validated (server false) eq_refl); reflexivity. Defined.

Lemma get_payload_external_state_root_witness :
  every (server_get_payload (T := unit) (server true) [] 11 V3) (fun t o =>
    match o with
    | Returned (Ok p) => built_by_l2 t V3 p
    | Returned (Err e) =>
        exists r e', EvAwait (L2, get_payload_request 11 V3) r ∈ t /\
          get_payload_result L2 11 V3 r = Err e' /\ e = ErrorObject_from e'
    | Panicked _ => exists s s', EvAtomic s s' ∈ t /\ payload_to_fcu_request s !! 11 = None
    end).
Proof. apply (get_payload_external_state_root (server true) eq_refl); reflexivity. Defined.

Lemma get_payload_no_version_error_witness :
  every (get_payload_v3 (T := unit) (server false) [] 11) (fun t o => forall e, o = Returned (Err e) ->
    exists r e', EvAwait (L2, Req_getPayloadV3 11) r ∈ t /\ r = Err e' /\
      e = ErrorObject_from (Jsonrpsee e')).
Proof. apply (get_payload_no_version_error (server false) eq_refl [] 11). Defined.

Lemma disabled_isolates_builder_witness :
  leaves_builder_alone (run_trace quiet_env
    (server_new_payload (T := unit) (server false) payload_message) (start Disabled)).
Proof.
  apply (run_every quiet_env (server_new_payload (server false) payload_message) (start Disabled)
    (fun t o => in_mode Disabled t -> leaves_builder_alone t)).
  - apply (disabled_isolates_builder (server false) eq_refl).
  - by repeat constructor.
Defined.

Definition dry_run_get := server_get_payload (T := unit) (server false) [] 11 V3.

Lemma dry_run_returns_l2_witness :
  exists r, EvAwait (L2, get_payload_request 11 V3) r ∈
      run_trace quiet_env dry_run_get (start DryRun) /\
    run_outcome quiet_env dry_run_get (start DryRun) =
      Returned (into_rpc (get_payload_result L2 11 V3 r)).
Proof.
  pose proof (run_every quiet_env dry_run_get (start DryRun) _
    (dry_run_returns_l2 (server false) eq_refl [] 11 V3)) as H.
  assert (Hm : in_mode DryRun (run_trace quiet_env dry_run_get (start DryRun))).
  { vm_compute. by repeat constructor. }
  specialize (H Hm).
  destruct (run_outcome quiet_env dry_run_get (start DryRun)) as [res|m] eqn:Ho.
  - destruct H as (r & Hr & ->). by exists r.
  - vm_compute in Ho. discriminate Ho.
Defined.

Lemma new_payload_forgets_parent_witness :
  run_state quiet_env (server_new_payload (server false) payload_message) (after_fcu (server false)) =
    set_payload_trace_context (forget_parent 100 (payload_trace_context (after_fcu (server false))))
      (after_fcu (server false)).
Proof.
  apply (new_payload_forgets_parent (server false) quiet_env payload_message
    (after_fcu (server false))). done.
Defined.

(** With external state root, a payload can be fetched once: the forkchoice
    request it was started with is removed on the way, and asking for the same
    payload again makes the handler panic on [unwrap], although the L2 node
    still has the payload. *)
Definition external_server : RollupBoostServer := server true.

Definition first_get := run quiet_env (server_get_payload (T := unit) external_server [] 11 V3)
  (after_fcu external_server).

Theorem second_get_payload_panics :
  (exists p, first_get.1.1 = Returned (Ok p)) /\
  run_outcome quiet_env (server_get_payload external_server [] 11 V3) first_get.1.2 =
    Panicked "called `Option::unwrap()` on a `None` value" /\
  is_ok (reply (L2, Req_getPayloadV3 11)) = true.
Proof. split_and!; [eexists; vm_compute; reflexivity|vm_compute; reflexivity|reflexivity]. Qed.

End ServerExamples.
