(* ===== verification/ServerSystem.v ===== *)
(** * All requests of the server at once

    The handlers of [RollupBoostServer] (crates/rollup-boost/src/server.rs) share the
    trace context, the stored forkchoice requests, the execution mode, the probes and
    the builder client.  Here any number of them run side by side with the tasks they
    spawn, while the debug API, the health checker, the flashblocks receiver and the
    eviction of cache entries change the state between any two of their steps.  A log
    keeps what was received and what was sent to the two nodes.

    A handler acts on what other handlers have left in the shared state; the theorems
    say that this is always backed by the log: the builder is asked only for payloads
    that it was told to build, and a block is rebuilt only on the forkchoice state for
    which its payload id was issued. *)
From S2P Require Import Prelude Async Payload PayloadTrace RpcClient Selection Probe DebugApi Server ServerProps.
From S2P Require Import FlashblockBuilder FlashblocksService ServerExamples.

Local Open Scope Z_scope.
Local Open Scope prog_scope.

(** ** What a builder client sends

    Each method sends only its own request to the builder, and a forkchoice update
    succeeds only when the builder accepted it; only [get_payload] spawns a task, the
    one that finalises that payload. *)
Section Faithful.
Context {ET : EngineTypes}.

Definition quiet_but (t : option task) (o : Obs) : Prop :=
  match o with Spawn t' => t = Some t' | _ => True end.

Definition sends {S A} (I : S -> Prop) (G : Call -> Prop) (t : option task) (p : M S A) : Prop :=
  respects I G (fun _ _ => True) (quiet_but t) p (fun _ => True).

(** The reply to a forkchoice update is not INVALID. *)
Definition valid_update (u : ForkchoiceUpdated) : Prop :=
  ForkchoiceUpdated_is_invalid (payload_status u) (payload_id u) = false.

Class FaithfulBuilder (T : Type) `{!EngineApiExt T} : Prop := {
  fcu_sends s a : sends (fun _ => True) (.= (Builder, Req_forkchoiceUpdatedV3 s a)) None (fork_choice_updated_v3 s a);
  fcu_accepted s a : every (fork_choice_updated_v3 s a) (fun t o => forall u, o = Returned (Ok u) ->
    exists u', EvAwait (Builder, Req_forkchoiceUpdatedV3 s a) (Ok u') ∈ t /\ valid_update u');
  new_payload_sends n : sends (fun _ => True) (.= (Builder, new_payload_request n)) None (new_payload n);
  get_payload_sends id v :
    sends (fun _ => True) (.= (Builder, get_payload_request id v)) (Some (Spawn_finalising_get_payload id v)) (get_payload id v)
}.

(** The methods of [RpcClient]. *)
Ltac sends_tac :=
  unfold sends; cbn;
  repeat match goal with
  | |- _ /\ _ => split
  | |- forall _, _ => intro
  | |- context [match ?r with Ok _ => _ | Err _ => _ end] => destruct r; cbn
  | |- context [match payload_id ?x with _ => _ end] => destruct (payload_id x); cbn
  | |- context [if ?b then _ else _] => destruct b; cbn
  | |- True => exact Logic.I
  | |- _ = _ => reflexivity
  | |- respects _ _ _ _ _ _ => progress cbn
  end.

Lemma rpc_fcu_sends {S} (I : S -> Prop) self s a t :
  sends I (.= (payload_source self, Req_forkchoiceUpdatedV3 s a)) t (rpc_fork_choice_updated_v3 (S := S) self s a).
Proof. unfold rpc_fork_choice_updated_v3. sends_tac. Qed.

Lemma rpc_new_payload_sends {S} (I : S -> Prop) self n t :
  sends I (.= (payload_source self, new_payload_request n)) t (rpc_new_payload (S := S) self n).
Proof. destruct n; unfold rpc_new_payload, rpc_new_payload_v3, rpc_new_payload_v4; sends_tac. Qed.

Lemma rpc_get_payload_sends {S} (I : S -> Prop) self id v t :
  sends I (.= (payload_source self, get_payload_request id v)) t (rpc_get_payload (S := S) self id v).
Proof. destruct v; unfold rpc_get_payload, rpc_get_payload_v3, rpc_get_payload_v4; sends_tac. Qed.

Lemma rpc_get_block_sends {S} (I : S -> Prop) self n full t :
  sends I (.= (payload_source self, Req_getBlockByNumber n full)) t (rpc_get_block_by_number (S := S) self n full).
Proof. unfold rpc_get_block_by_number. sends_tac. Qed.

Lemma rpc_fcu_accepted {S} self s a :
  every (rpc_fork_choice_updated_v3 (S := S) self s a) (fun t o => forall u, o = Returned (Ok u) ->
    exists u', EvAwait (payload_source self, Req_forkchoiceUpdatedV3 s a) (Ok u') ∈ t /\ valid_update u').
Proof.
  eapply every_mono; [|apply rpc_fork_choice_updated_v3_once]. intros t o (r & Ht & ->) u [= Hr].
  destruct r as [u'|e]; [|done]. exists u'.
  split; [|by cbn in Hr; unfold valid_update; destruct (ForkchoiceUpdated_is_invalid _ _)].
  assert (Hin : EvAwait (payload_source self, Req_forkchoiceUpdatedV3 s a) (Ok u')
    ∈ filter (fun v => essential v = true) t) by (rewrite Ht; left).
  by apply list_elem_of_filter in Hin as [_ ?].
Qed.

Lemma RpcClient_FaithfulBuilder self :
  payload_source self = Builder -> @FaithfulBuilder unit (RpcClient_EngineApiExt self).
Proof.
  intros Hsrc. split; intros; rewrite <- Hsrc; cbn.
  - apply rpc_fcu_sends.
  - apply rpc_fcu_accepted.
  - apply rpc_new_payload_sends.
  - apply rpc_get_payload_sends.
Qed.

Lemma sends_bind {S A B} (I : S -> Prop) G t (p : M S A) (q : A -> M S B) :
  sends I G t p -> (forall a, sends I G t (q a)) -> sends I G t (bind p q).
Proof. intros Hp Hq. unfold sends in *. eapply respects_bind; [exact Hp|]. intros a _. apply Hq. Qed.

Lemma FlashblocksService_FaithfulBuilder payload_id_optimism client :
  payload_source client = Builder ->
  @FaithfulBuilder FlashblocksService (FlashblocksService_EngineApiExt payload_id_optimism client).
Proof.
  intros Hsrc. split; intros; rewrite <- Hsrc; cbn.
  - unfold fb_fork_choice_updated_v3. apply sends_bind; [by destruct a|]. intros _.
    apply sends_bind; [apply rpc_fcu_sends|]. intros [u|e]; [|done]. destruct (payload_id u); [|done].
    intros s0 _. split; [done|]. cbn. case_bool_decide; done.
  - unfold fb_fork_choice_updated_v3. eapply every_bind with (P := fun _ o => exists u, o = Returned u).
    { destruct a; [intros ? ?|]; by eexists. } { by intros ? ? [? ?]. }
    intros t0 [] _. eapply every_bind; [apply rpc_fcu_accepted| |].
    { intros t m H u [= ]. }
    intros t [u|e] Hu; [|by intros ? [= ]]. destruct (Hu u eq_refl) as (u' & Hin & Hv).
    eapply every_mono with (Q := fun _ _ => True); [|].
    { intros t' o _ ? _. exists u'. split; [set_solver|done]. }
    destruct (payload_id u); cbn; [|done]. intros ?. case_bool_decide; cbn; done.
  - apply rpc_new_payload_sends.
  - unfold fb_get_payload, get_best_payload. intros s0 _. split; [done|]. cbn. case_bool_decide; cbn.
    { apply sends_bind; [apply rpc_get_payload_sends|]. by intros [p|e]. }
    intros s1 _. split; [done|]. destruct (into_envelope _ v) as [p|e]; cbn; [done|].
    do 6 (split; [done|]). apply sends_bind; [apply rpc_get_payload_sends|]. by intros [p|e'].
Qed.

End Faithful.

Create HintDb facts.

(** ** The system *)

Section System.
Context {ET : EngineTypes} {T : Type} `{EA : !EngineApiExt T} {BC : BuilderClient T} {FB : FaithfulBuilder T}.
Context (self : RollupBoostServer) (Hl2 : payload_source (l2_client self) = L2).
(** The client that finalising tasks use. *)
Context (builder_rpc : RpcClient) (Hbuilder : payload_source builder_rpc = Builder).

Abbreviation SH := (Shared (T := T)).

(** The requests of the consensus client. *)
Inductive engine_call : Set :=
| C_forkchoiceUpdated (span : option SpanId) (s : ForkchoiceState) (a : option OpPayloadAttributes)
| C_newPayload (n : NewPayload)
| C_getPayload (id : PayloadId) (v : PayloadVersion)
| C_getBlockByNumber (n : BlockNumberOrTag) (full : bool).

Inductive answer : Set :=
| A_forkchoiceUpdated (r : result ForkchoiceUpdated ErrorObject)
| A_newPayload (r : result PayloadStatus ErrorObject)
| A_getPayload (r : result OpExecutionPayloadEnvelope ErrorObject)
| A_getBlockByNumber (r : result Block ErrorObject)
| A_done.

(** The handler of a request; [sch] interleaves its joined futures. *)
Definition engine_handler (sch : list bool) (q : engine_call) : M SH answer :=
  match q with
  | C_forkchoiceUpdated span s a =>
      let* r := server_fork_choice_updated_v3 self sch span s a in Ret (A_forkchoiceUpdated r)
  | C_newPayload n => let* r := server_new_payload self n in Ret (A_newPayload r)
  | C_getPayload id V3 => let* r := get_payload_v3 self sch id in Ret (A_getPayload (map_ok EnvelopeV3 r))
  | C_getPayload id V4 => let* r := get_payload_v4 self sch id in Ret (A_getPayload (map_ok EnvelopeV4 r))
  | C_getBlockByNumber n full => let* r := server_get_block_by_number self n full in Ret (A_getBlockByNumber r)
  end.

(** A spawned task; its errors are only logged. *)
Definition background_task (t : task) : M SH answer :=
  match t with
  | Spawn_builder_new_payload n => on_builder (new_payload n) ;; Ret A_done
  | Spawn_builder_fork_choice_updated s a => on_builder (fork_choice_updated_v3 s a) ;; Ret A_done
  | Spawn_finalising_get_payload id v => rpc_get_payload builder_rpc id v ;; Ret A_done
  end.

(** What is kept in the log, the latest first. *)
Inductive item : Set :=
| Received (q : engine_call)
| Sent (c : Call) (r : Reply c).

Record Serving : Type := {
  shared : SH;
  running : list (M SH answer);
  log : list item
}.

Definition Serving_new (s : SH) : Serving := {| shared := s; running := []; log := [] |}.

Definition receive (sch : list bool) (q : engine_call) (x : Serving) : Serving :=
  {| shared := shared x; running := engine_handler sch q :: running x; log := Received q :: log x |}.

(** One step of the task [n]; [reply] is what a node answers to a request. *)
Definition step_task (reply : forall c, Reply c) (n : nat) (x : Serving) : Serving :=
  match running x !! n with
  | Some (Atomic f k) =>
      {| shared := (f (shared x)).2; running := <[n := k (f (shared x)).1]> (running x); log := log x |}
  | Some (Await c k) =>
      {| shared := shared x; running := <[n := k (reply c)]> (running x); log := Sent c (reply c) :: log x |}
  | Some (Emit o k) =>
      {| shared := shared x;
         running := (match o with Spawn t => [background_task t] | _ => [] end) ++ <[n := k]> (running x);
         log := log x |}
  | Some (Ret _ | Panic _) | None => x
  end.

(** What others change: the debug API, the health checker, the flashblocks that the
    builder client receives, and the eviction of entries of the two caches. *)
Definition others_change (s s' : SH) : Prop :=
  block_hash_to_payload_ids (payload_trace_context s') ⊆ block_hash_to_payload_ids (payload_trace_context s) /\
  payload_ids (payload_trace_context s') ⊆ payload_ids (payload_trace_context s) /\
  payload_to_fcu_request s' = payload_to_fcu_request s.

Inductive server_step : Serving -> Serving -> Prop :=
| ss_receive sch q x : server_step x (receive sch q x)
| ss_run reply n x : server_step x (step_task reply n x)
| ss_others s' x :
    others_change (shared x) s' ->
    server_step x {| shared := s'; running := running x; log := log x |}.

(** ** What the log says *)

Abbreviation Log := (list item).

(** The L2 node gave out the payload id [id] for this forkchoice update; the builder
    accepted the update, with a status that is not INVALID; both. *)
Definition issued (L : Log) (id : PayloadId) (s : ForkchoiceState) (a : option OpPayloadAttributes) : Prop :=
  exists u, Sent (L2, Req_forkchoiceUpdatedV3 s a) (Ok u) ∈ L /\ valid_update u /\ payload_id u = Some id.

Definition accepted (L : Log) (s : ForkchoiceState) (a : option OpPayloadAttributes) : Prop :=
  exists u, Sent (Builder, Req_forkchoiceUpdatedV3 s a) (Ok u) ∈ L /\ valid_update u.

Definition built (L : Log) (id : PayloadId) : Prop := exists s a, issued L id s a /\ accepted L s a.

Definition received_fcu (L : Log) (s : ForkchoiceState) (a : option OpPayloadAttributes) : Prop :=
  exists span, Received (C_forkchoiceUpdated span s a) ∈ L.
Definition asked_for (L : Log) (id : PayloadId) : Prop := exists v, Received (C_getPayload id v) ∈ L.

(** The reasons for which requests are sent. *)
Definition new_payload_reason (L : Log) (src : PayloadSource) (r : engine_request) : Prop :=
  (exists n, Received (C_newPayload n) ∈ L /\ r = new_payload_request n) \/
  (src = L2 /\ exists p id, r = new_payload_request (NewPayload_from_envelope p) /\ asked_for L id /\ built L id).

Definition get_payload_reason (L : Log) (src : PayloadSource) (id : PayloadId) : Prop :=
  match src with
  | Builder => asked_for L id /\ built L id
  | L2 => asked_for L id \/ exists s a, issued L id s a
  end.

Definition justified (L : Log) (c : Call) : Prop :=
  match c with
  | (src, Req_forkchoiceUpdatedV3 s a) =>
      received_fcu L s a \/
      (src = L2 /\ exists id a0 p, asked_for L id /\ built L id /\ issued L id s a0 /\
         a = Some (external_attributes p a0))
  | (src, Req_getPayloadV3 id) | (src, Req_getPayloadV4 id) => get_payload_reason L src id
  | (src, Req_newPayloadV3 _ _ _ as r) | (src, Req_newPayloadV4 _ _ _ _ as r) => new_payload_reason L src r
  | (src, Req_getBlockByNumber n full) => src = L2 /\ Received (C_getBlockByNumber n full) ∈ L
  end.

Definition task_reason (L : Log) (t : task) : Prop :=
  match t with
  | Spawn_builder_new_payload n => Received (C_newPayload n) ∈ L
  | Spawn_builder_fork_choice_updated s a => received_fcu L s a
  | Spawn_finalising_get_payload id _ => asked_for L id /\ built L id
  end.

(** The shared state is backed by the log: payloads that the builder is building were
    issued by the L2 node and accepted by the builder, payloads listed under a parent
    were issued for a forkchoice update with that head, and a stored request is the
    one for which the payload id was issued. *)
Record backed (L : Log) (s : SH) : Prop := {
  bk_built id tr : payload_ids (payload_trace_context s) !! id = Some tr ->
    builder_has_payload tr = true -> built L id;
  bk_listed h ids id : block_hash_to_payload_ids (payload_trace_context s) !! h = Some ids -> id ∈ ids ->
    exists st a, issued L id st a /\ head_block_hash st = h;
  bk_request id st a : payload_to_fcu_request s !! id = Some (st, a) -> issued L id st a
}.

(** *** Facts stay true *)

Lemma issued_mono L L' id s a : L ⊆ L' -> issued L id s a -> issued L' id s a.
Proof. intros HL (u & Hu & ?). exists u. split; [by apply HL|done]. Qed.

Lemma built_mono L L' id : L ⊆ L' -> built L id -> built L' id.
Proof.
  intros HL (s & a & Hi & u & Hu & Hv). exists s, a. split; [by eapply issued_mono|]. exists u.
  split; [by apply HL|done].
Qed.

Lemma asked_mono L L' id : L ⊆ L' -> asked_for L id -> asked_for L' id.
Proof. intros HL (v & Hv). exists v. by apply HL. Qed.

Lemma received_fcu_mono L L' s a : L ⊆ L' -> received_fcu L s a -> received_fcu L' s a.
Proof. intros HL (sp & Hs). exists sp. by apply HL. Qed.

Hint Resolve issued_mono built_mono asked_mono received_fcu_mono : facts.

Lemma backed_mono L L' s : L ⊆ L' -> backed L s -> backed L' s.
Proof.
  intros HL [H1 H2 H3]. split; [eauto with facts| |eauto with facts].
  intros h ids id Hh Hin. destruct (H2 h ids id Hh Hin) as (st & a & ? & ?). eauto with facts.
Qed.

Lemma task_reason_mono L L' t : L ⊆ L' -> task_reason L t -> task_reason L' t.
Proof. intros HL. destruct t; cbn; [by apply HL|eauto with facts|intros [? ?]; eauto with facts]. Qed.

(** ** Reasoning about one task among the others

    The log is [L] when the task goes on, and only grows.  Whatever the others do, the
    task leaves a backed state behind, sends only what is justified, spawns only tasks
    with a reason, and [Q] holds at its end.  Only the external state root can make it
    panic. *)
Fixpoint causal {A} (p : M SH A) (L : Log) (Q : A -> Log -> Prop) : Prop :=
  match p with
  | Ret a => forall L', L ⊆ L' -> Q a L'
  | Panic _ => external_state_root self = true
  | Atomic f k => forall L' s, L ⊆ L' -> backed L' s -> backed L' (f s).2 /\ causal (k (f s).1) L' Q
  | Await c k =>
      (forall L', L ⊆ L' -> justified L' c) /\
      forall L' r, L ⊆ L' -> causal (k r) (Sent c r :: L') Q
  | Emit o k =>
      match o with Spawn t => task_reason L t | _ => True end /\ causal k L Q
  end.

Lemma causal_weaken {A} (p : M SH A) L L' Q : L ⊆ L' -> causal p L Q -> causal p L' Q.
Proof.
  revert L L'. induction p as [a|m|X f k IH|c k IH|o k IH]; cbn; intros L L' HL Hp.
  - intros L'' HL'. apply Hp. set_solver.
  - done.
  - intros L'' s HL' Hs. apply Hp; [set_solver|done].
  - destruct Hp as [H1 H2]. split; intros; [apply H1|apply H2]; set_solver.
  - destruct Hp as [H1 H2]. split; [|by eapply IH]. destruct o; try done. by eapply task_reason_mono.
Qed.

Lemma causal_mono {A} (p : M SH A) L (Q Q' : A -> Log -> Prop) :
  (forall a L', L ⊆ L' -> Q a L' -> Q' a L') -> causal p L Q -> causal p L Q'.
Proof.
  revert L. induction p as [a|m|X f k IH|c k IH|o k IH]; cbn; intros L HQ Hp; auto.
  - intros L' s HL Hs. destruct (Hp L' s HL Hs) as [H1 H2]. split; [done|]. eapply IH; [|exact H2].
    intros a L'' HL'. apply HQ. set_solver.
  - destruct Hp as [H1 H2]. split; [done|]. intros L' r HL. eapply IH; [|by apply H2].
    intros a L'' HL'. apply HQ. set_solver.
  - destruct Hp as [H1 H2]. split; [done|]. by apply IH.
Qed.

Lemma causal_bind {A B} (p : M SH A) (q : A -> M SH B) L Q :
  causal p L (fun a L' => causal (q a) L' Q) -> causal (bind p q) L Q.
Proof.
  revert L. induction p as [a|m|X f k IH|c k IH|o k IH]; cbn; intros L Hp; auto.
  - intros L' s HL Hs. destruct (Hp L' s HL Hs). auto.
  - destruct Hp. auto.
  - destruct Hp. auto.
Qed.

(** What holds at the end of a task goes on holding. *)
Lemma causal_stable {A} (p : M SH A) L (Q : A -> Log -> Prop) :
  causal p L Q -> causal p L (fun a L' => forall L'', L' ⊆ L'' -> Q a L'').
Proof.
  revert L. induction p as [a|m|X f k IH|c k IH|o k IH]; cbn; intros L Hp; auto.
  - intros L' HL L'' HL'. apply Hp. set_solver.
  - intros L' s HL Hs. destruct (Hp L' s HL Hs). auto.
  - destruct Hp. auto.
  - destruct Hp. auto.
Qed.

(** First [p], then [q] from what [p] has established. *)
Lemma causal_then {A B} (p : M SH A) (q : A -> M SH B) L (P : A -> Log -> Prop) Q :
  causal p L P ->
  (forall a L', L ⊆ L' -> (forall L'', L' ⊆ L'' -> P a L'') -> causal (q a) L' Q) -> causal (bind p q) L Q.
Proof. intros Hp Hq. apply causal_bind. eapply causal_mono; [exact Hq|by apply causal_stable]. Qed.

Lemma causal_join {A B} (p : M SH A) (q : M SH B) sch L P Q :
  causal p L P -> causal q L Q -> causal (join p sch q) L (fun x L' => P x.1 L' /\ Q x.2 L').
Proof.
  revert sch q L. induction p as [a|m|X f k IH|c k IH|o k IH]; intros sch q; revert sch;
    (induction q as [b|m'|X' f' k' IHq|c' k' IHq|o' k' IHq]; intros sch L HP HQ).
  all: try (eapply (causal_then _ (fun b => Ret (a, b))); [exact HQ|];
    intros b' L' HL Hb L'' HL'; cbn; split; [apply HP; set_solver|apply Hb; set_solver]).
  all: try (eapply (causal_then _ (fun a => Ret (a, b))); [exact HP|];
    intros a' L' HL Ha L'' HL'; cbn; split; [apply Ha; set_solver|apply HQ; set_solver]).
  all: destruct sch as [|[|] sch]; simpl; first
    [ exact HP
    | exact HQ
    | intros L' s HL Hs; destruct (HP L' s HL Hs); split; [done|];
      apply IH; [done|by eapply causal_weaken; [exact HL|exact HQ]]
    | intros L' s HL Hs; destruct (HQ L' s HL Hs); split; [done|];
      apply IHq; [by eapply causal_weaken; [exact HL|exact HP]|done]
    | destruct HP as [H1 H2]; split; [exact H1|]; intros L' r HL;
      apply IH; [by apply H2|by eapply causal_weaken; [|exact HQ]; set_solver]
    | destruct HQ as [H1 H2]; split; [exact H1|]; intros L' r HL;
      apply IHq; [by eapply causal_weaken; [|exact HP]; set_solver|by apply H2]
    | destruct HP as [H1 H2]; split; [exact H1|]; by apply IH
    | destruct HQ as [H1 H2]; split; [exact H1|]; by apply IHq ].
Qed.

(** *** Parts of the handlers *)

(** A critical section that leaves the backed parts alone. *)
Lemma causal_read {X} (f : SH -> X) L (Q : X -> Log -> Prop) :
  (forall s L', L ⊆ L' -> backed L' s -> forall L'', L' ⊆ L'' -> Q (f s) L'') -> causal (read f) L Q.
Proof. intros HQ L' s HL Hs. split; [done|]. cbn. by apply HQ. Qed.

Lemma backed_parts L (s s' : SH) :
  payload_trace_context s' = payload_trace_context s -> payload_to_fcu_request s' = payload_to_fcu_request s ->
  backed L s -> backed L s'.
Proof. intros E1 E2 [H1 H2 H3]. split; rewrite ?E1, ?E2; done. Qed.

(** The requests of a trace are in the log. *)
Definition logged {S} (t : list (event Reply Obs S)) (L : Log) : Prop :=
  forall v, v ∈ t -> match v with EvAwait c r => Sent c r ∈ L | _ => True end.

Lemma logged_snoc {S} (t : list (event Reply Obs S)) v L L' :
  logged t L -> L ⊆ L' -> match v with EvAwait c r => Sent c r ∈ L' | _ => True end -> logged (t ++ [v]) L'.
Proof.
  intros Ht HL Hv w. rewrite elem_of_app, list_elem_of_singleton. intros [Hw| ->]; [|done].
  specialize (Ht w Hw). destruct w; try done. by apply HL.
Qed.

(** A method of a client: it sends justified requests, and what is known of its trace is
    known of the log. *)
Lemma causal_sends {A} (p : M SH A) G t L (Phi : list (event Reply Obs SH) -> outcome A -> Prop) :
  (forall L', L ⊆ L' -> sends (backed L') G t p) ->
  (forall c L', G c -> L ⊆ L' -> justified L' c) -> (forall u, t = Some u -> task_reason L u) ->
  every p (fun _ o => exists a, o = Returned a) -> every p Phi ->
  causal p L (fun a L' => exists t, Phi t (Returned a) /\ logged t L').
Proof.
  intros Hs Hj Ht Hnp Hp.
  enough (H : forall (before : list (event Reply Obs SH)) L0,
    L ⊆ L0 -> (forall L', L0 ⊆ L' -> sends (backed L') G t p) ->
    logged before L0 -> every p (fun t o => Phi (before ++ t) o) ->
    causal p L0 (fun a L' => exists t, Phi t (Returned a) /\ logged t L')).
  { apply (H [] L); [done|done|by intros r ?%elem_of_nil|exact Hp]. }
  clear Hp Hs. induction p as [a|m|X f k IH|c' k IH|o k IH]; cbn in *; intros before L0 HL Hs Hd Hp.
  - intros L' HL'. exists (before ++ []). split; [done|]. rewrite app_nil_r. intros v Hv.
    specialize (Hd v Hv). destruct v; try done. by apply HL'.
  - by destruct Hnp.
  - intros L' s HL' Hb. destruct (Hs L' HL' s Hb) as [Hb' _]. split; [done|].
    apply (IH (f s).1 (Hnp s) (before ++ [EvAtomic s (f s).2])); [set_solver| |by eapply logged_snoc|].
    + intros L'' HL''. apply (Hs L''); [set_solver|by eapply backed_mono].
    + eapply every_mono; [|exact (Hp s)]. intros t' o. by rewrite <- app_assoc.
  - destruct (Hs L0 (reflexivity _)) as [Hg _]. split; [intros L' HL'; apply Hj; [done|set_solver]|]. intros L' r HL'.
    apply (IH r (Hnp r) (before ++ [EvAwait c' r])); [set_solver| |eapply logged_snoc; [done| |left]; set_solver|].
    + intros L'' HL''. apply (Hs L''); [set_solver|done].
    + eapply every_mono; [|exact (Hp r)]. intros t' o. by rewrite <- app_assoc.
  - split.
    { destruct (Hs L0 (reflexivity _)) as [Ho _]. destruct o; try done.
      eapply task_reason_mono; [exact HL|]. by apply Ht. }
    apply (IH Hnp (before ++ [EvEmit o])); [done| |by eapply logged_snoc|].
    + intros L'' HL''. by apply (Hs L'').
    + eapply every_mono; [|exact Hp]. intros t' o'. by rewrite <- app_assoc.
Qed.

(** The methods of the builder client leave the backed parts of the state alone. *)
Lemma on_builder_sends {A} (p : M T A) G t L : sends (fun _ => True) G t p -> sends (backed L) G t (on_builder p).
Proof. apply respects_zoom; [done|]. intros x s Hs _. by apply (backed_parts L s). Qed.

Lemma on_builder_returns {A} (p : M T A) :
  every p (confined Builder) -> every (on_builder p) (fun _ o => exists a, o = Returned a).
Proof.
  intros Hp. eapply every_mono; [|apply (confined_every_zoom Builder builder_client set_builder_client p)].
  - by intros t o [? _].
  - done.
  - done.
Qed.

Lemma confined_returns src {A} (p : M SH A) :
  every p (confined src) -> every p (fun _ o => exists a, o = Returned a).
Proof. apply every_mono. by intros t o [? _]. Qed.

(** *** The clients *)

Lemma causal_l2_fcu s a L :
  (forall L', L ⊆ L' -> justified L' (L2, Req_forkchoiceUpdatedV3 s a)) ->
  causal (rpc_fork_choice_updated_v3 (l2_client self) s a) L
    (fun r L' => forall u id, r = Ok u -> payload_id u = Some id -> issued L' id s a).
Proof.
  intros Hj. pose proof (rpc_fork_choice_updated_v3_once (S := SH) (l2_client self) s a) as Honce.
  rewrite Hl2 in Honce. eapply causal_mono; [|eapply (causal_sends _ (.= (L2, Req_forkchoiceUpdatedV3 s a)) None);
    [..|exact Honce]].
  - intros r L' _ (t & (x & Ht & [= ->]) & Hlog) u id Hu Hid. destruct x as [u'|e]; [|done]. cbn in Hu.
    destruct (ForkchoiceUpdated_is_invalid _ _) eqn:Hv; [done|]. injection Hu as ->. exists u. split; [|done].
    assert (Hin : EvAwait (L2, Req_forkchoiceUpdatedV3 s a) (Ok u)
      ∈ filter (fun v => essential v = true) t) by (rewrite Ht; left).
    apply list_elem_of_filter in Hin as [_ Hin]. exact (Hlog _ Hin).
  - intros L' _. rewrite <- Hl2. apply rpc_fcu_sends.
  - intros c L' ->. apply Hj.
  - done.
  - eapply (confined_returns L2), once_confined; [|exact Honce]. done.
Qed.

Lemma causal_builder_fcu s a L :
  received_fcu L s a ->
  causal (on_builder (fork_choice_updated_v3 s a)) L (fun r L' => is_ok r = true -> accepted L' s a).
Proof.
  intros Hr. eapply causal_mono; [|eapply (causal_sends _ (.= (Builder, Req_forkchoiceUpdatedV3 s a)) None);
    [..|exact (every_zoom builder_client set_builder_client _ _ ltac:(done) (fcu_accepted s a))]].
  - intros [u|e] L' _ (t & Ht & Hlog) Hok; [|done]. destruct (Ht u eq_refl) as (u' & Hin & Hvalid). exists u'.
    split; [|done].
    apply list_elem_of_fmap in Hin as (v & Hv & Hin). specialize (Hlog v Hin). destruct v as [| c r|]; try done.
    cbn in Hv. change (match EvAwait c r : event Reply Obs SH with EvAwait c r => Sent c r ∈ L' | _ => True end) in Hlog.
    assert (Heq : Sent c r = Sent (Builder, Req_forkchoiceUpdatedV3 s a) (Ok u')).
    { change (Sent c r) with (match (EvAwait c r : event Reply Obs T) with EvAwait c r => Sent c r | _ => Sent c r end).
      by rewrite <- Hv. }
    by rewrite <- Heq.
  - intros L' _. apply on_builder_sends, fcu_sends.
  - intros c L' -> HL. left. by eapply received_fcu_mono.
  - done.
  - apply on_builder_returns, fork_choice_updated_v3_confined.
Qed.

(** Requests whose replies do not matter. *)
Lemma causal_l2_once {A} (p : M SH A) c f L :
  (forall I : SH -> Prop, sends I (.= c) None p) -> (forall L', L ⊆ L' -> justified L' c) ->
  every p (calls_once c f) -> causal p L (fun _ _ => True).
Proof.
  intros Hs Hj Honce. eapply causal_mono; [by intros a L' _ _|].
  eapply (causal_sends p (.= c) None L (fun _ _ => True)); [by intros L' _|intros c' L' ->; apply Hj|done| |].
  - by eapply (confined_returns c.1), once_confined; [|exact Honce].
  - by eapply every_mono; [|exact Honce].
Qed.

Lemma causal_l2_new_payload n L :
  (forall L', L ⊆ L' -> new_payload_reason L' L2 (new_payload_request n)) ->
  causal (rpc_new_payload (l2_client self) n) L (fun _ _ => True).
Proof.
  intros Hj. pose proof (rpc_new_payload_once (S := SH) (l2_client self) n) as Honce.
  eapply causal_l2_once; [|..|exact Honce]; [intros I; apply rpc_new_payload_sends|].
  rewrite Hl2. destruct n; exact Hj.
Qed.

Lemma causal_l2_get_payload id v L :
  (forall L', L ⊆ L' -> get_payload_reason L' L2 id) ->
  causal (rpc_get_payload (l2_client self) id v) L (fun _ _ => True).
Proof.
  intros Hj. pose proof (rpc_get_payload_once (S := SH) (l2_client self) id v) as Honce.
  eapply causal_l2_once; [|..|exact Honce]; [intros I; apply rpc_get_payload_sends|].
  rewrite Hl2. destruct v; exact Hj.
Qed.

Lemma builder_get_payload_justified id v L :
  asked_for L id -> built L id -> justified L (Builder, get_payload_request id v).
Proof. by destruct v. Qed.

Lemma causal_builder_get_payload id v L :
  asked_for L id -> built L id -> causal (on_builder (get_payload id v)) L (fun _ _ => True).
Proof.
  intros Ha Hb. eapply causal_mono; [by intros a L' _ _|].
  eapply (causal_sends _ (.= (Builder, get_payload_request id v)) (Some (Spawn_finalising_get_payload id v)) L
    (fun _ _ => True)).
  - intros L' _. apply on_builder_sends, get_payload_sends.
  - intros c L' -> HL. apply builder_get_payload_justified; eauto with facts.
  - by intros u [= <-].
  - apply on_builder_returns, get_payload_confined.
  - eapply every_mono; [|apply (on_builder_returns _ (get_payload_confined id v))]. done.
Qed.

(** *** The trace context *)

(** The part of [backed] that is about the trace context. *)
Record trace_backed (L : Log) (c : PayloadTraceContext) : Prop := {
  tb_built id tr : payload_ids c !! id = Some tr -> builder_has_payload tr = true -> built L id;
  tb_listed h ids id : block_hash_to_payload_ids c !! h = Some ids -> id ∈ ids ->
    exists st a, issued L id st a /\ head_block_hash st = h
}.

Lemma backed_trace L s : backed L s -> trace_backed L (payload_trace_context s).
Proof. intros [H1 H2 _]. by split. Qed.

Lemma backed_set_trace L c s : backed L s -> trace_backed L c -> backed L (set_payload_trace_context c s).
Proof. intros [_ _ H3] [H1 H2]. by split. Qed.

(** A program on the trace context that sends nothing. *)
Lemma causal_on_trace {A} (p : M PayloadTraceContext A) L :
  (forall L', L ⊆ L' -> sends (trace_backed L') (fun _ => False) None p) -> every p silent ->
  causal (on_trace p) L (fun _ _ => True).
Proof.
  intros Hp Hs. assert (Hz : every (on_trace (T := T) p) silent) by by apply silent_zoom.
  eapply causal_mono; [by intros a L' _ _|].
  eapply (causal_sends _ (fun _ => False) None L (fun _ _ => True)); [|done|done|..].
  - intros L' HL. eapply respects_zoom; [apply backed_trace|apply backed_set_trace|by apply Hp].
  - eapply every_mono; [|exact Hz]. by intros t o [? _].
  - by eapply every_mono; [|exact Hz].
Qed.

Lemma trace_backed_shrink L c c' :
  payload_ids c' ⊆ payload_ids c -> block_hash_to_payload_ids c' ⊆ block_hash_to_payload_ids c ->
  trace_backed L c -> trace_backed L c'.
Proof.
  intros H1 H2 [T1 T2]. split.
  - intros id tr Hid. apply (T1 id tr). by eapply lookup_weaken.
  - intros h ids id Hh. apply (T2 h ids id). by eapply lookup_weaken.
Qed.

Lemma trace_id_sends L id : sends (trace_backed L) (fun _ => False) None (trace_id id).
Proof. by intros s Hs. Qed.

Lemma trace_ids_sends L h : sends (trace_backed L) (fun _ => False) None (trace_ids_from_parent_hash h).
Proof.
  apply sends_bind; [by intros s Hs|]. intros [ids|]; [|done].
  apply sends_bind; [|done]. induction ids as [|id ids IH]; [done|].
  apply sends_bind; [apply trace_id_sends|]. intros tr. by apply sends_bind.
Qed.

Lemma remove_by_parent_hash_sends L h :
  sends (trace_backed L) (fun _ => False) None (remove_by_parent_hash h).
Proof.
  apply sends_bind.
  { intros c Hc. split; [|done]. eapply trace_backed_shrink; [..|exact Hc]; cbn; [done|apply delete_subseteq]. }
  intros [ids|]; [|done]. induction ids as [|id ids IH]; [done|].
  apply sends_bind; [|done]. intros c Hc. split; [|done].
  eapply trace_backed_shrink; [..|exact Hc]; cbn; [apply delete_subseteq|done].
Qed.

(** What [store] records is backed by the replies of the two nodes. *)
Lemma store_sends L id st a b sp :
  issued L id st a -> (b = true -> built L id) ->
  sends (trace_backed L) (fun _ => False) None (store id (head_block_hash st) b sp).
Proof.
  intros Hi Hb. apply sends_bind; [|intros _]; intros c [T1 T2]; (split; [|done]); split; cbn; try done.
  - intros id' tr. rewrite lookup_insert_Some. intros [[<- <-]|[_ Hid]]; [done|by eapply T1].
  - intros h ids id'. rewrite lookup_insert_Some. intros [[<- <-]|[_ Hh]]; [|by eapply T2].
    destruct (block_hash_to_payload_ids c !! head_block_hash st) as [l|] eqn:Hl.
    + rewrite elem_of_app, list_elem_of_singleton. intros [Hin| ->]; [by eapply T2|eauto].
    + rewrite list_elem_of_singleton. intros ->. eauto.
Qed.

Lemma causal_has_builder_payload id L :
  causal (on_trace (has_builder_payload id)) L (fun b L' => b = true -> built L' id).
Proof.
  intros L' s HL Hs. cbn. split; [by apply (backed_parts L' s)|]. intros L'' HL' Hb.
  destruct (payload_ids (payload_trace_context s) !! id) as [tr|] eqn:Hid; [|done].
  eapply built_mono; [exact HL'|]. by eapply (bk_built _ _ Hs).
Qed.

(** *** The rest of the state *)

Lemma causal_put_health h L : causal (put_health h) L (fun _ _ => True).
Proof. intros L' s HL Hs. split; [by apply (backed_parts L' s)|done]. Qed.

Lemma causal_skip L : causal (should_skip_unhealthy_builder self) L (fun _ _ => True).
Proof. unfold should_skip_unhealthy_builder. by destruct (ignore_unhealthy_builders self); [intros L' s HL Hs|]. Qed.

Lemma causal_follow causes L : causal (follow_causes causes) L (fun _ _ => True).
Proof. induction causes as [|c causes IH]; cbn; [done|]. split; [done|exact IH]. Qed.

Lemma causal_insert_fcu_request id s a L :
  issued L id s a -> causal (insert_fcu_request self id s a) L (fun _ _ => True).
Proof.
  intros Hi. unfold insert_fcu_request. destruct (external_state_root self); [|done].
  intros L' st HL [H1 H2 H3]. split; [|done]. split; cbn; [done|done|].
  intros id' s' a'. rewrite lookup_insert_Some. intros [[<- [= <- <-]]|[_ Hid]]; [by eapply issued_mono|by eapply H3].
Qed.

(** *** The handlers *)

Abbreviation anything := (fun _ _ => True).

Lemma causal_fcu sch span s a L :
  received_fcu L s a -> causal (server_fork_choice_updated_v3 self sch span s a) L anything.
Proof.
  intros Hr.
  assert (Hj : forall L0, L ⊆ L0 -> forall L', L0 ⊆ L' -> justified L' (L2, Req_forkchoiceUpdatedV3 s a)).
  { intros L0 H1 L' H2. left. eapply received_fcu_mono; [|exact Hr]. set_solver. }
  assert (Hplain : forall L0, L ⊆ L0 ->
    causal (let* r := rpc_fork_choice_updated_v3 (l2_client self) s a in Ret (into_rpc r)) L0 anything).
  { intros L0 HL. eapply causal_then; [by apply causal_l2_fcu, Hj|done]. }
  (* the steps after the reply of the L2 node *)
  assert (Htail : forall (x : ClientResult ForkchoiceUpdated) L0 (k : PayloadId -> M SH unit),
    (forall u id, x = Ok u -> payload_id u = Some id -> causal (k id) L0 anything) ->
    causal (match into_rpc x with
            | Err e => Ret (Err e)
            | Ok u => (match payload_id u with Some id => k id | None => Ret tt end) ;; Ret (Ok u)
            end) L0 anything).
  { intros [u|e] L0 k Hk; cbn; [|done]. eapply causal_then; [|done].
    destruct (payload_id u) as [id|] eqn:Hid; [by apply (Hk u)|done]. }
  unfold server_fork_choice_updated_v3. cbn zeta. intros L1 s1 HL1 Hs1. split; [done|]. cbn [bind fst].
  destruct (is_disabled _); [by apply Hplain|].
  eapply causal_then; [apply causal_skip|]. intros skip L2' HL2 _.
  assert (HL : L ⊆ L2') by set_solver. destruct skip; [by apply Hplain|]. destruct a as [attrs|].
  - destruct (default false (no_tx_pool attrs)).
    + eapply causal_then; [by apply causal_l2_fcu, Hj|]. intros x L3 HL3 Hx. apply Htail. intros u id Hu Hid.
      apply causal_on_trace; [|unfold store; silent_tac]. intros L' HL'. eapply store_sends; [|done].
      by eapply Hx.
    + eapply causal_then; [apply causal_join; [by apply causal_l2_fcu, Hj|apply causal_builder_fcu]|].
      { by eapply received_fcu_mono. }
      intros [x br] L3 HL3 Hx. apply Htail. intros u id Hu Hid. eapply causal_then.
      * apply causal_on_trace; [|unfold store; silent_tac]. intros L' HL'.
        destruct (Hx L' HL') as [Hi Ha]. eapply store_sends; [by eapply Hi|]. intros Hok.
        exists s, (Some attrs). split; [by eapply Hi|by apply Ha].
      * intros _ L4 HL4 _. apply causal_insert_fcu_request. destruct (Hx L4 HL4) as [Hi _]. by eapply Hi.
  - split; [by eapply received_fcu_mono|]. cbn [bind]. eapply causal_then; [by apply causal_l2_fcu, Hj|].
    intros x L3 HL3 Hx. apply Htail. intros u id Hu Hid. apply causal_insert_fcu_request. by eapply Hx.
Qed.

Lemma causal_new_payload n L :
  Received (C_newPayload n) ∈ L -> causal (server_new_payload self n) L anything.
Proof.
  intros Hr. unfold server_new_payload. cbn zeta.
  eapply causal_then; [apply causal_on_trace; [intros; apply trace_ids_sends|apply trace_ids_silent]|].
  intros causes L1 HL1 _. apply (causal_then _ _ _ anything); [destruct causes; [apply causal_follow|done]|].
  intros _ L2' HL2 _.
  eapply causal_then; [apply causal_on_trace; [intros; apply remove_by_parent_hash_sends|apply remove_by_parent_hash_silent]|].
  intros _ L3 HL3 _. intros L4 s4 HL4 Hs4. split; [done|]. cbn [bind fst].
  eapply causal_then.
  { instantiate (1 := anything). destruct (negb _); [|done]. eapply causal_then; [apply causal_skip|done]. }
  intros sync L5 HL5 _. assert (HL : L ⊆ L5) by set_solver.
  apply (causal_then _ _ _ anything); [destruct sync; [split; [by apply HL|]|]; done|]. intros _ L6 HL6 _.
  eapply causal_then; [apply causal_l2_new_payload|done].
  intros L' HL'. left. exists n. split; [|done]. set_solver.
Qed.

Lemma causal_external_state_root p id v L :
  external_state_root self = true -> asked_for L id -> built L id ->
  causal (calculate_external_state_root self p id v) L anything.
Proof.
  intros Hext Ha Hb. intros L1 s HL1 Hs. cbn. split.
  { destruct Hs as [H1 H2 H3]. split; cbn; [done|done|]. intros id' st a Hid.
    apply lookup_delete_Some in Hid as [_ Hid]. by apply H3. }
  destruct (payload_to_fcu_request s !! id) as [[st a]|] eqn:Hreq; [|done].
  pose proof (bk_request _ _ Hs id st a Hreq) as Hi.
  eapply causal_then.
  { apply causal_l2_fcu. intros L' HL'. right. split; [done|]. exists id, a, p.
    assert (L ⊆ L') by set_solver. split_and!; eauto with facts. }
  intros [u|e] L2' HL2 Hu; cbn; [|done]. destruct (payload_id u) as [nid|] eqn:Hnid; [|done].
  eapply causal_then; [apply causal_l2_get_payload|].
  { intros L' HL'. right. eexists _, _. by eapply Hu. }
  by intros [np|e] L3 HL3 _.
Qed.

Lemma causal_builder_fut id v L : asked_for L id -> causal (builder_fut self id v) L anything.
Proof.
  intros Ha. unfold builder_fut.
  eapply causal_then; [apply causal_on_trace; [intros; apply trace_id_sends|unfold trace_id; silent_tac]|].
  intros cause L1 HL1 _. apply (causal_then _ _ _ anything); [by destruct cause|]. intros _ L2' HL2 _.
  eapply causal_then; [apply causal_has_builder_payload|]. intros has L3 HL3 Hhas.
  destruct has; cbn [negb]; [|by split]. specialize (Hhas L3 (reflexivity _) eq_refl).
  assert (Ha' : asked_for L3 id) by (eapply asked_mono; [|exact Ha]; set_solver).
  split; [done|]. cbn [bind]. eapply causal_then; [by apply causal_builder_get_payload|].
  intros [p|e] L4 HL4 _; [|done]. assert (asked_for L4 id /\ built L4 id) as [Ha4 Hb4] by eauto with facts.
  destruct (external_state_root self) eqn:Hext; cbn [negb].
  - eapply causal_then; [by apply causal_external_state_root|]. by intros [x|e] L5 HL5 _.
  - eapply causal_then; [apply causal_l2_new_payload|].
    + intros L' HL'. right. split; [done|]. exists p, id. eauto with facts.
    + intros [x|e] L5 HL5 _; done.
Qed.

Lemma causal_evaluate l2 b L : causal (evaluate self l2 b) L anything.
Proof.
  unfold evaluate. destruct l2 as [p|e]; [|eapply causal_then; [apply causal_put_health|done]].
  eapply causal_then; [apply causal_put_health|]. intros _ L1 HL1 _.
  destruct (match b with Ok r => (bp_payload r, builder_api_failed r) | Err _ => (None, true) end) as [[bp|] failed].
  - split; [done|]. cbn [bind]. split; [done|]. cbn [bind]. intros L2' s HL2 Hs. by split.
  - intros L2' s HL2 Hs. split; [done|]. cbn [bind fst]. apply (causal_then _ _ _ anything); [|done].
    destruct (_ && failed); [apply causal_put_health|done].
Qed.

Lemma causal_get_payload sch id v L :
  asked_for L id -> causal (server_get_payload self sch id v) L anything.
Proof.
  intros Ha. intros L1 s HL1 Hs. split; [done|]. cbn [bind fst].
  assert (Ha1 : asked_for L1 id) by eauto with facts.
  assert (Hl2p : causal (rpc_get_payload (l2_client self) id v) L1 anything).
  { apply causal_l2_get_payload. intros L' HL'. left. eauto with facts. }
  destruct (is_disabled (execution_mode s)).
  - eapply causal_then; [exact Hl2p|]. intros [p|e] L2' HL2 _; (eapply causal_then; [apply causal_put_health|]).
    + intros _ L3 HL3 _. by do 2 (split; [done|]).
    + done.
  - eapply causal_then; [apply causal_join; [exact Hl2p|by apply causal_builder_fut]|].
    intros [l2 b] L2' HL2 _. eapply causal_then; [apply causal_evaluate|].
    intros [chosen|e] L3 HL3 _; cbn; [|done]. by do 2 (split; [done|]).
Qed.

Lemma causal_engine_handler sch q L : Received q ∈ L -> causal (engine_handler sch q) L anything.
Proof.
  intros Hq. destruct q as [span s a|n|id []|n full]; cbn [engine_handler]; (apply (causal_then _ _ _ anything); [|done]).
  - apply causal_fcu. by exists span.
  - by apply causal_new_payload.
  - eapply causal_then; [apply causal_get_payload; by exists V3|]. by intros [[]|e] L' HL _.
  - eapply causal_then; [apply causal_get_payload; by exists V4|]. by intros [[]|e] L' HL _.
  - unfold server_get_block_by_number. apply (causal_then _ _ _ anything); [|done].
    eapply causal_l2_once; [intros I; apply rpc_get_block_sends| |apply rpc_get_block_by_number_once].
    intros L' HL. rewrite Hl2. split; [done|by apply HL].
Qed.

Lemma causal_spawned t L : task_reason L t -> causal (background_task t) L anything.
Proof.
  intros Ht. destruct t as [n|s a|id v]; cbn [background_task] in *; (apply (causal_then _ _ _ anything); [|done]).
  - eapply causal_mono; [by intros a L' _ _|].
    eapply (causal_sends _ (.= (Builder, new_payload_request n)) None L (fun _ _ => True)).
    + intros L' _. apply on_builder_sends, new_payload_sends.
    + intros c L' -> HL. assert (new_payload_reason L' Builder (new_payload_request n)) as Hn
        by (left; exists n; split; [by apply HL|done]). by destruct n.
    + done.
    + apply on_builder_returns, new_payload_confined.
    + by eapply every_mono; [|apply (on_builder_returns _ (new_payload_confined n))].
  - eapply causal_mono; [|by apply causal_builder_fcu]. done.
  - destruct Ht as [Ha Hb].
    eapply causal_l2_once; [intros I; apply rpc_get_payload_sends| |apply rpc_get_payload_once].
    intros L' HL. rewrite Hbuilder. apply builder_get_payload_justified; eauto with facts.
Qed.

(** ** The invariant *)

Record system_inv (x : Serving) : Prop := {
  si_backed : backed (log x) (shared x);
  si_running : Forall (fun p => causal p (log x) anything) (running x);
  si_log later c r earlier : log x = later ++ Sent c r :: earlier -> justified earlier c
}.

Lemma running_weaken L L' (l : list (M SH answer)) :
  L ⊆ L' -> Forall (fun p => causal p L anything) l -> Forall (fun p => causal p L' anything) l.
Proof. intros HL Hl. eapply Forall_impl; [exact Hl|]. intros p. by apply causal_weaken. Qed.

Lemma log_cons i L :
  (forall later c r earlier, L = later ++ Sent c r :: earlier -> justified earlier c) ->
  (forall c r, i = Sent c r -> justified L c) ->
  forall later c r earlier, i :: L = later ++ Sent c r :: earlier -> justified earlier c.
Proof.
  intros HL Hi [|j later] c r earlier Heq; cbn in Heq; injection Heq as -> ->; [by eapply Hi|by eapply HL].
Qed.

Lemma receive_inv sch q x : system_inv x -> system_inv (receive sch q x).
Proof.
  intros [H1 H2 H3]. assert (HL : log x ⊆ Received q :: log x) by set_solver. split; cbn.
  - by eapply backed_mono.
  - constructor; [apply causal_engine_handler; left|by eapply running_weaken].
  - by apply log_cons.
Qed.

Lemma step_task_inv reply n x : system_inv x -> system_inv (step_task reply n x).
Proof.
  intros [H1 H2 H3]. unfold step_task. destruct (running x !! n) as [p|] eqn:Hn; [|by split].
  pose proof (Forall_lookup_1 _ _ _ _ H2 Hn) as Hp. destruct p as [a|m|X f k|c k|o k]; [by split|by split|..]; cbn in Hp.
  - destruct (Hp (log x) (shared x) (reflexivity _) H1) as [Hb Hk]. split; cbn; [done| |done].
    by apply Forall_insert.
  - destruct Hp as [Hj Hk]. assert (HL : log x ⊆ Sent c (reply c) :: log x) by set_solver. split; cbn.
    + by eapply backed_mono.
    + apply Forall_insert; [by eapply running_weaken|]. by apply Hk.
    + apply log_cons; [done|]. intros c' r' Heq.
      assert (c = c') as <- by (by injection Heq). by apply Hj.
  - destruct Hp as [Ho Hk]. split; cbn; [done| |done]. apply Forall_app_2; [|by apply Forall_insert].
    destruct o as [t| | | | | |]; try by constructor. constructor; [by apply causal_spawned|by constructor].
Qed.

Lemma others_inv s' x :
  others_change (shared x) s' -> system_inv x -> system_inv {| shared := s'; running := running x; log := log x |}.
Proof.
  intros (E1 & E2 & E3) [[B1 B2 B3] H2 H3]. split; cbn; [|done|done]. split.
  - intros id tr Hid. apply (B1 id tr). by eapply lookup_weaken.
  - intros h ids id Hh. apply (B2 h ids id). by eapply lookup_weaken.
  - rewrite E3. exact B3.
Qed.

Lemma system_new_inv builder mode probes : system_inv (Serving_new (Shared_new builder mode probes)).
Proof.
  split; cbn; [|constructor|intros later c r earlier Heq; by apply app_cons_not_nil in Heq].
  split; cbn; intros *; by rewrite lookup_empty.
Qed.

Lemma system_reachable_inv builder mode probes x :
  star server_step (Serving_new (Shared_new builder mode probes)) x -> system_inv x.
Proof.
  intros Hx. eapply star_invariant; [|apply system_new_inv|exact Hx].
  intros y z Hy Hyz. revert Hy. destruct Hyz as [sch q w|reply n w|s' w Hs]; intros Hy; [by apply receive_inv|by apply step_task_inv|by apply others_inv].
Qed.

(** C5: whatever requests the server handles at the same time, and whatever the other
    parts of the program and the caches do meanwhile, every request it sends has a
    reason in what happened before: the builder is asked for a payload only when the
    consensus client asks for it, the L2 node had given out its id for a forkchoice
    update, and the builder had accepted that update; a payload that is validated, or
    a block that is rebuilt, belongs to such a payload, and it is rebuilt on the
    forkchoice state for which its id was given out; everything else is a request of
    the consensus client passed on. *)
Theorem requests_justified builder mode probes x :
  star server_step (Serving_new (Shared_new builder mode probes)) x ->
  forall later c r earlier, log x = later ++ Sent c r :: earlier -> justified earlier c.
Proof. intros Hx. apply (si_log x), (system_reachable_inv _ _ _ _ Hx). Qed.

(** C6: at any time the shared state is backed by what was sent and answered before: what
    the trace context and the stored forkchoice requests say of a payload id is what
    the two nodes replied about it; and without external state root no handler and no
    background task has panicked. *)
Theorem shared_state_backed builder mode probes x :
  star server_step (Serving_new (Shared_new builder mode probes)) x ->
  backed (log x) (shared x) /\
  (external_state_root self = false -> forall m, Panic m ∉ running x).
Proof.
  intros Hx. destruct (system_reachable_inv _ _ _ _ Hx) as [H1 H2 _]. split; [done|].
  intros Hext m Hm. rewrite Forall_forall in H2. specialize (H2 _ Hm). cbn in H2. congruence.
Qed.

End System.

(** ** Concrete systems *)
Module ServerSystemExamples.
Import Demo ServerExamples.

#[local] Instance builder_api : EngineApiExt unit := RpcClient_EngineApiExt builder.
#[local] Instance builder_laws : BuilderClient unit := RpcClient_BuilderClient builder eq_refl.
#[local] Instance builder_faithful : FaithfulBuilder unit := RpcClient_FaithfulBuilder builder eq_refl.

Abbreviation system := (Serving (T := unit)).
Abbreviation recv self q := (receive (T := unit) self [] q).
Abbreviation reaches self := (star (server_step (T := unit) self builder)).

(** [k] steps of the task [n], with the replies of ServerExamples. *)
Definition go (k n : nat) : system -> system := Nat.iter k (step_task builder reply n).

Definition update : engine_call := C_forkchoiceUpdated (Some 1) forkchoice (Some (attributes None)).
Definition initial : system := Serving_new (start Enabled).

Lemma go_reaches self k n (x y : system) : reaches self x y -> reaches self x (go k n y).
Proof. intros Hx. induction k as [|k IH]; [done|]. eapply star_snoc; [exact IH|]. apply ss_run. Qed.

Lemma recv_reaches self q (x y : system) : reaches self x y -> reaches self x (recv self q y).
Proof. intros Hx. eapply star_snoc; [exact Hx|]. apply ss_receive. Qed.

(** A forkchoice update, then the payload: the builder is asked for it. *)
Definition served : system :=
  go 40 0 (recv (server false) (C_getPayload 11 V3) (go 40 0 (recv (server false) update initial))).

Lemma served_reachable : reaches (server false) initial served.
Proof. unfold served. apply go_reaches, recv_reaches, go_reaches, recv_reaches, star_refl. Qed.

Definition calls (x : system) : list Call :=
  omap (fun i => match i with Sent c _ => Some c | _ => None end) (log x).

(** The log splits at the request to the builder. *)
Fixpoint split_at (L : list item) : option (list item * list item) :=
  match L with
  | [] => None
  | Sent (Builder, Req_getPayloadV3 _) _ :: earlier => Some ([], earlier)
  | i :: L => match split_at L with Some (later, earlier) => Some (i :: later, earlier) | None => None end
  end.

Lemma requests_justified_witness :
  exists later r earlier, log served = later ++ Sent (Builder, Req_getPayloadV3 11) r :: earlier /\
    (asked_for earlier 11 /\ built earlier 11).
Proof.
  destruct (split_at (log served)) as [[later earlier]|] eqn:Hs; [|by vm_compute in Hs].
  assert (Hlog : log served = later ++ Sent (Builder, Req_getPayloadV3 11) (reply (Builder, Req_getPayloadV3 11)) :: earlier).
  { vm_compute in Hs. injection Hs as <- <-. by vm_compute. }
  exists later, (reply (Builder, Req_getPayloadV3 11)), earlier. split; [done|].
  exact (requests_justified (server false) eq_refl builder eq_refl tt Enabled Probes_default served
    served_reachable _ _ _ _ Hlog).
Defined.

Lemma shared_state_backed_witness :
  backed (log served) (shared served) /\ forall m, Panic m ∉ running served.
Proof.
  destruct (shared_state_backed (server false) eq_refl builder eq_refl tt Enabled Probes_default served
    served_reachable) as [H1 H2].
  split; [exact H1|by apply H2].
Defined.

(** *** A forkchoice update beside newPayload on the same parent *)

(** A forkchoice update has stored its payload under the head.  A second one gives the
    same payload id, while [newPayload] for a child of that head removes what is
    listed under it: before the second update, or between its steps.  Then the
    payload is asked for. *)
Definition twice (overlap : bool) : system :=
  let x := go 40 0 (recv (server false) update initial) in
  let x := recv (server false) (C_newPayload payload_message) (recv (server false) update x) in
  let x := if overlap then go 20 0 (go 1 1 (go 1 0 (go 8 1 (go 4 0 x)))) else go 40 2 (go 40 0 x) in
  go 40 0 (recv (server false) (C_getPayload 11 V3) x).

Definition builder_asked (x : system) : bool :=
  match split_at (log x) with Some _ => true | None => false end.

(** Storing a payload and removing those of a parent are several steps each: when they
    overlap, the entry of the second update is removed although the update is not
    finished, and the builder is not asked for the payload that it has accepted. *)
Theorem update_lost_beside_new_payload :
  builder_asked (twice true) = false /\ builder_asked (twice false) = true.
Proof. split; by vm_compute. Qed.

(** *** Stored forkchoice requests *)

(** With external state root: the builder refuses the update, the block is fetched
    from the L2 node, and its successor is imported. *)
Definition refusing (c : Call) : Reply c :=
  match c with
  | (Builder, Req_forkchoiceUpdatedV3 _ _) => Err (ClientOther "busy")
  | c => reply c
  end.

Definition after_block : system :=
  let go k n := Nat.iter k (step_task (T := unit) builder refusing n) in
  let x := go 40%nat 0%nat (recv (server true) update initial) in
  let x := go 40%nat 0%nat (recv (server true) (C_getPayload 11 V3) x) in
  go 40%nat 0%nat (recv (server true) (C_newPayload payload_message) x).

(** The request that was stored for the payload stays in the map: only a getPayload
    that got a payload from the builder takes it out. *)
Theorem stored_request_stays :
  is_Some (payload_to_fcu_request (shared after_block) !! 11) /\
  payload_ids (payload_trace_context (shared after_block)) = ∅.
Proof. split; [vm_compute; by eexists|by vm_compute]. Qed.

End ServerSystemExamples.
