(* ===== verification/ServerTests.v ===== *)
(** * The server's unit tests, run on the model

    The tests in crates/rollup-boost/src/server.rs as executable scenarios: two mock
    engine servers with configured responses that log their requests, a server
    between them, and the calls and assertions of each test.  A test is a boolean
    function of the schedule of the joined futures, evaluated for several
    schedules; background tasks run to completion after the call that started
    them.  The hashes that the tests draw at random are fixed. *)
From S2P Require Import Prelude Async Payload PayloadTrace RpcClient F64 Selection Probe.
From S2P Require Import DebugApi Server.

Local Open Scope Z_scope.
Local Open Scope prog_scope.

(** ** The types of the tests *)

(** [PayloadStatusEnum] *)
Inductive PayloadStatusEnum : Set :=
| StatusValid | StatusInvalid (validation_error : string) | StatusSyncing | StatusAccepted.

Definition status_is_invalid (s : PayloadStatusEnum) : bool :=
  match s with StatusInvalid _ => true | _ => false end.

#[export] Instance test_types : EngineTypes := {|
  Withdrawal := Z;
  BlobsBundleV1 := unit;
  BlobsBundleV1_default := tt;
  PayloadStatus := PayloadStatusEnum;
  PayloadStatus_is_invalid := status_is_invalid;
  PayloadStatus_status_string := fun s =>
    match s with
    | StatusValid => "VALID" | StatusInvalid _ => "INVALID"
    | StatusSyncing => "SYNCING" | StatusAccepted => "ACCEPTED"
    end;
  ForkchoiceUpdated_is_invalid := fun s _ => status_is_invalid s;
  Block := Z;
  Block_timestamp := id;
  SpanId := Z;
  ErrorObject := Z * string;
  ErrorObject_code := fst;
  ErrorObject_owned := pair;
  ErrorObject_owned_code := fun _ _ => eq_refl;
  TransportError := string;
  TransportError_string := id;
  IoError := string;
  IoError_string := id;
  JwtError := string;
  JwtError_string := id;
  JsonValue := Z
|}.

(** ** Mock engine servers *)

Record MockEngineServer : Set := {
  fcu_response : result ForkchoiceUpdated ErrorObject;
  get_payload_responses : list (result OpExecutionPayloadEnvelopeV3 ErrorObject);
  new_payload_response : result PayloadStatus ErrorObject;
  override_payload_id : option PayloadId
}.

(** The payload of [MockEngineServer::new], with a given block value. *)
Definition mock_payload (value : Z) : OpExecutionPayloadEnvelopeV3 :=
  {| execution_payload_v3 :=
       {| payload_inner_v2 :=
            {| payload_inner_v1 :=
                 {| base_fee_per_gas := 7; block_number := 0xa946;
                    block_hash := 0xa5ddd3f286f429458a39cafc13ffe89295a7efa8eb363cf89a1a4887dbcf272b;
                    logs_bloom := 0x00200004000000000000000080000000000200000000000000000000000000000000200000000000000000000000000000000000800000000200000000000000000000000000000000000008000000200000000000000000000001000000000000000000000000000000800000000000000000000100000000000030000000000000000040000000000000000000000000000000000800080080404000000000000008000000000008200000000000200000000000000000000000000000000000000002000000000000000000000000000000000000001000000000000000000000000000000000000000000000000000000000000100000000000000000000;
                    extra_data := [0xd8; 0x83; 0x01; 0x0d; 0x03; 0x84; 0x67; 0x65; 0x74; 0x68; 0x88;
                      0x67; 0x6f; 0x31; 0x2e; 0x32; 0x31; 0x2e; 0x31; 0x85; 0x6c; 0x69; 0x6e; 0x75; 0x78];
                    gas_limit := 0x1c9c380; gas_used_v1 := 0x1f4a9; timestamp := 0x651f35b8;
                    fee_recipient := 0xf97e180c050e5ab072211ad2c213eb5aee4df134;
                    parent_hash := 0xd829192799c73ef28a7332313b3c03af1f2d5da2c36f8ecfafe7a83a3bfb8d1e;
                    prev_randao := 0x753888cc4adfbeb9e24e01c84233f9d204f4a9e1273f0e29b43c4c148b2b8b7e;
                    receipts_root := 0x4cbc48e87389399a0ea0b382b1c46962c4b8e398014bf0cc610f9c672bee3155;
                    state_root := 0x017d7fa2b5adb480f5e05b2c95cb4186e12062eed893fc8822798eed134329d1;
                    transactions_v1 := [] |};
               withdrawals_v2 := [] |};
          blob_gas_used := 0xc0000; excess_blob_gas := 0x580000 |};
     block_value_v3 := value; blobs_bundle_v3 := tt; should_override_builder_v3 := false;
     parent_beacon_block_root_v3 := 0 |}.

Definition valid_fcu (id : option PayloadId) : result ForkchoiceUpdated ErrorObject :=
  Ok {| payload_status := StatusValid; payload_id := id |}.

Definition MockEngineServer_new : MockEngineServer :=
  {| fcu_response := valid_fcu None; get_payload_responses := [Ok (mock_payload 0)];
     new_payload_response := Ok StatusValid; override_payload_id := None |}.

Definition with_fcu (r : result ForkchoiceUpdated ErrorObject) (m : MockEngineServer) :=
  {| fcu_response := r; get_payload_responses := get_payload_responses m;
     new_payload_response := new_payload_response m; override_payload_id := override_payload_id m |}.
Definition with_payloads (rs : list (result OpExecutionPayloadEnvelopeV3 ErrorObject)) (m : MockEngineServer) :=
  {| fcu_response := fcu_response m; get_payload_responses := rs;
     new_payload_response := new_payload_response m; override_payload_id := override_payload_id m |}.
Definition with_new_payload (r : result PayloadStatus ErrorObject) (m : MockEngineServer) :=
  {| fcu_response := fcu_response m; get_payload_responses := get_payload_responses m;
     new_payload_response := r; override_payload_id := override_payload_id m |}.
Definition with_override (id : PayloadId) (m : MockEngineServer) :=
  {| fcu_response := fcu_response m; get_payload_responses := get_payload_responses m;
     new_payload_response := new_payload_response m; override_payload_id := Some id |}.

(** An [ErrorObject::owned] of the tests. *)
Definition invalid_request (m : string) : ErrorObject := (INVALID_REQUEST_CODE, m).

(** ** The requests a server has logged *)

Abbreviation History := (list (event Reply Obs (Shared (T := unit)))).

Definition fcu_requests (src : PayloadSource) (h : History)
  : list (ForkchoiceState * option OpPayloadAttributes) :=
  omap (fun v => match v with
                 | EvAwait (s, Req_forkchoiceUpdatedV3 f a) _ =>
                     if bool_decide (s = src) then Some (f, a) else None
                 | _ => None
                 end) h.
Definition get_payload_requests (src : PayloadSource) (h : History) : list PayloadId :=
  omap (fun v => match v with
                 | EvAwait (s, Req_getPayloadV3 id) _ => if bool_decide (s = src) then Some id else None
                 | _ => None
                 end) h.
Definition new_payload_requests (src : PayloadSource) (h : History)
  : list (ExecutionPayloadV3 * list B256 * B256) :=
  omap (fun v => match v with
                 | EvAwait (s, Req_newPayloadV3 p hashes root) _ =>
                     if bool_decide (s = src) then Some (p, hashes, root) else None
                 | _ => None
                 end) h.

(** [spawn_server]: the methods of a mock. *)
Definition call_error {T} (r : result T ErrorObject) : result T JsonrpseeError := map_err ClientCall r.

Definition mock_fcu (m : MockEngineServer) : result ForkchoiceUpdated ErrorObject :=
  match fcu_response m, override_payload_id m with
  | Ok u, Some id => Ok {| payload_status := payload_status u; payload_id := Some id |}
  | r, _ => r
  end.

Definition mock_get_payload (m : MockEngineServer) (index : nat)
  : result OpExecutionPayloadEnvelopeV3 ErrorObject :=
  match get_payload_responses m !! index with
  | Some r => r
  | None => default (Err (invalid_request "No response configured")) (last (get_payload_responses m))
  end.

Definition method_not_found {T} : result T JsonrpseeError := Err (ClientCall (-32601, "Method not found"%string)).

Definition mock_env (l2 builder : MockEngineServer) : env Reply Obs (Shared (T := unit)) :=
  let mock src := match src with L2 => l2 | Builder => builder end in
  {| respond := fun h c =>
       match c as c return Reply c with
       | (src, Req_forkchoiceUpdatedV3 _ _) => call_error (mock_fcu (mock src))
       | (src, Req_getPayloadV3 _) =>
           call_error (mock_get_payload (mock src) (length (get_payload_requests src h)))
       | (src, Req_newPayloadV3 _ _ _) => call_error (new_payload_response (mock src))
       | (src, Req_getPayloadV4 _) => method_not_found
       | (src, Req_newPayloadV4 _ _ _ _) => method_not_found
       | (src, Req_getBlockByNumber _ _) => method_not_found
       end;
     interfere := fun _ s => s |}.

(** ** The harness *)

Definition l2_rpc : RpcClient := {| auth_rpc := "http://l2"; payload_source := L2 |}.
Definition builder_rpc : RpcClient := {| auth_rpc := "http://builder"; payload_source := Builder |}.

#[local] Instance builder_api : EngineApiExt unit := RpcClient_EngineApiExt builder_rpc.

Record TestHarness : Type := {
  l2_mock : MockEngineServer;
  builder_mock : MockEngineServer;
  server : RollupBoostServer;
  shared : Shared (T := unit);
  history : History
}.

(** [TestHarness::new_with_external_state_root] *)
Definition new_with_external_state_root (l2 builder : option MockEngineServer)
    (external_state_root : bool) : TestHarness :=
  let probes := set_health Healthy Probes_default in
  let '(server, shared, _) :=
    RollupBoostServer_new l2_rpc tt Enabled None probes external_state_root true None in
  {| l2_mock := default MockEngineServer_new l2; builder_mock := default MockEngineServer_new builder;
     server := server; shared := shared; history := [] |}.

Definition TestHarness_new (l2 builder : option MockEngineServer) : TestHarness :=
  new_with_external_state_root l2 builder false.

(** The bodies of the [tokio::spawn]s of the handlers. *)
Definition run_task (t : task) : M (Shared (T := unit)) unit :=
  match t with
  | Spawn_builder_new_payload n => on_builder (new_payload n) ;; Ret tt
  | Spawn_builder_fork_choice_updated s a => on_builder (fork_choice_updated_v3 s a) ;; Ret tt
  | Spawn_finalising_get_payload id v => on_builder (get_payload id v) ;; Ret tt
  end.

Definition spawned (h : History) : list task :=
  omap (fun v => match v with EvEmit (Spawn t) => Some t | _ => None end) h.

(** A call of the harness's client: the handler, then the tasks it has started. *)
Definition call {A} (p : RollupBoostServer -> M (Shared (T := unit)) A) (t : TestHarness)
  : outcome A * TestHarness :=
  let e := mock_env (l2_mock t) (builder_mock t) in
  let '(o, s, h) := exec e (p (server t)) (shared t) (history t) in
  let run '(s, h) task := let '(_, s, h) := exec e (run_task task) s h in (s, h) in
  let '(s, h) := fold_left run (spawned (drop (length (history t)) h)) (s, h) in
  (o, {| l2_mock := l2_mock t; builder_mock := builder_mock t; server := server t;
         shared := s; history := h |}).

(** [harness.get("healthz")], its status. *)
Definition healthz (t : TestHarness) : Z :=
  match probe_call (probes (shared t)) "/healthz" with Some r => status r | None => 0 end.

Definition succeeded {A E} (o : outcome (result A E)) : bool :=
  match o with Returned r => is_ok r | Panicked _ => false end.

Definition failed {A E} (o : outcome (result A E)) : bool :=
  match o with Returned (Err _) => true | _ => false end.

(** The block value of a payload that was returned. *)
Definition value_of (o : outcome (result OpExecutionPayloadEnvelopeV3 ErrorObject)) : option Z :=
  match o with Returned (Ok p) => Some (block_value_v3 p) | _ => None end.

Definition fcu : ForkchoiceState :=
  {| head_block_hash := 101; safe_block_hash := 102; finalized_block_hash := 103 |}.

(** [OpPayloadAttributes { gas_limit: Some(1000000), ..Default::default() }] *)
Definition payload_attributes_with (no_pool : option bool) : OpPayloadAttributes :=
  {| payload_attributes_of :=
       {| pa_timestamp := 0; pa_prev_randao := 0; pa_suggested_fee_recipient := 0;
          pa_withdrawals := None; pa_parent_beacon_block_root := None |};
     oa_transactions := None; no_tx_pool := no_pool; oa_gas_limit := Some 1000000;
     eip_1559_params := None; min_base_fee := None |}.

Definition call_fcu (sch : list bool) (a : option OpPayloadAttributes) :=
  call (fun self => server_fork_choice_updated_v3 self sch None fcu a).
Definition call_get (sch : list bool) (id : PayloadId) := call (fun self => get_payload_v3 self sch id).
Definition call_new (p : ExecutionPayloadV3) := call (fun self => new_payload_v3 self p [] 0).

(** ** Assertions *)

#[local] Instance Withdrawal_eq_dec : EqDecision (@Withdrawal test_types) := Z.eq_dec.
#[local] Instance ForkchoiceState_eq_dec : EqDecision ForkchoiceState.
Proof. solve_decision. Defined.
#[local] Instance PayloadAttributes_eq_dec : EqDecision (@PayloadAttributes test_types).
Proof. solve_decision. Defined.
#[local] Instance OpPayloadAttributes_eq_dec : EqDecision (@OpPayloadAttributes test_types).
Proof. solve_decision. Defined.
#[local] Instance ExecutionPayloadV1_eq_dec : EqDecision ExecutionPayloadV1.
Proof. solve_decision. Defined.
#[local] Instance ExecutionPayloadV2_eq_dec : EqDecision (@ExecutionPayloadV2 test_types).
Proof. solve_decision. Defined.
#[local] Instance ExecutionPayloadV3_eq_dec : EqDecision (@ExecutionPayloadV3 test_types).
Proof. solve_decision. Defined.

Definition assert_eq {A} `{EqDecision A} (x y : A) : bool := bool_decide (x = y).

Local Infix "&&&" := andb (at level 40, left associativity).

(** ** The tests *)

Definition engine_success (sch : list bool) : bool :=
  let t := TestHarness_new None None in
  let healthy := assert_eq (healthz t) 200 in
  let (fcu_response, t) := call_fcu sch None t in
  let fcu_ok :=
    succeeded fcu_response &&&
    assert_eq (fcu_requests L2 (history t)) [(fcu, None)] &&&
    assert_eq (length (fcu_requests Builder (history t))) 1%nat in
  let payload := execution_payload_v3 (mock_payload 0) in
  let (new_payload_response, t) := call_new payload t in
  let new_ok :=
    succeeded new_payload_response &&&
    assert_eq (new_payload_requests L2 (history t)) [(payload, [], 0)] &&&
    assert_eq (length (new_payload_requests Builder (history t))) 1%nat in
  let (get_payload_response, t) := call_get sch 1 t in
  let get_ok :=
    succeeded get_payload_response &&&
    assert_eq (length (get_payload_requests Builder (history t))) 0%nat &&&
    assert_eq (get_payload_requests L2 (history t)) [1] &&&
    assert_eq (length (new_payload_requests L2 (history t))) 1%nat in
  healthy &&& fcu_ok &&& new_ok &&& get_ok &&& assert_eq (healthz t) 206.

Definition builder_payload_err (sch : list bool) : bool :=
  let l2 := with_payloads [Ok (mock_payload 10)]
              (with_new_payload (Ok (StatusInvalid "test")) MockEngineServer_new) in
  let t := TestHarness_new (Some l2) None in
  let (get_payload_response, t) := call_get sch 0 t in
  succeeded get_payload_response &&& assert_eq (value_of get_payload_response) (Some 10).

Definition test_local_external_payload_ids_same (sch : list bool) : bool :=
  let same_id := 42 in
  let l2 := with_fcu (valid_fcu (Some same_id)) MockEngineServer_new in
  let builder := with_override same_id MockEngineServer_new in
  let t := TestHarness_new (Some l2) (Some builder) in
  let (fcu_response, t) := call_fcu sch None t in
  let fcu_ok :=
    succeeded fcu_response &&&
    assert_eq (length (fcu_requests Builder (history t))) 1%nat &&&
    assert_eq (length (fcu_requests L2 (history t))) 1%nat in
  let (get_res, t) := call_get sch same_id t in
  fcu_ok &&& succeeded get_res &&&
  assert_eq (length (get_payload_requests Builder (history t))) 0%nat &&&
  assert_eq (get_payload_requests L2 (history t)) [same_id].

Definition test_has_builder_payload (sch : list bool) : bool :=
  let payload_id := 42 in
  let l2 := with_payloads [Ok (mock_payload 10)]
              (with_fcu (valid_fcu (Some payload_id)) MockEngineServer_new) in
  let builder := with_payloads [Ok (mock_payload 15)]
    (with_fcu (Ok {| payload_status := StatusSyncing; payload_id := Some payload_id |})
      MockEngineServer_new) in
  let t := TestHarness_new (Some l2) (Some builder) in
  let (fcu_response, t) := call_fcu sch (Some (payload_attributes_with None)) t in
  let (first_payload, t) := call_get sch payload_id t in
  let (fcu_response', t) := call_fcu sch (Some (payload_attributes_with (Some true))) t in
  let (second_payload, t) := call_get sch payload_id t in
  succeeded fcu_response &&& assert_eq (value_of first_payload) (Some 15) &&&
  succeeded fcu_response' &&& assert_eq (value_of second_payload) (Some 10).

Definition l2_client_fails_fcu (sch : list bool) : bool :=
  let l2 := with_fcu (Err (invalid_request "Payload version 4 not supported")) MockEngineServer_new in
  let t := TestHarness_new (Some l2) None in
  let (fcu_response, t) := call_fcu sch None t in
  let (fcu_response', t) := call_fcu sch (Some (payload_attributes_with None)) t in
  failed fcu_response &&& failed fcu_response'.

Definition run_health_test_scenario (l2 : MockEngineServer) (builder : option MockEngineServer)
    (expected_health : Z) (external_state_root expect_l2_get_payload_success : bool)
    (sch : list bool) : bool :=
  let t := new_with_external_state_root (Some l2) builder external_state_root in
  let (response, t) := call_fcu sch (Some (payload_attributes_with None)) t in
  match response with
  | Returned (Ok {| payload_id := Some payload_id |}) =>
      let (get_payload_response, t) := call_get sch payload_id t in
      (if expect_l2_get_payload_success then succeeded get_payload_response
       else failed get_payload_response) &&&
      assert_eq (healthz t) expected_health
  | _ => false
  end.

Definition builder_api_failure_vs_processing_failure (sch : list bool) : bool :=
  let payload_id := 1 in
  let mock := with_fcu (valid_fcu (Some payload_id)) MockEngineServer_new in
  let value n := with_payloads [Ok (mock_payload n)] mock in
  let test1 := run_health_test_scenario mock
    (Some (with_payloads [Err (invalid_request "Builder API failed")] mock)) 206 false true sch in
  let test2 := run_health_test_scenario
    (with_new_payload (Err (invalid_request "L2 validation failed")) mock)
    (Some (value 15)) 206 false true sch in
  let test3 := run_health_test_scenario (value 5) (Some (value 20)) 200 false true sch in
  let test4 := run_health_test_scenario (value 8)
    (Some (with_fcu (Err (invalid_request "Builder FCU failed")) MockEngineServer_new))
    206 false true sch in
  let test5 := run_health_test_scenario
    (with_payloads [Ok (mock_payload 5); Err (invalid_request "L2 external state root failed")] mock)
    (Some (value 30)) 200 true true sch in
  test1 &&& test2 &&& test3 &&& test4 &&& test5.

(** [tokio::join!] polls the L2 future first: it runs to its end, or it sends its
    request and the builder's future runs, or the two take turns.  (Test 5 of the
    last scenario counts the requests of the L2 node, so it depends on this.) *)
Definition schedules : list (list bool) :=
  [repeat true 40; [true; true] ++ repeat false 40; concat (repeat [true; false] 20);
   [true; true] ++ concat (repeat [false; false; true] 20)].

Definition server_tests (sch : list bool) : list bool :=
  [engine_success sch; builder_payload_err sch; test_local_external_payload_ids_same sch;
   test_has_builder_payload sch; l2_client_fails_fcu sch; builder_api_failure_vs_processing_failure sch].

(** The model passes the tests of server.rs, under each of the schedules. *)
Example server_tests_pass : forallb (fun sch => forallb id (server_tests sch)) schedules = true.
Proof. by vm_compute. Qed.
