(* ===== verification/Pipeline.v ===== *)
(** * From the builder's websocket to the subscribers

    The composition that [Flashblocks::run] (flashblocks/launcher.rs) sets up: the
    receiver puts flashblocks on a channel of 100 places, the task of the service
    takes them one by one and runs [on_event] on each, and what [on_event] accepts
    is published.  Meanwhile forkchoice updates and getPayload calls change the
    service between any two steps of that task.  The composition is a transition
    system; its invariant relates what was received, what waits in the channel,
    what the builder holds and what was published. *)
From S2P Require Import Prelude Async Payload RpcClient FlashblockBuilder FlashblocksService.

Local Open Scope Z_scope.
Local Open Scope prog_scope.

(** [mpsc::channel(100)] *)
Definition CHANNEL_CAPACITY : nat := 100.

Section Pipeline.
Context {ET : EngineTypes}.

Abbreviation S := FlashblocksService.
Abbreviation FB := FlashblocksPayloadV1.

(** The task of the service: waiting for a message, or at some point of [on_event]
    on a message. *)
Inductive service_task : Type :=
| Waiting
| Handling (p : FB) (rest : M S unit).

(** What the task does with a message: its critical sections, with the state before and
    after, and what it publishes. *)
Inductive deed : Type :=
| Section_run (s s' : S)
| Sent_out (p : FB).

(** The first five fields are what the program keeps; the others record what has
    happened: the messages that are done with and the one in hand with the deeds of the
    task on them, and what [extend] has accepted, all of it and since the builder was
    last replaced. *)
Record Pipe : Type := {
  received : list FB;
  queue : list FB;
  task : service_task;
  service : S;
  published : list FB;
  handled : list (FB * list deed);
  deeds : list deed;
  accepted_log : list FB;
  accepted_since : list FB
}.

Definition Pipe_new : Pipe :=
  {| received := []; queue := []; task := Waiting; service := FlashblocksService_initial;
     published := []; handled := []; deeds := []; accepted_log := []; accepted_since := [] |}.

Definition sent_out (l : list deed) : list FB :=
  omap (fun d => match d with Sent_out p => Some p | Section_run _ _ => None end) l.

(** The critical sections of the other tasks on the service: the two of
    [set_current_payload_id], and the one of [get_best_payload]. *)
Inductive other_section : Set := SetId (id : PayloadId) | ResetBuilder | TakeBest.

Definition other_effect (o : other_section) (s : S) : S :=
  match o with
  | SetId id => set_id id s
  | ResetBuilder => set_best FlashblockBuilder_new s
  | TakeBest => (take_best s).2
  end.

Definition replaces_builder (o : other_section) : bool :=
  match o with SetId _ => false | _ => true end.

(** One step of the service's task: its next critical section or observation. *)
Definition task_step (rest : M S unit) (s : S) : option (M S unit * S * list deed) :=
  match rest with
  | Ret _ | Panic _ | Await _ _ => None
  | Atomic f k => let (x, s') := f s in Some (k x, s', [Section_run s s'])
  | Emit (Publish p) k => Some (k, s, [Sent_out p])
  | Emit _ k => Some (k, s, [])
  end.

(** The critical section in which the task accepts its message: the length of the
    builder grows. *)
Definition grows (s s' : S) : bool :=
  (length (flashblocks (best_payload s)) <? length (flashblocks (best_payload s')))%nat.

Definition do_receive (p : FB) (x : Pipe) : Pipe :=
  {| received := received x ++ [p]; queue := queue x ++ [p]; task := task x; service := service x;
     published := published x; handled := handled x; deeds := deeds x;
     accepted_log := accepted_log x; accepted_since := accepted_since x |}.

Definition do_take (p : FB) (q : list FB) (x : Pipe) : Pipe :=
  {| received := received x; queue := q; task := Handling p (on_event (FlashblocksPayloadV1_message p));
     service := service x; published := published x; handled := handled x; deeds := [];
     accepted_log := accepted_log x; accepted_since := accepted_since x |}.

Definition do_task (p : FB) (rest' : M S unit) (s' : S) (out : list deed) (x : Pipe) : Pipe :=
  let new := if grows (service x) s' then [p] else [] in
  {| received := received x; queue := queue x; task := Handling p rest'; service := s';
     published := published x ++ sent_out out; handled := handled x; deeds := deeds x ++ out;
     accepted_log := accepted_log x ++ new; accepted_since := accepted_since x ++ new |}.

Definition do_finish (p : FB) (x : Pipe) : Pipe :=
  {| received := received x; queue := queue x; task := Waiting; service := service x;
     published := published x; handled := handled x ++ [(p, deeds x)]; deeds := [];
     accepted_log := accepted_log x; accepted_since := accepted_since x |}.

Definition do_other (o : other_section) (x : Pipe) : Pipe :=
  {| received := received x; queue := queue x; task := task x; service := other_effect o (service x);
     published := published x; handled := handled x; deeds := deeds x; accepted_log := accepted_log x;
     accepted_since := if replaces_builder o then [] else accepted_since x |}.

Inductive pipe_step : Pipe -> Pipe -> Prop :=
| step_receive x p : (length (queue x) < CHANNEL_CAPACITY)%nat -> pipe_step x (do_receive p x)
| step_take x p q : task x = Waiting -> queue x = p :: q -> pipe_step x (do_take p q x)
| step_task x p rest rest' s' out :
    task x = Handling p rest -> task_step rest (service x) = Some (rest', s', out) ->
    pipe_step x (do_task p rest' s' out x)
| step_done x p : task x = Handling p (Ret tt) -> pipe_step x (do_finish p x)
| step_other x o : pipe_step x (do_other o x).

(** The same steps as a function. *)
Inductive action : Set := Receive (p : FB) | Take | RunTask | Finish | Other (o : other_section).

Definition pipe_do (a : action) (x : Pipe) : option Pipe :=
  match a with
  | Receive p => if (length (queue x) <? CHANNEL_CAPACITY)%nat then Some (do_receive p x) else None
  | Take => match task x, queue x with Waiting, p :: q => Some (do_take p q x) | _, _ => None end
  | RunTask =>
      match task x with
      | Handling p rest =>
          match task_step rest (service x) with
          | Some (rest', s', out) => Some (do_task p rest' s' out x)
          | None => None
          end
      | Waiting => None
      end
  | Finish => match task x with Handling p (Ret _) => Some (do_finish p x) | _ => None end
  | Other o => Some (do_other o x)
  end.

Fixpoint pipe_run (actions : list action) (x : Pipe) : option Pipe :=
  match actions with
  | [] => Some x
  | a :: actions => match pipe_do a x with Some y => pipe_run actions y | None => None end
  end.

Lemma pipe_do_step a x y : pipe_do a x = Some y -> pipe_step x y.
Proof.
  destruct a as [p| | | |o]; cbn [pipe_do].
  - destruct (Nat.ltb_spec (length (queue x)) CHANNEL_CAPACITY); [|done]. intros [= <-]. by apply step_receive.
  - destruct (task x) eqn:Ht; [|done]. destruct (queue x) eqn:Hq; [done|]. intros [= <-]. by apply step_take.
  - destruct (task x) as [|p rest] eqn:Ht; [done|].
    destruct (task_step rest (service x)) as [[[rest' s'] out]|] eqn:Hs; [|done]. intros [= <-].
    by eapply step_task.
  - destruct (task x) as [|p [[]| | | |]] eqn:Ht; try done. intros [= <-]. exact (step_done x p Ht).
  - intros [= <-]. apply step_other.
Qed.

Lemma pipe_run_star actions x y : pipe_run actions x = Some y -> star pipe_step x y.
Proof.
  revert x. induction actions as [|a actions IH]; cbn [pipe_run]; intros x; [intros [= <-]; apply star_refl|].
  destruct (pipe_do a x) as [z|] eqn:Hz; [|done]. intros Hy.
  eapply star_step; [by eapply pipe_do_step|by apply IH].
Qed.

(** ** The points of [on_event] *)

Definition after_extend (p : FB) (r : result unit FlashblocksError) : M S unit :=
  match r with
  | Err e => emit (Metric "extend_payload_errors" 1)
  | Ok tt => emit (Publish p)
  end.

Definition do_extend (p : FB) (s : S) : result unit FlashblocksError * S :=
  let (r, b) := extend p (best_payload s) in (r, set_best b s).

Definition after_id (p : FB) (current : option PayloadId) : M S unit :=
  match current with
  | Some id =>
      if bool_decide (id <> fb_payload_id p) then emit (Metric "current_payload_id_mismatch" 1)
      else bind (atomic (do_extend p)) (after_extend p)
  | None => Ret tt
  end.

Lemma on_event_points p :
  on_event (FlashblocksPayloadV1_message p) =
    Emit (Metric "messages_processed" 1) (bind (read current_payload_id) (after_id p)).
Proof. reflexivity. Qed.

(** What the task does to a message [p], completely: it finds no payload being built, or
    another one; or it finds that of [p] and the builder refuses [p]; or the builder
    takes it, and it is published. *)
Inductive dealt_with (p : FB) : list deed -> Prop :=
| ignored s :
    current_payload_id s <> Some (fb_payload_id p) -> dealt_with p [Section_run s s]
| refused s s1 e :
    current_payload_id s = Some (fb_payload_id p) -> (extend p (best_payload s1)).1 = Err e ->
    dealt_with p [Section_run s s; Section_run s1 (set_best (extend p (best_payload s1)).2 s1)]
| passed_on s s1 :
    current_payload_id s = Some (fb_payload_id p) -> (extend p (best_payload s1)).1 = Ok tt ->
    dealt_with p [Section_run s s; Section_run s1 (set_best (extend p (best_payload s1)).2 s1); Sent_out p].

(** Where the task can be, and what it has done with its message: before it knows
    whether it accepts it, between accepting and publishing it, or done with it. *)
Inductive phase : Set := Before | InFlight | After.

Inductive at_point (p : FB) : M S unit -> list deed -> phase -> Prop :=
| at_start : at_point p (on_event (FlashblocksPayloadV1_message p)) [] Before
| at_read : at_point p (bind (read current_payload_id) (after_id p)) [] Before
| at_extend s :
    current_payload_id s = Some (fb_payload_id p) ->
    at_point p (bind (atomic (do_extend p)) (after_extend p)) [Section_run s s] Before
| at_publish l : dealt_with p (l ++ [Sent_out p]) -> at_point p (emit (Publish p)) l InFlight
| at_metric l name n : dealt_with p l -> at_point p (emit (Metric name n)) l After
| at_end l : dealt_with p l -> at_point p (Ret tt) l After.

(** ** The invariant *)

(** The message in hand. *)
Definition in_hand (t : service_task) : list FB := match t with Waiting => [] | Handling p _ => [p] end.

(** The state of the task, with its deeds so far: the message in hand once its fate is
    known, and if it is accepted and not yet published. *)
Inductive progress : service_task -> list deed -> list FB -> list FB -> Prop :=
| progress_waiting : progress Waiting [] [] []
| progress_handling p rest l ph :
    at_point p rest l ph ->
    progress (Handling p rest) l (match ph with Before => [] | _ => [p] end)
      (match ph with InFlight => [p] | _ => [] end).

Record pipe_inv (x : Pipe) : Prop := {
  inv_capacity : (length (queue x) <= CHANNEL_CAPACITY)%nat;
  inv_received : received x = (handled x).*1 ++ in_hand (task x) ++ queue x;
  inv_handled : Forall (fun h => dealt_with h.1 h.2) (handled x);
  inv_published : published x = (handled x ≫= (fun h => sent_out h.2)) ++ sent_out (deeds x);
  inv_flow : exists decided pending,
    progress (task x) (deeds x) decided pending /\
    accepted_log x `sublist_of` (handled x).*1 ++ decided /\
    accepted_log x = published x ++ pending;
  inv_since : exists before, accepted_log x = before ++ accepted_since x;
  inv_holds : holds (accepted_since x) (best_payload (service x));
  inv_well_formed : well_formed (accepted_since x)
}.

Lemma extend_grows p s :
  grows s (do_extend p s).2 = bool_decide ((extend p (best_payload s)).1 = Ok tt).
Proof.
  unfold do_extend, grows. destruct (extend p (best_payload s)) as [r b] eqn:He.
  cbn [fst snd best_payload set_best].
  pose proof (extend_err_same p (best_payload s)) as Herr. rewrite He in Herr. cbn in Herr.
  destruct r as [[]|e]; [|rewrite (Herr e eq_refl), Nat.ltb_irrefl; done].
  pose proof (extend_ok_holds p (best_payload s)) as Hok. rewrite He in Hok. cbn in Hok.
  unfold extend in He. rewrite bool_decide_true by done.
  apply Nat.ltb_lt. repeat case_match; simplify_eq/=; rewrite length_app; cbn; lia.
Qed.

(** A step of the task leads from a point of [on_event] to a point of [on_event]; it
    accepts its message only in the critical section of [extend]. *)
Lemma task_step_point p rest l ph s rest' s' out :
  at_point p rest l ph -> task_step rest s = Some (rest', s', out) ->
  (exists ph', at_point p rest' (l ++ out) ph' /\ best_payload s' = best_payload s /\
     ((ph = InFlight /\ sent_out out = [p] /\ ph' = After) \/
      (ph = Before /\ sent_out out = [] /\ (ph' = Before \/ ph' = After)) \/
      (ph = After /\ sent_out out = [] /\ ph' = After))) \/
  (ph = Before /\ sent_out out = [] /\ s' = (do_extend p s).2 /\
   at_point p rest' (l ++ out) (if grows s s' then InFlight else After)).
Proof.
  intros Hp Hs. destruct Hp as [| |s0 Hid|l Hl|l name n Hl|l Hl]; cbn in Hs.
  - simplify_eq. left. exists Before. split; [apply at_read|naive_solver].
  - simplify_eq. left. unfold after_id. destruct (current_payload_id s') as [id|] eqn:Hid.
    + case_bool_decide as Hne.
      * exists After. split; [apply at_metric, ignored; congruence|naive_solver].
      * exists Before. split; [|naive_solver]. apply at_extend. congruence.
    + exists After. split; [apply at_end, ignored; congruence|naive_solver].
  - right. destruct (do_extend p s) as [r s1] eqn:He. simplify_eq. cbn.
    split_and!; [done..|]. pose proof (extend_grows p s) as Hg. rewrite He in Hg. cbn in Hg.
    rewrite Hg. unfold do_extend in He. pose proof (refused p s0 s) as Hr. pose proof (passed_on p s0 s) as Ha.
    destruct (extend p (best_payload s)) as [r' b]. simplify_eq/=.
    destruct r as [[]|e]; cbn.
    + rewrite bool_decide_true by done. apply at_publish. by apply Ha.
    + rewrite bool_decide_false by done. apply at_metric. by eapply Hr.
  - simplify_eq. left. exists After. split; [by apply at_end|naive_solver].
  - simplify_eq. left. exists After. split; [apply at_end; by rewrite app_nil_r|naive_solver].
  - done.
Qed.

Lemma grows_same s s' : best_payload s' = best_payload s -> grows s s' = false.
Proof. intros H. unfold grows. by rewrite H, Nat.ltb_irrefl. Qed.

Lemma sent_out_app l l' : sent_out (l ++ l') = sent_out l ++ sent_out l'.
Proof. apply omap_app. Qed.

(** A step of the task keeps the invariant. *)
Lemma task_step_inv x p rest rest' s' out :
  pipe_inv x -> task x = Handling p rest -> task_step rest (service x) = Some (rest', s', out) ->
  pipe_inv (do_task p rest' s' out x).
Proof.
  intros [Hcap Hrec Hhan Hout (dec & pend & Hprog & Hsub & Hpub) (before & Hbef) Hh Hw] Hrun Hts.
  rewrite Hrun in Hprog. inversion Hprog as [|? ? l ph Hat]; subst. unfold do_task.
  assert (Hrec' : received x = (handled x).*1 ++ [p] ++ queue x) by by rewrite Hrec, Hrun.
  assert (Hout' : published x ++ sent_out out =
    (handled x ≫= (fun h => sent_out h.2)) ++ sent_out (deeds x ++ out)).
  { by rewrite sent_out_app, Hout, app_assoc. }
  destruct (task_step_point _ _ _ _ _ _ _ _ Hat Hts) as [(ph' & Hat' & Hsame & Hcase)|(-> & Ho & -> & Hat')].
  + rewrite (grows_same _ _ Hsame). rewrite !app_nil_r.
    split; cbn; [done|done|done|done| |by eauto|by rewrite Hsame|done].
    exists (match ph' with Before => [] | _ => [p] end), (match ph' with InFlight => [p] | _ => [] end).
    split_and!; [by constructor| |].
    * destruct Hcase as [(-> & _ & ->)|[(-> & _ & [-> | ->])|(-> & _ & ->)]]; try done.
      rewrite app_nil_r in Hsub. by apply sublist_inserts_r.
    * destruct Hcase as [(-> & -> & ->)|[(-> & -> & [-> | ->])|(-> & -> & ->)]]; cbn;
        by rewrite ?app_nil_r in *.
  + rewrite app_nil_r in Hsub, Hpub. rewrite extend_grows in *. rewrite Ho, app_nil_r in *.
    unfold do_extend in *. destruct (extend p (best_payload (service x))) as [r b] eqn:He. cbn in *.
    pose proof (extend_ok_iff p (best_payload (service x))) as Hiff.
    pose proof (extend_ok_holds p (best_payload (service x)) _ Hh) as Hok.
    pose proof (extend_err_same p (best_payload (service x))) as Herr.
    rewrite He in Hiff, Hok, Herr. cbn in Hiff, Hok, Herr. rewrite (holds_length _ _ Hh) in Hiff.
    destruct r as [[]|e]; cbn in *.
    * rewrite bool_decide_true in * by done.
      split; cbn; [done..| |exists before; by rewrite Hbef, app_assoc|by apply Hok|].
      -- exists [p], [p]. split_and!; [by apply (progress_handling p rest' _ InFlight)| |by rewrite Hpub].
         by apply sublist_app.
      -- apply well_formed_snoc. split; [done|by apply Hiff].
    * rewrite bool_decide_false, !app_nil_r in * by done. rewrite (Herr e eq_refl).
      split; cbn; [done..| |by eauto|done|done].
      exists [p], []. split_and!; [by apply (progress_handling p rest' _ After)| |by rewrite app_nil_r].
      by apply sublist_inserts_r.
Qed.

Lemma pipe_step_inv x y : pipe_inv x -> pipe_step x y -> pipe_inv y.
Proof.
  intros Hi Hstep. pose proof Hi as [Hcap Hrec Hhan Hout (dec & pend & Hprog & Hsub & Hpub) (before & Hbef) Hh Hw].
  destruct Hstep as [x p Hlen|x p q Hidle Hq|x p rest rest' s' out Hrun Hts|x p Hrun|x o].
  - split; cbn; [rewrite length_app; cbn; lia| |done|done|by eauto|by eauto|done|done].
    by rewrite Hrec, <- !app_assoc.
  - rewrite Hidle in *. assert (deeds x = []) as Hl by by inversion Hprog. rewrite Hl in Hout.
    inversion Hprog; subst. rewrite Hq in *.
    split; cbn; [cbn in Hcap; lia|done|done|done| |by eauto|done|done].
    exists [], []. split_and!; [|done|done]. apply (progress_handling p _ _ Before). constructor.
  - by eapply task_step_inv.
  - rewrite Hrun in *. inversion Hprog as [|? ? l ph Hat]; subst.
    assert (ph = After /\ dealt_with p (deeds x)) as [-> Hd] by (by inversion Hat).
    split; cbn; [done| | | | |by eauto|done|done].
    + by rewrite Hrec, fmap_app, <- app_assoc.
    + apply Forall_app. split; [done|by constructor].
    + rewrite Hout, bind_app. cbn. by rewrite !app_nil_r.
    + exists [], []. split_and!; [constructor| |done]. by rewrite fmap_app, app_nil_r.
  - split; cbn; [done|done|done|done|by eauto 10| | |].
    + destruct o; cbn; [by eauto|exists (accepted_log x); by rewrite app_nil_r..].
    + by destruct o.
    + by destruct o.
Qed.

Lemma pipe_inv_new : pipe_inv Pipe_new.
Proof.
  split; cbn; [unfold CHANNEL_CAPACITY; lia|done|done|done| |by exists []|done|done].
  exists [], []. split_and!; by constructor.
Qed.

(** C12: in every reachable state of the composition, for every interleaving of the
    receiver, the service's task, forkchoice updates and getPayload calls: at most
    100 flashblocks wait; every flashblock received is done with, in hand or waiting, in
    the order of arrival, none lost, added or repeated; each one that is done with was
    ignored because its payload was not the one being built, or was refused by the
    builder, or was accepted and then published; nothing else is published; at most
    one accepted flashblock is not yet published, namely the one in hand; and the
    builder holds exactly the flashblocks accepted since it was last replaced, a run
    from index 0 without gaps. *)
Theorem pipeline_invariant (x : Pipe) :
  star pipe_step Pipe_new x ->
  (length (queue x) <= CHANNEL_CAPACITY)%nat /\
  received x = (handled x).*1 ++ in_hand (task x) ++ queue x /\
  Forall (fun h => dealt_with h.1 h.2) (handled x) /\
  published x = (handled x ≫= (fun h => sent_out h.2)) ++ sent_out (deeds x) /\
  published x `sublist_of` received x /\
  (exists pending, pending `sublist_of` in_hand (task x) /\ accepted_log x = published x ++ pending) /\
  (exists before, accepted_log x = before ++ accepted_since x) /\
  holds (accepted_since x) (best_payload (service x)) /\ well_formed (accepted_since x).
Proof.
  intros Hr. apply (star_invariant pipe_step pipe_inv) in Hr;
    [|intros ? ? H1 H2; by eapply pipe_step_inv|apply pipe_inv_new].
  destruct Hr as [Hcap Hrec Hhan Hout (dec & pend & Hprog & Hsub & Hpub) Hbef Hh Hw].
  assert (Hlen : pend `sublist_of` in_hand (task x) /\ dec `sublist_of` in_hand (task x)).
  { destruct Hprog as [|p rest l [| |]]; cbn; split; try done; apply sublist_nil_l. }
  destruct Hlen as (Hp & Hd). split_and!; try done; [|by eauto].
  trans (accepted_log x); [rewrite Hpub; by apply sublist_inserts_r|].
  trans ((handled x).*1 ++ dec); [done|]. rewrite Hrec, app_assoc. apply sublist_inserts_r.
  by apply sublist_app.
Qed.

End Pipeline.

(** ** A concrete run

    A forkchoice update announces payload 11, its first flashblock is received,
    handled and published. *)
Module PipelineExamples.
Import Demo FlashblockBuilder.Examples.

Definition first : FlashblocksPayloadV1 := fb 11 0 (Some base0) 21000 500 [[1]].

Definition actions : list action :=
  [Other (SetId 11); Receive first; Take; RunTask; RunTask; RunTask; RunTask; Finish].

(** What a run has published. *)
Definition run_published (l : list action) : option (list FlashblocksPayloadV1) :=
  match pipe_run l Pipe_new with Some x => Some (published x) | None => None end.

Example first_published : run_published actions = Some [first].
Proof. reflexivity. Qed.

Lemma pipeline_invariant_witness :
  exists x, pipe_run actions Pipe_new = Some x /\ published x = [first] /\
    published x `sublist_of` received x /\ (length (queue x) <= CHANNEL_CAPACITY)%nat.
Proof.
  destruct (pipe_run actions Pipe_new) as [x|] eqn:Hx; [|vm_compute in Hx; discriminate Hx].
  exists x. split; [done|].
  assert (Hp : run_published actions = Some [first]) by reflexivity.
  split; [unfold run_published in Hp; rewrite Hx in Hp; by injection Hp|].
  destruct (pipeline_invariant x (pipe_run_star _ _ _ Hx)) as (H1 & _ & _ & _ & H2 & _). by split.
Defined.

(** A full channel accepts nothing until the service takes a message. *)
Definition runs (l : list action) : bool :=
  match pipe_run l Pipe_new with Some _ => true | None => false end.

Example backpressure :
  runs (repeat (Receive first) 101) = false /\
  runs (repeat (Receive first) 100 ++ [Take; Receive first]) = true.
Proof. by vm_compute. Qed.

End PipelineExamples.
