(* ===== verification/Requests.v ===== *)
(** * Bounds on requests

    How many requests a handler of the server sends before it ends, whatever the nodes
    reply and the other tasks do. *)
From S2P Require Import Prelude Async Payload PayloadTrace RpcClient F64 Selection Probe.
From S2P Require Import DebugApi FlashblockBuilder FlashblocksService Server ServerExamples.

Local Open Scope Z_scope.
Local Open Scope prog_scope.

(** A builder client answers each call with at most one request of its own. *)
Class FrugalClient {ET : EngineTypes} (T : Type) `{!EngineApiExt T} : Prop := {
  fork_choice_updated_frugal s a : max_requests 1 (fork_choice_updated_v3 (T := T) s a);
  new_payload_frugal n : max_requests 1 (new_payload (T := T) n);
  get_payload_frugal id v : max_requests 1 (get_payload (T := T) id v)
}.

Section Frugal.
Context {ET : EngineTypes}.

Ltac frugal_tac :=
  cbn; let r := fresh "r" in intros r; destruct r as [res|e]; cbn; repeat (case_match; cbn); done.

Lemma rpc_fork_choice_updated_frugal {S} c s a :
  max_requests 1 (rpc_fork_choice_updated_v3 (S := S) c s a).
Proof. frugal_tac. Qed.

Lemma rpc_new_payload_frugal {S} c n : max_requests 1 (rpc_new_payload (S := S) c n).
Proof. destruct n; frugal_tac. Qed.

Lemma rpc_get_payload_frugal {S} c id v : max_requests 1 (rpc_get_payload (S := S) c id v).
Proof. destruct v; frugal_tac. Qed.

#[global] Instance RpcClient_FrugalClient c : @FrugalClient _ unit (RpcClient_EngineApiExt c).
Proof.
  split; intros.
  - apply rpc_fork_choice_updated_frugal.
  - apply rpc_new_payload_frugal.
  - apply rpc_get_payload_frugal.
Qed.

#[global] Instance FlashblocksService_FrugalClient payload_id_optimism c :
  @FrugalClient _ _ (FlashblocksService_EngineApiExt payload_id_optimism c).
Proof.
  split; cbn [fork_choice_updated_v3 new_payload get_payload FlashblocksService_EngineApiExt]; intros.
  - apply (max_requests_bind _ _ 0 1); [by destruct a|]. intros _.
    apply (max_requests_bind _ _ 1 0); [apply rpc_fork_choice_updated_frugal|]. intros [u|e]; [|done].
    apply (max_requests_bind _ _ 0 0); [|done]. destruct (payload_id u) as [id|]; [|done].
    apply (max_requests_bind _ _ 0 0); [done|]. intros cur. by case_bool_decide.
  - apply rpc_new_payload_frugal.
  - apply (max_requests_bind _ _ 0 1).
    { unfold get_best_payload. apply (max_requests_bind _ _ 0 0); [done|]. intros cur.
      by case_bool_decide. }
    intros [p|e]; [done|]. apply (max_requests_bind _ _ 1 0); [apply rpc_get_payload_frugal|].
    by intros [q|e'].
Qed.

End Frugal.

Section Bounds.
Context {ET : EngineTypes} {T : Type} `{EA : !EngineApiExt T} {FC : FrugalClient T}.
Context (self : RollupBoostServer).

Lemma no_request_bind {S A B} (p : M S A) (q : A -> M S B) n :
  max_requests 0 p -> (forall a, max_requests n (q a)) -> max_requests n (bind p q).
Proof. apply (max_requests_bind p q 0 n). Qed.

Lemma request_last {S A B} (p : M S A) (q : A -> M S B) n :
  max_requests n p -> (forall a, max_requests 0 (q a)) -> max_requests n (bind p q).
Proof. intros Hp Hq. rewrite <- (Nat.add_0_r n). by apply max_requests_bind. Qed.

Lemma on_trace_no_request {A} (p : M PayloadTraceContext A) :
  max_requests 0 p -> max_requests 0 (on_trace (T := T) p).
Proof. apply max_requests_zoom. Qed.

Lemma collect_no_request ids : max_requests 0 (collect_trace_ids (Reply := Reply) (Obs := Obs) ids).
Proof.
  induction ids as [|id ids IH]; [done|]. apply no_request_bind; [done|]. intros tr.
  by apply no_request_bind.
Qed.

Lemma remove_no_request ids : max_requests 0 (remove_payload_ids (Reply := Reply) (Obs := Obs) ids).
Proof. induction ids as [|id ids IH]; [done|]. by apply no_request_bind. Qed.

Lemma skip_no_request : max_requests 0 (should_skip_unhealthy_builder (T := T) self).
Proof. unfold should_skip_unhealthy_builder. by destruct (ignore_unhealthy_builders self). Qed.

Lemma follow_no_request cs : max_requests 0 (follow_causes (T := T) cs).
Proof. by induction cs. Qed.

Lemma insert_no_request id s a : max_requests 0 (insert_fcu_request (T := T) self id s a).
Proof. unfold insert_fcu_request. by destruct (external_state_root self). Qed.

Lemma new_payload_bound np : max_requests 1 (server_new_payload (T := T) self np).
Proof.
  unfold server_new_payload. cbn zeta. apply no_request_bind.
  { apply on_trace_no_request, no_request_bind; [done|]. intros [ids|]; [|done].
    apply no_request_bind; [apply collect_no_request|done]. }
  intros causes. apply no_request_bind; [by destruct causes; [apply follow_no_request|]|]. intros _.
  apply no_request_bind.
  { apply on_trace_no_request, no_request_bind; [done|]. intros [ids|]; [|done]. apply remove_no_request. }
  intros _. apply no_request_bind; [done|]. intros mode. apply no_request_bind.
  { destruct (negb (is_disabled mode)); [|done]. by apply no_request_bind; [apply skip_no_request|]. }
  intros sync. apply no_request_bind; [by destruct sync|]. intros _.
  by apply request_last; [apply rpc_new_payload_frugal|].
Qed.

Lemma fork_choice_updated_bound sch span s a :
  max_requests 2 (server_fork_choice_updated_v3 (T := T) self sch span s a).
Proof.
  assert (Hplain : max_requests (S := Shared (T := T)) 2
    (let* r := rpc_fork_choice_updated_v3 (l2_client self) s a in Ret (into_rpc r))).
  { apply (max_requests_bind _ _ 1 1); [apply rpc_fork_choice_updated_frugal|done]. }
  assert (Htail : forall (x : ClientResult ForkchoiceUpdated) (k : ForkchoiceUpdated -> M (Shared (T := T)) unit),
    (forall u, max_requests 0 (k u)) ->
    max_requests 0 (match into_rpc x with Err e => Ret (Err e) | Ok u => k u ;; Ret (Ok u) end)).
  { intros [u|e] k Hk; [|done]. by apply no_request_bind. }
  unfold server_fork_choice_updated_v3. cbn zeta. apply no_request_bind; [done|]. intros mode.
  destruct (is_disabled mode); [exact Hplain|].
  apply no_request_bind; [apply skip_no_request|]. intros [|]; [exact Hplain|].
  destruct a as [attrs|]; [destruct (default false (no_tx_pool attrs))|].
  - apply (max_requests_bind _ _ 1 1); [apply rpc_fork_choice_updated_frugal|]. intros r.
    eapply max_requests_mono; [|apply Htail]; [lia|]. intros u. by destruct (payload_id u).
  - apply request_last.
    { apply (max_requests_join _ _ _ 1 1); [apply rpc_fork_choice_updated_frugal|].
      apply max_requests_zoom, fork_choice_updated_frugal. }
    intros [l2r br]. apply Htail. intros u. destruct (payload_id u); [|done].
    by apply no_request_bind; [|intros _; apply insert_no_request].
  - apply no_request_bind; [done|]. intros _.
    apply (max_requests_bind _ _ 1 1); [apply rpc_fork_choice_updated_frugal|]. intros r.
    eapply max_requests_mono; [|apply Htail]; [lia|]. intros u.
    destruct (payload_id u); [apply insert_no_request|done].
Qed.

Lemma builder_fut_bound id v : max_requests 3 (builder_fut (T := T) self id v).
Proof.
  unfold builder_fut. apply no_request_bind; [done|]. intros cause.
  apply no_request_bind; [by destruct cause|]. intros _. apply no_request_bind; [done|].
  intros [|]; cbn [negb]; (apply no_request_bind; [done|]); intros _; [|done].
  apply (max_requests_bind _ _ 1 2); [apply max_requests_zoom, get_payload_frugal|].
  intros [p|e]; [|done]. destruct (external_state_root self); cbn [negb].
  - apply request_last; [|by intros [q|e]]. apply no_request_bind; [done|].
    intros [[fs fa]|]; [|done].
    apply (max_requests_bind _ _ 1 1); [apply rpc_fork_choice_updated_frugal|].
    intros l2r. destruct (into_rpc l2r) as [u|e]; [|done]. destruct (payload_id u); [|done].
    apply request_last; [apply rpc_get_payload_frugal|by intros [q|e]].
  - apply (max_requests_bind _ _ 1 1); [apply rpc_new_payload_frugal|].
    intros st. by destruct (into_rpc st).
Qed.

Lemma evaluate_no_request l2p bp : max_requests 0 (evaluate (T := T) self l2p bp).
Proof.
  destruct l2p as [l|e]; [|done]. apply no_request_bind; [done|]. intros _.
  destruct bp as [[[b|] f]|e]; cbn; [done| |]; intros s; by destruct (_ && _).
Qed.

Lemma get_payload_bound sch id v : max_requests 4 (server_get_payload (T := T) self sch id v).
Proof.
  unfold server_get_payload. apply no_request_bind; [done|]. intros mode. destruct (is_disabled mode).
  - apply (max_requests_bind _ _ 1 3); [apply rpc_get_payload_frugal|]. by intros [p|e].
  - apply request_last.
    { apply (max_requests_join _ _ _ 1 3); [apply rpc_get_payload_frugal|apply builder_fut_bound]. }
    intros [l2p bp]. apply no_request_bind; [apply evaluate_no_request|]. by intros [chosen|e].
Qed.

(** C13: no handler retries or loops: whatever the replies and the interference, and
    whether it returns or panics, newPayload ends after at most one request,
    forkchoiceUpdated after at most two, and getPayload after at most four (the L2
    payload, the builder's, and the forkchoice update and the payload of the
    external state root). *)
Theorem handlers_terminate (sch : list bool) (span : option SpanId) (s : ForkchoiceState)
    (a : option OpPayloadAttributes) (np : NewPayload) (id : PayloadId) (v : PayloadVersion) :
  every (server_new_payload (T := T) self np) (fun t _ => (count_requests t <= 1)%nat) /\
  every (server_fork_choice_updated_v3 (T := T) self sch span s a)
    (fun t _ => (count_requests t <= 2)%nat) /\
  every (server_get_payload (T := T) self sch id v) (fun t _ => (count_requests t <= 4)%nat).
Proof.
  split; [|split]; apply max_requests_every;
    [apply new_payload_bound|apply fork_choice_updated_bound|apply get_payload_bound].
Qed.

End Bounds.

(** ** Concrete runs *)
Module RequestExamples.
Import Demo ServerExamples.

#[local] Instance builder_api : EngineApiExt unit := RpcClient_EngineApiExt builder.

Lemma handlers_terminate_witness :
  every (server_get_payload (T := unit) (server true) [] 11 V3)
    (fun t _ => (count_requests t <= 4)%nat).
Proof.
  exact (proj2 (proj2 (handlers_terminate (T := unit) (FC := RpcClient_FrugalClient builder)
    (server true) [] None forkchoice None payload_message 11 V3))).
Defined.

(** getPayload with external state root uses all four requests. *)
Example four_requests :
  count_requests (run_trace quiet_env (server_get_payload (T := unit) (server true) [] 11 V3)
    (after_fcu (server true))) = 4%nat.
Proof. by vm_compute. Qed.

End RequestExamples.
