(* ===== verification/HealthCheck.v ===== *)
(** * The health checker

    crates/rollup-boost/src/health.rs and [RollupBoostServer::spawn_health_check]:
    the background task that compares the timestamps of the latest blocks of the
    two nodes with a clock of its own and sets the health of the probes. *)
From S2P Require Import Prelude Async Payload RpcClient Probe DebugApi.
From S2P Require Import Server ServerProps ServerExamples.

Local Open Scope Z_scope.
Local Open Scope prog_scope.

(** ** The clock

    Instants are nanoseconds of the monotonic clock. *)
Module Clock.

Definition second : Z := 1000000000.

Record MonotonicTimestamp : Set := { last_unix : Z; last_instant : Z }.

(** [MonotonicTimestamp::new], from the readings of the two clocks. *)
Definition MonotonicTimestamp_new (unix_secs now : Z) : MonotonicTimestamp :=
  {| last_unix := unix_secs; last_instant := now |}.

(** [Instant::elapsed]: saturating. *)
Definition elapsed (since now : Z) : Z := Z.max 0 (now - since).

(** [tick]: [now] is read by [elapsed], [now'] by the [Instant::now] after it. *)
Definition tick (now now' : Z) (self : MonotonicTimestamp) : Z * MonotonicTimestamp :=
  let secs := elapsed (last_instant self) now / second in
  let unix := (last_unix self + secs) mod 2 ^ 64 in
  (unix, {| last_unix := unix; last_instant := now' |}).

Fixpoint ticks (readings : list (Z * Z)) (self : MonotonicTimestamp) : MonotonicTimestamp :=
  match readings with
  | [] => self
  | (now, now') :: readings => ticks readings (tick now now' self).2
  end.

(** The readings come from a clock that does not go back. *)
Fixpoint moves_forward (from : Z) (readings : list (Z * Z)) : Prop :=
  match readings with
  | [] => True
  | (now, now') :: readings => from <= now <= now' /\ moves_forward now' readings
  end.

Definition final_instant (from : Z) (readings : list (Z * Z)) : Z :=
  match last readings with Some (_, now') => now' | None => from end.

Lemma final_instant_cons from x readings :
  final_instant from (x :: readings) = final_instant x.2 readings.
Proof.
  unfold final_instant. destruct x as [a b], readings as [|y r]; [done|].
  change (last ((a, b) :: y :: r)) with (last (y :: r)).
  destruct (last (y :: r)) eqn:Hl; [done|]. by apply last_None_inv in Hl.
Qed.

Lemma forward_le from readings : moves_forward from readings -> from <= final_instant from readings.
Proof.
  revert from. induction readings as [|[a b] r IH]; intros from H; [unfold final_instant; simpl; lia|].
  rewrite final_instant_cons. destruct H as [Hab H]. apply IH in H. simpl. lia.
Qed.

Lemma tick_secs now now' self :
  last_instant self <= now -> 0 <= last_unix self ->
  last_unix self * second + (now - last_instant self) < 2 ^ 64 * second ->
  let u := last_unix (tick now now' self).2 in
  last_unix self <= u /\
  u * second <= last_unix self * second + (now - last_instant self) < (u + 1) * second.
Proof.
  intros Hn Hu Hb. unfold tick, elapsed. simpl. rewrite Z.max_r by lia.
  set (d := now - last_instant self) in *.
  assert (Hd := Z.div_mod d second ltac:(done)).
  assert (Hm := Z.mod_pos_bound d second ltac:(done)).
  assert (0 <= d / second) by (apply Z.div_pos; [lia|done]).
  unfold second in *. rewrite Z.mod_small; lia.
Qed.

(** The clock of the health checker never goes back and never runs ahead of
    the time that really passed; when each tick reads the clock once, it lags
    behind by less than a second per tick.  (Hypotheses: the readings do not go
    back, and the time stays below [2 ^ 64] seconds.) *)
Theorem ticks_bounds (readings : list (Z * Z)) (self : MonotonicTimestamp) :
  0 <= last_unix self -> moves_forward (last_instant self) readings ->
  last_unix self * second + (final_instant (last_instant self) readings - last_instant self)
    < 2 ^ 64 * second ->
  let passed := final_instant (last_instant self) readings - last_instant self in
  let u := last_unix (ticks readings self) in
  last_unix self <= u /\ u * second <= last_unix self * second + passed /\
  (Forall (fun x => x.1 = x.2) readings ->
   last_unix self * second + passed <= (u + Z.of_nat (length readings)) * second).
Proof.
  revert self. induction readings as [|[a b] r IH]; intros self Hu Hf Hb.
  { unfold final_instant. simpl. unfold second. split_and!; intros; lia. }
  rewrite final_instant_cons in *. cbn [snd] in *. destruct Hf as [Hab Hf].
  pose proof (forward_le _ _ Hf) as Hle.
  destruct (tick_secs a b self ltac:(lia) Hu ltac:(lia)) as (H1 & H2 & H3).
  set (self' := (tick a b self).2) in *.
  assert (Hi : last_instant self' = b) by done.
  destruct (IH self' ltac:(lia) ltac:(by rewrite Hi) ltac:(rewrite Hi; lia)) as (I1 & I2 & I3).
  rewrite Hi in I2, I3. cbn [ticks length].
  change (tick a b self).2 with self'. split_and!; [lia|lia|].
  intros Heq. apply Forall_cons in Heq as [Hx Hr]. simpl in Hx.
  specialize (I3 Hr). unfold second in *. lia.
Qed.

Lemma ticks_bounds_witness :
  let self := MonotonicTimestamp_new 1700000000 0 in
  let readings := [(2 * second, 2 * second); (4 * second + 1, 4 * second + 1)] in
  last_unix self <= last_unix (ticks readings self).
Proof.
  intros self readings.
  assert (Hf : moves_forward (last_instant self) readings) by (vm_compute; intuition congruence).
  exact (proj1 (ticks_bounds readings self ltac:(done) Hf ltac:(done))).
Defined.

(** Ticks at a constant period. *)
Fixpoint periodic (n : nat) (from period : Z) : list (Z * Z) :=
  match n with
  | O => []
  | S n => (from + period, from + period) :: periodic n (from + period) period
  end.

(** The fraction of a second is dropped at every tick: at a constant period
    the clock advances by the whole seconds of the period only, so the lag
    grows without bound unless the period is a whole number of seconds. *)
Theorem ticks_drift (n : nat) (unix now period : Z) :
  0 <= unix -> 0 <= period -> unix + Z.of_nat n * (period / second) < 2 ^ 64 ->
  last_unix (ticks (periodic n now period) (MonotonicTimestamp_new unix now)) =
    unix + Z.of_nat n * (period / second).
Proof.
  revert unix now. induction n as [|n IH]; intros unix now Hu Hp Hb; [simpl; lia|].
  assert (0 <= period / second) by (apply Z.div_pos; [lia|done]).
  cbn [periodic ticks].
  assert ((tick (now + period) (now + period) (MonotonicTimestamp_new unix now)).2 =
    MonotonicTimestamp_new (unix + period / second) (now + period)) as ->.
  { unfold tick, elapsed, MonotonicTimestamp_new. simpl.
    rewrite Z.max_r by lia. replace (now + period - now) with period by lia.
    by rewrite Z.mod_small by lia. }
  rewrite IH; lia.
Qed.

Lemma ticks_drift_witness :
  last_unix (ticks (periodic 600 0 2050000000) (MonotonicTimestamp_new 1700000000 0)) =
    1700000000 + 1200 /\
  final_instant 0 (periodic 600 0 2050000000) = 1230 * second.
Proof.
  split; [|by vm_compute].
  etrans; [apply (ticks_drift 600 1700000000 0 2050000000); by vm_compute|by vm_compute].
Defined.

End Clock.

(** ** One round of the checker *)
Module Checker.

Section Checker.
Context {ET : EngineTypes} {T : Type} `{EA : !EngineApiExt T} {BC : BuilderClient T}.

(** [HealthHandle]; its probes, execution mode and builder client are those of
    the server ([Shared]). *)
Record HealthHandle : Set := {
  h_l2_client : RpcClient;
  health_check_interval : Z;
  max_unsafe_interval : Z
}.

(** [spawn_health_check] *)
Definition health_handle (self : RollupBoostServer) (interval max : Z) : HealthHandle :=
  {| h_l2_client := l2_client self;
     health_check_interval := interval;
     max_unsafe_interval := max |}.

(** [t.saturating_sub(block.header.timestamp).gt(&self.max_unsafe_interval)] *)
Definition too_old (self : HealthHandle) (t : Z) (b : Block) : bool :=
  max_unsafe_interval self <? u64_saturating_sub t (Block_timestamp b).

Definition check_builder (self : HealthHandle) (t : Z) : M (Shared (T := T)) unit :=
  let* mode := read execution_mode in
  if is_enabled mode then
    let* r := on_builder (get_block_by_number Latest false) in
    match r with
    | Ok block =>
        if too_old self t block then put_health PartialContent else put_health Healthy
    | Err e => put_health PartialContent
    end
  else Ret tt.

(** The body of the loop, up to the sleep that ends each of its paths. *)
Definition check_round (self : HealthHandle) (t : Z) : M (Shared (T := T)) unit :=
  let* r := rpc_get_block_by_number (h_l2_client self) Latest false in
  match r with
  | Ok block =>
      if too_old self t block then put_health ServiceUnavailable
      else
        let* m := read execution_mode in
        let* stop :=
          (if is_disabled m then Ret true
           else let* m := read execution_mode in Ret (is_dry_run m)) in
        if stop : bool then put_health Healthy else check_builder self t
  | Err e => put_health ServiceUnavailable
  end.

(** [HealthHandle::spawn]: one round per pair of clock readings. *)
Fixpoint health_loop (self : HealthHandle) (timestamp : Clock.MonotonicTimestamp)
    (readings : list (Z * Z)) : M (Shared (T := T)) Clock.MonotonicTimestamp :=
  match readings with
  | [] => Ret timestamp
  | (now, now') :: readings =>
      let (t, timestamp) := Clock.tick now now' timestamp in
      check_round self t ;;
      health_loop self timestamp readings
  end.

(** ** The verdict *)

Definition fresh (self : HealthHandle) (t : Z) (r : result Block JsonrpseeError) : bool :=
  match r with
  | Ok b => bool_decide (t <= Block_timestamp b + max_unsafe_interval self)
  | Err _ => false
  end.

Lemma too_old_fresh self t b :
  0 <= max_unsafe_interval self -> too_old self t b = negb (fresh self t (Ok b)).
Proof.
  intros Hm. unfold too_old. simpl.
  pose proof (u64_saturating_sub_gt t (Block_timestamp b) _ Hm) as H.
  case_bool_decide; [apply Z.ltb_ge|apply Z.ltb_lt]; simpl; lia.
Qed.

(** What one round leaves, from the reply of the L2 node and, when it was asked,
    of the builder. *)
Definition verdict (self : HealthHandle) (t : Z)
    (l2 : result Block JsonrpseeError) (builder : option (result Block JsonrpseeError)) : Health :=
  if negb (fresh self t l2) then ServiceUnavailable
  else match builder with
       | Some b => if fresh self t b then Healthy else PartialContent
       | None => Healthy
       end.

Abbreviation Ev := (event Reply Obs (Shared (T := T))).

Definition asks_l2 (r : result Block JsonrpseeError) (t : list Ev) : Prop :=
  EvAwait (L2, Req_getBlockByNumber Latest false) r ∈ t.
Definition asks_builder (r : result Block JsonrpseeError) (t : list Ev) : Prop :=
  EvAwait (Builder, Req_getBlockByNumber Latest false) r ∈ t.

(** The run ends by setting the health to [h]. *)
Definition ends_setting (h : Health) (t : list Ev) : Prop :=
  exists s, last t = Some (EvAtomic s (set_probes (set_health h (probes s)) s)).

Lemma ends_setting_app h (t t' : list Ev) : ends_setting h t' -> ends_setting h (t ++ t').
Proof.
  intros [s H]. exists s. destruct (last_snoc_inv _ _ H) as [l ->].
  by rewrite app_assoc, last_snoc.
Qed.

Lemma check_builder_verdict self t :
  0 <= max_unsafe_interval self ->
  every (check_builder self t) (fun tr o => o = Returned tt /\
    (in_mode Enabled tr -> exists b, asks_builder b tr /\
       ends_setting (if fresh self t b then Healthy else PartialContent) tr)).
Proof.
  intros Hm. apply every_read. intros s0.
  destruct (execution_mode s0) eqn:Hmode; cbn [is_enabled].
  2, 3: by split; [|intros H; inversion H; congruence].
  eapply every_bind.
  { apply (every_zoom builder_client set_builder_client _
      (calls_once (Builder, Req_getBlockByNumber Latest false) (map_err Jsonrpsee))); [done|].
    apply get_block_by_number_once. }
  { by intros t0 m (? & _ & ?). }
  intros t0 x Hx. apply calls_once_elem in Hx as (b & Hb & [= ->]).
  assert (Hask : EvAwait (Builder, Req_getBlockByNumber Latest false) b ∈ t0).
  { by apply zoom_event_await in Hb. }
  assert (Hask' : forall v t', asks_builder b (v :: t0 ++ t')).
  { intros v t'. right. apply elem_of_app. by left. }
  clear Hb Hask.
  destruct b as [block|e]; cbn [map_err].
  - rewrite too_old_fresh by done.
    destruct (fresh self t (Ok block)) eqn:Hfr; cbn [negb]; intros s1; (split; [done|]);
      intros _; exists (Ok block); (split; [done|]); rewrite Hfr;
      apply (ends_setting_app _ (_ :: t0)); by exists s1.
  - intros s1. split; [done|]. intros _. exists (Err e). split; [done|].
    apply (ends_setting_app _ (_ :: t0)). by exists s1.
Qed.

(** What a round did: the replies it got and the health it set. *)
Definition round_done (self : HealthHandle) (t : Z) (m : ExecutionMode) (tr : list Ev) : Prop :=
  exists l2 b, asks_l2 l2 tr /\
    match b with
    | Some b => m = Enabled /\ fresh self t l2 = true /\ asks_builder b tr
    | None => (m = Enabled -> fresh self t l2 = false) /\ leaves_builder_alone tr
    end /\
    ends_setting (verdict self t l2 b) tr.

(** A round that ends without asking the builder. *)
Lemma round_stops self t m (t0 t1 : list Ev) l2 h :
  asks_l2 l2 t0 -> leaves_builder_alone t0 -> leaves_builder_alone t1 ->
  (m = Enabled -> fresh self t l2 = false) -> verdict self t l2 None = h ->
  every (put_health h) (fun tr o => o = Returned tt /\ round_done self t m (t0 ++ t1 ++ tr)).
Proof.
  intros Hask H0 H1 Hen <- s. split; [done|]. exists l2, None. split_and!.
  - unfold asks_l2 in *. set_solver.
  - done.
  - repeat (apply Forall_app; split); try done. by repeat constructor.
  - do 2 apply ends_setting_app. by exists s.
Qed.

(** The part of a round after a fresh L2 block. *)
Lemma after_fresh_l2 self t m (t0 : list Ev) l2 :
  0 <= max_unsafe_interval self -> fresh self t l2 = true ->
  asks_l2 l2 t0 -> leaves_builder_alone t0 ->
  every (let* m := read execution_mode in
         let* stop :=
           (if is_disabled m then Ret true
            else let* m := read execution_mode in Ret (is_dry_run m)) in
         if stop : bool then put_health Healthy else check_builder self t)
    (fun tr o => o = Returned tt /\ (in_mode m (t0 ++ tr) -> round_done self t m (t0 ++ tr))).
Proof.
  intros Hm Hfr Hask Halone. apply every_read. intros s0.
  assert (Hv : verdict self t l2 None = Healthy) by (unfold verdict; by rewrite Hfr).
  destruct (is_disabled (execution_mode s0)) eqn:Hdis; cbn [bind].
  { eapply every_mono; [|apply (round_stops self t Disabled t0 [EvAtomic s0 s0] l2); try done];
      [|by repeat constructor].
    intros tr o [-> Hr]. split; [done|]. intros Hmode. apply Forall_app in Hmode as [_ Hmode].
    apply Forall_cons in Hmode as [<- _]. by destruct (execution_mode s0). }
  intros s1. cbn [fst snd bind]. destruct (is_dry_run (execution_mode s1)) eqn:Hdry.
  { eapply every_mono; [|apply (round_stops self t DryRun t0 [EvAtomic s0 s0; EvAtomic s1 s1] l2);
      try done]; [|by repeat constructor].
    intros tr o [-> Hr]. split; [done|]. intros Hmode. apply Forall_app in Hmode as [_ Hmode].
    apply Forall_cons in Hmode as [_ Hmode]. apply Forall_cons in Hmode as [<- _].
    by destruct (execution_mode s1). }
  eapply every_mono; [|apply (check_builder_verdict self t Hm)].
  intros tr o [-> Hb]. split; [done|]. intros Hmode. apply Forall_app in Hmode as [_ Hmode].
  apply Forall_cons in Hmode as [H0 Hmode]. apply Forall_cons in Hmode as [H1 Hmode].
  assert (HE : m = Enabled) by (rewrite H0 in Hdis; rewrite H1 in Hdry; by destruct m).
  clear H0 H1. subst m. destruct (Hb Hmode) as (b & Hask' & Hends).
  exists l2, (Some b). unfold asks_l2, asks_builder in *.
  split_and!; [set_solver|done|done|set_solver|]. unfold verdict. rewrite Hfr. cbn [negb].
  apply (ends_setting_app _ t0), (ends_setting_app _ [_; _]), Hends.
Qed.

(** C16: one round of the health checker never panics.  While the execution mode
    does not change, it ends by setting the health to [ServiceUnavailable] when
    the L2 node fails or its latest block is older than the maximal interval;
    otherwise to [Healthy] in the [Disabled] and [DryRun] modes, without asking the
    builder, and in the [Enabled] mode to [Healthy] or [PartialContent] by the
    same test on the builder's latest block. *)
Theorem check_round_verdict (self : HealthHandle) (t : Z) (m : ExecutionMode) :
  payload_source (h_l2_client self) = L2 -> 0 <= max_unsafe_interval self ->
  every (check_round self t) (fun tr o =>
    o = Returned tt /\ (in_mode m tr -> round_done self t m tr)).
Proof.
  intros Hl2 Hm. unfold check_round.
  assert (Honce : every (rpc_get_block_by_number (S := Shared (T := T)) (h_l2_client self) Latest false)
    (calls_once (L2, Req_getBlockByNumber Latest false) (map_err Jsonrpsee))).
  { destruct (h_l2_client self) as [uri src]. simpl in Hl2. subst src.
    apply rpc_get_block_by_number_once. }
  eapply every_bind; [exact Honce|by intros t0 m0 (? & _ & ?)|].
  intros t0 x Hx. pose proof (calls_once_alone (L2, _) _ _ _ eq_refl Hx) as Halone.
  apply calls_once_elem in Hx as (l2 & Hask & [= ->]).
  destruct l2 as [block|e]; cbn [map_err].
  2: { eapply every_mono; [|apply (round_stops self t m t0 [] (Err e)); (done || by constructor)].
       intros tr o [-> Hr]. by split. }
  rewrite too_old_fresh by done.
  destruct (fresh self t (Ok block)) eqn:Hfr; cbn [negb].
  - by apply (after_fresh_l2 self t m t0 (Ok block)).
  - eapply every_mono; [|apply (round_stops self t m t0 [] (Ok block)); try (done || by constructor)].
    + intros tr o [-> Hr]. by split.
    + unfold verdict. by rewrite Hfr.
Qed.

End Checker.

Import Demo.

(** The checker over two plain RPC clients, at the 1700000100th second. *)
Definition demo_handle : HealthHandle :=
  health_handle (ServerExamples.server false) 2 10.

Lemma check_round_verdict_witness :
  round_done demo_handle 1700000100 Enabled
    (run_trace ServerExamples.quiet_env
       (@check_round Demo.types unit ServerExamples.builder_api demo_handle 1700000100)
       (ServerExamples.start Enabled)).
Proof.
  apply (run_every ServerExamples.quiet_env
    (@check_round Demo.types unit ServerExamples.builder_api demo_handle 1700000100)
    (ServerExamples.start Enabled)
    (fun tr o => o = Returned tt /\ (in_mode Enabled tr -> round_done demo_handle 1700000100 Enabled tr))).
  - apply (@check_round_verdict Demo.types unit ServerExamples.builder_api
      ServerExamples.builder_laws demo_handle 1700000100 Enabled); [reflexivity|done].
  - by repeat constructor.
Defined.

(** ** A stale L2 block that goes unnoticed

    600 rounds, one every 2.05 seconds.  The L2 node answers with a block that is
    30 seconds old by then; the maximal age is 10 seconds. *)
Definition start_unix : Z := 1700000000.
Definition rounds : list (Z * Z) := Clock.periodic 600 0 2050000000.
Definition real_time : Z := start_unix + 1230.
Definition stale_block : Z := real_time - 30.

Definition stale_env : env Reply Obs (Shared (T := unit)) :=
  {| respond := fun _ c => ServerExamples.reply_with stale_block c;
     interfere := fun _ s => s |}.

Definition after_rounds : Shared (T := unit) :=
  run_state stale_env
    (@health_loop Demo.types unit ServerExamples.builder_api demo_handle
       (Clock.MonotonicTimestamp_new start_unix 0) rounds)
    (ServerExamples.start Enabled).

(** The lag of the clock makes the checker miss a stale chain: after 600
    rounds of 2.05 seconds a block whose age is three times the maximal interval
    is still reported as [Healthy]. *)
Theorem stale_block_unnoticed :
  Clock.final_instant 0 rounds = (real_time - start_unix) * Clock.second /\
  real_time - Block_timestamp stale_block > 2 * max_unsafe_interval demo_handle /\
  health (probes after_rounds) = Healthy.
Proof. split_and!; by vm_compute. Qed.

End Checker.
