(* ===== verification/HealthTests.v ===== *)
(** * The health checker's unit tests, run on the model

    The tests in crates/rollup-boost/src/health.rs: two mock HTTP servers that answer
    [eth_getBlockByNumber] with a block of a configured timestamp (or none at all),
    the loop of the checker, and the health two seconds later.  With an interval of
    60 seconds that is after the first round.  [now] is the time the tests read
    from the system. *)
From S2P Require Import Prelude Async Payload PayloadTrace RpcClient Probe DebugApi Server.
From S2P Require Import ServerTests HealthCheck.

Local Open Scope Z_scope.

Module HealthTests.

(** [MockHttpServer::serve(handler, timestamp)], or an address where nothing
    listens. *)
Inductive MockHttpServer : Set := Serve (timestamp : Z) | Unreachable.

(** [handler] *)
Definition handler (m : MockHttpServer) (src : PayloadSource) (r : engine_request) : Reply (src, r) :=
  match m with
  | Serve timestamp =>
      match r as r return Reply (src, r) with
      | Req_getBlockByNumber _ _ => Ok timestamp
      | Req_forkchoiceUpdatedV3 _ _ => method_not_found
      | Req_getPayloadV3 _ => method_not_found
      | Req_getPayloadV4 _ => method_not_found
      | Req_newPayloadV3 _ _ _ => method_not_found
      | Req_newPayloadV4 _ _ _ _ => method_not_found
      end
  | Unreachable =>
      match r as r return Reply (src, r) with
      | Req_getBlockByNumber _ _ => Err (ClientOther "Connection refused"%string)
      | Req_forkchoiceUpdatedV3 _ _ => Err (ClientOther "Connection refused"%string)
      | Req_getPayloadV3 _ => Err (ClientOther "Connection refused"%string)
      | Req_getPayloadV4 _ => Err (ClientOther "Connection refused"%string)
      | Req_newPayloadV3 _ _ _ => Err (ClientOther "Connection refused"%string)
      | Req_newPayloadV4 _ _ _ _ => Err (ClientOther "Connection refused"%string)
      end
  end.

Definition http_env (l2 builder : MockHttpServer) : env Reply Obs (Shared (T := unit)) :=
  {| respond := fun _ c =>
       match c as c return Reply c with
       | (L2, r) => handler l2 L2 r
       | (Builder, r) => handler builder Builder r
       end;
     interfere := fun _ s => s |}.

#[local] Instance builder_api : EngineApiExt unit := RpcClient_EngineApiExt builder_rpc.

(** The health after [health_handle.spawn()] and a sleep of two seconds. *)
Definition health_after (mode : ExecutionMode) (l2 builder : MockHttpServer) (now : Z) : Health :=
  let handle := {| Checker.h_l2_client := l2_rpc; Checker.health_check_interval := 60;
                   Checker.max_unsafe_interval := 5 |} in
  let shared := Shared_new tt mode Probes_default in
  let loop := Checker.health_loop (T := unit) handle (Clock.MonotonicTimestamp_new now 0) [(0, 0)] in
  health (probes (run_state (http_env l2 builder) loop shared)).

Definition test_health_check_healthy (now : Z) : bool :=
  assert_eq (health_after Enabled (Serve now) (Serve now) now) Healthy.

Definition test_health_check_builder_exceeds_max_unsafe_interval (now : Z) : bool :=
  assert_eq (health_after Enabled (Serve now) (Serve (now - 10)) now) PartialContent.

Definition test_health_check_l2_exceeds_max_unsafe_interval (now : Z) : bool :=
  assert_eq (health_after Enabled (Serve (now - 10)) (Serve now) now) ServiceUnavailable.

Definition test_health_check_exceeds_max_unsafe_interval_execution_mode_disabled (now : Z) : bool :=
  assert_eq (health_after Disabled (Serve now) (Serve (now - 10)) now) Healthy.

Definition test_health_check_exceeds_max_unsafe_interval_execution_mode_dryrun (now : Z) : bool :=
  assert_eq (health_after DryRun (Serve now) (Serve (now - 10)) now) Healthy.

Definition test_health_check_service_builder_unavailable (now : Z) : bool :=
  assert_eq (health_after Enabled (Serve now) Unreachable now) PartialContent.

Definition test_health_check_service_l2_unavailable (now : Z) : bool :=
  assert_eq (health_after Enabled Unreachable (Serve now) now) ServiceUnavailable.

(** The clock: [late] is how much longer than asked a sleep takes. *)
Definition tick_advances_after_sleep (unix late : Z) : bool :=
  let ts := Clock.MonotonicTimestamp_new unix 0 in
  let (t1, ts) := Clock.tick 0 0 ts in
  let wake := Clock.second + late in
  let (t2, ts) := Clock.tick wake wake ts in
  t1 + 1 <=? t2.

(** The system clock shows [unix] seconds and [fraction] nanoseconds at the start. *)
Definition tick_matches_system_clock (unix fraction late : Z) : bool :=
  let ts := Clock.MonotonicTimestamp_new unix 0 in
  let wake := 5 * Clock.second + late in
  let (t1, ts) := Clock.tick wake wake ts in
  assert_eq t1 (unix + (fraction + wake) / Clock.second).

Definition health_tests (now : Z) : list bool :=
  [test_health_check_healthy now;
   test_health_check_builder_exceeds_max_unsafe_interval now;
   test_health_check_l2_exceeds_max_unsafe_interval now;
   test_health_check_exceeds_max_unsafe_interval_execution_mode_disabled now;
   test_health_check_exceeds_max_unsafe_interval_execution_mode_dryrun now;
   test_health_check_service_builder_unavailable now;
   test_health_check_service_l2_unavailable now].

(** The model passes the tests; the one that compares the two clocks passes unless
    the fraction of a second at the start makes the system clock turn over one
    second earlier than the checker's. *)
Example health_tests_pass :
  forallb (fun now => forallb id (health_tests now)) [1700000000; 1759276800] = true /\
  tick_advances_after_sleep 1700000000 1500000 = true /\
  tick_matches_system_clock 1700000000 200000000 1500000 = true /\
  tick_matches_system_clock 1700000000 999000000 1500000 = false.
Proof. by vm_compute. Qed.

End HealthTests.
