(* ===== verification/FlashblocksWs.v ===== *)
(** * Flashblocks over WebSocket

    crates/rollup-boost/src/flashblocks: args.rs (the configuration), inbound.rs (the
    receiver of the builder's flashblocks), outbound.rs (the publisher to
    subscribers). *)
From S2P Require Import Prelude Payload.

Local Open Scope Z_scope.

(** ** Configuration *)
Module Config.

(** Times are milliseconds. *)
Record FlashblocksWebsocketConfig : Set := {
  flashblock_builder_ws_initial_reconnect_ms : Z;
  flashblock_builder_ws_max_reconnect_ms : Z;
  flashblock_builder_ws_connect_timeout_ms : Z;
  flashblock_builder_ws_ping_interval_ms : Z;
  flashblock_builder_ws_pong_timeout_ms : Z
}.

(** The defaults of the command line. *)
Definition default_config : FlashblocksWebsocketConfig :=
  {| flashblock_builder_ws_initial_reconnect_ms := 10;
     flashblock_builder_ws_max_reconnect_ms := 5000;
     flashblock_builder_ws_connect_timeout_ms := 5000;
     flashblock_builder_ws_ping_interval_ms := 500;
     flashblock_builder_ws_pong_timeout_ms := 1500 |}.

Record FlashblocksArgs : Set := {
  flashblocks_enabled : bool;
  flashblocks_builder_url : string;
  flashblocks_host : string;
  flashblocks_port : Z;
  flashblocks_ws_config : FlashblocksWebsocketConfig
}.

(** What [backoff] asks the backoff crate for. *)
Record BackoffConfig : Set := {
  initial : Z; max : Z; randomization_factor : Z; multiplier : Z; max_elapsed_time : option Z
}.

Definition initial_interval (c : FlashblocksWebsocketConfig) : Z :=
  flashblock_builder_ws_initial_reconnect_ms c.
Definition max_interval (c : FlashblocksWebsocketConfig) : Z :=
  flashblock_builder_ws_max_reconnect_ms c.
Definition ping_interval (c : FlashblocksWebsocketConfig) : Z :=
  flashblock_builder_ws_ping_interval_ms c.
Definition pong_interval (c : FlashblocksWebsocketConfig) : Z :=
  flashblock_builder_ws_pong_timeout_ms c.

Definition backoff (c : FlashblocksWebsocketConfig) : BackoffConfig :=
  {| initial := initial_interval c; max := max_interval c; randomization_factor := 0;
     multiplier := 2; max_elapsed_time := None |}.

End Config.

(** ** The receiver *)
Module Inbound.
Import Config.

Definition MAXIMUM_PINGS : nat := 60.

Inductive FlashblocksReceiverError : Set :=
| Connection (e : string)
| PingFailed
| PongTimeout
| MessageMissing
| ConnectionError (e : string)
| ConnectionClosed
| TaskPanic (e : string)
| SendError
| MutexPoisoned.

(** [FlashblocksWsInboundMetrics] *)
Record InboundMetrics : Set := {
  reconnect_attempts : Z; connection_status : Z; messages_received : Z
}.

Definition InboundMetrics_default : InboundMetrics :=
  {| reconnect_attempts := 0; connection_status := 0; messages_received := 0 |}.

Definition set_status (v : Z) (m : InboundMetrics) : InboundMetrics :=
  {| reconnect_attempts := reconnect_attempts m; connection_status := v;
     messages_received := messages_received m |}.
Definition count_reconnect (m : InboundMetrics) : InboundMetrics :=
  {| reconnect_attempts := reconnect_attempts m + 1; connection_status := connection_status m;
     messages_received := messages_received m |}.
Definition count_message (m : InboundMetrics) : InboundMetrics :=
  {| reconnect_attempts := reconnect_attempts m; connection_status := connection_status m;
     messages_received := messages_received m + 1 |}.

Section Inbound.
Context {ET : EngineTypes}.
(** serde_json's reader of flashblocks, [Uuid::from_slice], the LRU cache of the
    lru crate and the backoff crate's [ExponentialBackoff]. *)
Context (from_str : string -> option FlashblocksPayloadV1)
  {Uuid : Set} (uuid_from_slice : list Z -> option Uuid)
  {Cache : Set} (cache_new : nat -> Cache) (cache_put : Uuid -> Cache -> Cache)
  (cache_pop : Uuid -> Cache -> bool * Cache)
  {Backoff : Set} (backoff_build : BackoffConfig -> Backoff) (backoff_reset : Backoff -> Backoff)
  (next_backoff : Backoff -> option Z * Backoff).
Context (config : FlashblocksWebsocketConfig).

(** A frame from the builder; for a text frame, whether the channel takes the
    flashblock. *)
Inductive frame : Set :=
| FText (text : string) (accepted : bool)
| FClose
| FPong (data : list Z)
| FPing
| FOther.

(** What the two tasks of a connection wait for, with the time. *)
Inductive conn_event : Set :=
| PingTick (uuid : Uuid) (sent lock_ok : bool)
| PingCancelled
| Frame (f : frame) (lock_ok : bool) (now : Z)
| FrameError (e : string)
| FrameEnd
| PongTick (now : Z)
| Panics (e : string).

(** The connection: the cache both tasks share, the deadline of the pong timer,
    whether the ping task is cancelled, and what was passed on. *)
Record Conn : Set := {
  cache : Cache;
  pong_deadline : Z;
  cancelled : bool;
  forwarded : list FlashblocksPayloadV1;
  conn_metrics : InboundMetrics
}.

Definition set_cache (c : Cache) (s : Conn) : Conn :=
  {| cache := c; pong_deadline := pong_deadline s; cancelled := cancelled s;
     forwarded := forwarded s; conn_metrics := conn_metrics s |}.
Definition reset_pong (now : Z) (s : Conn) : Conn :=
  {| cache := cache s; pong_deadline := now + pong_interval config; cancelled := cancelled s;
     forwarded := forwarded s; conn_metrics := conn_metrics s |}.
Definition count_text (s : Conn) : Conn :=
  {| cache := cache s; pong_deadline := pong_deadline s; cancelled := cancelled s;
     forwarded := forwarded s; conn_metrics := count_message (conn_metrics s) |}.
Definition forward_flashblock (p : FlashblocksPayloadV1) (s : Conn) : Conn :=
  {| cache := cache s; pong_deadline := pong_deadline s; cancelled := cancelled s;
     forwarded := forwarded s ++ [p]; conn_metrics := conn_metrics s |}.

(** One round of [ping_task]. *)
Definition ping_step (uuid : Uuid) (sent lock_ok : bool) (s : Conn)
  : Conn * option (result unit FlashblocksReceiverError) :=
  if negb sent then (s, Some (Err PingFailed))
  else if lock_ok then (set_cache (cache_put uuid (cache s)) s, None)
  else (s, Some (Err MutexPoisoned)).

(** One frame in [message_handle]. *)
Definition frame_step (f : frame) (lock_ok : bool) (now : Z) (s : Conn)
  : Conn * option (result unit FlashblocksReceiverError) :=
  match f with
  | FText text accepted =>
      let s := count_text s in
      match from_str text with
      | Some flashblocks_msg =>
          if accepted then (forward_flashblock flashblocks_msg s, None) else (s, Some (Err SendError))
      | None => (s, None)
      end
  | FClose => (s, Some (Err ConnectionClosed))
  | FPong data =>
      match uuid_from_slice data with
      | Some uuid =>
          if lock_ok then
            let (known, c) := cache_pop uuid (cache s) in
            let s := set_cache c s in
            (if known then reset_pong now s else s, None)
          else (s, Some (Err MutexPoisoned))
      | None => (s, None)
      end
  | FPing => (s, None)
  | FOther => (s, None)
  end.

(** What [tokio::time::interval] panics with on a period of zero. *)
Definition zero_period : string := "`period` must be non-zero.".

(** An event of [message_handle]; the task begins with its timer, which panics when
    the pong timeout is zero. *)
Definition message_step (e : conn_event) (s : Conn)
  : Conn * option (result unit FlashblocksReceiverError) :=
  if pong_interval config =? 0 then (s, Some (Err (TaskPanic zero_period)))
  else match e with
  | Frame f lock_ok now => frame_step f lock_ok now s
  | FrameError e => (s, Some (Err (ConnectionError e)))
  | FrameEnd => (s, Some (Err MessageMissing))
  | PongTick now =>
      if pong_deadline s <=? now then (s, Some (Err PongTimeout)) else (s, None)
  | _ => (s, None)
  end.

(** An event of either task; the connection ends with the first task that does. *)
Definition conn_step (e : conn_event) (s : Conn)
  : Conn * option (result unit FlashblocksReceiverError) :=
  match e with
  | PingTick uuid sent lock_ok => ping_step uuid sent lock_ok s
  | PingCancelled => if cancelled s then (s, Some (Ok tt)) else (s, None)
  | Panics e => (s, Some (Err (TaskPanic e)))
  | _ => message_step e s
  end.

Fixpoint conn_run (events : list conn_event) (s : Conn)
  : Conn * option (result unit FlashblocksReceiverError) :=
  match events with
  | [] => (s, None)
  | e :: events =>
      match conn_step e s with
      | (s, None) => conn_run events s
      | (s, Some r) => (s, Some r)
      end
  end.

(** One call of [connect_and_handle]: the result of connecting within the timeout,
    the time of the connection, its events and when it ended. *)
Record connection_attempt : Set := {
  connect : result unit string;
  connected_at : Z;
  events : list conn_event;
  ended_at : Z
}.

Definition is_panic (e : FlashblocksReceiverError) : bool :=
  match e with TaskPanic _ => true | _ => false end.

(** The state of [run]: backoff, metrics, and the flashblocks passed on. *)
Record Receiver : Set := {
  r_backoff : Backoff; r_metrics : InboundMetrics; r_forwarded : list FlashblocksPayloadV1
}.

Definition Receiver_new : Receiver :=
  {| r_backoff := backoff_build (backoff config); r_metrics := InboundMetrics_default;
     r_forwarded := [] |}.

(** [None]: the connection is still up after the events.  The timer of the pings is
    made here, in the task of [run].  When the ping task ends first, the message task
    is left to itself (its handle is dropped, which does not stop it): what it still
    passes on is in ReceiverTasks. *)
Definition connect_and_handle (a : connection_attempt) (r : Receiver)
  : outcome (Receiver * option (result unit FlashblocksReceiverError)) :=
  match connect a with
  | Err e => Returned (r, Some (Err (Connection e)))
  | Ok tt =>
      if ping_interval config =? 0 then Panicked zero_period else
      let s := {| cache := cache_new MAXIMUM_PINGS;
                  pong_deadline := connected_at a + pong_interval config; cancelled := false;
                  forwarded := r_forwarded r; conn_metrics := set_status 1 (r_metrics r) |} in
      let (s, ended) := conn_run (events a) s in
      let r := {| r_backoff := r_backoff r; r_metrics := conn_metrics s; r_forwarded := forwarded s |} in
      let b := if max_interval config <=? ended_at a - connected_at a
               then backoff_reset (r_backoff r) else r_backoff r in
      Returned match ended with
      | None => (r, None)
      | Some (Err e) =>
          if is_panic e then (r, Some (Err e))
          else ({| r_backoff := b; r_metrics := r_metrics r; r_forwarded := r_forwarded r |}, Some (Err e))
      | Some (Ok tt) =>
          ({| r_backoff := b; r_metrics := r_metrics r; r_forwarded := r_forwarded r |}, Some (Ok tt))
      end
  end.

(** [run], over the attempts it makes; [None] of the backoff panics. *)
Fixpoint receiver_run (attempts : list connection_attempt) (r : Receiver) : outcome Receiver :=
  match attempts with
  | [] => Returned r
  | a :: attempts =>
      match connect_and_handle a r with
      | Panicked m => Panicked m
      | Returned (r, None) => Returned r
      | Returned (r, Some (Ok tt)) => receiver_run attempts r
      | Returned (r, Some (Err e)) =>
          match next_backoff (r_backoff r) with
          | (None, _) => Panicked "max_elapsed_time not set, never None"
          | (Some interval, b) =>
              receiver_run attempts {| r_backoff := b;
                              r_metrics := set_status 0 (count_reconnect (r_metrics r));
                              r_forwarded := r_forwarded r |}
          end
      end
  end.

(** *** Properties *)

Lemma conn_step_cancelled e s s' r : conn_step e s = (s', r) -> cancelled s' = cancelled s.
Proof.
  destruct e as [u b l| |[text ok| |d| |] l now|e| |now|e]; cbn; unfold ping_step, message_step, frame_step; intros;
    repeat case_match; simplify_eq/=; done.
Qed.

Lemma conn_run_not_ok events s :
  cancelled s = false -> (conn_run events s).2 <> Some (Ok tt).
Proof.
  revert s. induction events as [|e events IH]; intros s Hc; cbn; [done|].
  destruct (conn_step e s) as [s' r] eqn:Hs. pose proof (conn_step_cancelled _ _ _ _ Hs) as Hc'.
  destruct r as [r|]; [|apply IH; congruence]. cbn. intros [= ->].
  destruct e as [u b l| |[text ok| |d| |] l now|e| |now|e]; cbn in Hs; unfold ping_step, message_step, frame_step in Hs;
    repeat case_match; simplify_eq/=.
Qed.

(** A connection of the receiver never ends with [Ok]: the branch of [run]
    that reports a broken invariant is not reachable. *)
Theorem connect_and_handle_never_ok (a : connection_attempt) (r : Receiver) :
  forall r', connect_and_handle a r <> Returned (r', Some (Ok tt)).
Proof.
  intros r'. unfold connect_and_handle. destruct (connect a) as [[]|e]; [|done].
  destruct (ping_interval config =? 0); [done|].
  match goal with |- context [conn_run ?es ?s] =>
    pose proof (conn_run_not_ok es s eq_refl) as H; destruct (conn_run es s) as [s' ended] end.
  cbn in H. intros [= Heq]. destruct ended as [[[]|e]|]; [done| |done]. by destruct (is_panic e).
Qed.

(** The flashblocks of the text frames that parse. *)
Definition parsed (e : conn_event) : option FlashblocksPayloadV1 :=
  match e with Frame (FText text _) _ _ => from_str text | _ => None end.

(** While a connection lasts, the receiver passes on exactly the flashblocks
    of the text frames that parse, in the order of the frames; text that does not
    parse, pings, pongs and other frames pass nothing on and do not end the
    connection. *)
Theorem receiver_forwards (es : list conn_event) (s : Conn) :
  (conn_run es s).2 = None ->
  forwarded (conn_run es s).1 = forwarded s ++ omap parsed es.
Proof.
  revert s. induction es as [|e es IH]; intros s; cbn [conn_run]; [by rewrite app_nil_r|].
  destruct (conn_step e s) as [s' [r|]] eqn:Hs; [done|]. intros Hend. rewrite IH by done.
  assert (Hf : forwarded s' = forwarded s ++ option_list (parsed e)).
  { destruct e as [u b l| |[text ok| |d| |] l now|e| |now|e]; cbn in Hs |- *; unfold ping_step, message_step, frame_step in Hs;
      repeat case_match; simplify_eq/=; by rewrite ?app_nil_r. }
  rewrite Hf, <- app_assoc. f_equal. cbn. by destruct (parsed e).
Qed.

(** The receiver retries for ever: given that the backoff, which is built without a
    maximal elapsed time, always has a next interval, [run] panics exactly when the
    ping interval is zero and one of the attempts to connect succeeds. *)
Theorem receiver_panics_iff (next_backoff_some : forall b, exists d b', next_backoff b = (Some d, b'))
    (attempts : list connection_attempt) (r : Receiver) :
  (exists m, receiver_run attempts r = Panicked m) <->
  ping_interval config = 0 /\ Exists (fun a => is_ok (connect a) = true) attempts.
Proof.
  revert r. induction attempts as [|a attempts IH]; intros r; cbn [receiver_run].
  { split; [by intros [m Hm]|by intros [_ H%Exists_nil]]. }
  rewrite Exists_cons. unfold connect_and_handle. destruct (connect a) as [[]|e]; cbn [is_ok].
  - destruct (Z.eqb_spec (ping_interval config) 0) as [H0|H0]; [naive_solver|].
    assert (Hno : forall r', (exists m, receiver_run attempts r' = Panicked m) -> False)
      by (intros r' H%IH; naive_solver).
    split; [|naive_solver]. intros H. exfalso.
    destruct (conn_run _ _) as [s [[[]|e]|]]; [by eapply Hno| |by destruct H].
    destruct (is_panic e); match type of H with context [next_backoff ?b] =>
      destruct (next_backoff_some b) as (d & b' & E); rewrite E in H end; by eapply Hno.
  - destruct (next_backoff_some (r_backoff r)) as (d & b' & ->). rewrite IH. naive_solver.
Qed.

End Inbound.
End Inbound.

(** ** The publisher *)
Module Outbound.

(** What a subscriber's [broadcast_loop] waits for: a change of the termination
    flag, a frame of the subscriber, the broadcast channel. *)
Inductive loop_event : Set :=
| TermChanged (value : bool)
| FrameIn
| FrameFailed
| FrameStreamEnd
| Payload (text : string) (sent_ok : bool)
| ChannelClosed
| ChannelLagged (n : Z).

(** One round of the loop: the text sent to the subscriber, the increment of the
    counter [sent], and whether the loop ends. *)
Definition loop_step (e : loop_event) : option string * Z * bool :=
  match e with
  | TermChanged value => (None, 0, value)
  | FrameIn => (None, 0, false)
  | FrameFailed | FrameStreamEnd => (None, 0, true)
  | Payload text sent_ok => (if sent_ok then Some text else None, 1, negb sent_ok)
  | ChannelClosed => (None, 0, true)
  | ChannelLagged _ => (None, 0, false)
  end.

Fixpoint loop_run (events : list loop_event) : list string * Z * bool :=
  match events with
  | [] => ([], 0, false)
  | e :: events =>
      let '(text, n, ends) := loop_step e in
      if ends then (option_list text, n, true)
      else let '(texts, m, ended) := loop_run events in (option_list text ++ texts, n + m, ended)
  end.

(** The texts sent to the subscriber, the number of payloads taken from the
    channel, and whether the loop ended; it ends at once without an address of
    the peer. *)
Definition broadcast_loop (peer_addr : option string) (events : list loop_event)
  : list string * Z * bool :=
  match peer_addr with
  | None => ([], 0, true)
  | Some _ => loop_run events
  end.

(** Where the listener is: in a round that waits for connections and for the
    flag; in a round whose [accept] has failed, which then waits for the flag
    only (the pattern [Ok(..)] of its [select!] branch did not match); or ended. *)
Inductive listener_state : Set := Accepting | FlagOnly | Ended.

(** The publisher: its counters and flag, its listener, the subscribers whose loops
    run, and what was delivered to whom. *)
Record Publisher : Set := {
  sent : Z;
  subs : Z;
  term : bool;
  listener : listener_state;
  running : list nat;
  delivered : list (nat * string)
}.

(** [WebSocketPublisher::new] binds its address, then starts the listener. *)
Definition WebSocketPublisher_new {E} (bound : result unit E) : result Publisher E :=
  map_ok (fun _ => {| sent := 0; subs := 0; term := false; listener := Accepting; running := [];
                      delivered := [] |}) bound.

Definition set_listener (l : listener_state) (p : Publisher) : Publisher :=
  {| sent := sent p; subs := subs p; term := term p; listener := l; running := running p;
     delivered := delivered p |}.

(** The events of a publisher: a change of the flag seen by the listener, an
    incoming connection with the result of its handshake and the address of its
    peer, a failed [accept], a round of a subscriber's loop, and the drop. *)
Inductive publisher_event : Set :=
| ListenerTerm (value : bool)
| Accept (c : nat) (handshake : bool)
| AcceptError
| Round (c : nat) (e : loop_event)
| DropPublisher.

(** The task of a subscriber: [fetch_add] when it starts, [fetch_sub] when its
    loop has returned. *)
Definition start_subscriber (c : nat) (p : Publisher) : Publisher :=
  {| sent := sent p; subs := subs p + 1; term := term p; listener := listener p;
     running := c :: running p; delivered := delivered p |}.

Definition subscriber_round (c : nat) (e : loop_event) (p : Publisher) : Publisher :=
  let '(text, n, ends) := loop_step e in
  {| sent := sent p + n;
     subs := if ends then subs p - 1 else subs p;
     term := term p; listener := listener p;
     running := if ends then List.remove Nat.eq_dec c (running p) else running p;
     delivered := delivered p ++ option_list ((fun t => (c, t)) <$> text) |}.

Definition publisher_step (p : Publisher) (e : publisher_event) : Publisher :=
  match e with
  | ListenerTerm value =>
      match listener p with
      | Ended => p
      | _ => set_listener (if value then Ended else Accepting) p
      end
  | Accept c handshake =>
      match listener p with
      | Accepting =>
          if handshake && bool_decide (c ∉ running p) then start_subscriber c p else p
      | _ => p
      end
  | AcceptError =>
      match listener p with Accepting => set_listener FlagOnly p | _ => p end
  | Round c e => if bool_decide (c ∈ running p) then subscriber_round c e p else p
  | DropPublisher =>
      {| sent := sent p; subs := subs p; term := true; listener := listener p;
         running := running p; delivered := delivered p |}
  end.

Definition publisher_run (p : Publisher) (es : list publisher_event) : Publisher :=
  fold_left publisher_step es p.

(** *** Properties *)

Definition counted (p : Publisher) : Prop :=
  NoDup (running p) /\ subs p = Z.of_nat (length (running p)) /\
  Z.of_nat (length (delivered p)) <= sent p.

Lemma length_remove_nodup (c : nat) l :
  NoDup l -> c ∈ l -> length l = S (length (List.remove Nat.eq_dec c l)).
Proof.
  induction 1 as [|x l Hx Hl IH]; [by rewrite elem_of_nil|]. cbn.
  destruct (Nat.eq_dec c x) as [->|Hne].
  - intros _. rewrite notin_remove; [done|]. by rewrite <- list_elem_of_In.
  - rewrite elem_of_cons. intros [->|Hc]; [done|]. cbn. by rewrite <- IH.
Qed.

Lemma nodup_remove (c : nat) l : NoDup l -> NoDup (List.remove Nat.eq_dec c l).
Proof.
  induction 1 as [|x l Hx Hl IH]; cbn; [constructor|].
  destruct (Nat.eq_dec c x); [done|]. constructor; [|done].
  rewrite list_elem_of_In. intros [Hin _]%in_remove. by rewrite <- list_elem_of_In in Hin.
Qed.

Lemma publisher_step_counted p e : counted p -> counted (publisher_step p e).
Proof.
  intros (Hn & Hs & Hd). destruct e as [v|c h| |c e|]; cbn.
  - by destruct (listener p).
  - destruct (listener p); [|done..]. destruct h; cbn; [|done]. case_bool_decide; [|done].
    split_and!; cbn; [by constructor|lia|done].
  - by destruct (listener p).
  - case_bool_decide as Hc; [|done]. unfold subscriber_round.
    destruct (loop_step e) as [[text n] ends] eqn:He.
    assert (Hlen : Z.of_nat (length (option_list ((fun t => (c, t)) <$> text))) <= n).
    { destruct e as [v| | | |t [|]| |k]; cbn in He; simplify_eq/=; lia. }
    pose proof (length_remove_nodup c _ Hn Hc).
    split_and!; cbn; [by destruct ends; [apply nodup_remove|]|destruct ends; lia|].
    rewrite length_app. lia.
  - done.
Qed.

(** Whatever connects, disconnects and is published, in whatever order, the
    counter of subscriptions is the number of subscribers whose loops run, so it
    never underflows; no subscriber is served by two loops; and the counter of
    payloads is at least the number of payloads delivered. *)
Theorem publisher_counts (p : Publisher) (es : list publisher_event) :
  WebSocketPublisher_new (E := unit) (Ok tt) = Ok p ->
  let p' := publisher_run p es in
  NoDup (running p') /\ subs p' = Z.of_nat (length (running p')) /\
  Z.of_nat (length (delivered p')) <= sent p'.
Proof.
  intros [= <-]. cbn zeta.
  assert (H : forall q, counted q -> counted (publisher_run q es)).
  { induction es as [|e es IH]; intros q Hq; [done|]. by apply IH, publisher_step_counted. }
  apply H. split_and!; cbn; [constructor|done|done].
Qed.

Lemma publisher_counts_witness :
  let p := {| sent := 0; subs := 0; term := false; listener := Accepting; running := [];
              delivered := [] |} in
  let p' := publisher_run p [Accept 7 true; Round 7 (Payload "a" true); Round 7 FrameStreamEnd] in
  NoDup (running p') /\ subs p' = Z.of_nat (length (running p')) /\
  Z.of_nat (length (delivered p')) <= sent p'.
Proof. by apply publisher_counts. Defined.

(** A failed [accept] (out of file descriptors, a connection aborted by the peer)
    stops the publisher from accepting anybody: until its flag changes, which
    only its drop does, no subscriber is added. *)
Theorem accept_error_stops_listening (p : Publisher) (es : list publisher_event) :
  (forall v, (ListenerTerm v ∉ es)) ->
  running (publisher_run (publisher_step p AcceptError) es) ⊆ running p.
Proof.
  intros Hes.
  assert (H : forall q, listener q <> Accepting -> running (publisher_run q es) ⊆ running q).
  { induction es as [|e es IH]; intros q Hq; [done|]. cbn [publisher_run fold_left].
    change (fold_left publisher_step es (publisher_step q e)) with (publisher_run (publisher_step q e) es).
    assert (Hes' : forall v, ListenerTerm v ∉ es) by (intros v; specialize (Hes v); set_solver).
    destruct e as [v|c h| |c e|]; cbn.
    - specialize (Hes v). set_solver.
    - destruct (listener q) eqn:E; [done|apply IH; [done|congruence]..].
    - destruct (listener q) eqn:E; [done|apply IH; [done|congruence]..].
    - case_bool_decide; [|by apply IH]. unfold subscriber_round.
      destruct (loop_step e) as [[text n] ends]. etrans; [by apply IH|]. cbn.
      destruct ends; [|done]. intros x. rewrite !list_elem_of_In. by intros [? _]%in_remove.
    - etrans; [by apply IH|done]. }
  destruct (listener p) eqn:E; cbn; rewrite E; [|apply H; congruence..].
  etrans; [by apply H|done].
Qed.

(** Events that do not end a loop. *)
Definition harmless (e : loop_event) : bool := negb (loop_step e).2.

Definition text_of (e : loop_event) : option string :=
  match e with Payload text _ => Some text | _ => None end.

(** A subscriber gets every payload it takes from the channel, in order; its
    own frames and lagging (which drops payloads) do not end its subscription. *)
Theorem broadcast_loop_delivers (peer : string) (es : list loop_event) :
  Forall (fun e => harmless e = true) es ->
  broadcast_loop (Some peer) es = (omap text_of es, Z.of_nat (length (omap text_of es)), false).
Proof.
  cbn. induction 1 as [|e es He _ IH]; [done|].
  destruct e as [[|]| | | |text [|]| |n]; cbn; try done; rewrite IH; try done.
  cbn. do 2 f_equal. lia.
Qed.

Lemma broadcast_loop_delivers_witness :
  broadcast_loop (Some "peer") [Payload "a" true; FrameIn; ChannelLagged 3; Payload "b" true] =
    (["a"; "b"], 2, false).
Proof.
  apply (broadcast_loop_delivers "peer" [Payload "a" true; FrameIn; ChannelLagged 3; Payload "b" true]).
  by repeat constructor.
Defined.

Section Publish.
Context {ET : EngineTypes}.
(** serde_json's writer, and the number of receivers of the channel. *)
Context (to_string : FlashblocksPayloadV1 -> result string string).

(** [publish]: the text put on the channel; sending fails without a receiver. *)
Definition publish (receivers : nat) (payload : FlashblocksPayloadV1) : result string string :=
  match to_string payload with
  | Err e => Err e
  | Ok serialized =>
      match receivers with
      | O => Err "channel closed"
      | S _ => Ok serialized
      end
  end.

End Publish.
End Outbound.

(** ** The receiver on a concrete connection *)
Module WsReceiverExamples.
Import Demo.

(** A cache that is a list of the last 60 pings. *)
Definition put (u : Z) (c : list Z) : list Z := take 60 (u :: filter (fun x => x <> u) c).
Definition pop (u : Z) (c : list Z) : bool * list Z :=
  (bool_decide (u ∈ c), filter (fun x => x <> u) c).
Definition from_slice (d : list Z) : option Z := match d with [x] => Some x | _ => None end.
Definition doubling (b : Z) : option Z * Z := (Some b, Z.min 5000 (2 * b)).

Definition start : Inbound.Conn (Cache := list Z) :=
  {| Inbound.cache := []; Inbound.pong_deadline := 1500; Inbound.cancelled := false;
     Inbound.forwarded := []; Inbound.conn_metrics := Inbound.InboundMetrics_default |}.

Definition step_all := Inbound.conn_run (ET := Demo.types) (fun _ => None) from_slice put pop
  Config.default_config.

(** A pong of a known ping resets the timer; an unknown one does not. *)
Example pongs :
  (step_all [Inbound.PingTick 7 true true; Inbound.Frame (Inbound.FPong [7]) true 1000;
             Inbound.PongTick 2000] start).2 = None /\
  (step_all [Inbound.PingTick 7 true true; Inbound.Frame (Inbound.FPong [8]) true 1000;
             Inbound.PongTick 2000] start).2 = Some (Err Inbound.PongTimeout).
Proof. by vm_compute. Qed.

Lemma receiver_forwards_witness :
  Inbound.forwarded (step_all [Inbound.Frame (Inbound.FText "x" true) true 3] start).1 = [].
Proof.
  apply (Inbound.receiver_forwards (ET := Demo.types) (fun _ => None) from_slice put pop
    Config.default_config [Inbound.Frame (Inbound.FText "x" true) true 3] start). reflexivity.
Defined.

(** A ping interval of zero stops the receiver for good at its first connection. *)
Example zero_ping_interval :
  Inbound.receiver_run (ET := Demo.types) (Uuid := Z) (fun _ => None) from_slice (fun _ => []) put pop id
    doubling
    {| Config.flashblock_builder_ws_initial_reconnect_ms := 10;
       Config.flashblock_builder_ws_max_reconnect_ms := 5000;
       Config.flashblock_builder_ws_connect_timeout_ms := 5000;
       Config.flashblock_builder_ws_ping_interval_ms := 0;
       Config.flashblock_builder_ws_pong_timeout_ms := 1500 |}
    [{| Inbound.connect := Ok tt; Inbound.connected_at := 0; Inbound.events := [];
        Inbound.ended_at := 0 |}]
    (Inbound.Receiver_new Config.initial Config.default_config) = Panicked Inbound.zero_period.
Proof. reflexivity. Qed.

End WsReceiverExamples.
