(* ===== verification/ReceiverTasks.v ===== *)
(** * The tasks of the flashblocks receiver

    FlashblocksReceiverService of crates/rollup-boost/src/flashblocks/inbound.rs makes
    two tasks per connection: one sends pings, one handles messages.  [run] waits for
    the first of them to end, then goes on to the next connection; the other task is
    not stopped with it.  The ping task sees a token that [run] cancels, the message
    task goes on by itself until its connection or its pong timer ends it.  Here all
    tasks of all connections run side by side, one event of one task per step, into
    one channel. *)
From Stdlib Require Import Sorted.
From S2P Require Import Prelude Payload FlashblocksWs.

Import Config Inbound.
Local Open Scope Z_scope.

Section ReceiverTasks.
Context {ET : EngineTypes}.
(** The parameters of the receiver in FlashblocksWs. *)
Context (from_str : string -> option FlashblocksPayloadV1)
  {Uuid : Set} (uuid_from_slice : list Z -> option Uuid)
  {Cache : Set} (cache_new : nat -> Cache) (cache_put : Uuid -> Cache -> Cache)
  (cache_pop : Uuid -> Cache -> bool * Cache)
  {Backoff : Set} (backoff_build : BackoffConfig -> Backoff) (backoff_reset : Backoff -> Backoff)
  (next_backoff : Backoff -> option Z * Backoff).
Context (config : FlashblocksWebsocketConfig).

(** ** State *)

(** A connection with its two tasks: what they share, when it was made, which of the
    tasks run; the events that the message task has handled, and how often a pong
    has put off its timeout. *)
Record Link : Set := {
  shared : Conn (Cache := Cache);
  made_at : Z;
  pinging : bool;
  reading : bool;
  handled : list (conn_event (Uuid := Uuid));
  resets : nat
}.

(** What [run] is doing: between connections, waiting for the tasks of one, or gone
    with a panic. *)
Inductive run_state : Set := Reconnecting | Watching (i : nat) | Gone (msg : string).

(** [out] is what went into the channel, with the connection it came from. *)
Record Tasks : Set := {
  links : list Link;
  run_of : run_state;
  out : list (nat * FlashblocksPayloadV1);
  tasks_backoff : Backoff;
  tasks_metrics : InboundMetrics
}.

Definition Tasks_new : Tasks :=
  {| links := []; run_of := Reconnecting; out := []; tasks_backoff := backoff_build (backoff config);
     tasks_metrics := InboundMetrics_default |}.

Inductive task_event : Set :=
| ConnectFailed (e : string)
| Connected (now : Z)
| PingTask (i : nat) (e : conn_event (Uuid := Uuid)) (now : Z)
| MessageTask (i : nat) (e : conn_event (Uuid := Uuid)) (now : Z).

(** ** Steps *)

(** [run] after an error: the pause, then another attempt. *)
Definition retry (b : Backoff) (t : Tasks) : Tasks :=
  match next_backoff b with
  | (None, b') =>
      {| links := links t; run_of := Gone "max_elapsed_time not set, never None"; out := out t;
         tasks_backoff := b'; tasks_metrics := tasks_metrics t |}
  | (Some _, b') =>
      {| links := links t; run_of := Reconnecting; out := out t; tasks_backoff := b';
         tasks_metrics := set_status 0 (count_reconnect (tasks_metrics t)) |}
  end.

Definition new_link (now : Z) : Link :=
  {| shared := {| cache := cache_new MAXIMUM_PINGS; pong_deadline := now + pong_interval config;
                  cancelled := false; forwarded := []; conn_metrics := InboundMetrics_default |};
     made_at := now; pinging := true; reading := true; handled := []; resets := 0 |}.

Definition connected (now : Z) (t : Tasks) : Tasks :=
  let ms := set_status 1 (tasks_metrics t) in
  if ping_interval config =? 0 then
    {| links := links t; run_of := Gone zero_period; out := out t; tasks_backoff := tasks_backoff t;
       tasks_metrics := ms |}
  else
    {| links := links t ++ [new_link now]; run_of := Watching (length (links t)); out := out t;
       tasks_backoff := tasks_backoff t; tasks_metrics := ms |}.

Definition set_shared (s : Conn) (l : Link) : Link :=
  {| shared := s; made_at := made_at l; pinging := pinging l; reading := reading l;
     handled := handled l; resets := resets l |}.
Definition cancel (s : Conn (Cache := Cache)) : Conn :=
  {| cache := cache s; pong_deadline := pong_deadline s; cancelled := true;
     forwarded := forwarded s; conn_metrics := conn_metrics s |}.

(** The end of [connect_and_handle] for the connection [i]: a panic of a task returns
    before the token is cancelled.  [Ok] goes on without a pause. *)
Definition finish (i : nat) (r : result unit FlashblocksReceiverError) (now : Z) (t : Tasks) : Tasks :=
  match links t !! i with
  | None => t
  | Some l =>
      let panicked := match r with Err e => is_panic e | Ok _ => false end in
      let t := {| links := if panicked then links t else <[i := set_shared (cancel (shared l)) l]> (links t);
                  run_of := Reconnecting; out := out t; tasks_backoff := tasks_backoff t;
                  tasks_metrics := tasks_metrics t |} in
      let b := if negb panicked && (max_interval config <=? now - made_at l)
               then backoff_reset (tasks_backoff t) else tasks_backoff t in
      match r with
      | Err _ => retry b t
      | Ok _ => {| links := links t; run_of := Reconnecting; out := out t; tasks_backoff := b;
                   tasks_metrics := tasks_metrics t |}
      end
  end.

(** A task of the connection [i] has ended with [r]: [run] acts if it waits for it. *)
Definition ended (i : nat) (r : option (result unit FlashblocksReceiverError)) (now : Z) (t : Tasks) : Tasks :=
  match r, run_of t with
  | Some r, Watching j => if decide (i = j) then finish i r now t else t
  | _, _ => t
  end.

Definition put_link (i : nat) (l : Link) (more : list FlashblocksPayloadV1) (ms : InboundMetrics)
    (t : Tasks) : Tasks :=
  {| links := <[i := l]> (links t); run_of := run_of t; out := out t ++ map (pair i) more;
     tasks_backoff := tasks_backoff t; tasks_metrics := ms |}.

(** The metrics are shared by all tasks. *)
Definition with_metrics (ms : InboundMetrics) (s : Conn (Cache := Cache)) : Conn :=
  {| cache := cache s; pong_deadline := pong_deadline s; cancelled := cancelled s;
     forwarded := forwarded s; conn_metrics := ms |}.

Definition is_ping_event (e : conn_event (Uuid := Uuid)) : bool :=
  match e with PingTick _ _ _ | PingCancelled | Panics _ => true | _ => false end.
Definition is_message_event (e : conn_event (Uuid := Uuid)) : bool :=
  match e with PingTick _ _ _ | PingCancelled => false | _ => true end.

Definition step_conn (e : conn_event (Uuid := Uuid)) (s : Conn (Cache := Cache)) :=
  conn_step from_str uuid_from_slice cache_put cache_pop config e s.

(** One event of the ping task of [i]; of its message task. *)
Definition ping_event (i : nat) (e : conn_event (Uuid := Uuid)) (now : Z) (t : Tasks) : Tasks :=
  match links t !! i with
  | Some l =>
      if pinging l && is_ping_event e then
        let (s, r) := step_conn e (with_metrics (tasks_metrics t) (shared l)) in
        let l' := {| shared := s; made_at := made_at l;
                     pinging := match r with None => true | Some _ => false end;
                     reading := reading l; handled := handled l; resets := resets l |} in
        ended i r now (put_link i l' [] (conn_metrics s) t)
      else t
  | None => t
  end.

Definition message_event (i : nat) (e : conn_event (Uuid := Uuid)) (now : Z) (t : Tasks) : Tasks :=
  match links t !! i with
  | Some l =>
      if reading l && is_message_event e then
        let (s, r) := step_conn e (with_metrics (tasks_metrics t) (shared l)) in
        let l' := {| shared := s; made_at := made_at l; pinging := pinging l;
                     reading := match r with None => true | Some _ => false end;
                     handled := match r with None => handled l ++ [e] | Some _ => handled l end;
                     resets := if decide (pong_deadline s = pong_deadline (shared l))
                               then resets l else S (resets l) |} in
        ended i r now (put_link i l' (drop (length (forwarded (shared l))) (forwarded s)) (conn_metrics s) t)
      else t
  | None => t
  end.

Definition tasks_step (e : task_event) (t : Tasks) : Tasks :=
  match e with
  | ConnectFailed _ =>
      match run_of t with Reconnecting => retry (tasks_backoff t) t | _ => t end
  | Connected now => match run_of t with Reconnecting => connected now t | _ => t end
  | PingTask i e now => ping_event i e now t
  | MessageTask i e now => message_event i e now t
  end.

Inductive tasks_to : Tasks -> Tasks -> Prop :=
| tasks_event e t : tasks_to t (tasks_step e t).

(** ** What a step changes *)

(** Two states of a connection that differ in its token and its copy of the metrics
    at most. *)
Definition same_link (l l' : Link) : Prop :=
  pinging l' = pinging l /\ reading l' = reading l /\ handled l' = handled l /\ resets l' = resets l /\
  forwarded (shared l') = forwarded (shared l) /\ cache (shared l') = cache (shared l) /\
  pong_deadline (shared l') = pong_deadline (shared l).

(** [run] watches no connection. *)
Definition idle (x : run_state) : Prop := forall i, x <> Watching i.

Lemma retry_spec b t : links (retry b t) = links t /\ out (retry b t) = out t /\ idle (run_of (retry b t)).
Proof. unfold retry. by destruct (next_backoff b) as [[d|] b']. Qed.

Lemma ended_spec i l r now t :
  links t !! i = Some l ->
  exists l', links (ended i r now t) = <[i := l']> (links t) /\ same_link l l' /\
    out (ended i r now t) = out t /\
    (run_of (ended i r now t) = run_of t /\ (r <> None -> run_of t <> Watching i) \/
     run_of t = Watching i /\ r <> None /\ idle (run_of (ended i r now t))).
Proof.
  intros Hi. assert (Hid : <[i := l]> (links t) = links t) by by apply list_insert_id.
  destruct r as [r|]; [|exists l; cbn; rewrite Hid; split_and!; try done; by left].
  cbn. destruct (run_of t) as [|j|m] eqn:Hr; try (exists l; rewrite Hid, Hr; split_and!; try done; by left).
  case_decide as Hij; [subst j|exists l; rewrite Hid, Hr; split_and!; try done; left; split; [done|congruence]].
  unfold finish. rewrite Hi. destruct r as [[]|e]; cbn.
  - exists (set_shared (cancel (shared l)) l). split_and!; try done. by right.
  - destruct (is_panic e).
    + destruct (retry_spec (tasks_backoff t) {| links := links t; run_of := Reconnecting; out := out t;
        tasks_backoff := tasks_backoff t; tasks_metrics := tasks_metrics t |}) as (E1 & E2 & E3).
      cbn [negb andb]. exists l. rewrite E1, E2, Hid. split_and!; try done. by right.
    + match goal with |- context [retry ?b ?t] => destruct (retry_spec b t) as (E1 & E2 & E3) end.
      exists (set_shared (cancel (shared l)) l). rewrite E1, E2. split_and!; try done. by right.
Qed.

(** What an event does to the shared part of a connection. *)
Lemma step_conn_ping e s s' r :
  is_ping_event e = true -> step_conn e s = (s', r) ->
  forwarded s' = forwarded s /\ pong_deadline s' = pong_deadline s.
Proof.
  unfold step_conn. destruct e as [u b l| |f l now|e| |now|e]; cbn; try done; unfold ping_step; intros _ Hs;
    repeat case_match; by simplify_eq/=.
Qed.

Abbreviation parse := (parsed from_str).

Lemma step_conn_message e s s' r :
  is_message_event e = true -> step_conn e s = (s', r) ->
  forwarded s' = forwarded s ++ match r with None => option_list (parse e) | Some _ => [] end.
Proof.
  unfold step_conn. destruct e as [u b l| |[text ok| |d| |] l now|e| |now|e]; cbn; try done;
    unfold message_step, frame_step; intros _ Hs;
    repeat case_match; simplify_eq/=; by rewrite ?app_nil_r.
Qed.

(** Flashblocks in the channel that came from the connection [i]. *)
Definition from_link (i : nat) (o : list (nat * FlashblocksPayloadV1)) : list FlashblocksPayloadV1 :=
  omap (fun x => if decide (x.1 = i) then Some x.2 else None) o.

Lemma from_link_app i o o' : from_link i (o ++ o') = from_link i o ++ from_link i o'.
Proof. apply omap_app. Qed.

Lemma from_link_map i j (l : list FlashblocksPayloadV1) :
  from_link i (map (pair j) l) = if decide (j = i) then l else [].
Proof. unfold from_link. induction l as [|x l IH]; cbn; [by case_decide|]. rewrite IH. by case_decide. Qed.

(** ** The invariant *)

Record link_inv (t : Tasks) (i : nat) (l : Link) : Prop := {
  li_out : from_link i (out t) = forwarded (shared l);
  li_handled : forwarded (shared l) = omap parse (handled l);
  li_orphan : reading l = true -> run_of t <> Watching i -> pinging l = false
}.

Definition tasks_inv (t : Tasks) : Prop :=
  (forall i l, links t !! i = Some l -> link_inv t i l) /\
  Forall (fun x => (x.1 < length (links t))%nat) (out t).

(** A step of a task of the connection [i], in general. *)
Lemma link_step_inv i l l1 l2 more t t' :
  links t !! i = Some l -> tasks_inv t ->
  links t' = <[i := l2]> (links t) -> same_link l1 l2 -> out t' = out t ++ map (pair i) more ->
  forwarded (shared l1) = forwarded (shared l) ++ more ->
  forwarded (shared l1) = omap parse (handled l1) ->
  (reading l1 = true -> run_of t' <> Watching i -> pinging l1 = false) ->
  (forall j, j <> i -> run_of t' <> Watching j -> run_of t <> Watching j) ->
  tasks_inv t'.
Proof.
  intros Hi [Hinv Hout] Hl (S1 & S2 & S3 & _ & S5 & _ & _) Ho Hf Hh Horph Hrun.
  assert (Hlen : length (links t') = length (links t)) by (rewrite Hl; apply length_insert). split.
  - intros j lj Hj. rewrite Hl in Hj. destruct (decide (i = j)) as [<-|Hne].
    + rewrite list_lookup_insert_eq in Hj by by eapply lookup_lt_Some. injection Hj as <-.
      split; rewrite ?S1, ?S2, ?S3, ?S5; try done.
      rewrite Ho, from_link_app, from_link_map, decide_True by done. by rewrite (li_out _ _ _ (Hinv i l Hi)).
    + rewrite list_lookup_insert_ne in Hj by done. destruct (Hinv j lj Hj) as [E1 E2 E3].
      split; [|done|].
      * rewrite Ho, from_link_app, from_link_map, decide_False by done. by rewrite app_nil_r.
      * intros Hr Hw. apply E3; [done|]. apply Hrun; [congruence|done].
  - rewrite Ho. apply Forall_app_2; [by rewrite Hlen|].
    apply Forall_forall. intros x Hx. apply list_elem_of_In, in_map_iff in Hx as (y & <- & _). cbn.
    rewrite Hlen. by eapply lookup_lt_Some.
Qed.

(** The link of [ended] among the links of [put_link]. *)
Lemma put_ended i l l1 more ms r now t :
  links t !! i = Some l ->
  exists l2, links (ended i r now (put_link i l1 more ms t)) = <[i := l2]> (links t) /\ same_link l1 l2 /\
    out (ended i r now (put_link i l1 more ms t)) = out t ++ map (pair i) more /\
    (run_of (ended i r now (put_link i l1 more ms t)) = run_of t /\ (r <> None -> run_of t <> Watching i) \/
     run_of t = Watching i /\ r <> None /\ idle (run_of (ended i r now (put_link i l1 more ms t)))).
Proof.
  intros Hi.
  destruct (ended_spec i l1 r now (put_link i l1 more ms t)) as (l2 & E1 & E2 & E3 & E4).
  { cbn. apply list_lookup_insert_eq. by eapply lookup_lt_Some. }
  exists l2. split_and!; [|done|done|done]. rewrite E1. cbn. apply list_insert_insert_eq.
Qed.

Lemma ping_event_inv i e now t : tasks_inv t -> tasks_inv (ping_event i e now t).
Proof.
  intros Hinv. unfold ping_event. destruct (links t !! i) as [l|] eqn:Hi; [|done].
  destruct (pinging l && is_ping_event e) eqn:Hb; [|done]. apply andb_true_iff in Hb as [Hp He].
  destruct (step_conn e _) as [s r] eqn:Hs. destruct (step_conn_ping _ _ _ _ He Hs) as [Hf _]. cbn in Hf.
  match goal with |- tasks_inv (ended i r now (put_link i ?l1 ?more ?ms t)) =>
    destruct (put_ended i l l1 more ms r now t Hi) as (l2 & E1 & E2 & E3 & E4);
    apply (link_step_inv i l l1 l2 more t _ Hi Hinv E1 E2 E3) end; cbn.
  - by rewrite app_nil_r.
  - rewrite Hf. apply (proj1 Hinv i l Hi).
  - intros Hr Hw. destruct r as [r|]; [done|]. destruct E4 as [[E4 _]|(_ & E4 & _)]; [|done].
    rewrite E4 in Hw. by rewrite (li_orphan _ _ _ (proj1 Hinv i l Hi) Hr Hw) in Hp.
  - intros j Hj Hw. destruct E4 as [[E4 _]|(E4 & _)]; [by rewrite <- E4|rewrite E4; congruence].
Qed.

Lemma message_event_inv i e now t : tasks_inv t -> tasks_inv (message_event i e now t).
Proof.
  intros Hinv. unfold message_event. destruct (links t !! i) as [l|] eqn:Hi; [|done].
  destruct (reading l && is_message_event e) eqn:Hb; [|done]. apply andb_true_iff in Hb as [Hp He].
  destruct (step_conn e _) as [s r] eqn:Hs. pose proof (step_conn_message _ _ _ _ He Hs) as Hf. cbn in Hf.
  match goal with |- tasks_inv (ended i r now (put_link i ?l1 ?more ?ms t)) =>
    destruct (put_ended i l l1 more ms r now t Hi) as (l2 & E1 & E2 & E3 & E4);
    apply (link_step_inv i l l1 l2 more t _ Hi Hinv E1 E2 E3) end; cbn.
  - rewrite Hf, drop_app_length. done.
  - rewrite Hf, (li_handled _ _ _ (proj1 Hinv i l Hi)).
    destruct r as [r|]; [by rewrite app_nil_r|]. rewrite omap_app. cbn. by destruct (parse e).
  - intros Hr Hw. destruct r as [r|]; [done|]. destruct E4 as [[E4 _]|(_ & E4 & _)]; [|done].
    rewrite E4 in Hw. by apply (li_orphan _ _ _ (proj1 Hinv i l Hi)).
  - intros j Hj Hw. destruct E4 as [[E4 _]|(E4 & _)]; [by rewrite <- E4|rewrite E4; congruence].
Qed.

Lemma from_link_none o n : Forall (fun x => (x.1 < n)%nat) o -> from_link n o = [].
Proof.
  unfold from_link. induction 1 as [|x o Hx Ho IH]; cbn; [done|].
  rewrite decide_False by lia. done.
Qed.

Lemma connected_inv now t : run_of t = Reconnecting -> tasks_inv t -> tasks_inv (connected now t).
Proof.
  intros Hr [Hinv Hout]. unfold connected. destruct (ping_interval config =? 0); split; cbn.
  - intros i l Hi. destruct (Hinv i l Hi) as [E1 E2 E3]. split; try done. intros H _. apply E3; [done|].
    by rewrite Hr.
  - done.
  - intros i l [Hi|[-> Hi]]%lookup_snoc_Some.
    + destruct Hi as [Hlt Hi]. destruct (Hinv i l Hi) as [E1 E2 E3]. split; try done. intros H _.
      apply E3; [done|]. by rewrite Hr.
    + subst l. split; cbn; [by apply from_link_none|done|done].
  - eapply Forall_impl; [exact Hout|]. intros x. rewrite length_app. cbn. lia.
Qed.

Lemma retry_inv b t : run_of t = Reconnecting -> tasks_inv t -> tasks_inv (retry b t).
Proof.
  intros Hr [Hinv Hout]. destruct (retry_spec b t) as (E1 & E2 & E3). split.
  - intros i l. rewrite E1. intros Hi. destruct (Hinv i l Hi) as [H1 H2 H3].
    split; rewrite ?E2; try done. intros H _. apply H3; [done|by rewrite Hr].
  - by rewrite E1, E2.
Qed.

Lemma tasks_step_inv e t : tasks_inv t -> tasks_inv (tasks_step e t).
Proof.
  intros Hinv. destruct e as [e|now|i e now|i e now]; cbn;
    [| |by apply ping_event_inv|by apply message_event_inv]; destruct (run_of t) eqn:Hr; try done.
  - by apply retry_inv.
  - by apply connected_inv.
Qed.

Lemma reachable_tasks t : star tasks_to Tasks_new t -> tasks_inv t.
Proof.
  intros Ht. apply (star_invariant tasks_to tasks_inv Tasks_new); [| |done].
  - intros x y Hx Hxy. destruct Hxy. by apply tasks_step_inv.
  - split; [|constructor]. intros i l. cbn. by rewrite lookup_nil.
Qed.

(** C23: whatever the tasks of the connections do and however they overlap, the
    flashblocks that one connection puts into the channel are exactly those of the
    text frames its message task has handled, in the order of the frames; and a
    message task that still runs although [run] has left its connection has lost its
    ping task: nobody sends pings for it any more. *)
Theorem links_keep_order (t : Tasks) (i : nat) (l : Link) :
  star tasks_to Tasks_new t -> links t !! i = Some l ->
  from_link i (out t) = omap parse (handled l) /\
  (reading l = true -> run_of t <> Watching i -> pinging l = false).
Proof.
  intros Ht Hi. destruct (proj1 (reachable_tasks t Ht) i l Hi) as [E1 E2 E3]. by rewrite E1, E2.
Qed.

(** ** A message task that is left alone ends *)

Section Orphans.
(** The number of entries of the cache, as the lru crate documents it: a known entry
    that is popped is gone, and the capacity is never exceeded. *)
Context (size : Cache -> nat).
Context (size_pop : forall u c, if (cache_pop u c).1 then (size (cache_pop u c).2 < size c)%nat
                               else (size (cache_pop u c).2 <= size c)%nat).
Context (size_put : forall u c, (size c <= MAXIMUM_PINGS)%nat -> (size (cache_put u c) <= MAXIMUM_PINGS)%nat).
Context (size_new : size (cache_new MAXIMUM_PINGS) = 0%nat).

Lemma step_conn_orphan e s s' r :
  is_message_event e = true -> step_conn e s = (s', r) ->
  pong_deadline s' = pong_deadline s /\ (size (cache s') <= size (cache s))%nat \/
  (size (cache s') < size (cache s))%nat.
Proof.
  unfold step_conn. destruct e as [u b l| |[text ok| |d| |] l now|e| |now|e]; cbn; try done;
    unfold message_step, frame_step; intros _ Hs;
    try (by repeat case_match; simplify_eq/=; left).
  destruct (pong_interval config =? 0); [by simplify_eq/=; left|].
  destruct (uuid_from_slice d) as [u|]; [|by simplify_eq/=; left].
  destruct l; [|by simplify_eq/=; left].
  pose proof (size_pop u (cache s)) as Hsize. destruct (cache_pop u (cache s)) as [[|] c]; simplify_eq/=.
  - by right.
  - by left.
Qed.

(** The connection [i] has no ping task, at most [n] timeouts are left to be put off. *)
Definition orphaned (i n : nat) (t : Tasks) : Prop :=
  exists l, links t !! i = Some l /\ pinging l = false /\ (resets l + size (cache (shared l)) <= n)%nat.

Lemma orphaned_other i j n l2 t t' :
  links t' = <[j := l2]> (links t) -> i <> j -> orphaned i n t -> orphaned i n t'.
Proof. intros Hl Hne (l & Hi & H). exists l. by rewrite Hl, list_lookup_insert_ne. Qed.

Lemma ping_event_orphaned i j e now n t : orphaned i n t -> orphaned i n (ping_event j e now t).
Proof.
  intros Ho. unfold ping_event. destruct (links t !! j) as [l|] eqn:Hj; [|done].
  destruct (pinging l && is_ping_event e) eqn:Hb; [|done]. apply andb_true_iff in Hb as [Hp He].
  destruct (step_conn e _) as [s r].
  match goal with |- orphaned i n (ended j r now (put_link j ?l1 ?more ?ms t)) =>
    destruct (put_ended j l l1 more ms r now t Hj) as (l2 & E1 & _) end.
  eapply orphaned_other; [exact E1| |done]. intros <-.
  destruct Ho as (l' & Hi & Hpi & _). congruence.
Qed.

Lemma message_event_orphaned i j e now n t : orphaned i n t -> orphaned i n (message_event j e now t).
Proof.
  intros Ho. unfold message_event. destruct (links t !! j) as [l|] eqn:Hj; [|done].
  destruct (reading l && is_message_event e) eqn:Hb; [|done]. apply andb_true_iff in Hb as [Hp He].
  destruct (step_conn e _) as [s r] eqn:Hs.
  match goal with |- orphaned i n (ended j r now (put_link j ?l1 ?more ?ms t)) =>
    destruct (put_ended j l l1 more ms r now t Hj) as (l2 & E1 & E2 & _) end.
  destruct (decide (i = j)) as [<-|Hne]; [|by eapply orphaned_other].
  destruct Ho as (l' & Hi & Hpi & Hn). rewrite Hj in Hi. injection Hi as <-.
  destruct E2 as (S1 & _ & _ & S4 & _ & S6 & _). exists l2.
  rewrite E1, list_lookup_insert_eq, S1, S4, S6 by by eapply lookup_lt_Some. cbn. split; [done|]. split; [done|].
  destruct (step_conn_orphan e _ s r He Hs) as [[Hd Hsz]|Hsz]; cbn in *.
  - rewrite decide_True by done. lia.
  - case_decide; lia.
Qed.

Lemma tasks_step_orphaned i n e t : orphaned i n t -> orphaned i n (tasks_step e t).
Proof.
  intros Ho. destruct e as [e|now|j e now|j e now]; cbn;
    [| |by apply ping_event_orphaned|by apply message_event_orphaned].
  - destruct (run_of t); try done. unfold orphaned.
    by destruct (retry_spec (tasks_backoff t) t) as (-> & _).
  - destruct (run_of t); try done. unfold connected. destruct (ping_interval config =? 0); [done|].
    destruct Ho as (l & Hi & H). exists l. cbn. split; [|done]. by apply lookup_app_l_Some.
Qed.

Definition within_capacity (t : Tasks) : Prop :=
  Forall (fun l => (size (cache (shared l)) <= MAXIMUM_PINGS)%nat) (links t).

Lemma step_conn_capacity e s s' r :
  (size (cache s) <= MAXIMUM_PINGS)%nat -> step_conn e s = (s', r) -> (size (cache s') <= MAXIMUM_PINGS)%nat.
Proof.
  intros Hc Hs. destruct (is_message_event e) eqn:He.
  - destruct (step_conn_orphan e s s' r He Hs) as [[_ H]|H]; lia.
  - unfold step_conn in Hs. destruct e as [u b l| |f l now|e| |now|e]; cbn in *; try done.
    + unfold ping_step in Hs. repeat case_match; simplify_eq/=; auto.
    + repeat case_match; by simplify_eq/=.
Qed.

Lemma link_capacity i l l1 more ms r now t :
  links t !! i = Some l -> within_capacity t -> (size (cache (shared l1)) <= MAXIMUM_PINGS)%nat ->
  within_capacity (ended i r now (put_link i l1 more ms t)).
Proof.
  intros Hi Ht Hl. destruct (put_ended i l l1 more ms r now t Hi) as (l2 & E1 & E2 & _).
  unfold within_capacity. rewrite E1. apply Forall_insert; [done|].
  destruct E2 as (_ & _ & _ & _ & _ & S6 & _). by rewrite S6.
Qed.

Lemma tasks_step_capacity e t : within_capacity t -> within_capacity (tasks_step e t).
Proof.
  intros Ht. destruct e as [e|now|i e now|i e now]; cbn.
  - destruct (run_of t); try done. unfold within_capacity.
    by destruct (retry_spec (tasks_backoff t) t) as (-> & _).
  - destruct (run_of t); try done. unfold connected. destruct (ping_interval config =? 0); [done|].
    apply Forall_app_2; [done|]. apply Forall_singleton. cbn. rewrite size_new. lia.
  - unfold ping_event. destruct (links t !! i) as [l|] eqn:Hi; [|done].
    destruct (pinging l && is_ping_event e); [|done]. destruct (step_conn e _) as [s r] eqn:Hs.
    eapply link_capacity; [done|done|]. eapply step_conn_capacity; [|exact Hs]. cbn.
    eapply Forall_lookup_1 in Ht; done.
  - unfold message_event. destruct (links t !! i) as [l|] eqn:Hi; [|done].
    destruct (reading l && is_message_event e); [|done]. destruct (step_conn e _) as [s r] eqn:Hs.
    eapply link_capacity; [done|done|]. eapply step_conn_capacity; [|exact Hs]. cbn.
    eapply Forall_lookup_1 in Ht; done.
Qed.

(** C25: a message task whose ping task has ended does not go on for ever: whatever
    the peer sends, and however long, pongs put its timeout off at most as often as
    the cache holds pings, which is at most sixty times. *)
Theorem orphan_timeouts_bounded (t t' : Tasks) (i : nat) (l : Link) :
  star tasks_to Tasks_new t -> links t !! i = Some l -> pinging l = false -> star tasks_to t t' ->
  exists l', links t' !! i = Some l' /\ pinging l' = false /\
    (resets l' <= resets l + MAXIMUM_PINGS)%nat.
Proof.
  intros Ht Hi Hp Ht'.
  assert (Hcap : within_capacity t).
  { apply (star_invariant tasks_to within_capacity Tasks_new); [|constructor|done].
    intros x y Hx Hxy. destruct Hxy. by apply tasks_step_capacity. }
  eapply Forall_lookup_1 in Hcap as Hc; [|done]. cbn in Hc.
  assert (Ho : orphaned i (resets l + MAXIMUM_PINGS) t').
  { apply (star_invariant tasks_to (orphaned i (resets l + MAXIMUM_PINGS)) t); [| |done].
    - intros x y Hx Hxy. destruct Hxy. by apply tasks_step_orphaned.
    - exists l. split_and!; [done|done|lia]. }
  destruct Ho as (l' & Hi' & Hp' & Hn). exists l'. split_and!; [done|done|lia].
Qed.

End Orphans.

(** ** Connections do not mix while pings are sent *)

(** Events in which no ping task fails by itself. *)
Definition calm (e : task_event) : bool :=
  match e with
  | PingTask _ (PingTick _ sent lock_ok) _ => sent && lock_ok
  | PingTask _ (Panics _) _ => false
  | _ => true
  end.

Inductive calm_to : Tasks -> Tasks -> Prop :=
| calm_event e t : calm e = true -> calm_to t (tasks_step e t).

(** Only the connection that [run] watches, which is the last one, has a message
    task, and its token is not cancelled; the channel has the connections in order. *)
Record apart (t : Tasks) : Prop := {
  ap_reading i l : links t !! i = Some l -> reading l = true -> run_of t = Watching i;
  ap_last i : run_of t = Watching i ->
    S i = length (links t) /\ exists l, links t !! i = Some l /\ cancelled (shared l) = false;
  ap_out : Forall (fun x => (x.1 < length (links t))%nat) (out t);
  ap_sorted : StronglySorted le (map fst (out t))
}.

Lemma sorted_snoc (l : list nat) (m : list nat) n :
  StronglySorted le l -> Forall (fun x => (x <= n)%nat) l -> Forall (fun x => x = n) m ->
  StronglySorted le (l ++ m).
Proof.
  intros Hl Hle Hm. induction Hl as [|x l Hl IH Hx]; cbn.
  - clear Hle. induction Hm as [|y m -> Hm IH]; [constructor|]. constructor; [done|].
    eapply Forall_impl; [exact Hm|]. by intros ? ->.
  - inversion Hle; subst. constructor; [by apply IH|]. apply Forall_app_2; [done|].
    eapply Forall_impl; [exact Hm|]. by intros ? ->.
Qed.

(** Results that leave [run] watching. *)
Lemma ended_none i now t : ended i None now t = t.
Proof. unfold ended. by destruct (run_of t). Qed.

Lemma ping_event_apart i e now t : calm (PingTask i e now) = true -> apart t -> apart (ping_event i e now t).
Proof.
  intros Hcalm Ha. unfold ping_event. destruct (links t !! i) as [l|] eqn:Hi; [|done].
  destruct (pinging l && is_ping_event e) eqn:Hb; [|done]. apply andb_true_iff in Hb as [Hp He].
  destruct (step_conn e _) as [s r] eqn:Hs.
  assert (Hc : cancelled s = cancelled (shared l)) by (apply conn_step_cancelled in Hs; exact Hs).
  assert (Hr : r = None \/ cancelled (shared l) = true).
  { unfold step_conn in Hs. destruct e as [u b k| |f k n|e| |n|e]; cbn in *; try done.
    - unfold ping_step in Hs. apply andb_true_iff in Hcalm as [-> ->]. left. by simplify_eq/=.
    - destruct (cancelled (shared l)); [by right|left; by simplify_eq/=]. }
  assert (Hw : r <> None -> run_of t <> Watching i).
  { intros Hne Hrun. destruct Hr as [?|Hr]; [done|].
    destruct (ap_last _ Ha i Hrun) as (_ & l' & Hi' & Hc'). rewrite Hi in Hi'. injection Hi' as <-. congruence. }
  assert (He' : forall l1 ms, ended i r now (put_link i l1 [] ms t) = put_link i l1 [] ms t).
  { intros l1 ms. destruct r as [r|]; [|apply ended_none]. unfold ended. cbn.
    destruct (run_of t) as [|j|m] eqn:Hrun; try done. case_decide as Hij; [|done].
    subst j. by destruct (Hw ltac:(done)). }
  rewrite He'. destruct Ha as [A1 A2 A3 A4].
  assert (Hlt : (i < length (links t))%nat) by by eapply lookup_lt_Some.
  split; cbn; rewrite ?app_nil_r, ?length_insert; try done.
  - intros j lj Hj Hread. destruct (decide (i = j)) as [<-|Hne].
    + rewrite list_lookup_insert_eq in Hj by done. injection Hj as <-. by eapply A1.
    + rewrite list_lookup_insert_ne in Hj by done. by eapply A1.
  - intros j Hrun. destruct (A2 j Hrun) as (Hlast & lj & Hj & Hcj). split; [done|].
    destruct (decide (i = j)) as [<-|Hne].
    + rewrite list_lookup_insert_eq by done. eexists. split; [done|]. cbn. congruence.
    + rewrite list_lookup_insert_ne by done. eauto.
Qed.

Lemma message_event_apart i e now t : apart t -> apart (message_event i e now t).
Proof.
  intros Ha. unfold message_event. destruct (links t !! i) as [l|] eqn:Hi; [|done].
  destruct (reading l && is_message_event e) eqn:Hb; [|done]. apply andb_true_iff in Hb as [Hrd He].
  destruct (step_conn e _) as [s r] eqn:Hs.
  assert (Hc : cancelled s = cancelled (shared l)) by (apply conn_step_cancelled in Hs; exact Hs).
  match goal with |- apart (ended i r now (put_link i ?l1 ?more ?ms t)) =>
    destruct (put_ended i l l1 more ms r now t Hi) as (l2 & E1 & E2 & E3 & E4);
    set (t' := ended i r now (put_link i l1 more ms t)) in * end.
  destruct E2 as (_ & S2 & _). cbn in S2. pose proof Ha as [A1 A2 A3 A4].
  pose proof (A1 i l Hi Hrd) as Hrun. destruct (A2 i Hrun) as (Hlast & l' & Hi' & Hcl).
  assert (Hlt : (i < length (links t))%nat) by by eapply lookup_lt_Some.
  assert (Hlen : length (links t') = length (links t)) by (rewrite E1; apply length_insert).
  assert (Hother : forall j lj, j <> i -> links t !! j = Some lj -> reading lj = true -> False).
  { intros j lj Hne Hj Hread. pose proof (A1 j lj Hj Hread). congruence. }
  split.
  - intros j lj Hj Hread. rewrite E1 in Hj. destruct (decide (i = j)) as [<-|Hne].
    + rewrite list_lookup_insert_eq in Hj by done. injection Hj as <-. rewrite S2 in Hread.
      destruct r as [r|]; [done|]. by destruct E4 as [[-> _]|(_ & ? & _)].
    + rewrite list_lookup_insert_ne in Hj by done. by destruct (Hother j lj ltac:(done) Hj Hread).
  - intros j Hj. destruct E4 as [[E4 E5]|(_ & _ & E4)]; [|by destruct (E4 j)].
    rewrite E4, Hrun in Hj. injection Hj as <-. rewrite Hlen. split; [done|].
    destruct r as [r|]; [by destruct (E5 ltac:(done))|]. unfold t'. rewrite ended_none. cbn.
    rewrite list_lookup_insert_eq by done. eexists. split; [done|]. cbn. congruence.
  - rewrite E3, Hlen. apply Forall_app_2; [done|]. apply Forall_forall.
    intros x Hx. apply list_elem_of_In, in_map_iff in Hx as (y & <- & _). done.
  - rewrite E3, map_app. apply (sorted_snoc _ _ i); [done| |].
    + apply Forall_forall. intros x Hx. apply list_elem_of_In, in_map_iff in Hx as (y & <- & Hy).
      rewrite Forall_forall in A3. apply list_elem_of_In, A3 in Hy. lia.
    + apply Forall_forall. intros x Hx. rewrite map_map in Hx.
      apply list_elem_of_In, in_map_iff in Hx as (y & <- & _). done.
Qed.

Lemma retry_apart t : run_of t = Reconnecting -> apart t -> apart (retry (tasks_backoff t) t).
Proof.
  intros Hr [A1 A2 A3 A4]. destruct (retry_spec (tasks_backoff t) t) as (E1 & E2 & E3).
  split; rewrite ?E1, ?E2; try done.
  - intros i l Hi Hread. pose proof (A1 i l Hi Hread). congruence.
  - intros i Hi. by destruct (E3 i).
Qed.

Lemma connected_apart now t : run_of t = Reconnecting -> apart t -> apart (connected now t).
Proof.
  intros Hr [A1 A2 A3 A4]. unfold connected. destruct (ping_interval config =? 0); split; cbn; try done.
  - intros i l Hi Hread. pose proof (A1 i l Hi Hread). congruence.
  - intros i l [[_ Hi]|[-> _]]%lookup_snoc_Some Hread; [|done]. pose proof (A1 i l Hi Hread). congruence.
  - intros i [= <-]. rewrite length_app. cbn. split; [lia|]. exists (new_link now).
    split; [|done]. apply lookup_snoc_Some. by right.
  - eapply Forall_impl; [exact A3|]. intros x. rewrite length_app. cbn. lia.
Qed.

Lemma calm_apart t t' : calm_to t t' -> apart t -> apart t'.
Proof.
  intros [e x Hcalm] Ha. destruct e as [e|now|i e now|i e now]; cbn;
    [| |by apply ping_event_apart|by apply message_event_apart]; destruct (run_of x) eqn:Hr; try done.
  - by apply retry_apart.
  - by apply connected_apart.
Qed.

(** C24: as long as no ping task fails by itself, connections do not mix: at any time
    at most the connection that [run] watches passes flashblocks on, and the channel
    has all flashblocks of one connection before those of the next. *)
Theorem connections_do_not_mix (t : Tasks) :
  star calm_to Tasks_new t ->
  (forall i l, links t !! i = Some l -> reading l = true -> run_of t = Watching i) /\
  StronglySorted le (map fst (out t)).
Proof.
  intros Ht. assert (Ha : apart t).
  { apply (star_invariant calm_to apart Tasks_new); [intros x y Hx Hxy; by eapply calm_apart| |done].
    split; cbn; [intros i l; by rewrite lookup_nil|done|by apply Forall_nil_2|by apply SSorted_nil]. }
  by destruct Ha.
Qed.

End ReceiverTasks.

(** ** Concrete runs *)
Module ReceiverTaskExamples.
Import Demo WsReceiverExamples.

Definition block : FlashblocksPayloadV1 (ET := Demo.types) :=
  {| fb_payload_id := 1; fb_index := 0; fb_base := None;
     fb_diff := {| d_state_root := 0; d_receipts_root := 0; d_logs_bloom := 0; d_gas_used := 0;
                   d_block_hash := 0; d_transactions := []; d_withdrawals := []; d_withdrawals_root := 0;
                   d_blob_gas_used := None |};
     fb_metadata := 0 |}.
Definition reads (text : string) : option (FlashblocksPayloadV1 (ET := Demo.types)) :=
  if String.eqb text "block" then Some block else None.

Abbreviation tasks_run es :=
  (foldl (fun t e => tasks_step (ET := Demo.types) reads from_slice (fun _ => []) put pop id doubling
     default_config e t) (Tasks_new initial default_config) es).
Abbreviation to := (tasks_to (ET := Demo.types) reads from_slice (fun _ => []) put pop id doubling default_config).

Lemma tasks_run_reachable es : star to (Tasks_new initial default_config) (tasks_run es).
Proof.
  assert (H : forall t0 t, star to t0 t -> star to t0 (foldl (fun t e => tasks_step (ET := Demo.types) reads
    from_slice (fun _ => []) put pop id doubling default_config e t) t es)).
  { induction es as [|e es IH]; intros t0 t Ht; [done|]. apply IH. eapply star_snoc; [exact Ht|constructor]. }
  apply H, star_refl.
Qed.

Definition text (i : nat) : task_event (Uuid := Z) := MessageTask i (Frame (FText "block" true) true 1) 1.

(** A ping of the first connection fails; its message task still passes flashblocks
    on while the second connection does. *)
Definition mixing : list (task_event (Uuid := Z)) :=
  [Connected 0; PingTask 0 (PingTick 7 true true) 0; text 0; PingTask 0 (PingTick 8 false true) 500;
   Connected 600; text 1; text 0; MessageTask 0 (Frame (FPong [7]) true 700) 700; text 1].

Example connections_mix : map fst (out (tasks_run mixing)) = [0; 1; 0; 1]%nat.
Proof. by vm_compute. Qed.

(** A panic of the message task leaves the ping task running, and not cancelled,
    beside the next connection. *)
Example panic_leaves_ping_task :
  map (fun l => (pinging l, cancelled (shared l)))
    (links (tasks_run [Connected 0; MessageTask 0 (Panics "boom") 5; Connected 600;
                       PingTask 0 (PingTick 9 true true) 700])) = [(true, false); (true, false)] /\
  map (fun l => (pinging l, cancelled (shared l)))
    (links (tasks_run [Connected 0; MessageTask 0 FrameEnd 5; PingTask 0 PingCancelled 6; Connected 600])) =
    [(false, true); (true, false)].
Proof. by vm_compute. Qed.

(** The first connection at the end of that run. *)
Definition orphan : Link (ET := Demo.types) (Uuid := Z) (Cache := list Z) := Eval vm_compute in
  default (new_link (fun _ => []) default_config 0) (links (tasks_run mixing) !! 0%nat).

Lemma links_keep_order_witness :
  from_link 0 (out (tasks_run mixing)) = omap (parsed reads) (handled orphan) /\ pinging orphan = false.
Proof.
  destruct (links_keep_order reads from_slice (fun _ => []) put pop initial id doubling default_config
    (tasks_run mixing) 0 orphan (tasks_run_reachable mixing) ltac:(vm_compute; reflexivity)) as [H1 H2].
  split; [exact H1|]. apply H2; [reflexivity|]. vm_compute. discriminate.
Defined.

Lemma size_filter (u : Z) (c : list Z) : u ∈ c -> (length (filter (fun x => x <> u) c) < length c)%nat.
Proof.
  induction c as [|x c IH]; intros Hin; [by apply elem_of_nil in Hin|]. rewrite filter_cons.
  pose proof (length_filter (fun x => x <> u) c). apply elem_of_cons in Hin as [<-|Hin].
  - rewrite decide_False by (intros H'; by apply H'). cbn. lia.
  - specialize (IH Hin). case_decide; cbn; lia.
Qed.

Lemma orphan_timeouts_bounded_witness :
  exists l', links (tasks_run mixing) !! 0%nat = Some l' /\ (resets l' <= resets orphan + MAXIMUM_PINGS)%nat.
Proof.
  destruct (orphan_timeouts_bounded reads from_slice (fun _ => []) put pop initial id doubling default_config
    length) with (t := tasks_run mixing) (t' := tasks_run mixing) (i := 0%nat) (l := orphan)
    as (l' & H1 & _ & H2).
  - intros u c. unfold pop. cbn. case_bool_decide as Hu; [by apply size_filter|apply length_filter].
  - intros u c _. unfold put, MAXIMUM_PINGS. rewrite length_take. lia.
  - reflexivity.
  - apply tasks_run_reachable.
  - vm_compute. reflexivity.
  - reflexivity.
  - apply star_refl.
  - exists l'. split; [exact H1|exact H2].
Defined.

Lemma connections_do_not_mix_witness :
  StronglySorted le (map fst (out (tasks_run [Connected 0; text 0; MessageTask 0 FrameEnd 2; Connected 3; text 1]))).
Proof.
  apply (connections_do_not_mix reads from_slice (fun _ => []) put pop initial id doubling default_config).
  cbn [foldl]. do 5 (eapply star_snoc; [|apply calm_event; reflexivity]). apply star_refl.
Defined.

End ReceiverTaskExamples.
