(* ===== verification/FlashblocksTests.v ===== *)
(** * Unit tests of flashblocks and block selection, run on the model

    The tests in flashblocks/service.rs, flashblocks/inbound.rs and selection.rs of
    crates/rollup-boost/src as executable scenarios.  The WebSocket servers of the
    tests are timelines of the frames that reach the receiver, in milliseconds. *)
From S2P Require Import Prelude Async F64 Payload Selection RpcClient FlashblockBuilder FlashblocksService.
From S2P Require Import Server ServerTests FlashblocksWs.

Local Open Scope Z_scope.
Local Open Scope prog_scope.

Module FlashblocksTests.

(** ** service.rs *)

(** How many getPayload requests the mock has received. *)
Definition payloads_asked (h : list (event Reply Obs FlashblocksService)) : nat :=
  length (omap (fun v => match v with EvAwait (_, Req_getPayloadV3 id) _ => Some id | _ => None end) h).

(** The mock engine server as the builder of a flashblocks service. *)
Definition fallback_env (m : MockEngineServer) : env Reply Obs FlashblocksService :=
  {| respond := fun h c =>
       match c as c return Reply c with
       | (_, Req_forkchoiceUpdatedV3 _ _) => call_error (mock_fcu m)
       | (_, Req_getPayloadV3 _) => call_error (mock_get_payload m (payloads_asked h))
       | (_, Req_newPayloadV3 _ _ _) => call_error (new_payload_response m)
       | (_, Req_getPayloadV4 _) => method_not_found
       | (_, Req_newPayloadV4 _ _ _ _) => method_not_found
       | (_, Req_getBlockByNumber _ _) => method_not_found
       end;
     interfere := fun _ s => s |}.

Definition PayloadId_default : PayloadId := 0.

(** [get_payload] of a service in the state [s], answered by the mock: it succeeds and
    the mock has received one request. *)
Definition served_by_builder (s : FlashblocksService) : bool :=
  let '(o, _, t) := run (fallback_env MockEngineServer_new)
    (fb_get_payload builder_rpc PayloadId_default V3) s in
  match o with Returned (Ok _) => true | _ => false end &&
  (payloads_asked t =? 1)%nat.

Definition test_flashblocks_fallback_to_get_payload : bool := served_by_builder FlashblocksService_initial.

Definition test_flashblocks_different_payload_id : bool :=
  served_by_builder (set_id 0x0101010101010101 FlashblocksService_initial).

(** Flashblocks whose other fields have their default values. *)
Definition delta_default : ExecutionPayloadFlashblockDeltaV1 :=
  {| d_state_root := 0; d_receipts_root := 0; d_logs_bloom := 0; d_gas_used := 0; d_block_hash := 0;
     d_transactions := []; d_withdrawals := []; d_withdrawals_root := 0; d_blob_gas_used := None |}.
Definition base_default : ExecutionPayloadBaseV1 :=
  {| b_parent_beacon_block_root := 0; b_parent_hash := 0; b_fee_recipient := 0; b_prev_randao := 0;
     b_block_number := 0; b_gas_limit := 0; b_timestamp := 0; b_extra_data := []; b_base_fee_per_gas := 0 |}.
Definition flashblock (index : Z) (base : option ExecutionPayloadBaseV1) : FlashblocksPayloadV1 :=
  {| fb_payload_id := PayloadId_default; fb_index := index; fb_base := base; fb_diff := delta_default;
     fb_metadata := 0 |}.

Definition test_flashblocks_builder : list (result unit FlashblocksError) :=
  let builder := FlashblockBuilder_new in
  let (r1, builder) := extend (flashblock 0 None) builder in
  let (r2, builder) := extend (flashblock 0 (Some base_default)) builder in
  let (r3, builder) := extend (flashblock 1 (Some base_default)) builder in
  let (r4, builder) := extend (flashblock 2 None) builder in
  let (r5, builder) := extend (flashblock 1 None) builder in
  [r1; r2; r3; r4; r5].

Example service_tests_pass :
  test_flashblocks_fallback_to_get_payload = true /\ test_flashblocks_different_payload_id = true /\
  test_flashblocks_builder =
    [Err MissingBasePayload; Ok tt; Err UnexpectedBasePayload; Err InvalidIndex; Ok tt].
Proof. by vm_compute. Qed.

(** ** selection.rs *)

(** The payload of the tests, with a given amount of gas. *)
Definition with_gas (gas : Z) : OpExecutionPayloadEnvelope :=
  EnvelopeV4 {| execution_payload_v4 :=
    {| payload_inner_v3 :=
         {| payload_inner_v2 :=
              {| payload_inner_v1 :=
                   {| base_fee_per_gas := 0x342770c0; block_number := 1;
                      block_hash := 0x44d0fa5f2f73a938ebb96a2a21679eb8dea3e7b7dd8fd9f35aa756dda8bf0a8a;
                      logs_bloom := 0;
                      extra_data := [0xd8; 0x83; 0x01; 0x0d; 0x00; 0x84; 0x67; 0x65; 0x74; 0x68; 0x88;
                        0x67; 0x6f; 0x31; 0x2e; 0x32; 0x31; 0x2e; 0x30; 0x85; 0x6c; 0x69; 0x6e; 0x75; 0x78];
                      gas_limit := 0x2ffbd2; gas_used_v1 := gas; timestamp := 0x1235; fee_recipient := 0;
                      parent_hash := 0xe927a1448525fb5d32cb50ee1408461a945ba6c39bd5cf5621407d500ecc8de9;
                      prev_randao := 0xe0d8b4521a7da1582a713244ffb6a86aa1726932087386e2dc7973f43fc6cb24;
                      receipts_root := 0x56e81f171bcc55a6ff8345e692c0f86e5b48e01b996cadc001622fb5e363b421;
                      state_root := 0x10f8a0830000e8edef6d00cc727ff833f064b1950afd591ae41357f97e543119;
                      transactions_v1 := [] |};
                 withdrawals_v2 := [] |};
            blob_gas_used := 0; excess_blob_gas := 0 |};
       withdrawals_root_v4 := 0x123400000000000000000000000000000000000000000000000000000000babe |};
    block_value_v4 := 0; blobs_bundle_v4 := tt; should_override_builder_v4 := false;
    parent_beacon_block_root_v4 := 0xdead00000000000000000000000000000000000000000000000000000000beef;
    execution_requests_v4 := [[0xde; 0xad; 0xbe; 0xef]] |}.

(** [(gas_used as f64 * 0.09) as u64] and [* 0.1], for a [gas_used] of 1000000000. *)
Definition selected (builder_gas : Z) : PayloadSource :=
  (select_block GasUsed (with_gas builder_gas) (with_gas 1000000000)).2.

Definition test_gas_used_policy_select_l2_block : bool := bool_decide (selected 90000000 = L2).
Definition test_gas_used_policy_select_builder_block : bool := bool_decide (selected 100000000 = Builder).

Example selection_tests_pass :
  test_gas_used_policy_select_l2_block && test_gas_used_policy_select_builder_block = true.
Proof. by vm_compute. Qed.

(** ** inbound.rs *)

Definition config (initial max ping pong connect : Z) : Config.FlashblocksWebsocketConfig :=
  {| Config.flashblock_builder_ws_initial_reconnect_ms := initial;
     Config.flashblock_builder_ws_max_reconnect_ms := max;
     Config.flashblock_builder_ws_ping_interval_ms := ping;
     Config.flashblock_builder_ws_pong_timeout_ms := pong;
     Config.flashblock_builder_ws_connect_timeout_ms := connect |}.

(** The only message of the tests, as text. *)
Definition message : FlashblocksPayloadV1 := flashblock 0 None.
Definition from_str (text : string) : option FlashblocksPayloadV1 :=
  if String.eqb text "message" then Some message else None.

Import WsReceiverExamples.

Abbreviation attempt := (Inbound.connection_attempt (Uuid := Z)).

Definition receive (c : Config.FlashblocksWebsocketConfig) (attempts : list attempt) :=
  Inbound.receiver_run from_str from_slice (fun _ => []) put pop id doubling c attempts
    (Inbound.Receiver_new Config.initial c).

Definition handle (c : Config.FlashblocksWebsocketConfig) (a : attempt) :=
  match Inbound.connect_and_handle from_str from_slice (fun _ => []) put pop id c a
    (Inbound.Receiver_new Config.initial c) with
  | Returned (_, ended) => ended
  | Panicked _ => None
  end.

(** [start]: a server that sends one message; it is stopped after that, which ends
    the stream, and another one listens at the same address a second later. *)
Definition sends_message (stopped : bool) (at_ms : Z) : attempt :=
  {| Inbound.connect := Ok tt; Inbound.connected_at := at_ms;
     Inbound.events := Inbound.Frame (Inbound.FText "message" true) true (at_ms + 1) ::
       (if stopped then [Inbound.FrameEnd] else []);
     Inbound.ended_at := at_ms + 2 |}.

Definition refused (at_ms : Z) : attempt :=
  {| Inbound.connect := Err "connection refused"%string; Inbound.connected_at := at_ms;
     Inbound.events := []; Inbound.ended_at := at_ms |}.

Definition test_flashblocks_receiver_service : bool :=
  let c := config 100 100 500 2000 5000 in
  match receive c (sends_message true 0 ::
    map refused [102; 202; 302; 402; 502; 602; 702; 802; 902] ++ [sends_message false 1002]) with
  | Returned r => bool_decide (length (Inbound.r_forwarded r) = 2%nat) &&
      forallb (fun p => (fb_index p =? fb_index message) && (fb_payload_id p =? fb_payload_id message))
        (Inbound.r_forwarded r)
  | Panicked _ => false
  end.

(** [start_ping_server]: every 100 ms the server reads what has arrived if it is
    willing to; reading a ping answers it. *)
Fixpoint ping_server (steps : nat) (t : Z) (send_pongs : Z -> bool) (unread : list Z)
  : list (Inbound.conn_event (Uuid := Z)) :=
  match steps with
  | O => []
  | S steps =>
      let ping := if t mod 500 =? 0 then [t] else [] in
      let unread := unread ++ ping in
      map (fun u => Inbound.PingTick u true true) ping ++
      (if send_pongs t then map (fun u => Inbound.Frame (Inbound.FPong [u]) true t) unread else []) ++
      Inbound.PongTick t :: ping_server steps (t + 100) send_pongs (if send_pongs t then [] else unread)
  end.

(** How the connection stands at a time. *)
Definition connection_at (ms : Z) (send_pongs : Z -> bool) :=
  handle (config 100 1000 500 2000 5000)
    {| Inbound.connect := Ok tt; Inbound.connected_at := 0;
       Inbound.events := ping_server (Z.to_nat (ms / 100)) 0 send_pongs []; Inbound.ended_at := ms |}.

Definition answered (l : list (Inbound.conn_event (Uuid := Z))) : nat :=
  length (omap (fun e => match e with Inbound.Frame (Inbound.FPong u) _ _ => Some u | _ => None end) l).

(** The server stops reading for one second, and later for three. *)
Definition test_flashblocks_receiver_service_ping_pong : bool :=
  let send_pongs t := negb ((2500 <? t) && (t <? 3500) || (3600 <? t) && (t <? 6600)) in
  (5 <=? answered (ping_server 25 0 send_pongs []))%nat &&
  match connection_at 2500 send_pongs, connection_at 3600 send_pongs, connection_at 6700 send_pongs with
  | None, None, Some (Err Inbound.PongTimeout) => true
  | _, _, _ => false
  end.

(** [start_stuck_server]: the handshake never ends, so the timeout of connecting
    does. *)
Definition start_stuck_server : attempt :=
  {| Inbound.connect := Err "deadline has elapsed"%string; Inbound.connected_at := 0;
     Inbound.events := []; Inbound.ended_at := 1000 |}.

Definition test_flashblocks_receiver_service_connect_timeout : bool :=
  match handle (config 100 200 500 2000 1000) start_stuck_server with
  | Some (Err (Inbound.Connection _)) => true
  | _ => false
  end.

Example inbound_tests_pass :
  test_flashblocks_receiver_service && test_flashblocks_receiver_service_ping_pong &&
  test_flashblocks_receiver_service_connect_timeout = true.
Proof. by vm_compute. Qed.

End FlashblocksTests.
