(* ===== verification/Proxy.v ===== *)
(** * The HTTP proxy

    crates/rollup-boost/src/proxy.rs with client/http.rs, client/auth.rs, the request
    buffering of server.rs and the middleware stack of cli.rs: Engine API calls go to
    the server, everything else to the L2 node, and a few methods to the builder as
    well. *)
From S2P Require Import Prelude Async Payload Probe.

Local Open Scope Z_scope.
Local Open Scope prog_scope.

Section Proxy.
(** [http::request::Parts] and [http::response::Parts] without what the proxy
    changes, JWT secrets with their encoding of the claims issued at a time,
    serde_json's reading of a request's method and of a response's error code,
    and boxed errors. *)
Context {ReqParts RespParts JwtSecret BoxError : Set}
  (jwt_encode : JwtSecret -> Z -> string)
  (request_method : string -> result string BoxError)
  (response_error : string -> result (option Z) BoxError).

(** ** Requests *)

(** A request with its body buffered: [BufferedRequest]. *)
Record BufferedRequest : Set := {
  req_parts : ReqParts;
  uri : string;
  authorization : option string;
  req_body : string
}.

(** A request whose body arrives over the network: [Request]. *)
Record Request : Set := {
  r_parts : ReqParts;
  r_uri : string;
  r_authorization : option string;
  collect : result string BoxError
}.

Record HttpResponse : Set := { resp_parts : RespParts; resp_body : string }.

Definition into_buffered_request (req : Request) : result BufferedRequest BoxError :=
  match collect req with
  | Ok bytes => Ok {| req_parts := r_parts req; uri := r_uri req;
                      authorization := r_authorization req; req_body := bytes |}
  | Err e => Err e
  end.

Definition from_buffered_request (req : BufferedRequest) : Request :=
  {| r_parts := req_parts req; r_uri := uri req; r_authorization := authorization req;
     collect := Ok (req_body req) |}.

(** ** Clients *)

Record HttpClient : Set := { secret : JwtSecret; client_url : string; target : PayloadSource }.

Definition set_uri (u : string) (r : BufferedRequest) : BufferedRequest :=
  {| req_parts := req_parts r; uri := u; authorization := authorization r; req_body := req_body r |}.
Definition set_authorization (a : string) (r : BufferedRequest) : BufferedRequest :=
  {| req_parts := req_parts r; uri := uri r; authorization := Some a; req_body := req_body r |}.

(** [secret_to_bearer_header]. *)
Definition secret_to_bearer_header (s : JwtSecret) (now : Z) : string :=
  ("Bearer " ++ jwt_encode s now)%string.

(** [AuthService::call]: the request that goes to the inner service. *)
Definition auth_call (s : JwtSecret) (now : Z) (r : BufferedRequest) : BufferedRequest :=
  set_authorization (secret_to_bearer_header s now) r.

(** What the proxy waits for: a node's answer, the inner server's, the clock. *)
Inductive ProxyCall : Set :=
| Send (target : PayloadSource) (r : BufferedRequest)
| Inner (r : Request)
| Now.

Definition ProxyReply (c : ProxyCall) : Set :=
  match c with
  | Send _ _ | Inner _ => result HttpResponse BoxError
  | Now => Z
  end.

(** Background forwards and span fields. *)
Inductive ProxyObs : Set :=
| SpawnForward (c : HttpClient) (r : BufferedRequest) (method : string)
| RecordMethod (method : string)
| RecordCode (code : Z).

Abbreviation PM A := (prog ProxyReply ProxyObs unit A).

Definition forward (self : HttpClient) (req : BufferedRequest) (method : string)
  : PM (result HttpResponse BoxError) :=
  emit (RecordMethod method) ;;
  let req := set_uri (client_url self) req in
  let* now := await Now in
  let*? res := await (Send (target self) (auth_call (secret self) now req)) in
  match response_error (resp_body res) with
  | Err e => Ret (Err e)
  | Ok (Some code) => emit (RecordCode code) ;; Ret (Ok res)
  | Ok None => Ret (Ok res)
  end.

(** ** The proxy *)

Definition ENGINE_METHOD : string := "engine_".

Definition FORWARD_REQUESTS : list string :=
  ["eth_sendRawTransaction"; "eth_sendRawTransactionConditional"; "miner_setExtra";
   "miner_setGasPrice"; "miner_setGasLimit"; "miner_setMaxDASize"].

Record ProxyService : Set := { l2_http : HttpClient; builder_http : HttpClient }.

Definition proxy_call (self : ProxyService) (req : Request) : PM (result HttpResponse BoxError) :=
  match into_buffered_request req with
  | Err e => Ret (Err e)
  | Ok buffered =>
      match request_method (req_body buffered) with
      | Err e => Ret (Err e)
      | Ok method =>
          if starts_with ENGINE_METHOD method then await (Inner (from_buffered_request buffered))
          else
            (if bool_decide (method ∈ FORWARD_REQUESTS)
             then emit (SpawnForward (builder_http self) buffered method) else Ret tt) ;;
            forward (l2_http self) buffered method
      end
  end.

(** What a spawned forward does. *)
Definition spawned_forward (o : ProxyObs) : PM unit :=
  match o with
  | SpawnForward c r method => forward c r method ;; Ret tt
  | _ => Ret tt
  end.

(** The middleware stack of [RollupBoostServiceArgs::run]: probes outside, proxy
    inside. *)
Definition http_middleware (probes : Probes) (self : ProxyService) (path : string) (req : Request)
  : PM (Response + result HttpResponse BoxError) :=
  match probe_call probes path with
  | Some r => Ret (inl r)
  | None => let* r := proxy_call self req in Ret (inr r)
  end.

(** ** Routing *)

Abbreviation Ev := (event ProxyReply ProxyObs unit).

(** The nodes a run sends requests to, in order, with what it sends. *)
Definition sends (t : list Ev) : list (PayloadSource * BufferedRequest) :=
  omap (fun v => match v with EvAwait (Send tg r) _ => Some (tg, r) | _ => None end) t.
Definition inner_calls (t : list Ev) : list Request :=
  omap (fun v => match v with EvAwait (Inner r) _ => Some r | _ => None end) t.
Definition spawns (t : list Ev) : list (HttpClient * string) :=
  omap (fun v => match v with EvEmit (SpawnForward c r _) => Some (c, req_body r) | _ => None end) t.

(** The request as a client sends it on, at some time. *)
Definition sent_on (c : HttpClient) (r : BufferedRequest) (x : PayloadSource * BufferedRequest) : Prop :=
  exists now, x = (target c, {| req_parts := req_parts r; uri := client_url c;
    authorization := Some (secret_to_bearer_header (secret c) now); req_body := req_body r |}).

Lemma forward_every c r method :
  every (forward c r method) (fun t o =>
    (exists x, sends t = [x] /\ sent_on c r x) /\ inner_calls t = [] /\ spawns t = [] /\
    match o with
    | Returned (Ok res) => exists x, EvAwait (Send (target c) x) (Ok res) ∈ t
    | Returned (Err _) => True
    | Panicked _ => False
    end).
Proof.
  unfold forward. apply every_emit. cbn zeta. intros now. cbn [bind]. intros res. cbn [bind].
  assert (Hs : sent_on c r (target c, auth_call (secret c) now (set_uri (client_url c) r))) by by exists now.
  destruct res as [res|e]; cbn [bind]; [|split_and!; [by eexists|done..]].
  destruct (response_error (resp_body res)) as [[code|]|e]; cbn; split_and!;
    try done; try (by eexists); by exists (auth_call (secret c) now (set_uri (client_url c) r)); set_solver.
Qed.

Lemma forward_requests_not_engine m : m ∈ FORWARD_REQUESTS -> starts_with ENGINE_METHOD m = false.
Proof. unfold FORWARD_REQUESTS. rewrite !elem_of_cons, elem_of_nil. naive_solver. Qed.

(** C31: routing of a well-formed request.  An Engine API method goes to the inner
    server only, with the body it came with.  Any other method goes to the L2 node
    exactly once, with the same body, the client's URL and a bearer token of its
    secret, and every answer other than an error is the L2 node's; the builder
    gets a copy, in the background, exactly for the six forwarded methods, so its
    answer is never used. *)
Theorem proxy_routes (self : ProxyService) (req : Request) (buffered : BufferedRequest) (m : string) :
  into_buffered_request req = Ok buffered -> request_method (req_body buffered) = Ok m ->
  every (proxy_call self req) (fun t o =>
    (exists r, o = Returned r) /\
    if starts_with ENGINE_METHOD m then
      inner_calls t = [from_buffered_request buffered] /\ sends t = [] /\ spawns t = []
    else
      inner_calls t = [] /\ (exists x, sends t = [x] /\ sent_on (l2_http self) buffered x) /\
      spawns t = (if bool_decide (m ∈ FORWARD_REQUESTS)
                  then [(builder_http self, req_body buffered)] else []) /\
      forall res, o = Returned (Ok res) ->
        exists x, EvAwait (Send (target (l2_http self)) x) (Ok res) ∈ t).
Proof.
  intros Hb Hm. unfold proxy_call. rewrite Hb, Hm.
  destruct (starts_with ENGINE_METHOD m) eqn:He.
  { intros res. cbn. split; [by eexists|done]. }
  case_bool_decide.
  - apply every_emit. eapply every_mono; [|apply forward_every].
    intros t o (Hx & Hi & Hs & Ho). split; [destruct o; [eauto|done]|].
    split_and!; [exact Hi|exact Hx| |].
    + transitivity ((builder_http self, req_body buffered) :: spawns t); [done|by rewrite Hs].
    + intros res ->. destruct Ho as [x Hin]. exists x. by right.
  - cbn [bind]. eapply every_mono; [|apply forward_every].
    intros t o (Hx & Hi & Hs & Ho). split; [destruct o; [eauto|done]|].
    split_and!; [exact Hi|exact Hx|exact Hs|]. by intros res ->.
Qed.

(** Buffering loses nothing. *)
Lemma buffered_roundtrip (r : BufferedRequest) :
  into_buffered_request (from_buffered_request r) = Ok r.
Proof. by destruct r. Qed.

End Proxy.

(** ** Concrete requests *)
Module ProxyExamples.

(** Requests that consist of their method. *)
Definition method_of (body : string) : result string string := Ok body.
Definition encode (s now : Z) : string := "token".

Definition client (t : PayloadSource) : HttpClient (JwtSecret := Z) :=
  {| secret := 1; client_url := "http://node"; target := t |}.
Definition service : ProxyService (JwtSecret := Z) :=
  {| l2_http := client L2; builder_http := client Builder |}.
Definition request (body : string) : Request (ReqParts := unit) (BoxError := string) :=
  {| r_parts := tt; r_uri := "/"; r_authorization := None; collect := Ok body |}.
Definition buffered (body : string) : BufferedRequest (ReqParts := unit) :=
  {| req_parts := tt; uri := "/"; authorization := None; req_body := body |}.

Definition call (body : string) :=
  proxy_call (RespParts := unit) encode method_of (fun _ => Ok None) service (request body).

Lemma proxy_routes_witness :
  every (call "eth_sendRawTransaction") (fun t o =>
    (exists r, o = Returned r) /\
    inner_calls t = [] /\
    (exists x, sends t = [x] /\ sent_on encode (client L2) (buffered "eth_sendRawTransaction") x) /\
    spawns t = [(client Builder, "eth_sendRawTransaction")] /\
    forall res, o = Returned (Ok res) -> exists x, EvAwait (Send L2 x) (Ok res) ∈ t).
Proof.
  apply (proxy_routes encode method_of (fun _ => Ok None) service (request "eth_sendRawTransaction")
    (buffered "eth_sendRawTransaction") "eth_sendRawTransaction"); reflexivity.
Defined.

(** The health endpoints are answered by the probes: no node is asked. *)
Example healthz_asks_nobody :
  http_middleware (RespParts := unit) encode method_of (fun _ => Ok None) Probes_default service
    "/healthz" (request "") = Ret (inl ok).
Proof. reflexivity. Qed.

End ProxyExamples.
