(* ===== verification/Net.v ===== *)
(** * Addresses and numbers as text

    What the sources use of the standard library on text: [IpAddr] with its
    [Display] and [FromStr], and [usize] and [i64] with theirs. *)
From S2P Require Import Prelude.

Local Open Scope Z_scope.

(** ** Digits *)

Definition digit_value (a : ascii) : option Z :=
  let n := Z.of_nat (Ascii.nat_of_ascii a) in
  if (48 <=? n) && (n <=? 57) then Some (n - 48)
  else if (97 <=? n) && (n <=? 102) then Some (n - 87)
  else if (65 <=? n) && (n <=? 70) then Some (n - 55)
  else None.

(** [char::to_digit]. *)
Definition to_digit (radix : Z) (a : ascii) : option Z :=
  match digit_value a with
  | Some d => if d <? radix then Some d else None
  | None => None
  end.

Definition digit_char (d : Z) : ascii :=
  Ascii.ascii_of_nat (Z.to_nat (if d <? 10 then 48 + d else 87 + d)).

(** Printing in a radix; 20 digits are enough for 64 bits in any radix above 9,
    and the printer is used on at most 64 bits. *)
Fixpoint print_digits (fuel : nat) (radix n : Z) (acc : string) : string :=
  match fuel with
  | O => acc
  | S fuel =>
      let acc := String (digit_char (n mod radix)) acc in
      if n <? radix then acc else print_digits fuel radix (n / radix) acc
  end.

Definition print_dec (n : Z) : string := print_digits 20 10 n "".
Definition print_hex (n : Z) : string := print_digits 20 16 n "".

(** The digits of an integer parser: no value above [limit]. *)
Fixpoint parse_digits (limit : Z) (s : string) (acc : Z) : option Z :=
  match s with
  | EmptyString => Some acc
  | String a s =>
      match to_digit 10 a with
      | Some d => if acc * 10 + d <=? limit then parse_digits limit s (acc * 10 + d) else None
      | None => None
      end
  end.

(** At least one digit. *)
Definition parse_number (limit : Z) (s : string) : option Z :=
  match s with EmptyString => None | _ => parse_digits limit s 0 end.

(** [usize::from_str]: an optional [+], at least one digit, no overflow. *)
Definition parse_usize (s : string) : option Z :=
  match s with
  | EmptyString => None
  | String a r =>
      if decide (a = "+"%char) then parse_number u64_max r else parse_number u64_max s
  end.

(** [i64::from_str], and [to_string] of an [i64]. *)
Definition parse_i64 (s : string) : option Z :=
  match s with
  | EmptyString => None
  | String a r =>
      if decide (a = "+"%char) then parse_number (2 ^ 63 - 1) r
      else if decide (a = "-"%char) then Z.opp <$> parse_number (2 ^ 63) r
      else parse_number (2 ^ 63 - 1) s
  end.

Definition print_i64 (n : Z) : string :=
  if n <? 0 then String "-"%char (print_dec (- n)) else print_dec n.

(** ** [IpAddr] *)

(** Four octets, or eight 16-bit segments. *)
Inductive IpAddr : Set :=
| IPv4 (a b c d : Z)
| IPv6 (segments : list Z).

#[global] Instance IpAddr_eq_dec : EqDecision IpAddr.
Proof. solve_decision. Defined.

#[global] Instance IpAddr_countable : Countable IpAddr.
Proof.
  refine (inj_countable'
    (fun x => match x with IPv4 a b c d => inl (a, b, c, d) | IPv6 s => inr s end)
    (fun y => match y with inl (a, b, c, d) => IPv4 a b c d | inr s => IPv6 s end) _).
  by intros [].
Defined.

Definition is_octet (x : Z) : Prop := 0 <= x <= 255.

(** [Display for Ipv4Addr]. *)
Definition show_v4 (a b c d : Z) : string :=
  (print_dec a ++ "." ++ print_dec b ++ "." ++ print_dec c ++ "." ++ print_dec d)%string.

Fixpoint show_segments (l : list Z) : string :=
  match l with
  | [] => ""
  | [x] => print_hex x
  | x :: xs => (print_hex x ++ ":" ++ show_segments xs)%string
  end.

(** The first longest run of zero segments: its start and length. *)
Fixpoint longest_zeros (i : nat) (l : list Z) (cur best : nat * nat) : nat * nat :=
  match l with
  | [] => best
  | x :: l =>
      if x =? 0 then
        let cur := match cur with (_, O) => (i, 1%nat) | (s, n) => (s, S n) end in
        longest_zeros (S i) l cur (if (best.2 <? cur.2)%nat then cur else best)
      else longest_zeros (S i) l (O, O) best
  end.

(** [Display for Ipv6Addr]: IPv4-mapped addresses in dotted form, otherwise the
    longest run of at least two zero segments as [::]. *)
Definition show_v6 (s : list Z) : string :=
  match s with
  | [0; 0; 0; 0; 0; 65535; x; y] =>
      ("::ffff:" ++ show_v4 (x / 256) (x mod 256) (y / 256) (y mod 256))%string
  | _ =>
      let (start, len) := longest_zeros 0 s (O, O) (O, O) in
      if (1 <? len)%nat then
        (show_segments (take start s) ++ "::" ++ show_segments (drop (start + len) s))%string
      else show_segments s
  end.

Definition show_ip (x : IpAddr) : string :=
  match x with IPv4 a b c d => show_v4 a b c d | IPv6 s => show_v6 s end.

(** ** The parser of addresses

    [core::net::parser]: readers consume a prefix of the input and return the
    rest, [None] leaves the input alone. *)
Definition reader (X : Type) := string -> option (X * string).

Definition read_given_char (c : ascii) : reader unit := fun s =>
  match s with
  | String a r => if decide (a = c) then Some (tt, r) else None
  | EmptyString => None
  end.

(** [read_number]: [max] digits at most (one more is an error), [limit] the
    largest value of the type, leading zeros only when allowed. *)
Fixpoint read_digits (radix limit : Z) (max : nat) (s : string) (acc : Z) (count : nat)
  : option (Z * nat * string) :=
  match s with
  | String a r =>
      match to_digit radix a with
      | Some d =>
          let acc := acc * radix + d in
          if limit <? acc then None
          else if (max <=? count)%nat then None
          else read_digits radix limit max r acc (S count)
      | None => Some (acc, count, s)
      end
  | EmptyString => Some (acc, count, s)
  end.

Definition read_number (radix limit : Z) (max : nat) (allow_zero_prefix : bool) : reader Z :=
  fun s =>
    match read_digits radix limit max s 0 0 with
    | Some (x, count, rest) =>
        if (count =? 0)%nat then None
        else if negb allow_zero_prefix && starts_with "0" s && (1 <? count)%nat then None
        else Some (x, rest)
    | None => None
    end.

(** [read_separator]: the separator is required except before the first item. *)
Definition read_separator {X} (sep : ascii) (index : nat) (r : reader X) : reader X := fun s =>
  match index with
  | O => r s
  | _ => match read_given_char sep s with Some (_, s) => r s | None => None end
  end.

Definition dot : ascii := "."%char.

Definition read_ipv4_addr : reader (Z * Z * Z * Z) := fun s =>
  let octet i := read_separator dot i (read_number 10 255 3 false) in
  match octet 0%nat s with
  | Some (a, s) =>
      match octet 1%nat s with
      | Some (b, s) =>
          match octet 2%nat s with
          | Some (c, s) =>
              match octet 3%nat s with
              | Some (d, s) => Some ((a, b, c, d), s)
              | None => None
              end
          | None => None
          end
      | None => None
      end
  | None => None
  end.

(** [read_groups]: up to [limit] groups from index [i]; tells whether the last
    two come from an embedded IPv4 address. *)
Fixpoint read_groups (fuel limit i : nat) (s : string) : list Z * bool * string :=
  match fuel with
  | O => ([], false, s)
  | S fuel =>
      let v4 := if (i <? limit - 1)%nat then read_separator colon i read_ipv4_addr s else None in
      match v4 with
      | Some ((a, b, c, d), s) => ([a * 256 + b; c * 256 + d], true, s)
      | None =>
          match read_separator colon i (read_number 16 65535 4 true) s with
          | Some (g, s) =>
              let '(gs, v4, s) := read_groups fuel limit (S i) s in (g :: gs, v4, s)
          | None => ([], false, s)
          end
      end
  end.

Definition read_ipv6_addr : reader (list Z) := fun s =>
  let '(head, head_v4, s) := read_groups 8 8 0 s in
  if (length head =? 8)%nat then Some (head, s)
  else if head_v4 then None
  else match read_given_char colon s with
       | Some (_, s) =>
           match read_given_char colon s with
           | Some (_, s) =>
               let limit := (8 - (length head + 1))%nat in
               let '(tail, _, s) := read_groups limit limit 0 s in
               Some (head ++ repeat 0 (8 - length head - length tail) ++ tail, s)
           | None => None
           end
       | None => None
       end.

(** [IpAddr::from_str]: the whole input must be consumed. *)
Definition parse_ip (s : string) : option IpAddr :=
  match
    match read_ipv4_addr s with
    | Some ((a, b, c, d), r) => Some (IPv4 a b c d, r)
    | None => match read_ipv6_addr s with Some (l, r) => Some (IPv6 l, r) | None => None end
    end
  with
  | Some (ip, EmptyString) => Some ip
  | _ => None
  end.

(** ** Socket addresses *)

(** [SocketAddr::from_str]: an IPv4 address or an IPv6 address in brackets with an
    optional scope, which is read and dropped here, then the port.  The number of
    digits is not limited, so the length of the text is a limit that never
    applies. *)
Definition read_port : reader Z := fun s =>
  match read_given_char colon s with
  | Some (_, s) => read_number 10 65535 (S (String.length s)) true s
  | None => None
  end.

Definition read_scope_id : reader unit := fun s =>
  match read_given_char "%"%char s with
  | Some (_, r) =>
      match read_number 10 (2 ^ 32 - 1) (S (String.length r)) true r with
      | Some (_, r) => Some (tt, r)
      | None => Some (tt, s)
      end
  | None => Some (tt, s)
  end.

Definition read_socket_addr : reader (IpAddr * Z) := fun s =>
  match
    match read_ipv4_addr s with
    | Some ((a, b, c, d), r) =>
        match read_port r with Some (p, r) => Some ((IPv4 a b c d, p), r) | None => None end
    | None => None
    end
  with
  | Some x => Some x
  | None =>
      match read_given_char "["%char s with
      | Some (_, r) =>
          match read_ipv6_addr r with
          | Some (l, r) =>
              match read_scope_id r with
              | Some (_, r) =>
                  match read_given_char "]"%char r with
                  | Some (_, r) =>
                      match read_port r with Some (p, r) => Some ((IPv6 l, p), r) | None => None end
                  | None => None
                  end
              | None => None
              end
          | None => None
          end
      | None => None
      end
  end.

Definition parse_socket_addr (s : string) : option (IpAddr * Z) :=
  match read_socket_addr s with Some (x, EmptyString) => Some x | _ => None end.

(** [format!("{}:{}", host, port)] *)
Definition host_port (host : string) (port : Z) : string := (host ++ ":" ++ print_dec port)%string.

(** ** Round trip of integers *)

Lemma to_digit_digit_char d : 0 <= d < 10 -> to_digit 10 (digit_char d) = Some d.
Proof.
  intros H. assert (Hall : forallb (fun d => bool_decide (to_digit 10 (digit_char d) = Some d))
    (Z.of_nat <$> seq 0 10) = true) by by vm_compute.
  rewrite forallb_forall in Hall. apply (bool_decide_eq_true_1 _). apply Hall.
  apply list_elem_of_In, list_elem_of_fmap. exists (Z.to_nat d). rewrite elem_of_seq. lia.
Qed.

(** Reading what was printed continues with the text that follows; one unit of
    fuel per digit is enough. *)
Lemma parse_print_digits limit fuel n tail :
  0 <= n < 10 ^ Z.of_nat fuel -> n <= limit -> (0 < fuel)%nat ->
  parse_digits limit (print_digits fuel 10 n tail) 0 = parse_digits limit tail n.
Proof.
  revert n tail. induction fuel as [|fuel IH]; intros n tail Hn Hl Hf; [lia|].
  cbn [print_digits]. rewrite Nat2Z.inj_succ, Z.pow_succ_r in Hn by lia.
  pose proof (Z.div_mod n 10 ltac:(lia)) as Hdm.
  pose proof (Z.mod_pos_bound n 10 ltac:(lia)) as Hm.
  assert (Hd := to_digit_digit_char (n mod 10) Hm).
  destruct (Z.ltb_spec n 10) as [Hlt|Hge].
  - cbn [parse_digits]. rewrite Hd, Z.mod_small by lia.
    destruct (Z.leb_spec (0 * 10 + n) limit); [f_equal; lia|lia].
  - assert (0 < fuel)%nat by (destruct fuel; [simpl in Hn; lia|lia]).
    rewrite IH; [|split; [apply Z.div_pos; lia|apply Z.div_lt_upper_bound; lia]|lia|done].
    cbn [parse_digits]. rewrite Hd. replace (n / 10 * 10 + n mod 10) with n by lia.
    by destruct (Z.leb_spec n limit); [|lia].
Qed.

Lemma print_digits_cons fuel radix n tail :
  (0 < fuel)%nat -> 0 < radix ->
  exists d s, 0 <= d < radix /\ print_digits fuel radix n tail = String (digit_char d) s.
Proof.
  revert n tail. induction fuel as [|fuel IH]; intros n tail Hf Hr; [lia|]. cbn [print_digits].
  destruct (n <? radix).
  - exists (n mod radix), tail. split; [by apply Z.mod_pos_bound|done].
  - destruct fuel as [|fuel].
    + exists (n mod radix), tail. split; [by apply Z.mod_pos_bound|done].
    + apply IH; lia.
Qed.

(** The first character of a decimal numeral is a digit, so not a sign. *)
Lemma print_dec_cons n :
  exists a s, print_dec n = String a s /\ a <> "+"%char /\ a <> "-"%char.
Proof.
  destruct (print_digits_cons 20 10 n "" ltac:(lia) ltac:(lia)) as (d & s & Hd & Heq).
  exists (digit_char d), s. split; [exact Heq|].
  pose proof (to_digit_digit_char d Hd) as Ht. by split; intros E; rewrite E in Ht.
Qed.

Lemma parse_number_print_dec limit n :
  0 <= n <= limit -> limit < 10 ^ 20 -> parse_number limit (print_dec n) = Some n.
Proof.
  intros Hn Hl. destruct (print_dec_cons n) as (a & s & Heq & _). unfold parse_number.
  rewrite Heq, <- Heq. unfold print_dec. by rewrite parse_print_digits by (simpl; lia).
Qed.

(** Printing a [usize] or an [i64] and parsing it gives the number back: the fuel
    of the printer is enough at 64 bits. *)
Theorem parse_usize_print_dec n : 0 <= n <= u64_max -> parse_usize (print_dec n) = Some n.
Proof.
  intros Hn. destruct (print_dec_cons n) as (a & s & Heq & Hp & _). unfold parse_usize.
  rewrite Heq, decide_False, <- Heq by done. by apply parse_number_print_dec.
Qed.

Theorem parse_i64_print_i64 n : - 2 ^ 63 <= n < 2 ^ 63 -> parse_i64 (print_i64 n) = Some n.
Proof.
  intros Hn. unfold print_i64, parse_i64. destruct (Z.ltb_spec n 0).
  - rewrite decide_False, decide_True by done.
    rewrite parse_number_print_dec by lia. simpl. f_equal. lia.
  - destruct (print_dec_cons n) as (a & s & Heq & Hp & Hm).
    rewrite Heq, !decide_False, <- Heq by done. apply parse_number_print_dec; lia.
Qed.

(** ** Round trip of IPv4 addresses *)

Definition octets : list Z := Z.of_nat <$> seq 0 256.

Lemma octets_spec x : is_octet x <-> x ∈ octets.
Proof.
  unfold octets, is_octet. rewrite list_elem_of_fmap. split.
  - intros H. exists (Z.to_nat x). rewrite elem_of_seq. lia.
  - intros (n & -> & Hn). apply elem_of_seq in Hn. lia.
Qed.

(** Reading an octet back, whatever follows that is not a digit. *)
Definition ends_number (s : string) : Prop :=
  match s with EmptyString => True | String a _ => to_digit 10 a = None end.

Definition octet_digits (x : Z) : bool :=
  match print_dec x with
  | String a EmptyString => bool_decide (to_digit 10 a = Some x)
  | String a (String b EmptyString) =>
      match to_digit 10 a, to_digit 10 b with
      | Some u, Some v => bool_decide (a <> "0"%char) && bool_decide (u * 10 + v = x)
      | _, _ => false
      end
  | String a (String b (String c EmptyString)) =>
      match to_digit 10 a, to_digit 10 b, to_digit 10 c with
      | Some u, Some v, Some w => bool_decide (a <> "0"%char) && bool_decide ((u * 10 + v) * 10 + w = x)
      | _, _, _ => false
      end
  | _ => false
  end.

Lemma octet_digits_ok x : is_octet x -> octet_digits x = true.
Proof.
  intros H%octets_spec.
  assert (Hall : forallb octet_digits octets = true) by (vm_compute; reflexivity).
  rewrite forallb_forall in Hall. apply Hall. by apply list_elem_of_In.
Qed.

Lemma to_digit_bounds radix a d : to_digit radix a = Some d -> 0 <= d < radix.
Proof.
  unfold to_digit, digit_value. set (n := Z.of_nat _).
  destruct (Z.leb_spec 48 n), (Z.leb_spec n 57), (Z.leb_spec 97 n), (Z.leb_spec n 102),
    (Z.leb_spec 65 n), (Z.leb_spec n 70); simpl; try done;
    destruct (Z.ltb_spec (n - 48) radix), (Z.ltb_spec (n - 87) radix), (Z.ltb_spec (n - 55) radix);
    intros; simplify_eq; lia.
Qed.

Lemma read_digits_end radix limit max s acc count :
  ends_number s -> radix = 10 -> read_digits radix limit max s acc count = Some (acc, count, s).
Proof. intros H ->. destruct s as [|a r]; simpl in *; [done|]. by rewrite H. Qed.

Lemma read_digits_step limit max a d r acc count :
  to_digit 10 a = Some d -> acc * 10 + d <= limit -> (count < max)%nat ->
  read_digits 10 limit max (String a r) acc count =
    read_digits 10 limit max r (acc * 10 + d) (S count).
Proof.
  intros Ha Hl Hc. cbn [read_digits]. rewrite Ha.
  destruct (Z.ltb_spec limit (acc * 10 + d)); [lia|].
  destruct (Nat.leb_spec max count); [lia|done].
Qed.

Lemma string_cons_app a (x y : string) : (String a x ++ y = String a (x ++ y))%string.
Proof. done. Qed.

Lemma string_nil_app (y : string) : ("" ++ y = y)%string.
Proof. done. Qed.

Lemma string_app_nil (x : string) : (x ++ "" = x)%string.
Proof. induction x as [|a x IH]; [done|]. by rewrite string_cons_app, IH. Qed.

Lemma string_app_assoc (x y z : string) : ((x ++ y) ++ z = x ++ (y ++ z))%string.
Proof. induction x as [|a x IH]; [done|]. by rewrite !string_cons_app, IH. Qed.

Lemma read_number_octet x rest :
  is_octet x -> ends_number rest ->
  read_number 10 255 3 false (print_dec x ++ rest)%string = Some (x, rest).
Proof.
  intros Hx Hr. pose proof (octet_digits_ok x Hx) as Hd. unfold octet_digits in Hd.
  destruct (print_dec x) as [|a [|b [|c [|e t]]]]; try done; unfold read_number;
    rewrite ?string_cons_app, string_nil_app.
  - apply bool_decide_eq_true in Hd. unfold is_octet in Hx.
    rewrite (read_digits_step _ _ _ _ _ _ _ Hd), read_digits_end by (done || lia).
    cbn [Nat.eqb negb andb]. rewrite andb_false_r. done.
  - destruct (to_digit 10 a) as [u|] eqn:Ha, (to_digit 10 b) as [v|] eqn:Hb; try done.
    apply andb_true_iff in Hd as [H0 Hv]. apply bool_decide_eq_true in H0, Hv.
    apply to_digit_bounds in Ha as Ba, Hb as Bb. unfold is_octet in Hx.
    rewrite (read_digits_step _ _ _ _ _ _ _ Ha), (read_digits_step _ _ _ _ _ _ _ Hb),
      read_digits_end by (done || lia).
    simpl. rewrite decide_False by congruence. simpl. by subst.
  - destruct (to_digit 10 a) as [u|] eqn:Ha, (to_digit 10 b) as [v|] eqn:Hb,
      (to_digit 10 c) as [w|] eqn:Hc; try done.
    apply andb_true_iff in Hd as [H0 Hv]. apply bool_decide_eq_true in H0, Hv.
    apply to_digit_bounds in Ha as Ba, Hb as Bb, Hc as Bc. unfold is_octet in Hx.
    rewrite (read_digits_step _ _ _ _ _ _ _ Ha), (read_digits_step _ _ _ _ _ _ _ Hb),
      (read_digits_step _ _ _ _ _ _ _ Hc), read_digits_end by (done || lia).
    simpl. rewrite decide_False by congruence. simpl. by subst.
Qed.

Lemma read_separator_dot x i rest :
  is_octet x -> ends_number rest ->
  read_separator dot (S i) (read_number 10 255 3 false) (String dot (print_dec x ++ rest)) =
    Some (x, rest).
Proof.
  intros Hx Hr. cbn [read_separator read_given_char]. rewrite decide_True by done.
  by apply read_number_octet.
Qed.

Lemma read_ipv4_show a b c d rest :
  is_octet a -> is_octet b -> is_octet c -> is_octet d -> ends_number rest ->
  read_ipv4_addr (show_v4 a b c d ++ rest)%string = Some ((a, b, c, d), rest).
Proof.
  intros Ha Hb Hc Hd Hr. unfold read_ipv4_addr, show_v4. rewrite !string_app_assoc.
  change (read_separator dot 0 ?r ?s) with (r s). cbn beta.
  rewrite read_number_octet by done.
  fold dot. rewrite !string_cons_app, !string_nil_app. cbn zeta beta iota.
  repeat (rewrite read_separator_dot by done; cbn beta iota). done.
Qed.

(** Printing an IPv4 address and parsing it gives the address back. *)
Lemma parse_show_v4 a b c d :
  is_octet a -> is_octet b -> is_octet c -> is_octet d ->
  parse_ip (show_ip (IPv4 a b c d)) = Some (IPv4 a b c d).
Proof.
  intros Ha Hb Hc Hd. unfold parse_ip. simpl show_ip.
  pose proof (read_ipv4_show a b c d "" Ha Hb Hc Hd I) as H.
  rewrite string_app_nil in H. by rewrite H.
Qed.

(** Reading a printed number back with a limit, as [read_number] does; the text is
    then used up. *)
Lemma read_digits_all limit max s acc count n :
  parse_digits limit s acc = Some n -> (count + String.length s <= max)%nat ->
  read_digits 10 limit max s acc count = Some (n, (count + String.length s)%nat, ""%string).
Proof.
  revert acc count. induction s as [|a s IH]; intros acc count H Hc; cbn in *.
  { simplify_eq. by rewrite Nat.add_0_r. }
  destruct (to_digit 10 a) as [d|]; [|done].
  destruct (Z.leb_spec (acc * 10 + d) limit); [|done].
  destruct (Z.ltb_spec limit (acc * 10 + d)); [lia|]. destruct (Nat.leb_spec max count); [lia|].
  rewrite IH by (done || lia). do 2 f_equal. f_equal. lia.
Qed.

Lemma read_port_print p :
  0 <= p <= 65535 -> read_port (String colon (print_dec p)) = Some (p, ""%string).
Proof.
  intros Hp. unfold read_port. cbn [read_given_char]. rewrite decide_True by done.
  destruct (print_dec_cons p) as (a & s & Heq & _). unfold read_number.
  rewrite (read_digits_all _ _ _ _ _ p); [by rewrite Heq| |lia].
  unfold print_dec. rewrite parse_print_digits by (simpl; lia). done.
Qed.

(** An address that [host_port] composes of an IPv4 address and a port is read
    back as that address and that port. *)
Lemma parse_host_port_v4 a b c d p :
  is_octet a -> is_octet b -> is_octet c -> is_octet d -> 0 <= p <= 65535 ->
  parse_socket_addr (host_port (show_ip (IPv4 a b c d)) p) = Some (IPv4 a b c d, p).
Proof.
  intros Ha Hb Hc Hd Hp. unfold parse_socket_addr, read_socket_addr, host_port. cbn [show_ip].
  change (":" ++ print_dec p)%string with (String colon (print_dec p)).
  by rewrite read_ipv4_show, read_port_print.
Qed.

(** An IPv6 host without brackets does not compose to an address, nor does a name. *)
Example host_port_examples :
  parse_socket_addr (host_port "127.0.0.1" 9090) = Some (IPv4 127 0 0 1, 9090) /\
  parse_socket_addr (host_port "[::1]" 8081) = Some (IPv6 [0; 0; 0; 0; 0; 0; 0; 1], 8081) /\
  parse_socket_addr (host_port "::1" 8081) = None /\
  parse_socket_addr (host_port "localhost" 8081) = None /\
  parse_socket_addr "127.0.0.1:65536" = None /\ parse_socket_addr "127.0.0.1" = None.
Proof. by vm_compute. Qed.

(** The forms the tests of the repository use, and IPv6. *)
Example parse_ip_examples :
  parse_ip "129.1.1.1" = Some (IPv4 129 1 1 1) /\
  parse_ip "400.0.0.1" = None /\ parse_ip "120.0.0.1.0" = None /\ parse_ip "01.2.3.4" = None /\
  parse_ip "::1" = Some (IPv6 [0; 0; 0; 0; 0; 0; 0; 1]) /\
  parse_ip "2001:db8::8a2e:370:7334" =
    Some (IPv6 [8193; 3512; 0; 0; 0; 35374; 880; 29492]) /\
  parse_ip "::ffff:1.2.3.4" = Some (IPv6 [0; 0; 0; 0; 0; 65535; 258; 772]) /\
  show_ip (IPv6 [8193; 3512; 0; 0; 0; 35374; 880; 29492]) = "2001:db8::8a2e:370:7334"%string /\
  show_ip (IPv6 [0; 0; 0; 0; 0; 65535; 258; 772]) = "::ffff:1.2.3.4"%string /\
  show_ip (IPv6 [0; 0; 0; 0; 0; 0; 0; 0]) = "::"%string.
Proof. by vm_compute. Qed.
