(* ===== verification/ProxyTests.v ===== *)
(** * The proxy's unit tests, run on the model

    The tests in crates/rollup-boost/src/proxy.rs as executable scenarios: mock
    nodes that log what they receive, the proxy between them and a client.  A
    request body is written as its method and its parameters with a space between
    them, an error response as [error] and its code; the tests' JSON stands for
    the same data. *)
From S2P Require Import Prelude Async Payload Probe Net Proxy.

Local Open Scope Z_scope.
Local Open Scope prog_scope.

Module ProxyTests.

(** ** Bodies *)

Definition space : ascii := " "%char.
Definition rpc_body (method params : string) : string := (method ++ String space params)%string.

Definition request_method (body : string) : result string string :=
  match splitn2 space body with [method; _] => Ok method | _ => Err "invalid request"%string end.
Definition request_params (body : string) : string :=
  match splitn2 space body with [_; params] => params | _ => ""%string end.

Definition error_body (code : Z) : string := ("error " ++ print_i64 code)%string.
Definition response_error (body : string) : result (option Z) string :=
  Ok (if starts_with "error " body then parse_i64 (request_params body) else None).

Definition is_retriable_code (code : Z) : bool := (code <? -32700) || (-32600 <? code).

(** ** Mock nodes *)

(** [MockHttpServer::handle_request]: the response to a method. *)
Definition handle_request (method : string) : string :=
  if bool_decide (method ∈ ["eth_sendRawTransaction"; "eth_sendRawTransactionConditional"])
  then "0x0101010101010101010101010101010101010101010101010101010101010101"
  else if bool_decide (method ∈ ["miner_setMaxDASize"; "miner_setGasLimit"; "miner_setGasPrice";
                                 "miner_setExtra"]) then "true"
  else if String.eqb method "mock_forwardedMethod" then "forwarded response"
  else error_body (-32601).

(** [spawn_server] of the tests: a node with one method. *)
Definition spawn_server (method : string) : string :=
  if String.eqb method "greet_melkor" then "You are the dark lord" else error_body (-32601).

(** The RPC module behind the proxy in [spawn_proxy_server_with_l2]. *)
Definition proxy_module (method : string) : string :=
  if String.eqb method "engine_method" then "engine response"
  else if String.eqb method "eth_sendRawTransaction" then "raw transaction response"
  else if String.eqb method "non_existent_method" then "no proxy response"
  else error_body (-32601).

Definition answer (node : string -> string) (body : string) : result (HttpResponse (RespParts := unit)) string :=
  Ok {| resp_parts := tt;
        resp_body := match request_method body with Ok m => node m | Err _ => error_body (-32700) end |}.

Abbreviation PReply := (ProxyReply (ReqParts := unit) (RespParts := unit) (BoxError := string)).
Abbreviation PObs := (ProxyObs (ReqParts := unit) (JwtSecret := Z)).

(** A network: each node answers, or its address refuses connections. *)
Definition network (l2 : option (string -> string)) : env PReply PObs unit :=
  {| respond := fun _ c =>
       match c as c return PReply c with
       | Send L2 r => match l2 with Some node => answer node (req_body r) | None => Err "connection refused"%string end
       | Send Builder r => answer handle_request (req_body r)
       | Inner r => match collect r with Ok b => answer proxy_module b | Err e => Err e end
       | Now => 0
       end;
     interfere := fun _ s => s |}.

(** ** The harness *)

Definition client (t : PayloadSource) : HttpClient (JwtSecret := Z) :=
  {| secret := 1; client_url := "http://node"; target := t |}.
Definition service : ProxyService (JwtSecret := Z) :=
  {| l2_http := client L2; builder_http := client Builder |}.
Definition encode (s now : Z) : string := "token".

(** The client's view of an answer: a result, an error object with its code, or a
    failed transport. *)
Inductive ClientResult : Set := Success (r : string) | CallError (code : Z) | TransportFailure.

Definition client_result (o : outcome (result (HttpResponse (RespParts := unit)) string)) : ClientResult :=
  match o with
  | Returned (Ok r) =>
      match response_error (resp_body r) with Ok (Some code) => CallError code | _ => Success (resp_body r) end
  | _ => TransportFailure
  end.

(** What the nodes have logged. *)
Record Logs : Set := { l2_requests : list string; builder_requests : list string }.

Definition bodies (src : PayloadSource) (t : list (event PReply PObs unit)) : list string :=
  omap (fun x => if decide (x.1 = src) then Some (req_body (ReqParts := unit) x.2) else None)
    (sends (RespParts := unit) (BoxError := string) (JwtSecret := Z) t).

(** A request through the proxy, with its background tasks run to their end. *)
Definition rpc_request (l2 : option (string -> string)) (method params : string) (logs : Logs)
  : ClientResult * Logs :=
  let req := {| r_parts := tt; r_uri := "/"; r_authorization := None; collect := Ok (rpc_body method params) |} in
  let '(o, _, t) := run (network l2)
    (proxy_call encode request_method response_error service req) tt in
  let background := omap (fun v => match v with EvEmit (SpawnForward c r m) => Some (SpawnForward c r m) | _ => None end) t in
  let tb := concat (map (fun task =>
    run_trace (network l2) (spawned_forward encode response_error task) tt) background) in
  (client_result o,
   {| l2_requests := l2_requests logs ++
        (match l2 with Some _ => bodies L2 t | None => [] end);
      builder_requests := builder_requests logs ++ bodies Builder tb |}).

Definition no_logs : Logs := {| l2_requests := []; builder_requests := [] |}.

Definition succeeds (r : ClientResult) : bool := match r with Success _ => true | _ => false end.

(** ** The tests *)

Definition send_request (method : string) : ClientResult :=
  (rpc_request (Some spawn_server) method "[]" no_logs).1.

Definition proxy_success : bool :=
  match send_request "greet_melkor" with Success r => String.eqb r "You are the dark lord" | _ => false end.

Definition proxy_failure : bool :=
  match send_request "non_existent_method" with CallError code => code =? -32601 | _ => false end.

Definition does_not_proxy_engine_method : bool :=
  match send_request "engine_method" with Success r => String.eqb r "engine response" | _ => false end.

Definition health_check : bool :=
  let get := {| r_parts := tt; r_uri := "/healthz"; r_authorization := None; collect := Ok ""%string |} in
  match run_outcome (network (Some spawn_server))
          (http_middleware encode request_method response_error Probes_default service "/healthz" get) tt with
  | Returned (inl r) => status r =? 200
  | _ => false
  end.

Definition test_proxy_service : bool :=
  proxy_success && proxy_failure && does_not_proxy_engine_method && health_check.

(** Builder and L2 node both received the request, once. *)
Definition forwarded_to_both (method params : string) : bool :=
  let (res, logs) := rpc_request (Some handle_request) method params no_logs in
  let expected := [rpc_body method params] in
  succeeds res && bool_decide (builder_requests logs = expected) && bool_decide (l2_requests logs = expected).

Definition test_forward_set_max_da_size : bool :=
  forwarded_to_both "miner_setMaxDASize" "['0xffffffffffffffff','0xffffffffffffffff']".
Definition test_forward_eth_send_raw_transaction : bool :=
  forwarded_to_both "eth_sendRawTransaction" "['0x1234']".
Definition test_forward_eth_send_raw_transaction_conditional : bool :=
  forwarded_to_both "eth_sendRawTransactionConditional" "['0x1234',{'knownAccounts':{}}]".
Definition test_forward_miner_set_extra : bool := forwarded_to_both "miner_setExtra" "['0x']".
Definition test_forward_miner_set_gas_price : bool := forwarded_to_both "miner_setGasPrice" "['0x0']".
Definition test_forward_miner_set_gas_limit : bool := forwarded_to_both "miner_setGasLimit" "['0x0']".

Definition test_direct_forward_mock_request : bool :=
  let (res, logs) := rpc_request (Some handle_request) "mock_forwardedMethod" "['0x0']" no_logs in
  succeeds res && bool_decide (builder_requests logs = []) &&
  bool_decide (l2_requests logs = [rpc_body "mock_forwardedMethod" "['0x0']"]).

Definition mock_request (l2 : option (string -> string)) := rpc_request l2 "mock_forwardedMethod" "['0x2a']".

Definition test_l2_server_recovery : bool :=
  let (down, logs) := mock_request None no_logs in
  let (up, logs) := mock_request (Some handle_request) logs in
  let (again1, logs) := mock_request (Some handle_request) logs in
  let (again2, logs) := mock_request (Some handle_request) logs in
  let (again3, logs) := mock_request (Some handle_request) logs in
  negb (succeeds down) && succeeds up && forallb succeeds [again1; again2; again3] &&
  (1 <=? length (l2_requests logs))%nat &&
  match l2_requests logs with
  | r :: _ => bool_decide (request_method r = Ok "mock_forwardedMethod"%string)
  | [] => false
  end.

Definition test_success_then_failure_then_success : bool :=
  let (first, logs) := mock_request (Some handle_request) no_logs in
  let (down, logs) := mock_request None logs in
  let (restarted, logs) := mock_request (Some handle_request) logs in
  succeeds first &&
  match down with
  | Success _ => false
  | CallError code => is_retriable_code code
  | TransportFailure => true
  end && succeeds restarted.

(** The model passes the tests of proxy.rs. *)
Example proxy_tests_pass :
  forallb id
    [test_proxy_service; test_forward_set_max_da_size; test_forward_eth_send_raw_transaction;
     test_forward_eth_send_raw_transaction_conditional; test_forward_miner_set_extra;
     test_forward_miner_set_gas_price; test_forward_miner_set_gas_limit;
     test_direct_forward_mock_request; test_l2_server_recovery;
     test_success_then_failure_then_success] = true.
Proof. by vm_compute. Qed.

End ProxyTests.
