(* ===== verification/Launch.v ===== *)
(** * Starting the service

    The construction of the running service from the command line arguments:
    [new_from_args] of crates/rollup-boost/src/server.rs for both kinds of builder
    client, [Flashblocks::run] of flashblocks/launcher.rs, [new_http_client] of
    client/rpc.rs, and [RollupBoostServiceArgs::run] of cli.rs up to the point where
    the server serves.  The theorem closes the gap between the construction and
    the theorems about the server, which assume that the L2 client talks to the L2
    node and that the builder client keeps its contract. *)
From S2P Require Import Prelude Async Payload PayloadTrace RpcClient F64 Selection Probe.
From S2P Require Import DebugApi FlashblockBuilder FlashblocksService Server ServerProps.
From S2P Require Import HealthCheck FlashblocksWs Proxy Net.

Local Open Scope Z_scope.

(** ** Log levels and formats *)

(** [tracing::Level] *)
Inductive Level : Set := ERROR | WARN | INFO | DEBUG | TRACE.

Inductive LogFormat : Set := Json | Text.

Definition LogFormat_from_str (s : string) : result LogFormat string :=
  let s := to_lowercase s in
  if String.eqb s "json" then Ok Json
  else if String.eqb s "text" then Ok Text
  else Err "Invalid log format".

Section Launch.
Context {ET : EngineTypes} (payload_id_optimism : B256 -> OpPayloadAttributes -> Z -> PayloadId).
(** The loader of secret files, jsonrpsee's HTTP transport, and the operating
    system's answer to binding an address. *)
Context {JwtSecret : Set} (JwtSecret_from_file : string -> result JwtSecret JwtError)
  (transport_build : string -> JwtSecret -> Z -> result unit JsonrpseeError)
  (bind_addr : IpAddr * Z -> result unit IoError).

Abbreviation rpc_client := (new_rpc_client JwtSecret_from_file transport_build).

(** ** Arguments *)

Record RollupBoostLibArgs : Set := {
  builder_args : PrefixedArgs (JwtSecret := JwtSecret);
  l2_args : PrefixedArgs (JwtSecret := JwtSecret);
  arg_execution_mode : ExecutionMode;
  arg_block_selection_policy : option BlockSelectionPolicy;
  arg_external_state_root : bool;
  arg_ignore_unhealthy_builders : bool;
  flashblocks_args : Config.FlashblocksArgs;
  arg_health_check_interval : Z;
  arg_max_unsafe_interval : Z
}.

Record RollupBoostServiceArgs : Set := {
  lib : RollupBoostLibArgs;
  rpc_host : string;
  rpc_port : Z;
  arg_tracing : bool;
  arg_metrics : bool;
  metrics_host : string;
  metrics_port : Z;
  otlp_endpoint : string;
  log_level : Level;
  log_format : LogFormat;
  log_file : option string;
  debug_host : string;
  debug_server_port : Z
}.

(** The values of the arguments that have a default, when the command line gives
    only those of the library. *)
Definition ServiceArgs_default (l : RollupBoostLibArgs) : RollupBoostServiceArgs :=
  {| lib := l; rpc_host := "127.0.0.1"; rpc_port := 8081; arg_tracing := false;
     arg_metrics := false; metrics_host := "127.0.0.1"; metrics_port := 9090;
     otlp_endpoint := "http://localhost:4317"; log_level := INFO; log_format := Text;
     log_file := None; debug_host := "127.0.0.1"; debug_server_port := 5555 |}.

(** [ClientArgs::new_http_client] *)
Definition new_http_client (self : ClientArgs) (source : PayloadSource)
  : result (HttpClient (JwtSecret := JwtSecret)) Report :=
  match get_auth_jwt JwtSecret_from_file self with
  | Err e => Err e
  | Ok secret => Ok {| secret := secret; client_url := url self; target := source |}
  end.

(** ** The flashblocks launcher *)

(** The background tasks of a started service. *)
Inductive launched : Set :=
| LaunchReceiver (url : string) (config : Config.FlashblocksWebsocketConfig)
| LaunchFlashblocksService
| LaunchHealthCheck (h : Checker.HealthHandle).

(** [Flashblocks::run]: the receiver is started before the publisher binds its
    address, and keeps running when that fails. *)
Definition Flashblocks_run (builder_url : RpcClient) (flashblocks_url : string)
    (outbound_addr : IpAddr * Z) (websocket_config : Config.FlashblocksWebsocketConfig)
  : list launched * result (RpcClient * Outbound.Publisher * FlashblocksService) Report :=
  match FlashblocksService_new (Outbound.WebSocketPublisher_new (bind_addr outbound_addr)) with
  | Err e => ([LaunchReceiver flashblocks_url websocket_config], Err (Report_io e))
  | Ok (ws_pub, service) =>
      ([LaunchReceiver flashblocks_url websocket_config; LaunchFlashblocksService],
       Ok (builder_url, ws_pub, service))
  end.

(** ** The two constructors *)

(** A server with the RPC client of its builder; [T] is what the builder client
    keeps besides. *)
Record Started (T : Type) : Type := {
  st_server : RollupBoostServer;
  st_builder : RpcClient;
  st_shared : Shared (T := T);
  st_gauge : option f64
}.
Arguments st_server {T}.
Arguments st_builder {T}.
Arguments st_shared {T}.
Arguments st_gauge {T}.

Definition server_from_args {T} (args : RollupBoostLibArgs) (p : Probes) (gauge : option f64)
    (l2 builder : RpcClient) (b : T) : Started T :=
  let '(self, shared, gauge) :=
    RollupBoostServer_new l2 b (arg_execution_mode args) (arg_block_selection_policy args) p
      (arg_external_state_root args) (arg_ignore_unhealthy_builders args) gauge in
  {| st_server := self; st_builder := builder; st_shared := shared; st_gauge := gauge |}.

(** [RollupBoostServer::<RpcClient>::new_from_args] *)
Definition rpc_new_from_args (args : RollupBoostLibArgs) (p : Probes) (gauge : option f64)
  : result (Started unit) Report :=
  if Config.flashblocks_enabled (flashblocks_args args) then
    Err (Report_msg "RpcClient requires flashblocks to be disabled, first check rollup_boost_args.flashblocks.flashblocks == false before calling this constructor")
  else
    let l2_client_args := ClientArgs_from (l2_args args) in
    let builder_client_args := ClientArgs_from (builder_args args) in
    match rpc_client l2_client_args L2 with
    | Err e => Err e
    | Ok l2_client =>
        match rpc_client builder_client_args Builder with
        | Err e => Err e
        | Ok builder_client => Ok (server_from_args args p gauge l2_client builder_client tt)
        end
    end.

(** [RollupBoostServer::<FlashblocksService>::new_from_args], with the tasks it has
    started. *)
Definition fb_new_from_args (args : RollupBoostLibArgs) (p : Probes) (gauge : option f64)
  : list launched * result (Started FlashblocksService) Report :=
  if negb (Config.flashblocks_enabled (flashblocks_args args)) then
    ([], Err (Report_msg "FlashblocksService requires flashblocks to be enabled, first check rollup_boost_args.flashblocks.flashblocks == true before calling this constructor"))
  else
    let l2_client_args := ClientArgs_from (l2_args args) in
    let builder_client_args := ClientArgs_from (builder_args args) in
    match rpc_client l2_client_args L2 with
    | Err e => ([], Err e)
    | Ok l2_client =>
        match rpc_client builder_client_args Builder with
        | Err e => ([], Err e)
        | Ok builder_client =>
            let fb := flashblocks_args args in
            match parse_ip (Config.flashblocks_host fb) with
            | None => ([], Err Report_addr_parse)
            | Some host =>
                let '(tasks, r) :=
                  Flashblocks_run builder_client (Config.flashblocks_builder_url fb)
                    (host, Config.flashblocks_port fb) (Config.flashblocks_ws_config fb) in
                match r with
                | Err e => (tasks, Err e)
                | Ok (client, _, service) =>
                    (tasks, Ok (server_from_args args p gauge l2_client client service))
                end
            end
        end
    end.

(** ** Running the service *)

(** What [RollupBoostServiceArgs::run] serves: the server over either kind of
    builder client, and the proxy in front of it. *)
Inductive AnyServer : Type :=
| OverRpc (s : Started unit)
| OverFlashblocks (s : Started FlashblocksService).

Record Service : Type := {
  sv_server : AnyServer;
  sv_proxy : ProxyService (JwtSecret := JwtSecret);
  sv_tasks : list launched;
  sv_debug : DebugServer
}.

(** The tail that both branches share: health check, debug server. *)
Definition serve {T} (args : RollupBoostLibArgs) (debug_bound : result unit IoError) (s : Started T)
  : list launched * result DebugServer Report :=
  let h := Checker.health_handle (st_server s) (arg_health_check_interval args)
             (arg_max_unsafe_interval args) in
  match DebugServer_run debug_bound
    {| execution_mode_cell := execution_mode (st_shared s); execution_mode_gauge := st_gauge s |} with
  | (Err e, _) => ([LaunchHealthCheck h], Err (Report_io e))
  | (Ok _, d) => ([LaunchHealthCheck h], Ok d)
  end.

(** [RollupBoostServiceArgs::run] up to the start of the RPC server (the metrics
    server and the crypto provider apart). *)
Definition service_args_run (args : RollupBoostLibArgs) (gauge : option f64)
    (debug_bound : result unit IoError) : result Service Report :=
  match new_http_client (ClientArgs_from (l2_args args)) L2 with
  | Err e => Err e
  | Ok l2_http =>
  match new_http_client (ClientArgs_from (builder_args args)) Builder with
  | Err e => Err e
  | Ok builder_http =>
      let probes := Probes_default in
      let proxy := {| l2_http := l2_http; builder_http := builder_http |} in
      if Config.flashblocks_enabled (flashblocks_args args) then
        match fb_new_from_args args probes gauge with
        | (_, Err e) => Err e
        | (tasks, Ok s) =>
            match serve args debug_bound s with
            | (_, Err e) => Err e
            | (more, Ok d) =>
                Ok {| sv_server := OverFlashblocks s; sv_proxy := proxy; sv_tasks := tasks ++ more;
                      sv_debug := d |}
            end
        end
      else
        match rpc_new_from_args args probes gauge with
        | Err e => Err e
        | Ok s =>
            match serve args debug_bound s with
            | (_, Err e) => Err e
            | (more, Ok d) =>
                Ok {| sv_server := OverRpc s; sv_proxy := proxy; sv_tasks := more; sv_debug := d |}
            end
        end
  end end.

(** ** The assumptions of the server's theorems hold *)

(** What the theorems about the server and the health checker assume of a server
    whose builder client has the methods [EA], and what it starts from. *)
Record well_wired {T} (EA : EngineApiExt T) (args : RollupBoostLibArgs) (s : Started T) : Prop := {
  ww_l2 : payload_source (l2_client (st_server s)) = L2;
  ww_builder : @BuilderClient _ T EA;
  ww_mode : execution_mode (st_shared s) = arg_execution_mode args;
  ww_health : health (probes (st_shared s)) = Healthy;
  ww_fcu : payload_to_fcu_request (st_shared s) = ∅;
  ww_flags : external_state_root (st_server s) = arg_external_state_root args /\
    ignore_unhealthy_builders (st_server s) = arg_ignore_unhealthy_builders args /\
    block_selection_policy (st_server s) = arg_block_selection_policy args
}.

Lemma rpc_client_source a source c : rpc_client a source = Ok c -> payload_source c = source.
Proof.
  unfold new_rpc_client, RpcClient_new. destruct (get_auth_jwt _ a); [|done].
  destruct (transport_build _ _ _); [|done]. by intros [= <-].
Qed.

Lemma http_client_target a source c : new_http_client a source = Ok c -> target c = source.
Proof. unfold new_http_client. destruct (get_auth_jwt _ a); [|done]. by intros [= <-]. Qed.

Lemma rpc_new_from_args_wired args gauge s :
  rpc_new_from_args args Probes_default gauge = Ok s ->
  well_wired (RpcClient_EngineApiExt (st_builder s)) args s.
Proof.
  unfold rpc_new_from_args. destruct (Config.flashblocks_enabled _); [done|].
  destruct (rpc_client _ L2) as [l2|] eqn:Hl2; [|done].
  destruct (rpc_client _ Builder) as [b|] eqn:Hb; [|done]. intros [= <-].
  split; try done; [by eapply rpc_client_source|].
  apply RpcClient_BuilderClient. by eapply rpc_client_source.
Qed.

Lemma fb_new_from_args_wired args gauge tasks s :
  fb_new_from_args args Probes_default gauge = (tasks, Ok s) ->
  well_wired (FlashblocksService_EngineApiExt payload_id_optimism (st_builder s)) args s /\
  builder_client (st_shared s) = FlashblocksService_initial /\ LaunchFlashblocksService ∈ tasks /\
  LaunchReceiver (Config.flashblocks_builder_url (flashblocks_args args))
    (Config.flashblocks_ws_config (flashblocks_args args)) ∈ tasks.
Proof.
  unfold fb_new_from_args. destruct (Config.flashblocks_enabled _); [|done]. cbn [negb].
  destruct (rpc_client _ L2) as [l2|] eqn:Hl2; [|done].
  destruct (rpc_client _ Builder) as [b|] eqn:Hb; [|done].
  destruct (parse_ip _) as [host|]; [|done].
  unfold Flashblocks_run. destruct (bind_addr _) as [[]|e]; [|done]. intros [= <- <-].
  split; [|set_solver].
  split; try done; [by eapply rpc_client_source|].
  apply FlashblocksService_BuilderClient. by eapply rpc_client_source.
Qed.

Lemma serve_ok {T} args bound (s : Started T) more d :
  serve args bound s = (more, Ok d) ->
  more = [LaunchHealthCheck (Checker.health_handle (st_server s) (arg_health_check_interval args)
    (arg_max_unsafe_interval args))] /\
  execution_mode_gauge d = Some (to_metric_value (execution_mode (st_shared s))).
Proof. unfold serve, DebugServer_run. by destruct bound as [[]|e]; intros [= <- <-]. Qed.

(** Everything that the theorems about the parts of the service assume: the L2
    clients of the server, of the proxy and of the health checker talk to the L2
    node, the builder client keeps the contract of a builder client and talks to
    the builder only, over the plain client and over the flashblocks service alike;
    the service starts healthy, in the configured execution mode, which the gauge
    shows; and with flashblocks both tasks that feed the service run. *)
Definition service_ready (args : RollupBoostLibArgs) (sv : Service) : Prop :=
  target (l2_http (sv_proxy sv)) = L2 /\ target (builder_http (sv_proxy sv)) = Builder /\
  execution_mode_gauge (sv_debug sv) = Some (to_metric_value (arg_execution_mode args)) /\
  (exists h, LaunchHealthCheck h ∈ sv_tasks sv /\ payload_source (Checker.h_l2_client h) = L2) /\
  match sv_server sv with
  | OverRpc s => well_wired (RpcClient_EngineApiExt (st_builder s)) args s
  | OverFlashblocks s =>
      well_wired (FlashblocksService_EngineApiExt payload_id_optimism (st_builder s)) args s /\
      builder_client (st_shared s) = FlashblocksService_initial /\
      LaunchFlashblocksService ∈ sv_tasks sv /\
      LaunchReceiver (Config.flashblocks_builder_url (flashblocks_args args))
        (Config.flashblocks_ws_config (flashblocks_args args)) ∈ sv_tasks sv
  end.

Lemma started_service_wired (args : RollupBoostLibArgs) (gauge : option f64)
    (debug_bound : result unit IoError) (sv : Service) :
  service_args_run args gauge debug_bound = Ok sv -> service_ready args sv.
Proof.
  unfold service_args_run.
  destruct (new_http_client _ L2) as [lh|] eqn:Hlh; [|done].
  destruct (new_http_client _ Builder) as [bh|] eqn:Hbh; [|done].
  apply http_client_target in Hlh, Hbh.
  destruct (Config.flashblocks_enabled (flashblocks_args args)).
  - destruct (fb_new_from_args args Probes_default gauge) as [tasks [s|]] eqn:Hs; [|done].
    destruct (serve args debug_bound s) as [more [d|]] eqn:Hd; [|done]. intros [= <-].
    apply fb_new_from_args_wired in Hs as (Hw & Hi & Ht & Hr). apply serve_ok in Hd as [-> Hg].
    rewrite (ww_mode _ _ _ Hw) in Hg. unfold service_ready. cbn. split_and!; [done..| |done|done|set_solver|set_solver].
    eexists. split; [apply elem_of_app; right; left|by apply (ww_l2 _ _ _ Hw)].
  - destruct (rpc_new_from_args args Probes_default gauge) as [s|] eqn:Hs; [|done].
    destruct (serve args debug_bound s) as [more [d|]] eqn:Hd; [|done]. intros [= <-].
    apply rpc_new_from_args_wired in Hs as Hw. apply serve_ok in Hd as [-> Hg].
    rewrite (ww_mode _ _ _ Hw) in Hg. unfold service_ready. cbn. split_and!; [done..| |done].
    eexists. split; [left|by apply (ww_l2 _ _ _ Hw)].
Qed.

(** The only reasons not to start are missing secrets, clients that cannot be built,
    addresses that cannot be bound and a host that is no address. *)
Lemma service_args_run_starts args gauge debug_bound kl kb host :
  p_jwt_token (l2_args args) = Some kl -> p_jwt_token (builder_args args) = Some kb ->
  parse_ip (Config.flashblocks_host (flashblocks_args args)) = Some host ->
  (forall u k t, transport_build u k t = Ok tt) -> (forall a, bind_addr a = Ok tt) ->
  debug_bound = Ok tt -> exists sv, service_args_run args gauge debug_bound = Ok sv.
Proof.
  intros Hl Hb Hh Ht Ha ->.
  unfold service_args_run, fb_new_from_args, rpc_new_from_args, Flashblocks_run, new_rpc_client,
    RpcClient_new, new_http_client, get_auth_jwt, ClientArgs_from. cbn.
  rewrite Hl, Hb. cbn. rewrite !Ht. cbn. rewrite Hh, Ha.
  destruct (Config.flashblocks_enabled (flashblocks_args args)) eqn:Hf; cbn; eauto.
Qed.

End Launch.

(** ** A service that starts *)
Module LaunchExamples.
Import Demo.

Definition client_args (u : string) : PrefixedArgs (JwtSecret := Z) :=
  {| p_url := u; p_jwt_token := Some 7; p_jwt_path := None; p_timeout := 1000 |}.

Definition args (flashblocks : bool) : RollupBoostLibArgs (JwtSecret := Z) :=
  {| builder_args := client_args "http://builder:8551"; l2_args := client_args "http://l2:8551";
     arg_execution_mode := DryRun; arg_block_selection_policy := None;
     arg_external_state_root := false; arg_ignore_unhealthy_builders := false;
     flashblocks_args :=
       {| Config.flashblocks_enabled := flashblocks;
          Config.flashblocks_builder_url := "ws://127.0.0.1:1111";
          Config.flashblocks_host := "127.0.0.1"; Config.flashblocks_port := 1112;
          Config.flashblocks_ws_config := Config.default_config |};
     arg_health_check_interval := 60; arg_max_unsafe_interval := 10 |}.

Definition run_args (flashblocks : bool) :=
  service_args_run (ET := types) (fun _ => Err "no file"%string) (fun _ _ _ => Ok tt) (fun _ => Ok tt)
    (args flashblocks) None (Ok tt).

(** Without a secret the service does not start. *)
Example missing_secret :
  new_http_client (ET := types) (JwtSecret := Z) (fun _ => Err "no file"%string)
    {| url := "http://l2:8551"; jwt_token := None; jwt_path := None; timeout := 1000 |} L2 =
  Err (Report_msg "Missing Client JWT secret").
Proof. reflexivity. Qed.

Example log_formats :
  LogFormat_from_str "JSON" = Ok Json /\ LogFormat_from_str "Text" = Ok Text /\
  LogFormat_from_str "xml" = Err "Invalid log format"%string.
Proof. done. Qed.

End LaunchExamples.
