(* ===== verification/FlashblocksCache.v ===== *)
(** * The flashblocks RPC overlay

    crates/flashblocks-rpc: cache.rs (the pending block, nonces, balances and receipts
    derived from flashblocks), flashblocks.rs (the connection that feeds it) and rpc.rs
    (the eth methods answered from it).  Blocks, transactions and receipts are
    reth's and alloy's. *)
From S2P Require Import Prelude Payload RpcClient FlashblockBuilder.

Local Open Scope Z_scope.

(** What the overlay uses of reth and alloy. *)
Class ChainTypes {ET : EngineTypes} := {
  Tx : Set;
  tx_hash : Tx -> B256;
  hash_to_string : B256 -> string;
  recover_signer : Tx -> option Address;
  is_deposit : Tx -> bool;
  effective_tip_per_gas : Tx -> Z -> option Z;
  max_fee_per_gas : Tx -> Z;
  OpReceipt : Set;
  cumulative_gas_used : OpReceipt -> Z;
  log_count : OpReceipt -> Z;
  BlockHeader : Set;
  header_number : BlockHeader -> Z;
  header_hash : BlockHeader -> B256;
  header_base_fee : BlockHeader -> option Z;
  L1BlockInfo : Set;
  extract_l1_info : list Tx -> option L1BlockInfo;
  RpcReceipt : Set;
  parse_address : string -> option Address;
  parse_u256 : string -> option U256
}.

Section Cache.
Context {ET : EngineTypes} {CT : ChainTypes}.

Record OpBlock : Set := { header : BlockHeader; body : list Tx }.

(** [Metadata]; the balances in the order in which the map is iterated. *)
Record Metadata : Set := {
  receipts : gmap string OpReceipt;
  new_account_balances : list (string * string);
  m_block_number : Z
}.

(** [ConvertReceiptInput] and the [TransactionMeta] in it. *)
Record ReceiptInput : Set := {
  i_receipt : OpReceipt; i_tx : Tx; i_gas_used : Z; i_next_log_index : Z;
  i_index : Z; i_block : BlockHeader
}.

(** serde_json on the metadata, [try_into_block], and [OpReceiptBuilder], which
    updates the L1 block info. *)
Context (metadata_from_value : JsonValue -> result Metadata string)
  (try_into_block : ExecutionPayloadV3 -> result OpBlock string)
  (build_receipt : ReceiptInput -> L1BlockInfo -> option RpcReceipt * L1BlockInfo).

(** [FlashblocksCacheInner] *)
Record CacheInner : Set := {
  builder : FlashblockBuilder;
  pending_block : option OpBlock;
  balance_cache : gmap Address U256;
  nonce_cache : gmap Address Z;
  receipts_cache : gmap B256 RpcReceipt
}.

Definition CacheInner_new : CacheInner :=
  {| builder := FlashblockBuilder_new; pending_block := None; balance_cache := ∅;
     nonce_cache := ∅; receipts_cache := ∅ |}.

Definition reset (self : CacheInner) : CacheInner := CacheInner_new.

(** ** Reading *)

(** [transform_tx]: the fields it computes. *)
Record RpcTransaction : Set := {
  rt_tx : Tx; rt_sender : Address; rt_block_hash : option B256; rt_block_number : option Z;
  rt_index : option Z; rt_effective_gas_price : Z
}.

Definition transform_tx (tx : Tx) (sender : Address) (block_hash : option B256)
    (block_number index base_fee : option Z) : RpcTransaction :=
  {| rt_tx := tx; rt_sender := sender; rt_block_hash := block_hash;
     rt_block_number := block_number; rt_index := index;
     rt_effective_gas_price :=
       if is_deposit tx then 0
       else match base_fee with
            | Some base_fee => default 0 (effective_tip_per_gas tx base_fee) + base_fee
            | None => max_fee_per_gas tx
            end |}.

Inductive BlockTransactions : Set :=
| Full (txs : list RpcTransaction)
| Hashes (hashes : list B256).

Record RpcBlock : Set := { rb_header : BlockHeader; rb_transactions : BlockTransactions }.

(** [recover_signers] of the whole body. *)
Definition recover_signers (txs : list Tx) : option (list Address) := mapM recover_signer txs.

Definition get_block (self : CacheInner) (full : bool) : outcome (option RpcBlock) :=
  match pending_block self with
  | None => Returned None
  | Some block =>
      if full then
        match recover_signers (body block) with
        | None => Panicked "called `Result::unwrap()` on an `Err` value"
        | Some senders =>
            Returned (Some {| rb_header := header block;
              rb_transactions := Full (imap (fun idx x =>
                transform_tx x.1 x.2 (Some (header_hash (header block)))
                  (Some (header_number (header block))) (Some (Z.of_nat idx))
                  (header_base_fee (header block))) (zip (body block) senders)) |})
        end
      else Returned (Some {| rb_header := header block;
             rb_transactions := Hashes (tx_hash <$> body block) |})
  end.

Definition cache_get_balance (self : CacheInner) (a : Address) : option U256 := balance_cache self !! a.
Definition get_nonce (self : CacheInner) (a : Address) : option Z := nonce_cache self !! a.
Definition get_receipt (self : CacheInner) (h : B256) : option RpcReceipt := receipts_cache self !! h.

(** ** [process_payload] *)

(** The loop that counts nonces and collects receipts. *)
Fixpoint scan (md : Metadata) (txs : list Tx) (nonces : gmap Address Z) (all : list OpReceipt)
  : outcome (gmap Address Z * list OpReceipt) :=
  match txs with
  | [] => Returned (nonces, all)
  | tx :: txs =>
      let nonces :=
        match recover_signer tx with
        | Some from => <[from := default 0 (nonces !! from) + 1]> nonces
        | None => nonces
        end in
      match receipts md !! hash_to_string (tx_hash tx) with
      | Some r => scan md txs nonces (all ++ [r])
      | None => Panicked "Receipt should exist"
      end
  end.

(** The loop that builds the RPC receipts; [try_to_recovered_ref] may fail. *)
Fixpoint build_receipts (block : OpBlock) (txs : list Tx) (all : list OpReceipt) (indx : nat)
    (gas_used next_log_index : Z) (l1 : L1BlockInfo) (cache : gmap B256 RpcReceipt)
  : outcome (result (gmap B256 RpcReceipt) string) :=
  match txs with
  | [] => Returned (Ok cache)
  | tx :: txs =>
      match all !! indx with
      | None => Panicked "Receipt should exist for transaction"
      | Some receipt =>
          match recover_signer tx with
          | None => Returned (Err "invalid signature")
          | Some _ =>
              let input :=
                {| i_receipt := receipt; i_tx := tx;
                   i_gas_used := (cumulative_gas_used receipt - gas_used) mod 2 ^ 64;
                   i_next_log_index := next_log_index; i_index := Z.of_nat indx;
                   i_block := header block |} in
              match build_receipt input l1 with
              | (None, _) => Panicked "failed to build receipt"
              | (Some rpc, l1) =>
                  build_receipts block txs all (S indx) (cumulative_gas_used receipt)
                    (next_log_index + log_count receipt) l1 (<[tx_hash tx := rpc]> cache)
              end
          end
      end
  end.

Fixpoint store_balances (bs : list (string * string)) (cache : gmap Address U256)
  : result (gmap Address U256) string :=
  match bs with
  | [] => Ok cache
  | (a, b) :: bs =>
      match parse_address a with
      | None => Err "Failed to parse address"
      | Some a =>
          match parse_u256 b with
          | None => Err "Failed to parse balance"
          | Some b => store_balances bs (<[a := b]> cache)
          end
      end
  end.

(** [nonce_cache.insert] for every entry of the map. *)
Definition store_nonces (nonces cache : gmap Address Z) : gmap Address Z := nonces ∪ cache.

(** The updates after the block is built. *)
Definition apply_block (md : Metadata) (block : OpBlock) (self : CacheInner)
  : outcome (result CacheInner string) :=
  match scan md (body block) ∅ [] with
  | Panicked m => Panicked m
  | Returned (nonces, all) =>
      let built :=
        match body block with
        | [] => Returned (Ok (receipts_cache self))
        | txs =>
            match extract_l1_info txs with
            | None => Panicked "failed to extract l1 info"
            | Some l1 => build_receipts block txs all 0 0 0 l1 (receipts_cache self)
            end
        end in
      match built with
      | Panicked m => Panicked m
      | Returned (Err e) => Returned (Err e)
      | Returned (Ok rs) =>
          match store_balances (new_account_balances md) (balance_cache self) with
          | Err e => Returned (Err e)
          | Ok bs =>
              Returned (Ok {| builder := builder self; pending_block := Some block;
                              balance_cache := bs; nonce_cache := store_nonces nonces (nonce_cache self);
                              receipts_cache := rs |})
          end
      end
  end.

Definition set_builder (b : FlashblockBuilder) (self : CacheInner) : CacheInner :=
  {| builder := b; pending_block := pending_block self; balance_cache := balance_cache self;
     nonce_cache := nonce_cache self; receipts_cache := receipts_cache self |}.

(** [FlashblocksCacheInner::process_payload]: the new state on success. *)
Definition inner_process_payload (payload : FlashblocksPayloadV1) (self : CacheInner)
  : outcome (result CacheInner string) :=
  match metadata_from_value (fb_metadata payload) with
  | Err e => Returned (Err ("Failed to deserialize metadata: " ++ e)%string)
  | Ok md =>
      let self := if fb_index payload =? 0 then reset self else self in
      match extend payload (builder self) with
      | (Err e, _) => Returned (Err (FlashblocksError_to_string e))
      | (Ok _, b) =>
          let self := set_builder b self in
          match build_envelope b V4 with
          | Err e => Returned (Err (FlashblocksError_to_string e))
          | Ok (EnvelopeV3 _) => Returned (Err "Invalid payload version")
          | Ok (EnvelopeV4 envelope) =>
              match try_into_block (payload_inner_v3 (execution_payload_v4 envelope)) with
              | Err e => Returned (Err ("Failed to convert execution payload to block: " ++ e)%string)
              | Ok block => apply_block md block self
              end
          end
      end
  end.

(** [FlashblocksCache::process_payload]: a copy is updated and swapped in on
    success only. *)
Definition process_payload (payload : FlashblocksPayloadV1) (self : CacheInner)
  : outcome (result unit string) * CacheInner :=
  match inner_process_payload payload self with
  | Returned (Ok new_state) => (Returned (Ok tt), new_state)
  | Returned (Err e) => (Returned (Err e), self)
  | Panicked m => (Panicked m, self)
  end.

(** ** What a processed payload leaves *)

(** The transactions of a sender. *)
Definition sent_by (a : Address) (txs : list Tx) : Z :=
  Z.of_nat (length (filter (fun tx => recover_signer tx = Some a) txs)).

Lemma sent_by_cons a tx txs :
  sent_by a (tx :: txs) = (if decide (recover_signer tx = Some a) then 1 else 0) + sent_by a txs.
Proof. unfold sent_by. rewrite filter_cons. case_decide; simpl; lia. Qed.

Lemma scan_spec md txs nonces all nonces' all' :
  scan md txs nonces all = Returned (nonces', all') ->
  (forall a, default 0 (nonces' !! a) = default 0 (nonces !! a) + sent_by a txs) /\
  (forall a, is_Some (nonces' !! a) <-> is_Some (nonces !! a) \/ 0 < sent_by a txs) /\
  (forall tx, tx ∈ txs -> is_Some (receipts md !! hash_to_string (tx_hash tx))) /\
  length all' = (length all + length txs)%nat.
Proof.
  revert nonces all. induction txs as [|tx txs IH]; intros nonces all; cbn [scan].
  { intros [= <- <-]. unfold sent_by. simpl.
    split_and!; [intros; lia|intros; split; [by left|intros [?|?]; [done|lia]]|set_solver|lia]. }
  destruct (receipts md !! hash_to_string (tx_hash tx)) as [r|] eqn:Hr; [|done].
  intros (H1 & H2 & H3 & H4)%IH. split_and!.
  - intros a. rewrite H1, sent_by_cons. destruct (recover_signer tx) as [from|]; [|by rewrite decide_False].
    rewrite lookup_insert. repeat case_decide; simplify_eq; simpl; lia.
  - intros a. rewrite H2, sent_by_cons.
    assert (0 <= sent_by a txs) by (unfold sent_by; lia).
    destruct (recover_signer tx) as [from|].
    + rewrite lookup_insert. repeat case_decide; simplify_eq; simpl.
      * split; [right; lia|left; by eexists].
      * rewrite Z.add_0_l. tauto.
    + rewrite decide_False, Z.add_0_l by done. tauto.
  - intros tx' [->|Hin]%elem_of_cons; [by rewrite Hr|by apply H3].
  - rewrite length_app in H4. simpl in *. lia.
Qed.

Lemma build_receipts_covers block txs all indx gas log l1 cache cache' :
  build_receipts block txs all indx gas log l1 cache = Returned (Ok cache') ->
  (forall h, is_Some (cache !! h) -> is_Some (cache' !! h)) /\
  (forall tx, tx ∈ txs -> is_Some (cache' !! tx_hash tx)).
Proof.
  revert indx gas log l1 cache. induction txs as [|tx txs IH]; intros indx gas log l1 cache;
    cbn [build_receipts].
  { intros [= <-]. split; [done|]. intros tx Htx. by apply elem_of_nil in Htx. }
  destruct (all !! indx) as [receipt|]; [|done]. destruct (recover_signer tx); [|done].
  destruct (build_receipt _ l1) as [[rpc|] l1']; [|done].
  intros (Hmono & Hall)%IH. split.
  - intros h Hh. apply Hmono. rewrite lookup_insert. case_decide; [by eexists|done].
  - intros tx' [->|Hin]%elem_of_cons; [|by apply Hall].
    apply Hmono. by rewrite lookup_insert_eq.
Qed.

Lemma apply_block_spec md block self new :
  apply_block md block self = Returned (Ok new) ->
  pending_block new = Some block /\ builder new = builder self /\
  (forall tx, tx ∈ body block -> is_Some (receipts_cache new !! tx_hash tx)) /\
  (forall a, 0 < sent_by a (body block) -> nonce_cache new !! a = Some (sent_by a (body block))) /\
  (forall tx, tx ∈ body block -> is_Some (receipts md !! hash_to_string (tx_hash tx))).
Proof.
  unfold apply_block. destruct (scan md (body block) ∅ []) as [[nonces all]|] eqn:Hscan; [|done].
  apply scan_spec in Hscan as (Hn & Hs & Hr & _).
  set (built := match body block with [] => _ | _ => _ end).
  destruct built as [[rs|e]|m] eqn:Hb; [|done|done].
  destruct (store_balances _ _) as [bs|e]; [|done]. intros [= <-]. cbn.
  split_and!; [done|done| | |done].
  - intros tx Htx. subst built. destruct (body block) as [|tx0 txs]; [by apply elem_of_nil in Htx|].
    destruct (extract_l1_info (tx0 :: txs)) as [l1|]; [|done].
    apply build_receipts_covers in Hb as [_ Hall]. by apply Hall.
  - intros a Ha. unfold store_nonces. specialize (Hn a).
    rewrite lookup_empty in Hn. simpl in Hn.
    destruct (proj2 (Hs a) (or_intror Ha)) as [n Hna].
    rewrite Hna in Hn. simpl in Hn. subst n.
    by rewrite (lookup_union_Some_l _ _ _ _ Hna).
Qed.

(** What the cache serves for a pending block: it is the block of the envelope,
    every one of its transactions has a receipt, and the nonce of a sender is the
    number of its transactions in the block. *)
Definition serves (block : OpBlock) (env : OpExecutionPayloadEnvelopeV4) (c : CacheInner) : Prop :=
  try_into_block (payload_inner_v3 (execution_payload_v4 env)) = Ok block /\
  (forall tx, tx ∈ body block -> is_Some (get_receipt c (tx_hash tx))) /\
  (forall a, 0 < sent_by a (body block) -> get_nonce c a = Some (sent_by a (body block))).

(** One flashblock: the new state is that of the extended builder; a flashblock
    that fails, for any reason, panics included, leaves the cache as it was. *)
Lemma process_payload_spec (payload : FlashblocksPayloadV1) (self new : CacheInner) o :
  process_payload payload self = (o, new) ->
  (o <> Returned (Ok tt) -> new = self) /\
  (o = Returned (Ok tt) ->
     extend payload (builder (if fb_index payload =? 0 then reset self else self)) =
       (Ok tt, builder new) /\
     exists block env, pending_block new = Some block /\
       build_envelope (builder new) V4 = Ok (EnvelopeV4 env) /\ serves block env new).
Proof.
  unfold process_payload. destruct (inner_process_payload payload self) as [[n|e]|m] eqn:Hp;
    intros [= <- <-]; [|by split..]. split; [done|]. intros _.
  unfold inner_process_payload in Hp. destruct (metadata_from_value _) as [md|]; [|done].
  destruct (extend payload _) as [[[]|] b]; [|done].
  destruct (build_envelope b V4) as [[|env]|] eqn:He; [done| |done].
  destruct (try_into_block _) as [block|] eqn:Hb; [|done].
  apply apply_block_spec in Hp as (H1 & H2 & H3 & H4 & _). rewrite H2. split; [done|].
  exists block, env. by split_and!.
Qed.

(** C40: a flashblock is accepted only when its own metadata has the receipts of
    all transactions of the pending block, those of earlier flashblocks
    included: metadata with the receipts of the new transactions alone makes the
    task panic. *)
Theorem receipts_must_cover_block (payload : FlashblocksPayloadV1) (self new : CacheInner)
    (md : Metadata) (block : OpBlock) :
  process_payload payload self = (Returned (Ok tt), new) ->
  metadata_from_value (fb_metadata payload) = Ok md -> pending_block new = Some block ->
  forall tx, tx ∈ body block -> is_Some (receipts md !! hash_to_string (tx_hash tx)).
Proof.
  unfold process_payload. destruct (inner_process_payload payload self) as [[n|e]|m] eqn:Hp;
    intros [= <-] Hmd. unfold inner_process_payload in Hp. rewrite Hmd in Hp.
  destruct (extend payload _) as [[[]|] b]; [|done].
  destruct (build_envelope b V4) as [[|env]|] eqn:He; [done| |done].
  destruct (try_into_block _) as [block'|] eqn:Hb; [|done].
  apply apply_block_spec in Hp as (H1 & _ & _ & _ & H5). intros Hpb tx.
  rewrite H1 in Hpb. injection Hpb as ->. apply H5.
Qed.

(** ** The connection of the overlay *)

(** A frame, decoded when it is binary. *)
Inductive overlay_frame : Set :=
| OBinary (decoded : result FlashblocksPayloadV1 string)
| OClose
| OError
| OOther.

(** [try_parse_message]: UTF-8 text that starts with a brace is taken as it is,
    anything else is decompressed. *)
Definition try_parse_message (from_utf8 : Bytes -> option string)
    (decompress : Bytes -> option Bytes) (bytes : Bytes) : result string string :=
  let plain :=
    match from_utf8 bytes with
    | Some text => if starts_with "{" (trim_start text) then Some text else None
    | None => None
    end in
  match plain with
  | Some text => Ok text
  | None =>
      match decompress bytes with
      | None => Err "brotli"
      | Some d => match from_utf8 d with Some text => Ok text | None => Err "utf8" end
      end
  end.

Definition try_decode_message (from_utf8 : Bytes -> option string)
    (decompress : Bytes -> option Bytes) (from_str : string -> option FlashblocksPayloadV1)
    (bytes : Bytes) : result FlashblocksPayloadV1 string :=
  match try_parse_message from_utf8 decompress bytes with
  | Err e => Err e
  | Ok text => match from_str text with Some p => Ok p | None => Err "failed to parse message" end
  end.

(** The frames of one connection: the payloads passed to the cache. *)
Fixpoint read_frames (fs : list overlay_frame) : list FlashblocksPayloadV1 :=
  match fs with
  | OBinary (Ok p) :: fs => p :: read_frames fs
  | OBinary (Err _) :: fs => read_frames fs
  | OOther :: fs => read_frames fs
  | OClose :: _ | OError :: _ | [] => []
  end.

Definition MAX_BACKOFF : Z := 10.

(** The reconnection loop: per attempt, the frames or a failure; the pauses it
    makes (in seconds) and the payloads. *)
Fixpoint overlay_loop (attempts : list (option (list overlay_frame))) (backoff : Z)
  : list Z * list FlashblocksPayloadV1 :=
  match attempts with
  | [] => ([], [])
  | Some fs :: attempts =>
      let (pauses, ps) := overlay_loop attempts backoff in (pauses, read_frames fs ++ ps)
  | None :: attempts =>
      let (pauses, ps) := overlay_loop attempts (Z.min (backoff * 2) MAX_BACKOFF) in
      (backoff :: pauses, ps)
  end.

(** The task of [start] that takes the payloads in order: errors are logged, and a
    panic ends the task, so the cache keeps its last state. *)
Fixpoint process_all (ps : list FlashblocksPayloadV1) (self : CacheInner) : CacheInner :=
  match ps with
  | [] => self
  | p :: ps =>
      match process_payload p self with
      | (Panicked _, self) => self
      | (Returned _, self) => process_all ps self
      end
  end.

(** [start]: the loop begins with a pause of one second. *)
Definition overlay_run (attempts : list (option (list overlay_frame))) (self : CacheInner) : CacheInner :=
  process_all (overlay_loop attempts 1).2 self.

(** The cache after the messages [ps]: it holds a run of flashblocks that begins with
    one of [ps] that has the index 0 and goes on with some of those received after it,
    in order, and it serves the block they describe. *)
Definition holds_run (ps : list FlashblocksPayloadV1) (c : CacheInner) : Prop :=
  exists acc, well_formed acc /\ holds acc (builder c) /\
    match pending_block c with
    | None => acc = []
    | Some block =>
        (exists before first rest acc', ps = before ++ first :: rest /\ acc = first :: acc' /\
           acc' `sublist_of` rest) /\
        exists env, describes acc V4 (EnvelopeV4 env) /\ serves block env c
    end.

Lemma holds_run_grow ps p c : holds_run ps c -> holds_run (ps ++ [p]) c.
Proof.
  intros (acc & Hw & Hh & Hpb). exists acc. split_and!; [done..|].
  destruct (pending_block c); [|done]. destruct Hpb as [(before & first & rest & acc' & -> & -> & Hsub) He].
  split; [|done]. exists before, first, (rest ++ [p]), acc'. rewrite <- app_assoc.
  split_and!; [done..|]. by apply sublist_inserts_r.
Qed.

Lemma process_payload_run ps p self :
  holds_run ps self -> holds_run (ps ++ [p]) (process_payload p self).2.
Proof.
  intros Hrun. pose proof Hrun as (acc & Hw & Hh & Hpb).
  destruct (process_payload p self) as [o new] eqn:Hp. simpl.
  apply process_payload_spec in Hp as [Hfail Hok].
  destruct (decide (o = Returned (Ok tt))) as [Ho|Ho].
  2: { rewrite Hfail by done. by apply holds_run_grow. }
  destruct (Hok Ho) as (Hext & block & env & Hb & Henv & Hserves).
  set (self' := if fb_index p =? 0 then reset self else self) in Hext.
  assert (exists acc', well_formed acc' /\ holds acc' (builder self') /\
    exists before first rest acc'', ps ++ [p] = before ++ first :: rest /\ acc' ++ [p] = first :: acc'' /\
      acc'' `sublist_of` rest) as (acc' & Hw' & Hh' & Hin).
  { unfold self' in *. destruct (Z.eqb_spec (fb_index p) 0) as [Hz|Hz].
    - exists []. split_and!; [done|apply holds_new|]. exists ps, p, [], []. by split_and!.
    - exists acc. split_and!; [done..|]. destruct (pending_block self) as [b|].
      + destruct Hpb as [(before & first & rest & acc' & -> & -> & Hsub) _].
        exists before, first, (rest ++ [p]), (acc' ++ [p]). rewrite <- app_assoc.
        split_and!; [done..|by apply sublist_app].
      + subst acc. pose proof (proj1 (extend_ok_iff p (builder self))) as Hfit. rewrite Hext in Hfit.
        destruct (Hfit eq_refl) as [Hi _]. rewrite (holds_length _ _ Hh) in Hi. cbn in Hi. lia. }
  pose proof (extend_ok_holds p (builder self') acc' Hh') as Hh2. rewrite Hext in Hh2.
  specialize (Hh2 eq_refl). simpl in Hh2.
  assert (Hw2 : well_formed (acc' ++ [p])).
  { apply well_formed_snoc. split; [done|]. rewrite <- (holds_length _ _ Hh').
    apply extend_ok_iff. by rewrite Hext. }
  exists (acc' ++ [p]). split_and!; [done..|]. rewrite Hb.
  split; [done|]. exists env. split; [|done].
  pose proof (build_envelope_holds _ _ V4 Hh2 Hw2) as Hd. rewrite Henv in Hd. by destruct Hd.
Qed.

(** C37: whatever flashblocks the overlay receives over whatever connections, what
    its cache serves is one run of them: the pending block is the block described
    by flashblocks with the indices 0, 1, ..., k, of which the first was received with
    the base and the others after it, in order; every transaction of the pending block
    has a receipt, and the nonce cached for a sender is the number of its transactions
    in the pending block.  Nothing compares payload ids, so the run is of one payload
    if everything received since its first flashblock is. *)
Theorem overlay_serves_run (attempts : list (option (list overlay_frame))) :
  holds_run (overlay_loop attempts 1).2 (overlay_run attempts CacheInner_new).
Proof.
  unfold overlay_run. generalize (overlay_loop attempts 1).2 as ps.
  assert (H : forall ps done self, holds_run done self -> holds_run (done ++ ps) (process_all ps self)).
  { induction ps as [|p ps IH]; intros done self Hr; cbn [process_all]; [by rewrite app_nil_r|].
    pose proof (process_payload_run done p self Hr) as Hp.
    destruct (process_payload p self) as [[r|m] self'] eqn:E; simpl in Hp.
    - rewrite cons_middle, app_assoc. by apply IH.
    - rewrite cons_middle, app_assoc. clear -Hp. induction ps as [|q ps IH] using rev_ind;
        [by rewrite app_nil_r|]. rewrite app_assoc. by apply holds_run_grow. }
  intros ps. apply (H ps []). exists []. split_and!; [done|apply holds_new|done].
Qed.

(** ** The eth methods *)

(** What the overlay needs of the node's own eth API. *)
Record EthApi : Type := {
  eth_block : BlockNumberOrTag -> bool -> result (option RpcBlock) string;
  eth_receipt : B256 -> result (option RpcReceipt) string;
  eth_balance : Address -> option BlockNumberOrTag -> result U256 string;
  eth_transaction_count : Address -> option BlockNumberOrTag -> result U256 string
}.

Definition is_pending (n : BlockNumberOrTag) : bool := match n with Pending => true | _ => false end.

(** [BlockId::default] is the latest block. *)
Definition block_id (n : option BlockNumberOrTag) : BlockNumberOrTag := default Latest n.

Definition block_by_number (eth : EthApi) (c : CacheInner) (n : BlockNumberOrTag) (full : bool)
  : outcome (result (option RpcBlock) string) :=
  if is_pending n then
    match get_block c full with
    | Returned b => Returned (Ok b)
    | Panicked m => Panicked m
    end
  else Returned (eth_block eth n full).

Definition get_transaction_receipt (eth : EthApi) (c : CacheInner) (h : B256)
  : result (option RpcReceipt) string :=
  match get_receipt c h with
  | Some r => Ok (Some r)
  | None => eth_receipt eth h
  end.

Definition get_balance (eth : EthApi) (c : CacheInner) (a : Address) (n : option BlockNumberOrTag)
  : result U256 string :=
  match (if is_pending (block_id n) then cache_get_balance c a else None) with
  | Some b => Ok b
  | None => eth_balance eth a n
  end.

Definition get_transaction_count (eth : EthApi) (c : CacheInner) (a : Address)
    (n : option BlockNumberOrTag) : result U256 string :=
  if is_pending (block_id n) then
    match eth_transaction_count eth a (Some Latest) with
    | Err e => Err e
    | Ok latest_count =>
        match get_nonce c a with
        | Some count => Ok ((latest_count + count) mod 2 ^ 256)
        | None => eth_transaction_count eth a n
        end
    end
  else eth_transaction_count eth a n.

(** Requests that do not ask for the pending block get the node's own
    answer, whatever the cache holds: blocks, balances and transaction counts. *)
Theorem not_pending_unchanged (eth : EthApi) (c : CacheInner) (a : Address)
    (n : option BlockNumberOrTag) (full : bool) :
  is_pending (block_id n) = false ->
  block_by_number eth c (block_id n) full = Returned (eth_block eth (block_id n) full) /\
  get_balance eth c a n = eth_balance eth a n /\
  get_transaction_count eth c a n = eth_transaction_count eth a n.
Proof.
  intros H. unfold block_by_number, get_balance, get_transaction_count. by rewrite H.
Qed.

(** The pending transaction count is the node's latest count plus the number
    of the sender's transactions in the pending block.  The overlay does not
    check that the pending block still extends the latest block: once the node
    has imported a block with [k] transactions of the sender and until the next
    block's first flashblock arrives, those transactions are counted twice. *)
Theorem pending_count_after_import (eth : EthApi) (c : CacheInner) (a : Address) (before k : Z) :
  get_nonce c a = Some k -> eth_transaction_count eth a (Some Latest) = Ok (before + k) ->
  0 <= before -> 0 <= k -> before + 2 * k < 2 ^ 256 ->
  get_transaction_count eth c a (Some Pending) = Ok (before + 2 * k).
Proof.
  intros Hn He H1 H2 H3. unfold get_transaction_count. cbn [block_id is_pending default].
  rewrite He, Hn. rewrite Z.mod_small by lia. f_equal. lia.
Qed.

(** ** The node with the overlay

    bin/main.rs of the crate: the node's RPC server, whose eth methods the overlay
    replaces when it is enabled. *)

(** [FlashblocksRollupArgs] without the arguments of the node itself. *)
Record FlashblocksRollupArgs : Set := { overlay_enabled : bool; websocket_url : string }.

(** Who answers the four methods: the node, or the overlay that follows a URL. *)
Inductive EthModule : Set := OwnApi | Overlaid (url : string).

(** The closure of [extend_rpc_modules]: the overlay is started and installed. *)
Definition extend_rpc_modules (start replace_configured : result unit string)
    (args : FlashblocksRollupArgs) : result EthModule string :=
  if overlay_enabled args then
    match start with
    | Err e => Err e
    | Ok _ =>
        match replace_configured with
        | Err e => Err e
        | Ok _ => Ok (Overlaid (websocket_url args))
        end
    end
  else Ok OwnApi.

(** [main]: the exit code, from the launch of the node with its RPC modules and
    from the end of the node. *)
Definition overlay_main (start replace_configured : result unit string)
    (launch : EthModule -> result unit string) (node_exit : result unit string)
    (args : FlashblocksRollupArgs) : Z :=
  match extend_rpc_modules start replace_configured args with
  | Err _ => 1
  | Ok m =>
      match launch m with
      | Err _ => 1
      | Ok _ => match node_exit with Err _ => 1 | Ok _ => 0 end
      end
  end.

(** The node's answers with such a module, while the overlay's cache is [c]. *)
Definition node_block (m : EthModule) (eth : EthApi) (c : CacheInner) (n : BlockNumberOrTag) (full : bool) :=
  match m with OwnApi => Returned (eth_block eth n full) | Overlaid _ => block_by_number eth c n full end.
Definition node_receipt (m : EthModule) (eth : EthApi) (c : CacheInner) (h : B256) :=
  match m with OwnApi => eth_receipt eth h | Overlaid _ => get_transaction_receipt eth c h end.
Definition node_balance (m : EthModule) (eth : EthApi) (c : CacheInner) (a : Address)
    (n : option BlockNumberOrTag) :=
  match m with OwnApi => eth_balance eth a n | Overlaid _ => get_balance eth c a n end.
Definition node_count (m : EthModule) (eth : EthApi) (c : CacheInner) (a : Address)
    (n : option BlockNumberOrTag) :=
  match m with OwnApi => eth_transaction_count eth a n | Overlaid _ => get_transaction_count eth c a n end.

(** The overlay changes a node only when it is enabled, and then only what it says
    about the pending block and about receipts: while the cache is empty (before
    the first flashblock) receipts, balances and counts are the node's own too,
    except that a pending count needs the node's latest count. *)
Theorem overlay_transparent (start replace_configured : result unit string)
    (args : FlashblocksRollupArgs) (m : EthModule) (eth : EthApi) (c : CacheInner)
    (n : option BlockNumberOrTag) (full : bool) (h : B256) (a : Address) :
  extend_rpc_modules start replace_configured args = Ok m ->
  (overlay_enabled args = false \/ is_pending (block_id n) = false ->
   node_block m eth c (block_id n) full = Returned (eth_block eth (block_id n) full) /\
   node_balance m eth c a n = eth_balance eth a n /\
   node_count m eth c a n = eth_transaction_count eth a n) /\
  (overlay_enabled args = false \/ c = CacheInner_new ->
   node_receipt m eth c h = eth_receipt eth h /\ node_balance m eth c a n = eth_balance eth a n /\
   (is_ok (eth_transaction_count eth a (Some Latest)) = true ->
    node_count m eth c a n = eth_transaction_count eth a n)).
Proof.
  unfold extend_rpc_modules. destruct (overlay_enabled args).
  2: { by intros [= <-]. }
  destruct start; [|done]. destruct replace_configured; [|done]. intros [= <-]. split.
  - intros [?|H]; [done|]. cbn. unfold block_by_number, get_balance, get_transaction_count. by rewrite H.
  - intros [?| ->]; [done|]. cbn. unfold get_transaction_receipt, get_balance, get_transaction_count.
    split_and!; [done|by destruct (is_pending _)|].
    destruct (is_pending _); [|done]. by destruct (eth_transaction_count eth a (Some Latest)).
Qed.

End Cache.

(** ** A concrete cache *)
Module CacheExamples.
Import Demo.
Import FlashblockBuilder.Examples.

(** A transaction is its sender and a number, which is also its hash. *)
#[local] Instance chain : ChainTypes := {|
  Tx := Z * Z;
  tx_hash := snd;
  hash_to_string := pretty;
  recover_signer := fun tx => Some tx.1;
  is_deposit := fun _ => false;
  effective_tip_per_gas := fun _ _ => Some 1;
  max_fee_per_gas := fun _ => 2;
  OpReceipt := Z;
  cumulative_gas_used := fun r => r;
  log_count := fun _ => 0;
  BlockHeader := Z;
  header_number := id;
  header_hash := id;
  header_base_fee := fun _ => None;
  L1BlockInfo := unit;
  extract_l1_info := fun _ => Some tt;
  RpcReceipt := Z;
  parse_address := fun _ => None;
  parse_u256 := fun _ => None
|}.

Definition decode (bytes : list Z) : Z * Z :=
  match bytes with [a; h] => (a, h) | _ => (0, 0) end.

Definition to_block (p : ExecutionPayloadV3) : result OpBlock string :=
  Ok {| header := block_number (payload_inner_v1 (payload_inner_v2 p));
        body := decode <$> transactions_v1 (payload_inner_v1 (payload_inner_v2 p)) |}.

(** The metadata of a flashblock: the receipts of the transactions 0 to [n - 1]. *)
Definition metadata (n : JsonValue) : result Metadata string :=
  Ok {| receipts := list_to_map ((fun i => (pretty (Z.of_nat i), 21000)) <$> seq 0 (Z.to_nat n));
        new_account_balances := []; m_block_number := 42 |}.

Definition build (i : ReceiptInput) (l1 : unit) : option Z * unit := (Some (i_gas_used i), tt).

Definition flashblock (index : Z) (b : option ExecutionPayloadBaseV1) (txs : list (list Z)) (md : Z)
  : FlashblocksPayloadV1 :=
  {| fb_payload_id := 11; fb_index := index; fb_base := b; fb_diff := delta 21000 500 txs;
     fb_metadata := md |}.

Definition process := process_payload metadata to_block build.

(** Alice's transaction in the first flashblock, Bob's in the second. *)
Definition alice : Z := 65.
Definition bob : Z := 66.
Definition first := flashblock 0 (Some base0) [[alice; 0]] 1.
Definition second (md : Z) := flashblock 1 None [[bob; 1]] md.

Definition after_first : CacheInner := (process first CacheInner_new).2.
Definition after_second : CacheInner := (process (second 2) after_first).2.

(** Both flashblocks over one connection: the pending block has both transactions. *)
Example overlay_two_flashblocks :
  let c := overlay_run metadata to_block build
    [None; Some [OBinary (Ok first); OOther; OBinary (Ok (second 2))]] CacheInner_new in
  (fun b : OpBlock => body b) <$> pending_block c = Some [(alice, 0); (bob, 1)] /\
  get_nonce c alice = Some 1 /\ is_Some (get_receipt c 1).
Proof. vm_compute. by eauto. Qed.

Lemma receipts_must_cover_block_witness :
  is_Some ((list_to_map ((fun i => (pretty (Z.of_nat i), 21000)) <$> seq 0 2) : gmap string Z)
    !! hash_to_string (tx_hash (alice, 0))).
Proof.
  apply (receipts_must_cover_block metadata to_block build (second 2) after_first after_second
    {| receipts := list_to_map ((fun i => (pretty (Z.of_nat i), 21000)) <$> seq 0 2);
       new_account_balances := []; m_block_number := 42 |}
    (@Build_OpBlock Demo.types chain 42 [(alice, 0); (bob, 1)])); [by vm_compute..|left].
Defined.

(** Metadata with fewer receipts than the block has transactions: the second
    flashblock has the receipt of one transaction only. *)
Example missing_receipt_panics :
  (process (second 1) after_first).1 = Panicked "Receipt should exist".
Proof. by vm_compute. Qed.

(** The panic ends the task that feeds the cache: the next block's flashblocks are
    no longer seen. *)
Example panic_freezes_cache :
  overlay_run metadata to_block build
    [Some [OBinary (Ok first); OBinary (Ok (second 1)); OBinary (Ok first); OBinary (Ok (second 2))]]
    CacheInner_new = after_first.
Proof. by vm_compute. Qed.

(** The first flashblock of the next payload is missed: its second one is appended to
    the block before it, and the pending block mixes transactions of both. *)
Definition with_id (id : Z) (p : FlashblocksPayloadV1) : FlashblocksPayloadV1 :=
  {| fb_payload_id := id; fb_index := fb_index p; fb_base := fb_base p; fb_diff := fb_diff p;
     fb_metadata := fb_metadata p |}.

Example payloads_mixed :
  let c := overlay_run metadata to_block build
    [Some [OBinary (Ok (with_id 11 first)); OBinary (Ok (with_id 22 (second 2)))]] CacheInner_new in
  (fun b : OpBlock => body b) <$> pending_block c = Some [(alice, 0); (bob, 1)].
Proof. by vm_compute. Qed.

(** The node's own API: latest count 5 for everybody. *)
Definition eth : EthApi :=
  {| eth_block := fun _ _ => Ok None; eth_receipt := fun _ => Ok None;
     eth_balance := fun _ _ => Ok 0; eth_transaction_count := fun _ _ => Ok 5 |}.

Lemma not_pending_unchanged_witness :
  block_by_number eth after_second Latest false = Returned (Ok None) /\
  get_balance eth after_second alice None = Ok 0 /\
  get_transaction_count eth after_second alice None = Ok 5.
Proof. apply (not_pending_unchanged eth after_second alice None false). reflexivity. Defined.

Lemma pending_count_after_import_witness :
  get_transaction_count eth after_second alice (Some Pending) = Ok 6.
Proof. apply (pending_count_after_import eth after_second alice 4 1); by vm_compute. Defined.

End CacheExamples.
