(* ===== verification/RateLimit.v ===== *)
(** * The in-memory rate limiter

    [InMemoryRateLimit] of crates/websocket-proxy/src/rate_limit.rs: one permit per
    connection of this instance, a count of connections per client address and
    one per application.  A connection holds a [Ticket]; dropping it releases the
    counts first and the permit after that. *)
From S2P Require Import Prelude Net.

(** ** The limiter *)

Inductive RateLimitError : Set := Limit (reason : string).

#[global] Instance RateLimitError_eq_dec : EqDecision RateLimitError.
Proof. solve_decision. Defined.

Record Ticket : Set := { t_addr : IpAddr; t_app : option string }.

#[global] Instance Ticket_eq_dec : EqDecision Ticket.
Proof. solve_decision. Defined.

(** [Inner], under the mutex; the semaphore is its number of free permits. *)
Record Inner : Set := {
  active_connections_per_ip : gmap IpAddr nat;
  active_connections_per_app : gmap string nat;
  semaphore : nat
}.

Record InMemoryRateLimit : Set := {
  per_ip_limit : nat;
  per_app_limit : gmap string nat
}.

(** [Semaphore::MAX_PERMITS] of tokio on a 64-bit machine, and [Semaphore::new],
    which panics above it; a semaphore is its number of free permits. *)
Definition MAX_PERMITS : Z := 2 ^ 61 - 1.

Definition Semaphore_new (permits : nat) : outcome nat :=
  if (MAX_PERMITS <? Z.of_nat permits)%Z
  then Panicked "a semaphore may not have more than MAX_PERMITS permits (2305843009213693951)"
  else Returned permits.

(** What [InMemoryRateLimit::new] puts under the mutex, with a semaphore of so many
    permits. *)
Definition Inner_new (instance_limit : nat) : Inner :=
  {| active_connections_per_ip := ∅; active_connections_per_app := ∅;
     semaphore := instance_limit |}.

Definition InMemoryRateLimit_new (instance_limit per_ip_limit : nat) (per_app_limit : gmap string nat)
  : outcome (InMemoryRateLimit * Inner) :=
  match Semaphore_new instance_limit with
  | Panicked m => Panicked m
  | Returned permits =>
      Returned ({| per_ip_limit := per_ip_limit; per_app_limit := per_app_limit |}, Inner_new permits)
  end.

Definition set_ip (m : gmap IpAddr nat) (i : Inner) : Inner :=
  {| active_connections_per_ip := m; active_connections_per_app := active_connections_per_app i;
     semaphore := semaphore i |}.
Definition set_app (m : gmap string nat) (i : Inner) : Inner :=
  {| active_connections_per_ip := active_connections_per_ip i; active_connections_per_app := m;
     semaphore := semaphore i |}.
Definition set_semaphore (n : nat) (i : Inner) : Inner :=
  {| active_connections_per_ip := active_connections_per_ip i;
     active_connections_per_app := active_connections_per_app i; semaphore := n |}.

(** [*map.get(&k).unwrap_or(&0)] *)
Definition get_or_0 {K} `{Countable K} (m : gmap K nat) (k : K) : nat := default 0 (m !! k).

(** The permit goes back to the semaphore. *)
Definition drop_permit (i : Inner) : Inner := set_semaphore (S (semaphore i)) i.

(** [try_acquire], inside the lock; an early return drops the permit. *)
Definition try_acquire (self : InMemoryRateLimit) (addr : IpAddr) (app : option string)
    (inner : Inner) : result Ticket RateLimitError * Inner :=
  match semaphore inner with
  | O => (Err (Limit "Global limit"), inner)
  | S available =>
      let inner := set_semaphore available inner in
      let ip :=
        if (0 <? per_ip_limit self)%nat then
          let current_count := get_or_0 (active_connections_per_ip inner) addr in
          if (per_ip_limit self <? current_count + 1)%nat then None
          else Some (set_ip (<[addr := current_count + 1]> (active_connections_per_ip inner)) inner)
        else Some inner in
      match ip with
      | None => (Err (Limit "IP limit exceeded"), drop_permit inner)
      | Some inner =>
          match app with
          | Some app' =>
              let current_count := get_or_0 (active_connections_per_app inner) app' in
              if (get_or_0 (per_app_limit self) app' <? current_count + 1)%nat
              then (Err (Limit "App limit exceeded"), drop_permit inner)
              else
                (Ok {| t_addr := addr; t_app := app |},
                 set_app (<[app' := current_count + 1]> (active_connections_per_app inner)) inner)
          | None => (Ok {| t_addr := addr; t_app := app |}, inner)
          end
      end
  end.

(** One count of [release]. *)
Definition release_count {K} `{Countable K} (k : K) (m : gmap K nat) : gmap K nat :=
  match get_or_0 m k with
  | O => delete k m
  | S O => delete k m
  | S n => <[k := n]> m
  end.

Definition release (self : InMemoryRateLimit) (addr : IpAddr) (app : option string)
    (inner : Inner) : Inner :=
  let inner :=
    if (0 <? per_ip_limit self)%nat
    then set_ip (release_count addr (active_connections_per_ip inner)) inner
    else inner in
  match app with
  | Some app => set_app (release_count app (active_connections_per_app inner)) inner
  | None => inner
  end.

(** ** The limiter and its connections

    [live] are the tickets that exist; [closing] counts tickets whose counts are
    released and whose permit is not returned yet. *)
Record System : Set := { inner_of : Inner; live : list Ticket; closing : nat }.

Definition System_new (instance_limit : nat) : System :=
  {| inner_of := Inner_new instance_limit; live := []; closing := 0 |}.

Definition connect (self : InMemoryRateLimit) (addr : IpAddr) (app : option string) (s : System)
  : System :=
  match try_acquire self addr app (inner_of s) with
  | (Ok t, i) => {| inner_of := i; live := t :: live s; closing := closing s |}
  | (Err _, i) => {| inner_of := i; live := live s; closing := closing s |}
  end.

(** [Ticket::drop] of the ticket at position [n]. *)
Definition drop_ticket (self : InMemoryRateLimit) (n : nat) (s : System) : System :=
  match live s !! n with
  | Some t =>
      {| inner_of := release self (t_addr t) (t_app t) (inner_of s);
         live := delete n (live s); closing := S (closing s) |}
  | None => s
  end.

Definition return_permit (s : System) : System :=
  match closing s with
  | S n => {| inner_of := drop_permit (inner_of s); live := live s; closing := n |}
  | O => s
  end.

(** The steps of the system, in any order. *)
Inductive limiter_step (self : InMemoryRateLimit) : System -> System -> Prop :=
| step_connect addr app s : limiter_step self s (connect self addr app s)
| step_drop n s : limiter_step self s (drop_ticket self n s)
| step_return s : limiter_step self s (return_permit s).

(** Steps in which no application limit rejects a connection. *)
Inductive admitting_step (self : InMemoryRateLimit) : System -> System -> Prop :=
| admit_connect addr app s :
    (try_acquire self addr app (inner_of s)).1 <> Err (Limit "App limit exceeded") ->
    admitting_step self s (connect self addr app s)
| admit_drop n s : admitting_step self s (drop_ticket self n s)
| admit_return s : admitting_step self s (return_permit s).

(** ** Counting tickets *)

Definition of_addr (a : IpAddr) (l : list Ticket) : nat := length (filter (fun t => t_addr t = a) l).
Definition of_app (a : string) (l : list Ticket) : nat :=
  length (filter (fun t => t_app t = Some a) l).

Lemma of_addr_cons a t l : of_addr a (t :: l) = (if decide (t_addr t = a) then 1 else 0) + of_addr a l.
Proof. unfold of_addr. rewrite filter_cons. by case_decide. Qed.

Lemma of_app_cons a t l :
  of_app a (t :: l) = (if decide (t_app t = Some a) then 1 else 0) + of_app a l.
Proof. unfold of_app. rewrite filter_cons. by case_decide. Qed.

Lemma of_addr_delete a l n t :
  l !! n = Some t -> of_addr a l = (if decide (t_addr t = a) then 1 else 0) + of_addr a (delete n l).
Proof. intros H%delete_Permutation. rewrite <- of_addr_cons. unfold of_addr. by rewrite H at 1. Qed.

Lemma of_app_delete a l n t :
  l !! n = Some t ->
  of_app a l = (if decide (t_app t = Some a) then 1 else 0) + of_app a (delete n l).
Proof. intros H%delete_Permutation. rewrite <- of_app_cons. unfold of_app. by rewrite H at 1. Qed.

Lemma get_or_0_insert {K} `{Countable K} (m : gmap K nat) k n k' :
  get_or_0 (<[k := n]> m) k' = if decide (k = k') then n else get_or_0 m k'.
Proof. unfold get_or_0. rewrite lookup_insert. by case_decide. Qed.

Lemma get_or_0_release {K} `{Countable K} (m : gmap K nat) k k' :
  get_or_0 (release_count k m) k' = if decide (k = k') then pred (get_or_0 m k) else get_or_0 m k'.
Proof.
  unfold release_count. destruct (get_or_0 m k) as [|[|n]] eqn:E.
  3: rewrite get_or_0_insert; by case_decide.
  all: unfold get_or_0 in *; rewrite lookup_delete; by case_decide.
Qed.

(** Exactly the counts that are not zero are stored. *)
Definition no_zero {K} `{Countable K} (m : gmap K nat) : Prop :=
  forall k, m !! k <> Some 0.

Lemma no_zero_insert {K} `{Countable K} (m : gmap K nat) k n :
  no_zero m -> no_zero (<[k := S n]> m).
Proof. intros Hm k'. rewrite lookup_insert. case_decide; [done|apply Hm]. Qed.

Lemma no_zero_release {K} `{Countable K} (m : gmap K nat) k :
  no_zero m -> no_zero (release_count k m).
Proof.
  intros Hm. unfold release_count. destruct (get_or_0 m k) as [|[|n]].
  3: by apply no_zero_insert.
  all: intros k'; rewrite lookup_delete; case_decide; [done|apply Hm].
Qed.

(** ** The invariant *)

Record limiter_inv (self : InMemoryRateLimit) (limit : nat) (s : System) : Prop := {
  inv_permits : semaphore (inner_of s) + length (live s) + closing s = limit;
  inv_app a : get_or_0 (active_connections_per_app (inner_of s)) a = of_app a (live s);
  inv_app_limit a : of_app a (live s) <= get_or_0 (per_app_limit self) a;
  inv_ip a : 0 < per_ip_limit self ->
    of_addr a (live s) <= get_or_0 (active_connections_per_ip (inner_of s)) a <= per_ip_limit self;
  inv_stored :
    no_zero (active_connections_per_ip (inner_of s)) /\
    no_zero (active_connections_per_app (inner_of s))
}.

(** The count per address is the number of live connections. *)
Definition ip_exact (self : InMemoryRateLimit) (s : System) : Prop :=
  0 < per_ip_limit self -> forall a,
    get_or_0 (active_connections_per_ip (inner_of s)) a = of_addr a (live s).

(** What [try_acquire] does: one of four things. *)
Inductive acquired (self : InMemoryRateLimit) (addr : IpAddr) (app : option string) (i : Inner)
  : result Ticket RateLimitError * Inner -> Prop :=
| acq_global : semaphore i = 0 -> acquired self addr app i (Err (Limit "Global limit"), i)
| acq_ip : semaphore i <> 0 -> 0 < per_ip_limit self ->
    per_ip_limit self <= get_or_0 (active_connections_per_ip i) addr ->
    acquired self addr app i (Err (Limit "IP limit exceeded"), i)
| acq_app a m : semaphore i <> 0 -> app = Some a ->
    get_or_0 (per_app_limit self) a <= get_or_0 (active_connections_per_app i) a ->
    m = (if (0 <? per_ip_limit self)%nat
         then <[addr := S (get_or_0 (active_connections_per_ip i) addr)]> (active_connections_per_ip i)
         else active_connections_per_ip i) ->
    (0 < per_ip_limit self -> get_or_0 (active_connections_per_ip i) addr < per_ip_limit self) ->
    acquired self addr app i (Err (Limit "App limit exceeded"), set_ip m i)
| acq_ok m m' n : semaphore i = S n ->
    m = (if (0 <? per_ip_limit self)%nat
         then <[addr := S (get_or_0 (active_connections_per_ip i) addr)]> (active_connections_per_ip i)
         else active_connections_per_ip i) ->
    (0 < per_ip_limit self -> get_or_0 (active_connections_per_ip i) addr < per_ip_limit self) ->
    m' = match app with
         | Some a => <[a := S (get_or_0 (active_connections_per_app i) a)]> (active_connections_per_app i)
         | None => active_connections_per_app i
         end ->
    (forall a, app = Some a ->
       get_or_0 (active_connections_per_app i) a < get_or_0 (per_app_limit self) a) ->
    acquired self addr app i
      (Ok {| t_addr := addr; t_app := app |},
       {| active_connections_per_ip := m; active_connections_per_app := m'; semaphore := n |}).

Lemma try_acquire_cases self addr app i :
  acquired self addr app i (try_acquire self addr app i).
Proof.
  destruct i as [ips apps [|n]]; unfold try_acquire; cbn -[Nat.ltb].
  { by apply acq_global. }
  rewrite !Nat.add_1_r.
  destruct (Nat.ltb_spec 0 (per_ip_limit self)) as [Hip|Hip]; cbn -[Nat.ltb];
    [destruct (Nat.ltb_spec (per_ip_limit self) (S (get_or_0 ips addr))) as [Hl|Hl]; cbn -[Nat.ltb]|].
  { apply (acq_ip self addr app {| active_connections_per_ip := ips; active_connections_per_app := apps;
      semaphore := S n |}); simpl; lia. }
  all: destruct app as [a|]; [rewrite Nat.add_1_r;
    destruct (Nat.ltb_spec (get_or_0 (per_app_limit self) a) (S (get_or_0 apps a))) as [Ha|Ha]|].
  all: first
    [ apply (acq_app self addr _ {| active_connections_per_ip := ips; active_connections_per_app := apps;
        semaphore := S n |} a); simpl; first [done | lia | destruct (Nat.ltb_spec 0 (per_ip_limit self)); (done || lia)]
    | apply (acq_ok self addr _ {| active_connections_per_ip := ips; active_connections_per_app := apps;
        semaphore := S n |}); simpl; intros; simplify_eq;
      first [done | lia | destruct (Nat.ltb_spec 0 (per_ip_limit self)); (done || lia)] ].
Qed.

Lemma connect_inv self limit addr app s :
  limiter_inv self limit s -> limiter_inv self limit (connect self addr app s).
Proof.
  intros [Hp Ha Hal Hi [Hz Hz']]. unfold connect.
  destruct s as [i l c]. simpl in *.
  destruct (try_acquire_cases self addr app i)
    as [Hs|Hs Hl Hc|a m Hs -> Hc -> Hlt|m m' n Hs -> Hlt -> Hap]; [done|done|..].
  - split; simpl; [done|done|done| |].
    + intros b Hpos. specialize (Hi b Hpos). specialize (Hlt Hpos).
      destruct (Nat.ltb_spec 0 (per_ip_limit self)); [|lia].
      rewrite get_or_0_insert. case_decide; subst; lia.
    + split; [|done]. case_match; [by apply no_zero_insert|done].
  - split; simpl.
    + lia.
    + intros b. rewrite of_app_cons. simpl. destruct app as [a|]; simpl.
      * rewrite get_or_0_insert, Ha. repeat case_decide; simplify_eq; rewrite ?Ha; lia.
      * by rewrite Ha.
    + intros b. rewrite of_app_cons. simpl. specialize (Hal b). case_decide; [|done].
      subst. specialize (Hap b eq_refl). rewrite Ha in Hap. lia.
    + intros b Hpos. specialize (Hi b Hpos). specialize (Hlt Hpos).
      destruct (Nat.ltb_spec 0 (per_ip_limit self)); [|lia].
      rewrite get_or_0_insert, of_addr_cons. simpl. repeat case_decide; subst; try done; lia.
    + split; [case_match; [by apply no_zero_insert|done]|].
      destruct app; [by apply no_zero_insert|done].
Qed.

Lemma drop_ticket_inv self limit n s :
  limiter_inv self limit s -> limiter_inv self limit (drop_ticket self n s).
Proof.
  intros Hinv. unfold drop_ticket. destruct (live s !! n) as [[addr app]|] eqn:Hn; [|done].
  destruct Hinv as [Hp Ha Hal Hi [Hz Hz']], s as [i l c]. simpl in *.
  pose proof (of_addr_delete addr l n _ Hn) as Hd.
  pose proof (delete_Permutation _ _ _ Hn) as Hperm.
  pose proof (Permutation_length Hperm) as Hlen. simpl in Hlen.
  split; unfold release; simpl.
  - destruct app, (0 <? per_ip_limit self)%nat; simpl; lia.
  - intros b. pose proof (of_app_delete b l n _ Hn) as Hb. simpl in Hb.
    destruct app as [a|]; simpl.
    + rewrite get_or_0_release. destruct (0 <? per_ip_limit self)%nat; simpl; rewrite !Ha;
        repeat case_decide; simplify_eq; rewrite Hb in *; lia.
    + destruct (0 <? per_ip_limit self)%nat; simpl; by rewrite Ha, Hb.
  - intros b. specialize (Hal b). rewrite (of_app_delete b l n _ Hn) in Hal. lia.
  - intros b Hpos. specialize (Hi b Hpos) as Hib. pose proof (of_addr_delete b l n _ Hn) as Hb. simpl in Hb.
    destruct (Nat.ltb_spec 0 (per_ip_limit self)); [|lia].
    destruct app; simpl; rewrite get_or_0_release; case_decide; subst; simpl in *; 
      rewrite ?decide_True in Hb by done; rewrite ?decide_False in Hb by done; lia.
  - destruct app, (0 <? per_ip_limit self)%nat; simpl; split; auto using no_zero_release.
Qed.

Lemma return_permit_inv self limit s :
  limiter_inv self limit s -> limiter_inv self limit (return_permit s).
Proof.
  intros Hinv. unfold return_permit. destruct (closing s) eqn:Hc; [done|].
  destruct Hinv as [Hp Ha Hal Hi Hz]. split; simpl; auto. lia.
Qed.

Lemma System_new_inv self limit : limiter_inv self limit (System_new limit).
Proof.
  split; simpl; unfold get_or_0, no_zero; [lia|by intros; rewrite lookup_empty|..].
  - intros a. unfold of_app. simpl. lia.
  - intros a _. rewrite lookup_empty. unfold of_addr. simpl. lia.
  - split; intros; by rewrite lookup_empty.
Qed.

#[export] Hint Resolve connect_inv drop_ticket_inv return_permit_inv System_new_inv : boost.

Lemma step_inv self limit s s' :
  limiter_inv self limit s -> limiter_step self s s' -> limiter_inv self limit s'.
Proof. intros Hs Hstep. destruct Hstep; auto with boost. Qed.

(** However connections come and go, the limiter keeps its promises: never
    more live connections than the instance limit, never more from one address
    than the limit per address (when there is one), never more of an application
    than its limit; and every permit is free, held by a live connection or about
    to be returned. *)
Theorem limits_hold (self : InMemoryRateLimit) (limit : nat) (s : System) :
  star (limiter_step self) (System_new limit) s ->
  length (live s) <= limit /\
  (0 < per_ip_limit self -> forall a, of_addr a (live s) <= per_ip_limit self) /\
  (forall a, of_app a (live s) <= get_or_0 (per_app_limit self) a) /\
  semaphore (inner_of s) + length (live s) + closing s = limit.
Proof.
  intros Hs. assert (Hinv : limiter_inv self limit s).
  { eapply star_invariant; [|apply System_new_inv|exact Hs]. eauto using step_inv. }
  destruct Hinv as [Hp _ Hal Hi _]. split_and!; [lia| |done|done].
  intros Hpos a. destruct (Hi a Hpos). lia.
Qed.

(** ** Admission

    While no application limit has rejected anybody, the counts are exact, and a
    connection is admitted exactly when it fits all three limits. *)

Lemma admitting_exact self limit s s' :
  limiter_inv self limit s -> ip_exact self s -> admitting_step self s s' -> ip_exact self s'.
Proof.
  intros Hinv Hex Hstep Hpos b. specialize (Hex Hpos). destruct Hstep as [addr app s Hno|n s|s].
  - unfold connect. destruct s as [i l c]. simpl in *. revert Hno.
    destruct (try_acquire_cases self addr app i)
      as [Hs|Hs Hl Hc|a m Hs -> Hc -> Hlt|m m' n Hs -> Hlt -> Hap]; intros Hno; try done; simpl.
    destruct (Nat.ltb_spec 0 (per_ip_limit self)); [|lia].
    rewrite get_or_0_insert, of_addr_cons, !Hex. simpl. repeat case_decide; subst; done.
  - unfold drop_ticket. destruct (live s !! n) as [[addr app]|] eqn:Hn; [|done].
    pose proof (of_addr_delete b _ n _ Hn) as Hb. simpl in Hb. unfold release; simpl.
    destruct (Nat.ltb_spec 0 (per_ip_limit self)); [|lia].
    destruct app; simpl; rewrite get_or_0_release, !Hex; case_decide; subst; simpl in *; lia.
  - unfold return_permit. by destruct (closing s).
Qed.

Lemma admitting_is_step self s s' : admitting_step self s s' -> limiter_step self s s'.
Proof. intros []; constructor. Qed.

Lemma admitting_reachable self limit s :
  star (admitting_step self) (System_new limit) s -> limiter_inv self limit s /\ ip_exact self s.
Proof.
  intros Hs. eapply (star_invariant _ (fun s => limiter_inv self limit s /\ ip_exact self s));
    [|split; [apply System_new_inv|]|exact Hs].
  - intros x y [Hi He] Hstep.
    split; [eauto using step_inv, admitting_is_step|eauto using admitting_exact].
  - intros _ a. unfold get_or_0. simpl. by rewrite lookup_empty.
Qed.

(** The specification: what fits beside the live connections. *)
Definition fits_limits (self : InMemoryRateLimit) (limit : nat) (s : System) (addr : IpAddr)
    (app : option string) : Prop :=
  length (live s) + closing s < limit /\
  (0 < per_ip_limit self -> of_addr addr (live s) < per_ip_limit self) /\
  (forall a, app = Some a -> of_app a (live s) < get_or_0 (per_app_limit self) a).

(** C30: while no application limit has rejected a connection, a new connection is
    admitted exactly when it fits beside the live ones: a permit is free, its
    address has fewer live connections than the limit per address, and its
    application fewer than the application's limit. *)
Theorem admission_exact (self : InMemoryRateLimit) (limit : nat) (s : System) (addr : IpAddr)
    (app : option string) :
  star (admitting_step self) (System_new limit) s ->
  is_ok (try_acquire self addr app (inner_of s)).1 = true <-> fits_limits self limit s addr app.
Proof.
  intros Hs. apply admitting_reachable in Hs as [[Hp Ha _ _ _] Hex]. unfold fits_limits.
  destruct (try_acquire_cases self addr app (inner_of s))
    as [H0|H0 Hl Hc|a m H0 -> Hc _ Hlt|m m' n H0 _ Hlt _ Hap]; simpl; (split; [try done|]).
  - intros (? & _ & _). lia.
  - intros (_ & Hip & _). specialize (Hex Hl addr). specialize (Hip Hl). lia.
  - intros (_ & _ & Happ). specialize (Happ a eq_refl). rewrite Ha in Hc. lia.
  - intros _. split_and!; [lia| |].
    + intros Hpos. rewrite <- (Hex Hpos). auto.
    + intros a Happ. rewrite <- Ha. auto.
  - done.
Qed.

(** ** A rejection by the application limit keeps the count of the address *)

Definition attempt (self : InMemoryRateLimit) (addr : IpAddr) (app : string) (i : Inner) : Inner :=
  (try_acquire self addr (Some app) i).2.

Lemma attempt_full self addr app i :
  semaphore i <> 0 -> 0 < per_ip_limit self ->
  get_or_0 (per_app_limit self) app <= get_or_0 (active_connections_per_app i) app ->
  semaphore (attempt self addr app i) = semaphore i /\
  active_connections_per_app (attempt self addr app i) = active_connections_per_app i /\
  get_or_0 (active_connections_per_ip (attempt self addr app i)) addr =
    Nat.max (get_or_0 (active_connections_per_ip i) addr)
      (Nat.min (per_ip_limit self) (S (get_or_0 (active_connections_per_ip i) addr))).
Proof.
  intros Hsem Hpos Hfull. unfold attempt.
  destruct (try_acquire_cases self addr (Some app) i)
    as [H0|H0 Hl Hc|a m H0 [= <-] Hc -> Hlt|m m' n H0 _ Hlt _ Hap]; simpl; [done| | |].
  - split_and!; [done|done|lia].
  - destruct (Nat.ltb_spec 0 (per_ip_limit self)); [|lia]. split_and!; [done|done|].
    rewrite get_or_0_insert, decide_True by done. specialize (Hlt Hpos). lia.
  - specialize (Hap app eq_refl). lia.
Qed.

(** A client that keeps retrying while its application is at its limit locks
    its own address out: after as many rejected attempts as the limit per address,
    every further connection from the address is refused with [IP limit exceeded],
    for any application, although none of the attempts left a live connection. *)
Theorem retries_lock_out (self : InMemoryRateLimit) (addr : IpAddr) (app : string) (n : nat)
    (i : Inner) (app' : option string) :
  semaphore i <> 0 -> 0 < per_ip_limit self -> per_ip_limit self <= n ->
  get_or_0 (per_app_limit self) app <= get_or_0 (active_connections_per_app i) app ->
  (try_acquire self addr app' (Nat.iter n (attempt self addr app) i)).1 =
    Err (Limit "IP limit exceeded").
Proof.
  intros Hsem Hpos Hn Hfull.
  assert (H : semaphore (Nat.iter n (attempt self addr app) i) = semaphore i /\
    active_connections_per_app (Nat.iter n (attempt self addr app) i) = active_connections_per_app i /\
    Nat.min (per_ip_limit self) n <=
      get_or_0 (active_connections_per_ip (Nat.iter n (attempt self addr app) i)) addr).
  { clear Hn. induction n as [|n (IH1 & IH2 & IH3)]; [simpl; split_and!; auto; lia|].
    rewrite Nat.iter_succ. set (j := Nat.iter n _ i) in *.
    destruct (attempt_full self addr app j) as (E1 & E2 & E3);
      [by rewrite IH1|done|by rewrite IH2|]. rewrite E1, E2, E3. split_and!; [done|done|lia]. }
  destruct H as (H1 & _ & H3). set (j := Nat.iter n _ i) in *.
  destruct (try_acquire_cases self addr app' j)
    as [H0|H0 Hl Hc|a m H0 -> Hc -> Hlt|m m' k H0 _ Hlt _ Hap]; simpl; [|done|..].
  - congruence.
  - specialize (Hlt Hpos). lia.
  - specialize (Hlt Hpos). lia.
Qed.

(** ** Concrete limiters *)
Module RateLimitExamples.

Definition limiter : InMemoryRateLimit :=
  {| per_ip_limit := 2; per_app_limit := {["app" := 1]} |}.
Definition alice : IpAddr := IPv4 1 1 1 1.
Definition bob : IpAddr := IPv4 2 2 2 2.

(** Bob holds the only connection of the application. *)
Definition occupied : System := connect limiter bob (Some "app") (System_new 5).

Lemma limits_hold_witness : of_addr bob (live (connect limiter bob None occupied)) <= 2.
Proof.
  assert (Hs : star (limiter_step limiter) (System_new 5) (connect limiter bob None occupied)).
  { eapply star_snoc; [eapply star_snoc; [apply star_refl|]|]; apply step_connect. }
  destruct (limits_hold limiter 5 _ Hs) as (_ & H & _). apply (H ltac:(simpl; lia)).
Defined.

Lemma admission_exact_witness :
  is_ok (try_acquire limiter bob None (inner_of occupied)).1 = true <->
    fits_limits limiter 5 occupied bob None.
Proof.
  apply (admission_exact limiter 5 occupied bob None).
  eapply star_snoc; [apply star_refl|]. apply admit_connect. by vm_compute.
Defined.

Lemma retries_lock_out_witness :
  of_addr alice (live occupied) = 0 /\
  (try_acquire limiter alice None
     (Nat.iter 2 (attempt limiter alice "app") (inner_of occupied))).1 =
    Err (Limit "IP limit exceeded").
Proof.
  split; [reflexivity|].
  apply (retries_lock_out limiter alice "app" 2 (inner_of occupied) None);
    vm_compute; lia.
Defined.

End RateLimitExamples.
