(* ===== verification/RedisRateLimit.v ===== *)
(** * The Redis rate limiter

    [RedisRateLimit] of crates/websocket-proxy/src/rate_limit.rs: the counts live in
    Redis, one key per address (or application) and instance; instances announce
    themselves with heartbeat keys, and each instance removes the keys of
    instances without one.  Redis answers anything: its commands are requests with
    arbitrary replies. *)
From S2P Require Import Prelude Async Net RateLimit.

Local Open Scope Z_scope.
Local Open Scope prog_scope.

Section Redis.
(** The error type of the redis crate, and the order in which a [HashSet] is
    iterated. *)
Context {RedisError : Set} (iterate : gset string -> list string).

(** ** Commands *)

Inductive RedisCall : Set :=
| GetConnection
| Keys (pattern : string)
| Get (key : string)
| Incr (key : string)
| Decr (key : string)
| Del (key : string)
| SetEx (key : string) (value ttl : Z).

#[global] Instance RedisCall_eq_dec : EqDecision RedisCall.
Proof. solve_decision. Defined.

Definition RedisReply (c : RedisCall) : Set :=
  match c with
  | GetConnection | Del _ | SetEx _ _ _ => result unit RedisError
  | Keys _ => result (list string) RedisError
  | Get _ | Incr _ | Decr _ => result Z RedisError
  end.

Inductive RedisObs : Set := SpawnBackgroundTask.

(** ** State *)

Record RedisRateLimit : Set := {
  r_instance_limit : nat;
  r_per_ip_limit : Z;
  r_per_app_limit : gmap string Z;
  key_prefix : string;
  instance_id : string;
  heartbeat_interval : Z;
  heartbeat_ttl : Z
}.

Record RedisState : Set := { free_permits : nat; background_tasks_started : bool }.

Abbreviation RM A := (prog RedisReply RedisObs RedisState A).

(** The limiter that [RedisRateLimit::new] builds. *)
Definition RedisRateLimit_of (instance_limit : nat) (per_ip_limit : Z)
    (per_app_limit : gmap string Z) (prefix uuid : string) : RedisRateLimit :=
  {| r_instance_limit := instance_limit; r_per_ip_limit := per_ip_limit;
     r_per_app_limit := per_app_limit; key_prefix := prefix; instance_id := uuid;
     heartbeat_interval := 10; heartbeat_ttl := 30 |}.

Definition RedisState_new (instance_limit : nat) : RedisState :=
  {| free_permits := instance_limit; background_tasks_started := false |}.

(** ** Keys *)

Definition ip_instance_key (self : RedisRateLimit) (addr : IpAddr) : string :=
  (key_prefix self ++ ":ip:" ++ show_ip addr ++ ":instance:" ++ instance_id self ++ ":connections")%string.

Definition app_instance_key (self : RedisRateLimit) (app : string) : string :=
  (key_prefix self ++ ":app:" ++ app ++ ":instance:" ++ instance_id self ++ ":connections")%string.

Definition instance_heartbeat_key (self : RedisRateLimit) : string :=
  (key_prefix self ++ ":instance:" ++ instance_id self ++ ":heartbeat")%string.

(** ** Heartbeat and cleanup *)

Section Operations.
Context (self : RedisRateLimit).

(** [now] is the time in seconds since 1970, rounded down: a clock before 1970 is a
    panic ([duration_since(UNIX_EPOCH).unwrap()]). *)
Definition update_heartbeat (now : Z) : RM (result unit RedisError) :=
  let*? _c := await GetConnection in
  if now <? 0 then Panic "called `Result::unwrap()` on an `Err` value: SystemTimeError" else
  let*? _s := await (SetEx (instance_heartbeat_key self) now (heartbeat_ttl self)) in
  Ret (Ok tt).

Definition register_instance (now : Z) : RM (result unit RedisError) :=
  let*? _c := update_heartbeat now in Ret (Ok tt).

(** [for key in keys { conn.del(&key)?; }] *)
Fixpoint delete_keys (keys : list string) : RM (result unit RedisError) :=
  match keys with
  | [] => Ret (Ok tt)
  | key :: keys => let*? _c := await (Del key) in delete_keys keys
  end.

Definition ip_pattern (id : string) : string :=
  (key_prefix self ++ ":ip:*:instance:" ++ id ++ ":connections")%string.
Definition app_pattern (id : string) : string :=
  (key_prefix self ++ ":app:*:instance:" ++ id ++ ":connections")%string.

Definition cleanup_instance (id : string) : RM (result unit RedisError) :=
  let*? ip_instance_keys := await (Keys (ip_pattern id)) in
  let*? app_instance_keys := await (Keys (app_pattern id)) in
  let*? _i := delete_keys ip_instance_keys in
  let*? _a := delete_keys app_instance_keys in
  Ret (Ok tt).

(** [key.split(':').nth(n)] over a list of keys. *)
Definition fields (n : nat) (keys : list string) : list string :=
  omap (fun key => split colon key !! n) keys.

(** One of the two loops over the instances that have counters. *)
Fixpoint cleanup_loop (active ids : list string) : RM (result unit RedisError) :=
  match ids with
  | [] => Ret (Ok tt)
  | id :: ids =>
      if decide (id = instance_id self) then cleanup_loop active ids
      else if decide (id ∈ active) then cleanup_loop active ids
      else let*? _c := cleanup_instance id in cleanup_loop active ids
  end.

Definition heartbeat_pattern : string := (key_prefix self ++ ":instance:*:heartbeat")%string.

Definition cleanup_stale_instances : RM (result unit RedisError) :=
  let*? _c := await GetConnection in
  let*? instance_heartbeats := await (Keys heartbeat_pattern) in
  let active_instance_ids := fields 2 instance_heartbeats in
  let*? ip_instance_keys := await (Keys (ip_pattern "*")) in
  let instance_ids_with_ip_connections : gset string := list_to_set (fields 4 ip_instance_keys) in
  let*? app_instance_keys := await (Keys (app_pattern "*")) in
  let instance_ids_with_app_connections : gset string := list_to_set (fields 4 app_instance_keys) in
  let*? _i := cleanup_loop active_instance_ids (iterate instance_ids_with_ip_connections) in
  let*? _a := cleanup_loop active_instance_ids (iterate instance_ids_with_app_connections) in
  Ret (Ok tt).

(** One round of the background task, up to its sleep; errors are logged, a panic
    ends the task. *)
Definition background_round (now : Z) : RM unit :=
  update_heartbeat now ;; cleanup_stale_instances ;; Ret tt.

Definition start_background_tasks : RM unit :=
  let* started := atomic (fun s => (background_tasks_started s,
    {| free_permits := free_permits s; background_tasks_started := true |})) in
  if started : bool then Ret tt else emit SpawnBackgroundTask.

(** ** Acquire and release *)

Definition unwrap_or_0 (r : result Z RedisError) : Z := match r with Ok n => n | Err _ => 0 end.

Fixpoint total_connections (keys : list string) (total : Z) : RM Z :=
  match keys with
  | [] => Ret total
  | key :: keys =>
      let* r := await (Get key) in total_connections keys (usize_add total (unwrap_or_0 r))
  end.

Definition operation_failed : RateLimitError := Limit "Redis operation failed".

(** The check and the increment for the address; for the application. *)
Definition count_ip (addr : IpAddr) : RM (result Z RateLimitError) :=
  if 0 <? r_per_ip_limit self then
    let* keys := await (Keys (key_prefix self ++ ":ip:" ++ show_ip addr ++ ":instance:*:connections")%string) in
    match keys with
    | Err _ => Ret (Err operation_failed)
    | Ok keys =>
        let* total := total_connections keys 0 in
        if r_per_ip_limit self <=? total then
          Ret (Err (Limit ("Per-IP connection limit reached for " ++ show_ip addr)%string))
        else
          let* r := await (Incr (ip_instance_key self addr)) in
          match r with
          | Ok count => Ret (Ok count)
          | Err _ => Ret (Err operation_failed)
          end
    end
  else Ret (Ok 0).

Definition count_app (app : option string) : RM (result Z RateLimitError) :=
  match app with
  | Some app =>
      let* keys := await (Keys (key_prefix self ++ ":app:" ++ app ++ ":instance:*:connections")%string) in
      match keys with
      | Err _ => Ret (Err operation_failed)
      | Ok keys =>
          let* total := total_connections keys 0 in
          if default 0 (r_per_app_limit self !! app) <=? total then
            Ret (Err (Limit ("Per-app connection limit reached for " ++ app)%string))
          else
            let* r := await (Incr (app_instance_key self app)) in
            match r with
            | Ok count => Ret (Ok count)
            | Err _ => Ret (Err operation_failed)
            end
      end
  | None => Ret (Ok 0)
  end.

(** [try_acquire_owned], and the drop of the permit. *)
Definition take_permit : RM bool :=
  atomic (fun s =>
    match free_permits s with
    | O => (false, s)
    | S n => (true, {| free_permits := n; background_tasks_started := background_tasks_started s |})
    end).

Definition give_permit : RM unit :=
  modify (fun s => {| free_permits := S (free_permits s);
                      background_tasks_started := background_tasks_started s |}).

Definition redis_try_acquire (addr : IpAddr) (app : option string)
  : RM (result Ticket RateLimitError) :=
  start_background_tasks ;;
  let* permit := take_permit in
  if negb permit then
    Ret (Err (Limit "Maximum connection limit reached for this server instance"))
  else
    let* conn := await GetConnection in
    match conn with
    | Err _ => give_permit ;; Ret (Err (Limit "Redis connection failed"))
    | Ok _ =>
        let* ip := count_ip addr in
        match ip with
        | Err e => give_permit ;; Ret (Err e)
        | Ok _ =>
            let* a := count_app app in
            match a with
            | Err e => give_permit ;; Ret (Err e)
            | Ok _ => Ret (Ok {| t_addr := addr; t_app := app |})
            end
        end
    end.

Definition redis_release (addr : IpAddr) (app : option string) : RM unit :=
  let* conn := await GetConnection in
  match conn with
  | Ok _ =>
      (if 0 <? r_per_ip_limit self
       then await (Decr (ip_instance_key self addr)) ;; Ret tt
       else Ret tt) ;;
      match app with
      | Some app => await (Decr (app_instance_key self app)) ;; Ret tt
      | None => Ret tt
      end
  | Err _ => Ret tt
  end.

(** [Ticket::drop]: the release, then the permit. *)
Definition redis_drop (t : Ticket) : RM unit :=
  redis_release (t_addr t) (t_app t) ;; give_permit.

End Operations.

(** [RedisRateLimit::new]: the URL may be refused, too many permits are a panic of
    the semaphore; a failure of the first heartbeat is only logged. *)
Definition RedisRateLimit_new (open : result unit RedisError) (instance_limit : nat)
    (per_ip_limit : Z) (per_app_limit : gmap string Z) (prefix uuid : string) (now : Z)
  : RM (result RedisRateLimit RedisError) :=
  match open with
  | Err e => Ret (Err e)
  | Ok _ =>
      match Semaphore_new instance_limit with
      | Panicked m => Panic m
      | Returned permits =>
          let rate_limiter :=
            RedisRateLimit_of permits per_ip_limit per_app_limit prefix uuid in
          register_instance rate_limiter now ;;
          Ret (Ok rate_limiter)
      end
  end.

End Redis.

Section RedisProps.
Context {RedisError : Set} (iterate : gset string -> list string) (self : RedisRateLimit).

Abbreviation Ev := (event (@RedisReply RedisError) RedisObs RedisState).
Abbreviation RM A := (prog (@RedisReply RedisError) RedisObs RedisState A).

(** ** Instance ids in keys *)

Lemma key_fields prefix kind x id :
  has_char colon prefix = false -> has_char colon kind = false -> has_char colon id = false ->
  split colon (prefix ++ String colon (kind ++ String colon (x ++ String colon ("instance" ++
    String colon (id ++ String colon "connections")))))%string =
  prefix :: kind :: split colon x ++ ["instance"; id; "connections"].
Proof.
  intros Hp Hk Hi.
  rewrite split_app_sep by done. f_equal. rewrite split_app_sep by done. f_equal.
  rewrite split_app. f_equal. rewrite split_app_sep by done. f_equal.
  by rewrite split_app_sep.
Qed.

Lemma print_dec_no_colon x : is_octet x -> has_char colon (print_dec x) = false.
Proof.
  intros H%octets_spec.
  assert (Hall : forallb (fun x => negb (has_char colon (print_dec x))) octets = true) by by vm_compute.
  rewrite forallb_forall in Hall. apply list_elem_of_In, Hall in H. by apply negb_true_iff.
Qed.

Lemma show_v4_no_colon a b c d :
  is_octet a -> is_octet b -> is_octet c -> is_octet d ->
  has_char colon (show_v4 a b c d) = false.
Proof. intros. unfold show_v4. by rewrite !has_char_app, !print_dec_no_colon. Qed.

(** The fifth field of a counter key is the id of the instance that wrote it, for an
    IPv4 address and for an application without a colon. *)
Lemma ip_key_instance inst a b c d :
  has_char colon (key_prefix inst) = false -> has_char colon (instance_id inst) = false ->
  is_octet a -> is_octet b -> is_octet c -> is_octet d ->
  split colon (ip_instance_key inst (IPv4 a b c d)) !! 4%nat = Some (instance_id inst).
Proof.
  intros Hp Hi Ha Hb Hc Hd.
  assert (Hkey : split colon (ip_instance_key inst (IPv4 a b c d)) = key_prefix inst :: "ip" ::
    split colon (show_v4 a b c d) ++ ["instance"; instance_id inst; "connections"])
    by exact (key_fields (key_prefix inst) "ip" (show_v4 a b c d) (instance_id inst) Hp eq_refl Hi).
  by rewrite Hkey, split_no_sep by by apply show_v4_no_colon.
Qed.

Lemma app_key_instance inst app :
  has_char colon (key_prefix inst) = false -> has_char colon (instance_id inst) = false ->
  has_char colon app = false ->
  split colon (app_instance_key inst app) !! 4%nat = Some (instance_id inst).
Proof.
  intros Hp Hi Ha.
  assert (Hkey : split colon (app_instance_key inst app) = key_prefix inst :: "app" ::
    split colon app ++ ["instance"; instance_id inst; "connections"])
    by exact (key_fields (key_prefix inst) "app" app (instance_id inst) Hp eq_refl Hi).
  by rewrite Hkey, split_no_sep.
Qed.

(** ** Cleanup deletes only what belongs to stale instances *)

Definition deletions (t : list Ev) : list string :=
  omap (fun v => match v with EvAwait (Del k) _ => Some k | _ => None end) t.

(** Each deletion has a reason: an instance that is neither this one nor active,
    for which Redis listed the key. *)
Definition justified (active : list string) (t : list Ev) : Prop :=
  forall k, k ∈ deletions t -> exists id keys,
    id <> instance_id self /\ (id ∉ active) /\ k ∈ keys /\
    (EvAwait (Keys (ip_pattern self id)) (Ok keys) ∈ t \/
     EvAwait (Keys (app_pattern self id)) (Ok keys) ∈ t).

Lemma deletions_app t t' : deletions (t ++ t') = deletions t ++ deletions t'.
Proof. apply omap_app. Qed.

Lemma justified_app active t t' :
  justified active t -> justified active t' -> justified active (t ++ t').
Proof.
  intros H H' k. rewrite deletions_app, elem_of_app.
  intros [(id & ks & ? & ? & ? & ?)%H|(id & ks & ? & ? & ? & ?)%H']; exists id, ks; set_solver.
Qed.

Definition no_panic {A} (o : outcome A) : Prop := exists a, o = Returned a.

Lemma delete_keys_deletes keys :
  every (delete_keys (RedisError := RedisError) keys)
    (fun t o => no_panic o /\ forall k, k ∈ deletions t -> k ∈ keys).
Proof.
  induction keys as [|key keys IH]; cbn [delete_keys].
  { split; [by eexists|]. by intros k Hk. }
  intros [[]|e]; cbn [bind].
  - eapply every_mono; [|exact IH]. intros t o [Ho Ht]. split; [done|].
    intros k. cbn. rewrite !elem_of_cons. intros [->|?]; auto.
  - split; [by eexists|]. intros k. cbn. rewrite list_elem_of_singleton. intros ->. left.
Qed.

Lemma cleanup_instance_justified active id :
  id <> instance_id self -> id ∉ active ->
  every (cleanup_instance (RedisError := RedisError) self id) (fun t o => no_panic o /\ justified active t).
Proof.
  intros Hid Hact. unfold cleanup_instance.
  intros [ips|e]; cbn [bind]; [|split; [by eexists|]; intros k Hk; inversion Hk].
  intros [apps|e]; cbn [bind]; [|split; [by eexists|]; intros k Hk; inversion Hk].
  assert (Hend : forall d : list Ev, (forall k, k ∈ deletions d -> k ∈ ips \/ k ∈ apps) ->
    justified active (EvAwait (Keys (ip_pattern self id)) (Ok ips) ::
                      EvAwait (Keys (app_pattern self id)) (Ok apps) :: d)).
  { intros d Hd k Hk. destruct (Hd k Hk) as [Hin|Hin]; [exists id, ips|exists id, apps];
      (split_and!; [done|done|done|set_solver]). }
  eapply every_bind; [apply delete_keys_deletes|by intros t m [[? ?] _]|].
  intros t [[]|e] [_ Ht]; cbn [bind]; [|split; [by eexists|]; apply Hend; intros k;
    rewrite app_nil_r; auto].
  eapply every_bind; [apply delete_keys_deletes|by intros t' m [[? ?] _]|].
  intros t' [[]|e] [_ Ht']; (split; [by eexists|]); rewrite app_nil_r; apply Hend; intros k;
    rewrite deletions_app, elem_of_app; intros [?|?]; auto.
Qed.

Lemma cleanup_loop_justified active ids :
  every (cleanup_loop (RedisError := RedisError) self active ids)
    (fun t o => no_panic o /\ justified active t).
Proof.
  induction ids as [|id ids IH]; cbn [cleanup_loop].
  { split; [by eexists|]. intros k Hk. by apply elem_of_nil in Hk. }
  case_decide; [done|]. case_decide; [done|].
  eapply every_bind; [by apply cleanup_instance_justified|by intros t m [[? ?] _]|].
  intros t [[]|e] [_ Ht]; cbn [bind].
  - eapply every_mono; [|exact IH]. intros t' o [Ho Ht']. split; [done|by apply justified_app].
  - split; [by eexists|]. by rewrite app_nil_r.
Qed.

(** C32: the cleanup never panics and deletes a key only when Redis listed it
    under an instance id that is not this instance's and that has no heartbeat
    key among those that this cleanup has listed, whatever the keys look like and
    in whatever order the instances are visited. *)
Theorem cleanup_spares_live_instances :
  every (cleanup_stale_instances (RedisError := RedisError) iterate self) (fun t o =>
    no_panic o /\
    forall k, k ∈ deletions t -> exists beats id keys,
      EvAwait (Keys (heartbeat_pattern self)) (Ok beats) ∈ t /\
      id <> instance_id self /\ (id ∉ fields 2 beats) /\ k ∈ keys /\
      (EvAwait (Keys (ip_pattern self id)) (Ok keys) ∈ t \/
       EvAwait (Keys (app_pattern self id)) (Ok keys) ∈ t)).
Proof.
  unfold cleanup_stale_instances.
  assert (Hnil : forall (t : list Ev) (P : string -> Prop), deletions t = [] ->
    forall k, k ∈ deletions t -> P k) by (intros t P -> k Hk; by apply elem_of_nil in Hk).
  intros [[]|e]; cbn [bind]; [|split; [by eexists|]; by apply Hnil].
  intros [beats|e]; cbn [bind]; [|split; [by eexists|]; by apply Hnil]. cbn zeta.
  intros [ips|e]; cbn [bind]; [|split; [by eexists|]; by apply Hnil].
  intros [apps|e]; cbn [bind]; [|split; [by eexists|]; by apply Hnil].
  eapply every_mono with (Q := fun t o => no_panic o /\ justified (fields 2 beats) t).
  { intros t o [Ho Ht]. split; [done|]. intros k Hk.
    destruct (Ht k Hk) as (id & ks & ? & ? & ? & Hin). exists beats, id, ks.
    split_and!; [set_solver|done|done|done|destruct Hin; [left|right]; set_solver]. }
  eapply every_bind; [apply cleanup_loop_justified|by intros t m [[? ?] _]|].
  intros t [[]|e] [_ Ht]; cbn [bind]; [|split; [by eexists|]; by rewrite app_nil_r].
  eapply every_bind; [apply cleanup_loop_justified|by intros t' m [[? ?] _]|].
  intros t' [[]|e] [_ Ht']; (split; [by eexists|]); rewrite app_nil_r; by apply justified_app.
Qed.

(** ** Cleanup removes what dead instances left *)

(** The keys listed for the instance [id] have all been deleted. *)
Definition removed (id : string) (t : list Ev) : Prop :=
  exists ips apps : list string,
    EvAwait (Keys (ip_pattern self id)) (Ok ips) ∈ t /\
    EvAwait (Keys (app_pattern self id)) (Ok apps) ∈ t /\
    forall k, k ∈ ips ++ apps -> EvAwait (Del k) (Ok tt) ∈ t.

Lemma removed_mono id t t' : (forall v, v ∈ t -> v ∈ t') -> removed id t -> removed id t'.
Proof. intros Ht (ips & apps & H1 & H2 & H3). exists ips, apps. split_and!; auto. Qed.

Lemma delete_keys_all keys :
  every (delete_keys (RedisError := RedisError) keys)
    (fun t o => no_panic o /\ (o = Returned (Ok tt) -> forall k, k ∈ keys -> EvAwait (Del k) (Ok tt) ∈ t)).
Proof.
  induction keys as [|key keys IH]; cbn [delete_keys].
  { split; [by eexists|]. intros _ k Hk. by apply elem_of_nil in Hk. }
  intros [[]|e]; cbn [bind]; [|by split; [eexists|]].
  eapply every_mono; [|exact IH]. intros t o [Ho Ht]. split; [done|].
  intros Hok k [->|Hk]%elem_of_cons; [left|right; by apply Ht].
Qed.

Lemma cleanup_instance_removes id :
  every (cleanup_instance (RedisError := RedisError) self id)
    (fun t o => no_panic o /\ (o = Returned (Ok tt) -> removed id t)).
Proof.
  unfold cleanup_instance.
  intros [ips|e]; cbn [bind]; [|by split; [eexists|]].
  intros [apps|e]; cbn [bind]; [|by split; [eexists|]].
  eapply every_bind; [apply delete_keys_all|by intros t m [[? ?] _]|].
  intros t [[]|e] [_ Ht]; cbn [bind]; [|by split; [eexists|]].
  eapply every_bind; [apply delete_keys_all|by intros t' m [[? ?] _]|].
  intros t' [[]|e] [_ Ht']; cbn [bind]; (split; [by eexists|]); [|done]. intros _.
  specialize (Ht eq_refl). specialize (Ht' eq_refl). exists ips, apps.
  split_and!; [left|right; left|]. intros k [Hk|Hk]%elem_of_app; do 2 right; apply elem_of_app; [left|right; apply elem_of_app; left]; auto.
Qed.

(** The first reply of a trace, and the rest. *)
Lemma trace_inj (c : RedisCall) (r r' : RedisReply c) (t t' : list Ev) :
  EvAwait c r :: t = EvAwait c r' :: t' -> r = r' /\ t = t'.
Proof.
  intros Heq. injection Heq as Hr Ht. split; [|done].
  by apply (Eqdep_dec.inj_pair2_eq_dec _ (fun x y => decide (x = y))) in Hr.
Qed.

Lemma cleanup_loop_removes active ids :
  every (cleanup_loop (RedisError := RedisError) self active ids) (fun t o => no_panic o /\
    (o = Returned (Ok tt) -> forall id, id ∈ ids -> id <> instance_id self -> id ∉ active -> removed id t)).
Proof.
  induction ids as [|id ids IH]; cbn [cleanup_loop].
  { split; [by eexists|]. intros _ id Hid. by apply elem_of_nil in Hid. }
  assert (Hskip : id = instance_id self \/ id ∈ active -> every (cleanup_loop self active ids) (fun t o => no_panic o /\
    (o = Returned (Ok tt) -> forall id', id' ∈ id :: ids -> id' <> instance_id self -> id' ∉ active -> removed id' t))).
  { intros Hid. eapply every_mono; [|exact IH]. intros t o [Ho Ht]. split; [done|].
    intros Hok id' [->|Hin]%elem_of_cons; [naive_solver|by apply Ht]. }
  case_decide; [by apply Hskip; left|]. case_decide; [by apply Hskip; right|].
  eapply every_bind; [apply cleanup_instance_removes|by intros t m [[? ?] _]|].
  intros t [[]|e] [_ Ht]; cbn [bind]; [|by split; [eexists|]]. specialize (Ht eq_refl).
  eapply every_mono; [|exact IH]. intros t' o [Ho Ht']. split; [done|].
  intros Hok id' [->|Hin]%elem_of_cons Hne Hact; [by eapply removed_mono; [|exact Ht]; set_solver|].
  eapply removed_mono; [|by apply Ht']. set_solver.
Qed.

(** C34: a cleanup that succeeds removes what a dead instance left: when Redis lists
    a counter of another instance, of an IPv4 address or of an application without
    a colon in its name, and no heartbeat of that instance, then all counters that
    Redis lists for its id are deleted.  This needs a key prefix and an id without a
    colon, since the id is read as the fifth field of the key; for IPv6 addresses
    it is not recovered ([ipv6_counters_survive_cleanup]). *)
Theorem cleanup_removes_dead_instances (dead : RedisRateLimit) :
  (forall X, iterate X ≡ₚ elements X) ->
  key_prefix dead = key_prefix self -> instance_id dead <> instance_id self ->
  has_char colon (key_prefix self) = false -> has_char colon (instance_id dead) = false ->
  every (cleanup_stale_instances (RedisError := RedisError) iterate self) (fun t o =>
    forall beats ips apps t',
      t = EvAwait GetConnection (Ok tt) :: EvAwait (Keys (heartbeat_pattern self)) (Ok beats) ::
          EvAwait (Keys (ip_pattern self "*")) (Ok ips) ::
          EvAwait (Keys (app_pattern self "*")) (Ok apps) :: t' ->
      o = Returned (Ok tt) -> instance_id dead ∉ fields 2 beats ->
      (exists a b c d, is_octet a /\ is_octet b /\ is_octet c /\ is_octet d /\
         ip_instance_key dead (IPv4 a b c d) ∈ ips) \/
      (exists app, has_char colon app = false /\ app_instance_key dead app ∈ apps) ->
      removed (instance_id dead) t').
Proof.
  intros Hit Hpre Hne Hp Hi. rewrite <- Hpre in Hp. unfold cleanup_stale_instances.
  intros [[]|e]; cbn [bind]; [|by intros ? ? ? ? ?%(f_equal length)].
  intros [beats|e]; cbn [bind]; [|by intros ? ? ? ? ?%(f_equal length)]. cbn zeta.
  intros [ips|e]; cbn [bind]; [|by intros ? ? ? ? ?%(f_equal length)].
  intros [apps|e]; cbn [bind]; [|by intros ? ? ? ? _ [=]].
  assert (Hin : forall keys k, k ∈ keys -> split colon k !! 4%nat = Some (instance_id dead) ->
    instance_id dead ∈ iterate (list_to_set (fields 4 keys))).
  { intros keys k Hk Hid. rewrite Hit, elem_of_elements, elem_of_list_to_set. apply list_elem_of_omap. eauto. }
  eapply every_bind; [apply cleanup_loop_removes|by intros t m [[? ?] _]|].
  intros t [[]|e] [_ Ht]; cbn [bind]; [|by intros ? ? ? ? _ [=]]. specialize (Ht eq_refl).
  eapply every_bind; [apply cleanup_loop_removes|by intros t' m [[? ?] _]|].
  intros t' [[]|e] [_ Ht']; cbn [bind]; [|by intros ? ? ? ? _ [=]]. specialize (Ht' eq_refl).
  intros ? ? ? ? [_ ([= <-] & ([= <-] & ([= <-] & <-)%trace_inj)%trace_inj)%trace_inj]%trace_inj _ Hact [(a & b & c & d & ? & ? & ? & ? & Hk)|(app & ? & Hk)];
    rewrite app_nil_r.
  - eapply removed_mono, (Ht (instance_id dead)); [set_solver| |done|done].
    by eapply Hin, ip_key_instance.
  - eapply removed_mono, (Ht' (instance_id dead)); [set_solver| |done|done].
    by eapply Hin, app_key_instance.
Qed.

(** ** What acquiring counts, releasing discounts *)

(** The keys that a connection is counted under. *)
Definition counted_keys (addr : IpAddr) (app : option string) : list string :=
  (if 0 <? r_per_ip_limit self then [ip_instance_key self addr] else []) ++
  match app with Some app => [app_instance_key self app] | None => [] end.

Definition increments (t : list Ev) : list string :=
  omap (fun v => match v with EvAwait (Incr k) _ => Some k | _ => None end) t.
Definition decrements (t : list Ev) : list string :=
  omap (fun v => match v with EvAwait (Decr k) _ => Some k | _ => None end) t.

Lemma increments_app t t' : increments (t ++ t') = increments t ++ increments t'.
Proof. apply omap_app. Qed.
Lemma decrements_app t t' : decrements (t ++ t') = decrements t ++ decrements t'.
Proof. apply omap_app. Qed.

(** The counters a part of [try_acquire] incremented; it decrements nothing and
    keeps the limiter's own state. *)
Definition counts {A} (keys : list string) (t : list Ev) (o : outcome (result A RateLimitError)) : Prop :=
  no_panic o /\ decrements t = [] /\ (forall a, o = Returned (Ok a) -> increments t = keys).

Lemma total_connections_quiet keys total :
  every (total_connections (RedisError := RedisError) keys total)
    (fun t o => no_panic o /\ increments t = [] /\ decrements t = []).
Proof.
  revert total. induction keys as [|key keys IH]; intros total; cbn [total_connections].
  { split; [by eexists|done]. }
  intros r. cbn [bind]. eapply every_mono; [|apply IH]. by intros t o (? & ? & ?).
Qed.

Lemma total_connections_keeps keys total :
  keeps (total_connections (RedisError := RedisError) keys total).
Proof. revert total. induction keys; intros total; [done|]. intros r. apply IHkeys. Qed.

Lemma count_ip_counts addr :
  every (count_ip (RedisError := RedisError) self addr)
    (counts (if 0 <? r_per_ip_limit self then [ip_instance_key self addr] else [])).
Proof.
  unfold count_ip. destruct (0 <? r_per_ip_limit self); [|split_and!; [by eexists|done|done]].
  intros [keys|e]; cbn [bind]; [|split_and!; [by eexists|done|done]].
  eapply every_bind; [apply total_connections_quiet|by intros t m [[? ?] _]|].
  intros t total (_ & Hi & Hd). destruct (_ <=? _).
  { split_and!; [by eexists| |done]. cbn. by rewrite app_nil_r. }
  intros [count|e]; cbn [bind]; (split_and!; [by eexists| |]); cbn;
    rewrite ?decrements_app, ?increments_app, ?Hi, ?Hd; try done.
Qed.

Lemma count_app_counts app :
  every (count_app (RedisError := RedisError) self app)
    (counts (match app with Some app => [app_instance_key self app] | None => [] end)).
Proof.
  unfold count_app. destruct app as [app|]; [|split_and!; [by eexists|done|done]].
  intros [keys|e]; cbn [bind]; [|split_and!; [by eexists|done|done]].
  eapply every_bind; [apply total_connections_quiet|by intros t m [[? ?] _]|].
  intros t total (_ & Hi & Hd). destruct (_ <=? _).
  { split_and!; [by eexists| |done]. cbn. by rewrite app_nil_r. }
  intros [count|e]; cbn [bind]; (split_and!; [by eexists| |]); cbn;
    rewrite ?decrements_app, ?increments_app, ?Hi, ?Hd; try done.
Qed.

Lemma redis_try_acquire_counts addr app :
  every (redis_try_acquire (RedisError := RedisError) self addr app) (fun t o =>
    counts (counted_keys addr app) t o /\
    forall tk, o = Returned (Ok tk) -> tk = {| t_addr := addr; t_app := app |}).
Proof.
  unfold redis_try_acquire. eapply every_bind with (P := fun t o =>
    no_panic o /\ increments t = [] /\ decrements t = []).
  { intros s. cbn. destruct (background_tasks_started s); by split; [eexists|]. }
  { by intros t m [[? ?] _]. }
  intros t0 [] (_ & Hi0 & Hd0). intros s. destruct (free_permits s) eqn:Hf; cbn [fst snd negb bind].
  { split; [|done]. split_and!; [by eexists|by rewrite decrements_app, Hd0|done]. }
  intros [[]|e]; cbn [bind].
  2: { intros s'. split; [|done]. split_and!; [by eexists|by rewrite decrements_app, Hd0|done]. }
  eapply every_bind; [apply count_ip_counts|by intros t m [[? ?] _]|].
  intros t1 [n1|e] (_ & Hd1 & Hi1); cbn [bind].
  2: { intros s'. split; [|done]. split_and!; [by eexists| |done].
       rewrite decrements_app, Hd0. cbn. rewrite !decrements_app. by rewrite Hd1. }
  eapply every_bind; [apply count_app_counts|by intros t m [[? ?] _]|].
  intros t2 [n2|e] (_ & Hd2 & Hi2); cbn [bind].
  - split; [split_and!; [by eexists|..]|by intros tk [= <-]]; rewrite app_nil_r.
    + rewrite decrements_app, Hd0. cbn. by rewrite decrements_app, Hd1, Hd2.
    + intros tk _. rewrite increments_app, Hi0. cbn.
      by rewrite increments_app, (Hi1 _ eq_refl), (Hi2 _ eq_refl).
  - intros s'. split; [|done]. split_and!; [by eexists| |done].
    rewrite decrements_app, Hd0. cbn. rewrite !decrements_app. by rewrite Hd1, Hd2.
Qed.

(** Acquiring and releasing balance in Redis.  A connection that is admitted
    has incremented exactly the counters that its release decrements, in the same
    order (the release decrements nothing only when Redis cannot be reached); and
    neither operation panics, whatever Redis answers. *)
Theorem redis_acquire_release_balance (addr : IpAddr) (app : option string) :
  every (redis_try_acquire (RedisError := RedisError) self addr app) (fun t o =>
    no_panic o /\
    forall tk, o = Returned (Ok tk) -> increments t = counted_keys (t_addr tk) (t_app tk)) /\
  every (redis_release (RedisError := RedisError) self addr app) (fun t o =>
    o = Returned tt /\ increments t = [] /\
    (decrements t = counted_keys addr app \/ exists e, t = [EvAwait GetConnection (Err e)])).
Proof.
  split.
  - eapply every_mono; [|apply redis_try_acquire_counts].
    intros t o [(Hp & _ & Hi) Htk]. split; [done|]. intros tk Ho.
    rewrite (Hi tk Ho). by rewrite (Htk tk Ho).
  - unfold redis_release. intros [[]|e]; cbn [bind]; [|split_and!; [done|done|right; by exists e]].
    unfold counted_keys. destruct (0 <? r_per_ip_limit self), app as [a|]; cbn; intros; auto.
Qed.

(** ** Permits *)

Lemma count_ip_keeps addr : keeps (count_ip (RedisError := RedisError) self addr).
Proof.
  unfold count_ip. destruct (0 <? _); [|done]. intros [keys|e]; [|done]. cbn [bind].
  apply keeps_bind; [apply total_connections_keeps|]. intros total.
  destruct (_ <=? _); [done|]. by intros [?|?].
Qed.

Lemma count_app_keeps app : keeps (count_app (RedisError := RedisError) self app).
Proof.
  unfold count_app. destruct app; [|done]. intros [keys|e]; [|done]. cbn [bind].
  apply keeps_bind; [apply total_connections_keeps|]. intros total.
  destruct (_ <=? _); [done|]. by intros [?|?].
Qed.

Lemma counts_leads (e : env RedisReply RedisObs RedisState) {A} (p : RM (result A RateLimitError)) keys s :
  quiet e -> keeps p -> every p (counts keys) -> leads e p s s.
Proof.
  intros He Hk Hc. apply leads_keeps; [done|done|]. eapply every_mono; [|exact Hc]. by intros t o [? _].
Qed.

(** Undisturbed, [try_acquire] takes exactly one permit when it admits the
    connection and none when it rejects it, whatever Redis answers. *)
Theorem redis_permits (e : env RedisReply RedisObs RedisState) (addr : IpAddr)
    (app : option string) (s : RedisState) :
  quiet e ->
  exists r, run_outcome e (redis_try_acquire (RedisError := RedisError) self addr app) s = Returned r /\
    ((if is_ok r then 1 else 0) +
      free_permits (run_state e (redis_try_acquire self addr app) s) = free_permits s)%nat.
Proof.
  intros He. unfold run_outcome, run_state, run, redis_try_acquire.
  rewrite exec_bind. cbn. rewrite !He.
  destruct (background_tasks_started s); cbn; rewrite !He; cbn;
    (destruct (free_permits s) as [|n] eqn:Hf; cbn; [by eexists|]); rewrite !He;
    (match goal with |- context [respond e ?h GetConnection] => destruct (respond e h GetConnection) as [[]|err] end);
    cbn; rewrite ?He; try (by eexists);
    rewrite exec_bind;
    (match goal with |- context [exec e (count_ip self addr) ?s0 ?h] =>
       destruct (counts_leads e _ _ s0 He (count_ip_keeps addr) (count_ip_counts addr) h) as ([n1|e1] & h1 & ->) end);
    cbn; rewrite ?He; try (by eexists);
    rewrite exec_bind;
    (match goal with |- context [exec e (count_app self app) ?s0 ?h] =>
       destruct (counts_leads e _ _ s0 He (count_app_keeps app) (count_app_counts app) h) as ([n2|e2] & h2 & ->) end);
    cbn; rewrite ?He; by eexists.
Qed.

End RedisProps.

(** ** Concrete runs *)
Module RedisExamples.

Definition limiter : RedisRateLimit :=
  RedisRateLimit_of 10 2 {["app" := 1]} "flashblocks" "uuid-a".

(** Redis holds one connection of the application, at another instance. *)
Definition full_app : env (@RedisReply unit) RedisObs RedisState :=
  {| respond := fun h c =>
       match c as c return @RedisReply unit c with
       | GetConnection => Ok tt
       | Keys p => if starts_with "flashblocks:app:" p
                   then Ok ["flashblocks:app:app:instance:uuid-b:connections"] else Ok []
       | Get _ => Ok 1
       | Incr _ | Decr _ => Ok 1
       | Del _ | SetEx _ _ _ => Ok tt
       end;
     interfere := fun _ s => s |}.

Definition alice : IpAddr := IPv4 1 1 1 1.

Lemma redis_permits_witness :
  exists r, run_outcome full_app (redis_try_acquire limiter alice None) (RedisState_new 10) = Returned r /\
    ((if is_ok r then 1 else 0) + free_permits
      (run_state full_app (redis_try_acquire limiter alice None) (RedisState_new 10)) = 10)%nat.
Proof. apply (redis_permits limiter full_app alice None (RedisState_new 10)). done. Defined.

(** A rejection by the limit of the application leaves the counter of the
    address incremented: the address was counted, the ticket refused, and nothing
    is decremented. *)
Theorem redis_app_rejection_leaks :
  let '(o, _, t) := run full_app (redis_try_acquire limiter alice (Some "app")) (RedisState_new 10) in
  o = Returned (Err (Limit "Per-app connection limit reached for app")) /\
  increments t = [ip_instance_key limiter alice] /\ decrements t = [].
Proof. by vm_compute. Qed.

(** The counters of a dead instance, for an IPv4 and for an IPv6 client: the
    cleanup deletes the first and keeps the second for ever. *)
Definition dead_v4 : string := "flashblocks:ip:1.1.1.1:instance:uuid-dead:connections".
Definition dead_v6 : string := "flashblocks:ip:2001:db8::1:instance:uuid-dead:connections".

(** Redis with one counter key; a pattern with the id of another instance
    matches nothing. *)
Definition redis_with (key : string) : env (@RedisReply unit) RedisObs RedisState :=
  {| respond := fun h c =>
       match c as c return @RedisReply unit c with
       | GetConnection => Ok tt
       | Keys p =>
           if decide (p = ip_pattern limiter "*" \/ p = ip_pattern limiter "uuid-dead")
           then Ok [key] else Ok []
       | Get _ | Incr _ | Decr _ => Ok 1
       | Del _ | SetEx _ _ _ => Ok tt
       end;
     interfere := fun _ s => s |}.

(** Stale counters of IPv6 clients are never cleaned up: the cleanup deletes
    the counter that a dead instance left for an IPv4 address, and not the one it
    left for an IPv6 address. *)
Theorem ipv6_counters_survive_cleanup :
  let cleanup key := deletions (run_trace (redis_with key)
    (cleanup_stale_instances elements limiter) (RedisState_new 10)) in
  cleanup dead_v4 = [dead_v4] /\ cleanup dead_v6 = [].
Proof. by vm_compute. Qed.

(** The cleanup of a dead instance's counter, through the theorem. *)
Lemma cleanup_removes_dead_instances_witness :
  removed limiter "uuid-dead" (drop 4 (run_trace (redis_with dead_v4)
    (cleanup_stale_instances elements limiter) (RedisState_new 10))).
Proof.
  pose proof (cleanup_removes_dead_instances (RedisError := unit) elements limiter
    (RedisRateLimit_of 10 2 {["app" := 1]} "flashblocks" "uuid-dead")) as H.
  specialize (H ltac:(done) eq_refl ltac:(done) eq_refl eq_refl).
  refine (run_every (redis_with dead_v4) _ (RedisState_new 10) _ H [] [dead_v4] [] _ _ _ _ _);
    [vm_compute; reflexivity|vm_compute; reflexivity|..].
  - by intros ?%elem_of_nil.
  - left. exists 1, 1, 1, 1. unfold is_octet. split_and!; try lia. by vm_compute; left.
Defined.

End RedisExamples.
