(* ===== verification/RedisStore.v ===== *)
(** * The Redis that the instances of the WebSocket proxy share

    A store that keeps its keys as Redis documents its commands: counters, keys with a
    time to live, [KEYS] with a pattern.  Every command may fail: it is refused, or
    it is executed and the reply is lost.  The keys of the limiter
    (crates/websocket-proxy/src/rate_limit.rs), what the patterns of its checks and
    cleanups select, and what the commands do to its counters. *)
From S2P Require Import Prelude Async Net RateLimit RedisRateLimit.

Local Open Scope Z_scope.
Local Open Scope prog_scope.

(** ** Text without pattern characters *)

(** The characters with a meaning in a pattern of [KEYS]. *)
Definition pattern_chars : list ascii := ["*"; "?"; "["; "\"]%char.

Definition plain (s : string) : Prop := Forall (fun c => has_char c s = false) pattern_chars.

Lemma plain_app x y : plain x -> plain y -> plain (x ++ y).
Proof.
  unfold plain. rewrite !Forall_forall. intros Hx Hy c Hc. rewrite has_char_app. by rewrite Hx, Hy.
Qed.

(** A character that is no lower-case hexadecimal digit occurs in no printed number. *)
Lemma has_char_print_digits c fuel radix n tail :
  0 < radix <= 16 -> Forall (fun d => digit_char (Z.of_nat d) <> c) (seq 0 16) ->
  has_char c tail = false -> has_char c (print_digits fuel radix n tail) = false.
Proof.
  intros Hr Hd. rewrite Forall_forall in Hd.
  revert n tail. induction fuel as [|fuel IH]; intros n tail Ht; cbn [print_digits]; [done|].
  assert (Hc : has_char c (String (digit_char (n mod radix)) tail) = false).
  { cbn. rewrite decide_False; [done|]. pose proof (Z.mod_pos_bound n radix).
    specialize (Hd (Z.to_nat (n mod radix))). rewrite Z2Nat.id in Hd by lia.
    apply Hd. rewrite elem_of_seq. lia. }
  destruct (n <? radix); [done|]. by apply IH.
Qed.

Lemma has_char_print c n :
  Forall (fun d => digit_char (Z.of_nat d) <> c) (seq 0 16) ->
  has_char c (print_dec n) = false /\ has_char c (print_hex n) = false.
Proof. intros Hd. split; (apply has_char_print_digits; [lia|exact Hd|reflexivity]). Qed.

Lemma has_char_show_ip c addr :
  Forall (fun d => digit_char (Z.of_nat d) <> c) (seq 0 16) -> c <> "."%char -> c <> colon ->
  has_char c (show_ip addr) = false.
Proof.
  intros Hd H1 H2. unfold colon in H2.
  assert (Hdec : forall n, has_char c (print_dec n) = false) by (intros n; exact (proj1 (has_char_print c n Hd))).
  assert (Hhex : forall n, has_char c (print_hex n) = false) by (intros n; exact (proj2 (has_char_print c n Hd))).
  assert (Hf : has_char c "::ffff:" = false).
  { assert (Hn : digit_char (Z.of_nat 15) <> c)
      by (rewrite Forall_forall in Hd; apply Hd; apply elem_of_seq; lia).
    change (digit_char (Z.of_nat 15)) with "f"%char in Hn.
    cbn. by rewrite !decide_False by congruence. }
  assert (H4 : forall a b x y, has_char c (show_v4 a b x y) = false).
  { intros. unfold show_v4. rewrite !has_char_app, !Hdec. cbn. by rewrite !decide_False by congruence. }
  assert (Hs : forall l, has_char c (show_segments l) = false).
  { intros l. induction l as [|x [|y l] IH]; [done|apply Hhex|]. cbn [show_segments] in *.
    rewrite !has_char_app, Hhex. cbn. by rewrite decide_False by congruence. }
  destruct addr as [a b x y|l]; [apply H4|]. cbn [show_ip]. unfold show_v6.
  set (r := let (start, len) := longest_zeros 0 l (O, O) (O, O) in
    if (1 <? len)%nat
    then (show_segments (take start l) ++ "::" ++ show_segments (drop (start + len) l))%string
    else show_segments l). assert (Hr : has_char c r = false).
  { subst r. destruct (longest_zeros 0 l (O, O) (O, O)) as [start len].
    destruct (1 <? len)%nat; [|apply Hs]. rewrite !has_char_app, !Hs. cbn.
    by rewrite !decide_False by congruence. }
  clearbody r. repeat (case_match; try exact Hr).
  by rewrite has_char_app, H4, Hf.
Qed.

Lemma show_ip_plain addr : plain (show_ip addr).
Proof.
  unfold plain, pattern_chars.
  repeat (apply Forall_cons_2; [apply has_char_show_ip; [repeat constructor; discriminate|done|done]|]).
  constructor.
Qed.

(** ** The store *)

Section Store.
(** The errors of the redis crate for a missing value, for a value that is no
    [usize], and for a counter that would overflow; which keys a pattern selects. *)
Context {RedisError : Set} (nil_value not_usize overflow : RedisError).
Context (matches : string -> string -> bool).

(** Every key with its value and the time at which it expires, if it does; the
    present time, in seconds. *)
Record Store : Set := { entries : gmap string (Z * option Z); clock : Z }.

Definition Store_new : Store := {| entries := ∅; clock := 0 |}.

Definition entry (st : Store) (k : string) : option (Z * option Z) :=
  match entries st !! k with
  | Some (v, Some e) => if clock st <? e then Some (v, Some e) else None
  | x => x
  end.

Definition set_entries (m : gmap string (Z * option Z)) (st : Store) : Store :=
  {| entries := m; clock := clock st |}.

Definition listed (st : Store) (pattern : string) : list string :=
  filter (fun k => matches pattern k = true /\ is_Some (entry st k)) (elements (dom (entries st))).

Definition as_usize (v : Z) : result Z RedisError := if v <? 0 then Err not_usize else Ok v.

(** [INCR] and [DECR]: a missing key counts as 0, a time to live is kept. *)
Definition add_to (k : string) (d : Z) (st : Store) : result Z RedisError * Store :=
  let v := default 0 (fst <$> entry st k) + d in
  if (v <? - 2 ^ 63) || (2 ^ 63 - 1 <? v) then (Err overflow, st)
  else (as_usize v, set_entries (<[k := (v, entry st k ≫= snd)]> (entries st)) st).

Definition command (c : RedisCall) (st : Store) : @RedisReply RedisError c * Store :=
  match c as c return @RedisReply RedisError c * Store with
  | GetConnection => (Ok tt, st)
  | Keys p => (Ok (listed st p), st)
  | Get k => (match entry st k with Some (v, _) => as_usize v | None => Err nil_value end, st)
  | Incr k => add_to k 1 st
  | Decr k => add_to k (-1) st
  | Del k => (Ok tt, set_entries (delete k (entries st)) st)
  | SetEx k v ttl => (Ok tt, set_entries (<[k := (v, Some (clock st + ttl))]> (entries st)) st)
  end.

(** What happens to a command: it is served, it is refused, or it is executed and the
    connection breaks before the reply. *)
Inductive fault : Set := Served | Refused (e : RedisError) | Lost (e : RedisError).

Definition failed (e : RedisError) (c : RedisCall) : @RedisReply RedisError c :=
  match c as c return @RedisReply RedisError c with
  | GetConnection | Del _ | SetEx _ _ _ => Err e
  | Keys _ => Err e
  | Get _ | Incr _ | Decr _ => Err e
  end.

Definition answer (f : fault) (c : RedisCall) (st : Store) : @RedisReply RedisError c * Store :=
  match f with
  | Served => command c st
  | Refused e => (failed e c, st)
  | Lost e => (failed e c, (command c st).2)
  end.

(** A program that has the store for itself while it runs. *)
Fixpoint execute {S A} (faults : RedisCall -> fault) (p : prog (@RedisReply RedisError) RedisObs S A)
    (s : S) (st : Store) : outcome A * S * Store :=
  match p with
  | Ret a => (Returned a, s, st)
  | Panic m => (Panicked m, s, st)
  | Atomic f k => let (x, s') := f s in execute faults (k x) s' st
  | Await c k => let (r, st') := answer (faults c) c st in execute faults (k r) s st'
  | Emit _ k => execute faults k s st
  end.

(** What [conn.get(key).unwrap_or(0)] reads when it is served. *)
Definition reading (st : Store) (k : string) : Z := Z.max 0 (default 0 (fst <$> entry st k)).

Lemma unwrap_reading st k : unwrap_or_0 (command (Get k) st).1 = reading st k.
Proof.
  unfold reading. cbn. destruct (entry st k) as [[v e]|]; cbn; [|lia].
  unfold as_usize. destruct (Z.ltb_spec v 0); cbn; lia.
Qed.

Lemma listed_spec st p k : k ∈ listed st p <-> matches p k = true /\ is_Some (entry st k).
Proof.
  unfold listed. rewrite list_elem_of_filter, elem_of_elements, elem_of_dom. split; [by intros [? ?]|].
  intros [Hm [x Hx]]. split; [by split; [|exists x]|]. unfold entry in Hx.
  destruct (entries st !! k) as [[v [e|]]|]; by try eexists.
Qed.

(** A store that holds fewer than 2^24 keys, with values below 2^40: the sum of any
    counters in it stays below 2^64. *)
Definition modest (st : Store) : Prop :=
  Z.of_nat (size (entries st)) < 2 ^ 24 /\
  forall k v e, entries st !! k = Some (v, e) -> v < 2 ^ 40.

Lemma listed_modest st p : modest st -> Z.of_nat (length (listed st p)) < 2 ^ 24.
Proof.
  intros [Hs _]. eapply Z.le_lt_trans; [|exact Hs]. unfold listed. apply inj_le. rewrite <- size_dom. unfold size, set_size. cbn.
  apply length_filter.
Qed.

Lemma reading_modest st k : modest st -> reading st k <= 2 ^ 40.
Proof.
  intros [_ Hv]. unfold reading, entry. destruct (entries st !! k) as [[v [e|]]|] eqn:He; cbn; [|specialize (Hv _ _ _ He); lia|lia].
  specialize (Hv _ _ _ He). destruct (_ <? _); cbn; lia.
Qed.

(** The keys that a cleanup may delete on account of the instance [id]. *)
Definition belongs (self : RedisRateLimit) (id k : string) : Prop :=
  matches (ip_pattern self id) k = true \/ matches (app_pattern self id) k = true.

(** ** The instances *)

(** The instances, what they share, and the order in which hash sets are visited. *)
Context (insts : list RedisRateLimit) (prefix : string) (ip_limit : Z) (app_limits : gmap string Z).
Context (iterate : gset string -> list string).

(** The instances are configured alike, and their ids are like UUIDs. *)
Record configured : Prop := {
  cf_prefix : plain prefix /\ has_char colon prefix = false;
  cf_iterate X : iterate X ≡ₚ elements X;
  cf_inst i self : insts !! i = Some self ->
    key_prefix self = prefix /\ r_per_ip_limit self = ip_limit /\ r_per_app_limit self = app_limits /\
    plain (instance_id self) /\ has_char colon (instance_id self) = false
}.

(** What [KEYS] promises for a pattern with one star and no other special
    character. *)
Definition one_star : Prop := forall p s k, plain p -> plain s ->
  matches (p ++ "*" ++ s)%string k = true <-> exists mid, k = (p ++ mid ++ s)%string.

Definition session_keys (s : nat * Ticket) : list string :=
  match insts !! s.1 with
  | Some self => counted_keys self (t_addr s.2) (t_app s.2)
  | None => []
  end.

(** What the counter [k] holds. *)
Definition counter (st : Store) (k : string) : Z :=
  match entries st !! k with Some (v, None) => v | _ => 0 end.

#[local] Arguments counter : simpl never.

Definition heartbeat_key (k : string) : Prop := exists id, k = (prefix ++ ":instance:" ++ id ++ ":heartbeat")%string.

Record sane (st : Store) : Prop := {
  sn_range k v e : entries st !! k = Some (v, e) -> 0 <= v /\ (e = None -> v < 2 ^ 63);
  sn_ttl k v e : entries st !! k = Some (v, Some e) -> heartbeat_key k;
  sn_plain k : is_Some (entries st !! k) -> plain k
}.

Definition occurs (k : string) (keys : list string) : Z := Z.of_nat (length (filter (.= k) keys)).

Lemma occurs_cons k k' keys : occurs k (k' :: keys) = (if decide (k' = k) then 1 else 0) + occurs k keys.
Proof. unfold occurs. rewrite filter_cons. case_decide; cbn [length]; lia. Qed.

Lemma occurs_app k x y : occurs k (x ++ y) = occurs k x + occurs k y.
Proof. unfold occurs. rewrite filter_app, length_app. lia. Qed.

Lemma occurs_pos k keys : k ∈ keys -> 1 <= occurs k keys.
Proof.
  unfold occurs. intros Hk. assert (k ∈ filter (.= k) keys) as Hf by by apply list_elem_of_filter.
  destruct (filter (.= k) keys); [by apply elem_of_nil in Hf|cbn; lia].
Qed.

Lemma occurs_zero k keys : k ∉ keys -> occurs k keys = 0.
Proof.
  intros Hk. induction keys as [|k' keys IH]; [done|]. rewrite occurs_cons.
  rewrite decide_False by set_solver. rewrite IH; set_solver.
Qed.

(** *** Counters *)

Lemma counter_reading st k : counter st k <= reading st k.
Proof.
  unfold counter, reading, entry. destruct (entries st !! k) as [[v [e|]]|]; cbn; [|lia|lia].
  destruct (_ <? _); cbn; lia.
Qed.

Lemma counter_entry st k : 0 < counter st k -> is_Some (entry st k).
Proof. unfold counter, entry. destruct (entries st !! k) as [[v [e|]]|]; [lia|done|lia]. Qed.

Lemma entry_counter st k :
  sane st -> ~ heartbeat_key k ->
  default 0 (fst <$> entry st k) = counter st k /\ (entry st k ≫= snd) = None.
Proof.
  intros Hs Hk. unfold counter, entry. destruct (entries st !! k) as [[v [e|]]|] eqn:He; [|done|done].
  by destruct Hk; eapply sn_ttl.
Qed.

(** Adding to a counter that stays at zero or above. *)
Lemma add_to_spec st k d r st' :
  sane st -> ~ heartbeat_key k -> plain k -> 0 <= counter st k + d -> add_to k d st = (r, st') ->
  sane st' /\ clock st' = clock st /\ (d <= 0 -> is_ok r = true) /\
  forall k', counter st' k' = counter st k' + (if decide (is_ok r = true /\ k' = k) then d else 0).
Proof.
  intros Hs Hk Hp Hd. unfold add_to. destruct (entry_counter st k Hs Hk) as [-> ->].
  assert (Hc : counter st k < 2 ^ 63).
  { unfold counter. destruct (entries st !! k) as [[v [e|]]|] eqn:He; [lia| |lia].
    by apply (sn_range _ Hs k v None He). }
  destruct (_ || _) eqn:Ho; intros [= <- <-].
  - split_and!; [done|done| |intros k'; rewrite decide_False by (by intros [? _]); lia].
    intros Hd'. apply orb_true_iff in Ho as [Ho%Z.ltb_lt|Ho%Z.ltb_lt]; lia.
  - assert (Hok : is_ok (as_usize (counter st k + d)) = true)
      by (unfold as_usize; destruct (Z.ltb_spec (counter st k + d) 0); [lia|done]).
    apply orb_false_iff in Ho as [_ Ho%Z.ltb_ge]. rewrite Hok. split_and!; [|done|done|].
    + split; cbn; intros k'; destruct (decide (k' = k)) as [->|Hne];
        rewrite ?lookup_insert_eq, ?lookup_insert_ne by done.
      * intros v e [= <- <-]. split; [done|lia].
      * apply Hs.
      * done.
      * apply Hs.
      * done.
      * apply Hs.
    + intros k'. unfold counter at 1. cbn. destruct (decide (k' = k)) as [->|Hne].
      * rewrite lookup_insert_eq, decide_True by done. done.
      * rewrite lookup_insert_ne, decide_False by naive_solver. fold (counter st k'). lia.
Qed.

(** *** Keys *)

Section Keys.
Context (Hcf : configured) (Hstar : one_star).

Lemma plain_const s : forallb (fun c => negb (has_char c s)) pattern_chars = true -> plain s.
Proof.
  intros H. apply Forall_forall. intros c Hc. rewrite forallb_forall in H.
  apply negb_true_iff, H. by apply list_elem_of_In.
Qed.

(** A key [prefix:kind:x:instance:id:connections]. *)
Definition counter_key (kind x id : string) : string :=
  (prefix ++ String colon (kind ++ String colon (x ++ ":instance:" ++ id ++ ":connections")))%string.

Lemma counter_key_plain kind x id : plain kind -> plain x -> plain id -> plain (counter_key kind x id).
Proof.
  intros. assert (Hc : forall s, plain s -> plain (String colon s)).
  { intros s Hs. by apply (plain_app ":" s); [apply plain_const|]. }
  unfold counter_key. apply plain_app; [apply Hcf|]. apply Hc, plain_app; [done|].
  apply Hc, plain_app; [done|]. apply plain_app; [by apply plain_const|].
  apply plain_app; [done|by apply plain_const].
Qed.

Lemma counter_key_not_heartbeat kind x id :
  has_char colon kind = false -> kind <> "instance" -> ~ heartbeat_key (counter_key kind x id).
Proof.
  intros Hk Hne [id' Heq]. apply (f_equal (split colon)) in Heq. unfold counter_key in Heq.
  change (prefix ++ ":instance:" ++ id' ++ ":heartbeat")%string
    with (prefix ++ String colon ("instance" ++ String colon (id' ++ ":heartbeat")))%string in Heq.
  rewrite !split_app_sep in Heq by (done || apply Hcf). injection Heq as Heq _. done.
Qed.

Lemma counter_key_instance kind x id kind' x' id' :
  has_char colon id = false -> has_char colon id' = false ->
  counter_key kind x id = counter_key kind' x' id' -> id = id'.
Proof.
  assert (Hs : forall kind x id, has_char colon id = false -> exists l,
    split colon (counter_key kind x id) = l ++ [id; "connections"]).
  { clear. intros kind x id Hid. unfold counter_key.
    change (":instance:" ++ id ++ ":connections")%string
      with (String colon ("instance" ++ String colon (id ++ String colon "connections")))%string.
    rewrite !split_app, (split_no_sep colon id Hid).
    exists (split colon prefix ++ split colon kind ++ split colon x ++ ["instance"]).
    by rewrite <- !app_assoc. }
  intros Hi Hi' Heq. destruct (Hs kind x id Hi) as [l Hl], (Hs kind' x' id' Hi') as [l' Hl'].
  rewrite <- Heq, Hl in Hl'.
  change [id; "connections"] with ([id] ++ ["connections"]) in Hl'.
  change [id'; "connections"] with ([id'] ++ ["connections"]) in Hl'.
  rewrite !app_assoc in Hl'. apply app_inj_tail in Hl' as [Hl' _]. by apply app_inj_tail in Hl' as [_ ->].
Qed.

(** The keys of a session: what they look like, and the patterns that list them. *)
Lemma session_key_form i self t k :
  insts !! i = Some self -> (forall a, t_app t = Some a -> plain a) -> k ∈ session_keys (i, t) ->
  exists kind x, plain x /\ (kind = "ip" \/ kind = "app") /\ k = counter_key kind x (instance_id self).
Proof.
  intros Hi Ha. unfold session_keys, counted_keys. cbn. rewrite Hi.
  destruct (cf_inst Hcf i self Hi) as (Hp & _).
  rewrite elem_of_app. intros [Hk|Hk].
  - destruct (0 <? _); [|by apply elem_of_nil in Hk]. apply list_elem_of_singleton in Hk as ->.
    exists "ip", (show_ip (t_addr t)). split_and!; [apply show_ip_plain|by left|]. unfold ip_instance_key.
    by rewrite Hp.
  - destruct (t_app t) as [a|]; [|by apply elem_of_nil in Hk]. apply list_elem_of_singleton in Hk as ->.
    exists "app", a. split_and!; [by apply Ha|by right|]. unfold app_instance_key. by rewrite Hp.
Qed.

(** The pattern of the limit check lists the counters of every instance. *)
Lemma star_key kind x id :
  plain kind -> plain x ->
  matches (prefix ++ String colon (kind ++ String colon (x ++ ":instance:*:connections")))%string
    (counter_key kind x id) = true.
Proof.
  intros Hk Hx.
  assert (Happ : forall m : string, (prefix ++ String colon (kind ++ String colon (x ++ ":instance:" ++ m)))%string =
    ((prefix ++ String colon (kind ++ String colon (x ++ ":instance:"))) ++ m)%string).
  { intros m. rewrite !string_app_assoc, !string_cons_app, !string_app_assoc, !string_cons_app, !string_app_assoc. done. }
  unfold counter_key. rewrite (Happ (id ++ ":connections")%string).
  change (":instance:*:connections"%string) with (":instance:" ++ ("*" ++ ":connections"))%string.
  rewrite (Happ ("*" ++ ":connections")%string). apply Hstar; [|by apply plain_const|by eexists].
  apply plain_app; [apply Hcf|]. apply (plain_app ":"); [by apply plain_const|].
  apply plain_app; [done|]. apply (plain_app ":"); [by apply plain_const|].
  apply plain_app; [done|by apply plain_const].
Qed.

(** A heartbeat is a key of its own and leaves every counter alone. *)
Lemma heartbeat_store i self now e st :
  insts !! i = Some self -> 0 <= now -> sane st ->
  let st' := set_entries (<[instance_heartbeat_key self := (now, Some e)]> (entries st)) st in
  sane st' /\ forall k, ~ heartbeat_key k -> counter st' k = counter st k.
Proof.
  intros Hi Hnow Hs. destruct (cf_inst Hcf i self Hi) as (Hp & _ & _ & Hid & _).
  set (hb := instance_heartbeat_key self).
  assert (Hhb : heartbeat_key hb) by (exists (instance_id self); unfold hb, instance_heartbeat_key; by rewrite Hp).
  assert (Hpl : plain hb).
  { unfold hb, instance_heartbeat_key. rewrite Hp. apply plain_app; [apply Hcf|].
    apply plain_app; [by apply plain_const|]. apply plain_app; [done|by apply plain_const]. }
  split.
  - split; cbn; intros k; destruct (decide (k = hb)) as [->|Hne];
      rewrite ?lookup_insert_eq, ?lookup_insert_ne by done; try apply Hs; try done.
    intros v e' [= <- <-]. by split.
  - intros k Hk. unfold counter. cbn. rewrite lookup_insert_ne; [done|]. by intros <-.
Qed.

(** The pattern for an instance lists only keys of that instance. *)
Lemma belongs_id self id k :
  key_prefix self = prefix -> plain id -> belongs self id k -> exists kind x, k = counter_key kind x id.
Proof.
  intros Hp Hid. unfold belongs, ip_pattern, app_pattern. rewrite Hp.
  assert (Hm : forall kind : string, plain kind -> matches
      (prefix ++ String colon (kind ++ String colon ("*" ++ (":instance:" ++ id ++ ":connections"))))%string k = true ->
    exists x, k = counter_key kind x id).
  { intros kind Hk Hmat.
    assert (Happ : forall m : string, (prefix ++ String colon (kind ++ String colon m))%string =
      ((prefix ++ String colon (kind ++ ":")) ++ m)%string)
      by (intros m; by rewrite !string_app_assoc, !string_cons_app, !string_app_assoc).
    rewrite Happ in Hmat. apply Hstar in Hmat as [x ->].
    - exists x. unfold counter_key. by rewrite <- Happ.
    - apply plain_app; [apply Hcf|]. apply (plain_app ":"); [by apply plain_const|].
      apply plain_app; [done|by apply plain_const].
    - apply plain_app; [by apply plain_const|]. apply plain_app; [done|by apply plain_const]. }
  intros [Hk|Hk]; [destruct (Hm "ip") as [x Hx]|destruct (Hm "app") as [x Hx]]; try done; eauto;
    by apply plain_const.
Qed.

Lemma split_has_char c sep s : has_char c s = false -> Forall (fun x => has_char c x = false) (split sep s).
Proof.
  induction s as [|a s IH]; cbn; [by repeat constructor|]. case_decide; [done|]. intros Hs.
  specialize (IH Hs). case_decide; [by constructor|].
  destruct (split sep s) as [|x l]; [by repeat constructor; cbn; rewrite decide_False|].
  apply Forall_cons in IH as [Hx Hl]. constructor; [|done]. cbn. by rewrite decide_False.
Qed.

Lemma split_sep_free sep s : Forall (fun x => has_char sep x = false) (split sep s).
Proof.
  induction s as [|a s IH]; cbn; [by repeat constructor|]. case_decide; [by constructor|].
  destruct (split sep s) as [|x l]; [by repeat constructor; cbn; rewrite decide_False|].
  apply Forall_cons in IH as [Hx Hl]. constructor; [|done]. cbn. by rewrite decide_False.
Qed.

(** A field of a key without pattern characters has none, and no colon. *)
Lemma field_ok k n id : plain k -> split colon k !! n = Some id -> plain id /\ has_char colon id = false.
Proof.
  intros Hp Hid. apply list_elem_of_lookup_2 in Hid. split.
  - unfold plain in *. rewrite Forall_forall in Hp |- *. intros c Hc.
    pose proof (split_has_char c colon k (Hp c Hc)) as Hf. rewrite Forall_forall in Hf. by apply Hf.
  - pose proof (split_sep_free colon k) as Hf. rewrite Forall_forall in Hf. by apply Hf.
Qed.

Lemma listed_plain st p k : sane st -> k ∈ listed st p -> plain k.
Proof.
  intros Hs [_ [v Hk]]%listed_spec. apply (sn_plain _ Hs). unfold entry in Hk.
  destruct (entries st !! k) as [[? [e|]]|]; [by eexists..|done].
Qed.

(** The heartbeat key of an instance: the pattern of the cleanup selects it, and its
    third field is the id of the instance. *)
Lemma heartbeat_matches self i selfi :
  key_prefix self = prefix -> insts !! i = Some selfi ->
  matches (heartbeat_pattern self) (instance_heartbeat_key selfi) = true.
Proof.
  intros Hp Hi. destruct (cf_inst Hcf i selfi Hi) as (Hpi & _).
  unfold heartbeat_pattern, instance_heartbeat_key. rewrite Hp, Hpi.
  assert (Happ : forall m : string, (prefix ++ ":instance:" ++ m)%string = ((prefix ++ ":instance:") ++ m)%string)
    by (intros m; by rewrite string_app_assoc).
  change (":instance:*:heartbeat"%string) with (":instance:" ++ ("*" ++ ":heartbeat"))%string.
  rewrite (Happ ("*" ++ ":heartbeat")%string), (Happ (instance_id selfi ++ ":heartbeat")%string).
  apply Hstar; [|by apply plain_const|by eexists]. apply plain_app; [apply Hcf|by apply plain_const].
Qed.

Lemma heartbeat_field i selfi :
  insts !! i = Some selfi -> split colon (instance_heartbeat_key selfi) !! 2%nat = Some (instance_id selfi).
Proof.
  intros Hi. destruct (cf_inst Hcf i selfi Hi) as (Hpi & _ & _ & _ & Hc).
  unfold instance_heartbeat_key. rewrite Hpi.
  change (prefix ++ ":instance:" ++ instance_id selfi ++ ":heartbeat")%string
    with (prefix ++ String colon ("instance" ++ String colon (instance_id selfi ++ String colon "heartbeat")))%string.
  rewrite !split_app_sep by (done || apply Hcf). done.
Qed.

End Keys.
End Store.

(** ** Patterns

    The stars and question marks of the patterns of [KEYS], enough for the patterns
    that the limiter sends. *)
Fixpoint glob (p : string) : string -> bool :=
  match p with
  | EmptyString => fun s => str_is_empty s
  | String c p =>
      if decide (c = "*"%char) then
        fix star (s : string) : bool :=
          glob p s || match s with EmptyString => false | String _ s => star s end
      else fun s =>
        match s with
        | EmptyString => false
        | String a s => (bool_decide (c = "?"%char) || bool_decide (a = c)) && glob p s
        end
  end.

Lemma plain_cons a s : plain (String a s) -> a <> "*"%char /\ a <> "?"%char /\ plain s.
Proof.
  unfold plain, pattern_chars. rewrite !Forall_cons. cbn.
  repeat case_decide; naive_solver.
Qed.

Lemma glob_plain_app p q k : plain p -> glob (p ++ q) k = true <-> exists r, k = (p ++ r)%string /\ glob q r = true.
Proof.
  revert k. induction p as [|a p IH]; intros k Hp.
  - split; [intros H; by exists k|by intros (r & -> & H)].
  - apply plain_cons in Hp as (H1 & H2 & Hp).
    change (glob (String a (p ++ q)) k = true <-> exists r, k = String a (p ++ r) /\ glob q r = true).
    cbn [glob]. rewrite decide_False by done.
    destruct k as [|b k]; [split; [done|by intros (r & ? & _)]|].
    rewrite (bool_decide_false _ H2). cbn [orb]. rewrite andb_true_iff, bool_decide_eq_true, (IH k Hp). split.
    + intros [-> (r & -> & Hr)]. by exists r.
    + intros (r & [= -> ->] & Hr). split; [done|by exists r].
Qed.

Lemma glob_star q k : glob ("*" ++ q) k = true <-> exists mid r, k = (mid ++ r)%string /\ glob q r = true.
Proof.
  change ("*" ++ q)%string with (String "*"%char q).
  assert (Hstep : forall s, glob (String "*"%char q) s =
    glob q s || match s with EmptyString => false | String _ s => glob (String "*"%char q) s end) by by intros [].
  induction k as [|a k IH]; rewrite Hstep, orb_true_iff.
  - split; [intros [H|]; [by exists "", ""|done]|].
    intros ([|b mid] & r & Heq & H); [left; rewrite string_nil_app in Heq; by subst r|done].
  - rewrite IH. split.
    + intros [H|(mid & r & -> & H)]; [by exists "", (String a k)|by exists (String a mid), r].
    + intros ([|b mid] & r & Heq & H); [left; rewrite string_nil_app in Heq; by subst r|right].
      injection Heq as -> ->. by exists mid, r.
Qed.

Lemma glob_one_star : one_star glob.
Proof.
  intros p s k Hp Hs. rewrite (glob_plain_app p _ k Hp). split.
  - intros (r & -> & (mid & r' & -> & Hr)%glob_star).
    rewrite <- (string_app_nil s) in Hr. apply (glob_plain_app s "" r' Hs) in Hr as (e & -> & He).
    destruct e; [|done]. exists mid. by rewrite (string_app_nil s).
  - intros (mid & ->). exists (mid ++ s)%string. split; [done|]. apply glob_star. exists mid, s. split; [done|].
    rewrite <- (string_app_nil s) at 1. apply (glob_plain_app s "" s Hs). exists ""%string. by rewrite string_app_nil.
Qed.

(** ** Concrete instances *)
Module ClusterExamples.

Definition node (id : string) : RedisRateLimit :=
  RedisRateLimit_of 10 1 {["app" := 1]} "flashblocks" id.
Definition insts : list RedisRateLimit := [node "uuid-a"; node "uuid-b"].
Definition alice : IpAddr := IPv4 1 1 1 1.

Lemma insts_configured : configured insts "flashblocks" 1 {["app" := 1]} elements.
Proof.
  split.
  - split; [by apply plain_const|done].
  - done.
  - intros [|[|i]] self Hi; cbn in Hi; [| |done]; injection Hi as <-;
      (split_and!; [done..| |done]); by apply plain_const.
Qed.

(** The check of the limit and the increment are separate commands: two instances
    that both check before either increments admit two connections from an
    address whose limit is one. *)
Theorem check_then_increment_race :
  let both sch := join (zoom fst (fun s x => (s, x.2)) (redis_try_acquire (node "uuid-a") alice None)) sch
                       (zoom snd (fun s x => (x.1, s)) (redis_try_acquire (node "uuid-b") alice None)) in
  let admitted sch :=
    match (execute (RedisError := unit) tt tt tt glob (fun _ => Served) (both sch) (RedisState_new 10, RedisState_new 10) Store_new).1.1 with
    | Returned (a, b) => (is_ok a, is_ok b)
    | Panicked _ => (false, false)
    end in
  admitted [] = (true, false) /\
  exists sch, admitted sch = (true, true).
Proof.
  cbn zeta. split; [by vm_compute|].
  exists [true; true; true; true; true; false; false; false; false; false]. by vm_compute.
Qed.

End ClusterExamples.
