(* ===== verification/RedisTasks.v ===== *)
(** * The Redis limiter's programs as tasks

    The programs of the Redis limiter (crates/websocket-proxy/src/rate_limit.rs) run
    as tasks beside each other: one step executes one command, or one critical
    section, of one of them.  For each kind of task there is a program logic, by
    recursion over the program, that says what the task does to the counters and
    what it may rely on, whatever the others do between its commands: [among] for the
    check of a limit, [earns] for an attempt to connect, [pays] for a dropped ticket,
    [spares] for the background rounds with their cleanup.  RedisConcurrent puts the
    tasks together. *)
From S2P Require Import Prelude Async Net RateLimit RedisRateLimit RedisStore.

Local Open Scope Z_scope.
Local Open Scope prog_scope.

Section Tasks.
(** As in RedisStore: the errors of the redis crate, the keys that a pattern
    selects, and the instances with what they share. *)
Context {RedisError : Set} (nil_value not_usize overflow : RedisError).
Context (matches : string -> string -> bool).
Context (insts : list RedisRateLimit) (prefix : string) (ip_limit : Z) (app_limits : gmap string Z)
  (iterate : gset string -> list string).

Abbreviation RM A := (prog (@RedisReply RedisError) RedisObs RedisState A).
Abbreviation redis := (command nil_value not_usize overflow matches).
Abbreviation answer := (answer nil_value not_usize overflow matches).
Abbreviation fault := (@fault RedisError).

(** ** Steps of a task *)

(** One step of a task: a critical section on the state of its instance, a command
    to Redis, which may fail, or an act without a reply. *)
Definition command_step {A} (f : fault) (p : RM A) (s : RedisState) (st : Store) : RM A * RedisState * Store :=
  match p with
  | Ret a => (Ret a, s, st)
  | Panic m => (Panic m, s, st)
  | Atomic g k => let (x, s') := g s in (k x, s', st)
  | Await c k => let (r, st') := answer f c st in (k r, s, st')
  | Emit _ k => (k, s, st)
  end.

(** The counter that the next command increments, if it succeeds; the ones a task
    still has to decrement after its next command. *)
Definition gain (c : RedisCall) : @RedisReply RedisError c -> list string :=
  match c as c return RedisReply c -> list string with
  | Incr k => fun r => if is_ok r then [k] else []
  | _ => fun _ => []
  end.

Definition gained {A} (f : fault) (p : RM A) (st : Store) : list string :=
  match p with Await c _ => gain c (answer f c st).1 | _ => [] end.

Fixpoint remove_one (k : string) (l : list string) : list string :=
  match l with
  | [] => []
  | x :: l => if decide (x = k) then l else x :: remove_one k l
  end.

Definition settle (c : RedisCall) (owes : list string) : list string :=
  match c with Decr k => remove_one k owes | _ => owes end.

Definition settled {A} (p : RM A) (owes : list string) : list string :=
  match p with Await c _ => settle c owes | _ => owes end.

(** ** What is limited *)

(** The limit of an address or of an application: the pattern that lists its
    counters, the counter of an instance, and which connections count. *)
Record Resource : Type := {
  pattern : string;
  limit : Z;
  sel : IpAddr -> option string -> bool;
  key : RedisRateLimit -> string
}.

Definition of_address (addr : IpAddr) : Resource :=
  {| pattern := (prefix ++ ":ip:" ++ show_ip addr ++ ":instance:*:connections")%string;
     limit := ip_limit; sel := fun a _ => bool_decide (a = addr);
     key := fun self => ip_instance_key self addr |}.

Definition of_application (app : string) : Resource :=
  {| pattern := (prefix ++ ":app:" ++ app ++ ":instance:*:connections")%string;
     limit := default 0 (app_limits !! app); sel := fun _ a => bool_decide (a = Some app);
     key := fun self => app_instance_key self app |}.

(** ** Reasoning about a task among others

    [base] are the counters, one for each, of connections that have existed since
    the attempt began; some of them may go at any time, none is added. *)

(** Replies that agree with these connections, from a modest store. *)
Definition plausible (R : Resource) (base : list string) (c : RedisCall) : @RedisReply RedisError c -> Prop :=
  match c as c return RedisReply c -> Prop with
  | Keys p => fun r =>
      match r with
      | Ok ks => Z.of_nat (length ks) < 2 ^ 24 /\ (p = pattern R -> forall k, k ∈ base -> k ∈ ks)
      | Err _ => True
      end
  | Get k => fun r => occurs k base <= unwrap_or_0 r <= 2 ^ 40
  | _ => fun _ => True
  end.

(** Whatever the others do, [Q] holds of the result and of the connections that are
    still there. *)
Fixpoint among {A} (R : Resource) (p : RM A) (base : list string) (Q : A -> list string -> Prop) : Prop :=
  match p with
  | Ret a => Q a base
  | Panic _ => True
  | Atomic f k => forall s, among R (k (f s).1) base Q
  | Await c k => forall base' r, base' ⊆+ base -> plausible R base' c r -> among R (k r) base' Q
  | Emit _ k => among R k base Q
  end.

Lemma among_bind {A B} R (p : RM A) (q : A -> RM B) base Q :
  among R p base (fun a b => among R (q a) b Q) -> among R (bind p q) base Q.
Proof. revert base. induction p as [a|m|X f k IH|c k IH|o k IH]; cbn; intros base H; auto. Qed.

Lemma among_mono {A} R (p : RM A) base (Q Q' : A -> list string -> Prop) :
  (forall a b, Q a b -> Q' a b) -> among R p base Q -> among R p base Q'.
Proof.
  intros HQ. revert base. induction p as [a|m|X f k IH|c k IH|o k IH]; cbn; intros base H; auto.
Qed.

Lemma among_frame {A} R (p : RM A) base (Q : A -> list string -> Prop) :
  (forall a b, b ⊆+ base -> Q a b) -> among R p base Q.
Proof.
  revert base. induction p as [a|m|X f k IH|c k IH|o k IH]; cbn; intros base H; auto.
  intros base' r Hb _. apply IH. intros a b Hab. apply H. by etrans.
Qed.

Lemma among_shrink {A} R (p : RM A) base base' (Q : A -> list string -> Prop) :
  (forall a b b', b' ⊆+ b -> Q a b -> Q a b') -> base' ⊆+ base -> among R p base Q -> among R p base' Q.
Proof.
  intros HQ. revert base base'. induction p as [a|m|X f k IH|c k IH|o k IH]; cbn; intros base base' Hb H; eauto.
  intros b r Hbb Hr. apply H; [by etrans|done].
Qed.

Lemma filter_everything {A} (P : A -> Prop) `{forall x, Decision (P x)} (l : list A) :
  (forall x, x ∈ l -> P x) -> filter P l = l.
Proof.
  induction l as [|x l IH]; intros Hl; [done|].
  rewrite filter_cons, decide_True by (apply Hl; left). f_equal. apply IH. intros y Hy. apply Hl. by right.
Qed.

Lemma filter_nothing {A} (P : A -> Prop) `{forall x, Decision (P x)} (l : list A) :
  (forall x, x ∈ l -> ~ P x) -> filter P l = [].
Proof.
  induction l as [|x l IH]; intros Hl; [done|].
  rewrite filter_cons, decide_False by (apply Hl; left). apply IH. intros y Hy. apply Hl. by right.
Qed.

Lemma filter_length_le {A} (P Q : A -> Prop) `{forall x, Decision (P x), forall x, Decision (Q x)} (l : list A) :
  (forall x, P x -> Q x) -> (length (filter P l) <= length (filter Q l))%nat.
Proof.
  intros HPQ. induction l as [|x l IH]; [done|]. rewrite !filter_cons.
  case_decide as HP; [rewrite decide_True by auto; cbn; lia|]. case_decide; cbn; lia.
Qed.

(** How many of [base] are counted by other keys. *)
Definition outside (keys base : list string) : Z := Z.of_nat (length (filter (.∉ keys) base)).

Lemma outside_cons k keys base : outside keys base <= outside (k :: keys) base + occurs k base.
Proof.
  unfold outside, occurs. induction base as [|x base IH]; [done|]. rewrite !filter_cons.
  repeat case_decide; cbn [length] in *; try lia; set_solver.
Qed.

Lemma outside_submseteq keys base base' : base' ⊆+ base -> outside keys base' <= outside keys base.
Proof.
  intros [r Hr]%submseteq_Permutation. unfold outside. rewrite Hr, filter_app, length_app. lia.
Qed.

Lemma occurs_nonneg k l : 0 <= occurs k l.
Proof. unfold occurs. lia. Qed.

(** The sum that is read is at least the number of these connections; it does not
    wrap around. *)
Lemma among_total R keys total base Q :
  0 <= total -> total + Z.of_nat (length keys) * 2 ^ 40 < 2 ^ 64 -> outside keys base <= total ->
  (forall n b, b ⊆+ base -> Z.of_nat (length b) <= n -> Q n b) ->
  among R (total_connections keys total) base Q.
Proof.
  revert total base. induction keys as [|k keys IH]; intros total base H0 Hw Ht HQ; cbn [total_connections].
  - apply HQ; [done|]. unfold outside in Ht. by rewrite filter_everything in Ht by set_solver.
  - intros base' r Hb Hr. cbn [plausible bind] in Hr |- *. pose proof (occurs_nonneg k base').
    cbn [length] in Hw.
    assert (Hadd : usize_add total (unwrap_or_0 r) = total + unwrap_or_0 r)
      by (unfold usize_add; apply Z.mod_small; lia).
    rewrite Hadd. apply IH; [lia|lia| |].
    + pose proof (outside_cons k keys base'). pose proof (outside_submseteq (k :: keys) _ _ Hb). lia.
    + intros n b Hbb. apply HQ. by etrans.
Qed.

(** Admission by a resource: fewer than the limit of the connections that existed
    when the attempt began are still there. *)
Definition admits (R : Resource) {T E} (r : result T E) (base : list string) : Prop :=
  is_ok r = true -> Z.of_nat (length base) < limit R.

Lemma admits_shrink R {T E} (r : result T E) b b' : b' ⊆+ b -> admits R r b -> admits R r b'.
Proof. unfold admits. intros Hb%submseteq_length H Hr. specialize (H Hr). lia. Qed.

(** The check of either limit, then the increment. *)
Lemma among_check R pat k (errs : string) base :
  pat = pattern R ->
  among R
    (let* keys := await (Keys pat) in
     match keys with
     | Err _ => Ret (Err operation_failed)
     | Ok keys =>
         let* total := total_connections keys 0 in
         if limit R <=? total then Ret (Err (Limit errs))
         else let* r := await (Incr k) in
              match r with Ok count => Ret (Ok count) | Err _ => Ret (Err operation_failed) end
     end) base (admits R).
Proof.
  intros ->. cbn. intros base' [ks|e] Hb Hr; [|done]. destruct Hr as [Hlen Hr]. specialize (Hr eq_refl).
  apply among_bind, among_total; [done|lia|..].
  - unfold outside. replace (filter (.∉ ks) base') with (@nil string); [done|].
    symmetry. apply filter_nothing. intros x Hx Hn. by apply Hn, Hr.
  - intros n b Hbb Hn. destruct (Z.leb_spec (limit R) n); cbn; [done|].
    intros b' [m|e] Hb' _; cbn; [|done]. intros _. apply submseteq_length in Hb'. lia.
Qed.

Lemma among_count_ip self addr base :
  key_prefix self = prefix -> r_per_ip_limit self = ip_limit -> 0 < ip_limit ->
  among (of_address addr) (count_ip self addr) base (admits (of_address addr)).
Proof.
  intros Hp Hl Hpos. unfold count_ip. rewrite Hl. destruct (Z.ltb_spec 0 ip_limit); [|lia].
  apply (among_check (of_address addr)). cbn. by rewrite Hp.
Qed.

Lemma among_count_app self app base :
  key_prefix self = prefix -> r_per_app_limit self = app_limits ->
  among (of_application app) (count_app self (Some app)) base (admits (of_application app)).
Proof.
  intros Hp Hl. unfold count_app. rewrite Hl. apply (among_check (of_application app)). cbn. by rewrite Hp.
Qed.

(** *** Attempts *)

(** An attempt that a resource counts is admitted only by the rule of the resource. *)
Definition guarded (R : Resource) : Prop :=
  forall i self addr app base, insts !! i = Some self -> sel R addr app = true ->
    among R (redis_try_acquire self addr app) base (admits R).

Lemma among_try_acquire R self addr app base :
  (forall b, among R (count_ip self addr) b (admits R)) \/
  (forall b, among R (count_app self app) b (admits R)) ->
  among R (redis_try_acquire self addr app) base (admits R).
Proof.
  intros H. unfold redis_try_acquire. apply among_bind, among_frame. intros [] b0 _. cbn.
  intros s. destruct (free_permits s) as [|left]; cbn; [done|]. intros b1 [[]|e] _ _; cbn; [|done].
  destruct H as [H|H].
  - apply among_bind. eapply among_mono; [|apply H]. intros [n|e] b Hok; cbn; [|done].
    apply among_bind, among_frame. intros [m|e] b' Hb; cbn; [|done].
    intros _. specialize (Hok eq_refl). apply submseteq_length in Hb. lia.
  - apply among_bind, among_frame. intros [n|e] b _; cbn; [|done].
    apply among_bind. eapply among_mono; [|apply H]. intros [m|e] b' Hok; cbn; done.
Qed.

(** ** Counters a task has incremented, or will decrement *)

(** The counters of the instance [i]; those of the instances that are up. *)
Definition owned (i : nat) (k : string) : Prop :=
  exists self kind x, insts !! i = Some self /\ plain x /\ (kind = "ip" \/ kind = "app") /\
    k = counter_key prefix kind x (instance_id self).

Definition live (up : gset nat) (k : string) : Prop := exists i, i ∈ up /\ owned i k.

Lemma live_mono up up' k : up ⊆ up' -> live up k -> live up' k.
Proof. intros Hu (i & Hi & Hk). exists i. split; [by apply Hu|done]. Qed.

(** A task of the instance [i] that only increments its counters; [has] are those it
    has incremented. *)
Fixpoint earns {A} (i : nat) (p : RM A) (has : list string) (Q : A -> list string -> Prop) : Prop :=
  match p with
  | Ret a => Q a has
  | Panic _ => True
  | Atomic f k => forall s, earns i (k (f s).1) has Q
  | Await c k =>
      match c with Incr key => owned i key | Decr _ | Del _ | SetEx _ _ _ => False | _ => True end /\
      forall r, earns i (k r) (gain c r ++ has) Q
  | Emit _ k => earns i k has Q
  end.

Lemma earns_bind {A B} i (p : RM A) (q : A -> RM B) has Q :
  earns i p has (fun a h => earns i (q a) h Q) -> earns i (bind p q) has Q.
Proof.
  revert has. induction p as [a|m|X f k IH|c k IH|o k IH]; cbn; intros has H; auto.
  destruct H as [H1 H2]. split; [done|]. auto.
Qed.

Lemma earns_mono {A} i (p : RM A) has (Q Q' : A -> list string -> Prop) :
  (forall a h, Q a h -> Q' a h) -> earns i p has Q -> earns i p has Q'.
Proof.
  intros HQ. revert has. induction p as [a|m|X f k IH|c k IH|o k IH]; cbn; intros has H; auto.
  destruct H as [H1 H2]. split; [done|]. auto.
Qed.

(** A task of the instance [i] that only decrements counters it [owes]. *)
Fixpoint pays {A} (i : nat) (p : RM A) (owes : list string) : Prop :=
  match p with
  | Ret _ | Panic _ => True
  | Atomic f k => forall s, pays i (k (f s).1) owes
  | Await c k =>
      match c with
      | Decr key => owned i key /\ key ∈ owes
      | Incr _ | Del _ | SetEx _ _ _ => False
      | _ => True
      end /\ forall r, pays i (k r) (settle c owes)
  | Emit _ k => pays i k owes
  end.

(** Reading the counters changes nothing. *)
Lemma earns_total i keys total has Q :
  (forall n, Q n has) -> earns i (total_connections keys total) has Q.
Proof. intros HQ. revert total. induction keys as [|k keys IH]; intros total; cbn; auto. Qed.

Lemma earns_check i pat lim k (errs : string) has (Q : result Z RateLimitError -> list string -> Prop) :
  owned i k -> (forall e, Q (Err e) has) -> (forall n, Q (Ok n) (k :: has)) ->
  earns i
    (let* keys := await (Keys pat) in
     match keys with
     | Err _ => Ret (Err operation_failed)
     | Ok keys =>
         let* total := total_connections keys 0 in
         if lim <=? total then Ret (Err (Limit errs))
         else let* r := await (Incr k) in
              match r with Ok count => Ret (Ok count) | Err _ => Ret (Err operation_failed) end
     end) has Q.
Proof.
  intros Hg He Hok. cbn. split; [done|]. intros [ks|e]; cbn; [|auto].
  apply earns_bind, earns_total. intros n. destruct (lim <=? n); cbn; [auto|].
  split; [done|]. intros [m|e]; cbn; auto.
Qed.

Definition ip_counted (self : RedisRateLimit) (addr : IpAddr) : list string :=
  if 0 <? r_per_ip_limit self then [ip_instance_key self addr] else [].
Definition app_counted (self : RedisRateLimit) (app : option string) : list string :=
  match app with Some a => [app_instance_key self a] | None => [] end.

Lemma counted_keys_split self addr app :
  counted_keys self addr app = ip_counted self addr ++ app_counted self app.
Proof. done. Qed.

Lemma earns_try_acquire i self addr app :
  Forall (owned i) (counted_keys self addr app) ->
  earns i (redis_try_acquire self addr app) []
    (fun r has => forall t, r = Ok t -> t = {| t_addr := addr; t_app := app |} /\
       has ≡ₚ counted_keys self addr app).
Proof.
  rewrite counted_keys_split. intros [Hip Happ]%Forall_app. unfold redis_try_acquire.
  apply earns_bind. cbn. intros s0. destruct (background_tasks_started s0); cbn;
    intros s; (destruct (free_permits s) as [|left]; cbn; [done|]); (split; [done|]);
    (intros [[]|e]; cbn; [|done]).
  all: apply earns_bind; apply (earns_mono _ _ _ (fun r h => is_ok r = true -> h = ip_counted self addr)).
  2, 4: unfold count_ip, ip_counted in *; destruct (0 <? r_per_ip_limit self); [|done];
    apply earns_check; [by inversion Hip|done|done].
  all: intros [n|e] h Hh; cbn; [|done]; rewrite (Hh eq_refl); apply earns_bind;
    apply (earns_mono _ _ _ (fun r h => is_ok r = true -> h = app_counted self app ++ ip_counted self addr)).
  1, 3: intros [m|e] h' Hh'; cbn; [|done]; intros t [= <-]; split; [done|];
    rewrite (Hh' eq_refl); apply Permutation_app_comm.
  all: unfold count_app, app_counted in *; destruct app as [a|]; [|done];
    apply earns_check; [by inversion Happ|done|done].
Qed.

Lemma pays_drop i self t : Forall (owned i) (counted_keys self (t_addr t) (t_app t)) ->
  pays i (redis_drop self t) (counted_keys self (t_addr t) (t_app t)).
Proof.
  rewrite counted_keys_split. intros [Hip Happ]%Forall_app.
  unfold redis_drop, redis_release, ip_counted, app_counted in *. cbn. split; [done|].
  intros [[]|e]; cbn; [|done].
  destruct (0 <? r_per_ip_limit self), (t_app t) as [a|]; cbn; rewrite ?decide_True by done.
  - split; [split; [by inversion Hip|left]|]. intros _. split; [split; [by inversion Happ|left]|]. done.
  - split; [split; [by inversion Hip|left]|]. done.
  - split; [split; [by inversion Happ|left]|]. done.
  - done.
Qed.

(** ** Background rounds *)

(** Replies that agree with what is in the store: listed keys are plain and match the
    pattern, and the instances that are up have their heartbeat when heartbeats are
    listed. *)
Definition beats_pattern : string := (prefix ++ ":instance:*:heartbeat")%string.

Definition believable (up : gset nat) (c : RedisCall) : @RedisReply RedisError c -> Prop :=
  match c as c return RedisReply c -> Prop with
  | Keys p => fun r =>
      match r with
      | Ok ks =>
          (forall k, k ∈ ks -> plain k /\ matches p k = true) /\
          (p = beats_pattern -> forall i self, i ∈ up -> insts !! i = Some self ->
             instance_heartbeat_key self ∈ ks)
      | Err _ => True
      end
  | _ => fun _ => True
  end.

(** Commands that leave the counters of the instances [up] alone. *)
Definition harmless (up : gset nat) (c : RedisCall) : Prop :=
  match c with
  | Del k => ~ live up k
  | SetEx k v _ => (exists i self, insts !! i = Some self /\ k = instance_heartbeat_key self) /\ 0 <= v
  | Incr _ | Decr _ => False
  | GetConnection | Keys _ | Get _ => True
  end.

(** A task that only issues such commands. *)
Fixpoint spares {A} (up : gset nat) (p : RM A) : Prop :=
  match p with
  | Ret _ | Panic _ => True
  | Atomic f k => forall s, spares up (k (f s).1)
  | Await c k => harmless up c /\ forall r, believable up c r -> spares up (k r)
  | Emit _ k => spares up k
  end.

Lemma spares_bind {A B} up (p : RM A) (q : A -> RM B) :
  spares up p -> (forall a, spares up (q a)) -> spares up (bind p q).
Proof.
  intros Hp Hq. induction p as [a|m|X f k IH|c k IH|o k IH]; cbn in *; auto.
  destruct Hp as [H1 H2]. split; [done|]. auto.
Qed.

Lemma believable_mono up up' c r : up' ⊆ up -> believable up c r -> believable up' c r.
Proof.
  destruct c; try done. destruct r as [ks|e]; [|done]. cbn. intros Hu [H1 H2]. split; [done|].
  intros Hp i self Hi. apply H2; [done|by apply Hu].
Qed.

Lemma spares_delete_keys up keys :
  (forall k, k ∈ keys -> ~ live up k) -> spares up (delete_keys keys : RM _).
Proof.
  induction keys as [|k keys IH]; intros Hk; cbn [delete_keys]; [done|].
  cbn. split; [apply Hk; left|]. intros [[]|e] _; cbn; [|done]. apply IH. intros k' Hk'. apply Hk. by right.
Qed.

Section Keys.
Context (Hcf : configured insts prefix ip_limit app_limits iterate) (Hstar : one_star matches).

Lemma owned_ok i k : owned i k -> plain k /\ ~ heartbeat_key prefix k.
Proof.
  intros (self & kind & x & Hi & Hx & Hkind & ->). destruct (cf_inst _ _ _ _ _ Hcf i self Hi) as (_ & _ & _ & Hid & _).
  split; [eapply counter_key_plain; [exact Hcf| |done|done]|eapply counter_key_not_heartbeat; [exact Hcf|..]];
    destruct Hkind as [->| ->]; try done; by apply plain_const.
Qed.

Lemma session_owned i self t k :
  insts !! i = Some self -> (forall a, t_app t = Some a -> plain a) ->
  k ∈ counted_keys self (t_addr t) (t_app t) -> owned i k.
Proof.
  intros Hi Ha Hk.
  destruct (session_key_form insts prefix ip_limit app_limits iterate Hcf i self t k Hi Ha) as (kind & x & Hx & Hkind & ->).
  { unfold session_keys. cbn. by rewrite Hi. }
  by exists self, kind, x.
Qed.

(** The pattern for an id selects only counters of instances with that id. *)
Lemma belongs_not_live self up id k :
  key_prefix self = prefix -> plain id -> has_char colon id = false ->
  (forall i selfi, i ∈ up -> insts !! i = Some selfi -> instance_id selfi <> id) ->
  belongs matches self id k -> ~ live up k.
Proof.
  intros Hp Hid Hc Hne Hb (i & Hup & selfi & kind & x & Hi & _ & _ & Hk).
  destruct (belongs_id matches insts prefix ip_limit app_limits iterate Hcf Hstar self id k Hp Hid Hb)
    as (kind' & x' & Hk').
  destruct (cf_inst _ _ _ _ _ Hcf i selfi Hi) as (_ & _ & _ & _ & Hci).
  apply (Hne i selfi Hup Hi). by apply (counter_key_instance prefix kind x _ kind' x'); [..|congruence].
Qed.

Lemma spares_cleanup_instance self up id :
  key_prefix self = prefix -> plain id -> has_char colon id = false ->
  (forall i selfi, i ∈ up -> insts !! i = Some selfi -> instance_id selfi <> id) ->
  spares up (cleanup_instance self id : RM _).
Proof.
  intros Hp Hid Hc Hne.
  assert (Hdel : forall k, matches (ip_pattern self id) k = true \/ matches (app_pattern self id) k = true ->
    ~ live up k) by (intros k; by apply (belongs_not_live self)).
  unfold cleanup_instance. cbn. split; [done|]. intros [ips|e] Hr; cbn in *; [|done].
  split; [done|]. intros [apps|e] Hr'; cbn in *; [|done].
  apply spares_bind; [apply spares_delete_keys; intros k Hk; apply Hdel; left; by apply Hr|].
  intros [[]|e]; cbn; [|done].
  apply spares_bind; [apply spares_delete_keys; intros k Hk; apply Hdel; right; by apply Hr'|].
  by intros [[]|e].
Qed.

Lemma spares_cleanup_loop self up active ids :
  key_prefix self = prefix -> (forall id, id ∈ ids -> plain id /\ has_char colon id = false) ->
  (forall i selfi, i ∈ up -> insts !! i = Some selfi -> instance_id selfi ∈ active) ->
  spares up (cleanup_loop self active ids : RM _).
Proof.
  intros Hp Hids Hact. induction ids as [|id ids IH]; cbn [cleanup_loop]; [done|].
  specialize (IH ltac:(intros; apply Hids; by right)). destruct (Hids id ltac:(left)) as [Hid Hc].
  case_decide; [done|]. case_decide as Ha; [done|].
  apply spares_bind; [|by intros [[]|e]].
  apply spares_cleanup_instance; try done. intros i selfi Hup Hi <-. by apply Ha, (Hact i).
Qed.

Lemma fields_ok n ks id :
  (forall k, k ∈ ks -> plain k) -> id ∈ fields n ks -> plain id /\ has_char colon id = false.
Proof.
  intros Hks. unfold fields. rewrite list_elem_of_omap. intros (k & Hk & Hid). eapply field_ok; [|done]. by apply Hks.
Qed.

(** The cleanup deletes no counter of an instance whose heartbeat it has listed, and a
    round only renews the heartbeat besides. *)
Lemma spares_cleanup self up :
  key_prefix self = prefix -> spares up (cleanup_stale_instances iterate self : RM _).
Proof.
  intros Hp. unfold cleanup_stale_instances. cbn. split; [done|]. intros [[]|e] _; cbn; [|done].
  split; [done|]. intros [beats|e] Hb; cbn in *; [|done].
  split; [done|]. intros [ips|e] Hips; cbn in *; [|done].
  split; [done|]. intros [apps|e] Happs; cbn in *; [|done].
  destruct Hb as [_ Hb]. unfold heartbeat_pattern, beats_pattern in Hb. rewrite Hp in Hb. specialize (Hb eq_refl).
  assert (Hact : forall i selfi, i ∈ up -> insts !! i = Some selfi -> instance_id selfi ∈ fields 2 beats).
  { intros i selfi Hup Hi. apply list_elem_of_omap. exists (instance_heartbeat_key selfi).
    split; [by eapply Hb|by eapply heartbeat_field]. }
  assert (Hloop : forall ks, (forall k, k ∈ ks -> plain k) ->
    spares up (cleanup_loop self (fields 2 beats) (iterate (list_to_set (fields 4 ks))) : RM _)).
  { intros ks Hks. apply spares_cleanup_loop; [done| |done]. intros id.
    rewrite (cf_iterate _ _ _ _ _ Hcf), elem_of_elements, elem_of_list_to_set. by apply fields_ok. }
  apply spares_bind; [apply Hloop; intros k Hk; by apply Hips|]. intros [[]|e]; cbn; [|done].
  apply spares_bind; [apply Hloop; intros k Hk; by apply Happs|]. by intros [[]|e].
Qed.

Lemma spares_heartbeat i self up now :
  insts !! i = Some self -> spares up (update_heartbeat self now : RM _).
Proof.
  intros Hi. cbn. split; [done|]. intros [[]|e] _; cbn; [|done].
  destruct (Z.ltb_spec now 0); cbn; [done|]. split; [by split; [exists i, self|]|]. by intros [[]|e].
Qed.

Lemma spares_round i self up now :
  insts !! i = Some self -> spares up (background_round iterate self now : RM _).
Proof.
  intros Hi. destruct (cf_inst _ _ _ _ _ Hcf i self Hi) as (Hp & _).
  unfold background_round. apply spares_bind; [by apply (spares_heartbeat i)|].
  intros _. apply spares_bind; [by apply spares_cleanup|done].
Qed.

(** ** What the commands do to the store *)

Lemma counter_nonneg st k : sane prefix st -> 0 <= counter st k.
Proof.
  intros Hs. unfold counter. destruct (entries st !! k) as [[v [e|]]|] eqn:He; [lia| |lia].
  by apply (sn_range _ _ Hs k v None).
Qed.

Lemma command_earns c st i L (P : string -> Prop) :
  sane prefix st -> (forall k, P k -> occurs k L <= counter st k) ->
  match c with Incr key => owned i key | Decr _ | Del _ | SetEx _ _ _ => False | _ => True end ->
  sane prefix (redis c st).2 /\
  forall k, P k -> occurs k (gain c (redis c st).1 ++ L) <= counter (redis c st).2 k.
Proof.
  intros Hs HL Hc. destruct c as [|p|k|key|k|k|k v ttl]; try done. cbn.
  destruct (add_to not_usize overflow key 1 st) as [r st'] eqn:Ha. destruct (owned_ok _ _ Hc) as [Hp Hh].
  pose proof (counter_nonneg st key Hs).
  destruct (add_to_spec not_usize overflow prefix st key 1 r st' Hs Hh Hp ltac:(lia) Ha)
    as (Hs' & _ & _ & Hcount). split; [done|]. intros k Hk. cbn. rewrite Hcount, occurs_app.
  specialize (HL k Hk). destruct r as [m|e]; cbn.
  - rewrite occurs_cons. change (occurs k []) with 0. repeat case_decide; subst; naive_solver lia.
  - change (occurs k []) with 0. rewrite decide_False by (by intros [? _]). lia.
Qed.

Lemma occurs_remove_one k key l :
  key ∈ l -> occurs k (remove_one key l) = occurs k l - (if decide (key = k) then 1 else 0).
Proof.
  induction l as [|x l IH]; intros Hin; [by apply elem_of_nil in Hin|]. cbn.
  destruct (decide (x = key)) as [->|Hne]; rewrite !occurs_cons; [lia|].
  rewrite IH by set_solver. lia.
Qed.

Lemma command_pays c st i owes L (P : string -> Prop) :
  sane prefix st -> (forall k, owned i k -> P k) ->
  (forall k, P k -> occurs k (owes ++ L) <= counter st k) ->
  match c with
  | Decr key => owned i key /\ key ∈ owes
  | Incr _ | Del _ | SetEx _ _ _ => False
  | _ => True
  end ->
  sane prefix (redis c st).2 /\
  forall k, P k -> occurs k (settle c owes ++ L) <= counter (redis c st).2 k.
Proof.
  intros Hs HP HL Hc. destruct c as [|p|k|k|key|k|k v ttl]; try done. cbn. destruct Hc as [Ho Hin].
  destruct (owned_ok _ _ Ho) as [Hp Hh].
  destruct (add_to not_usize overflow key (-1) st) as [r st'] eqn:Ha.
  pose proof (HL key (HP key Ho)) as Hkey0. rewrite occurs_app in Hkey0.
  pose proof (occurs_nonneg key L). pose proof (occurs_pos key owes Hin).
  destruct (add_to_spec not_usize overflow prefix st key (-1) r st' Hs Hh Hp ltac:(lia) Ha)
    as (Hs' & _ & Hok & Hcount). split; [done|]. intros k Hk. cbn.
  specialize (HL k Hk). rewrite occurs_app in HL. rewrite Hcount, occurs_app, occurs_remove_one by done.
  rewrite Hok by lia. repeat case_decide; subst; naive_solver lia.
Qed.

Lemma command_spares c st up :
  sane prefix st -> harmless up c ->
  sane prefix (redis c st).2 /\ forall k, live up k -> counter (redis c st).2 k = counter st k.
Proof.
  intros Hs Hc. destruct c as [|p|k|k|k|key|key v ttl]; try done; cbn.
  - split.
    + destruct Hs as [S1 S2 S3]. split; cbn; intros k.
      * intros v e [_ Hv]%lookup_delete_Some. by apply (S1 k).
      * intros v e [_ Hv]%lookup_delete_Some. by apply (S2 k v e).
      * intros [v [_ Hv]%lookup_delete_Some]. by apply S3.
    + intros k Hk. unfold counter. cbn. rewrite lookup_delete_ne; [done|]. by intros ->.
  - destruct Hc as [(i & self & Hi & ->) Hv].
    destruct (heartbeat_store insts prefix ip_limit app_limits iterate Hcf i self v (clock st + ttl) st Hi Hv Hs)
      as [H1 H2]. split; [done|]. intros k (j & _ & Hk). apply H2. by apply (owned_ok j).
Qed.

Lemma command_believable c st up :
  sane prefix st ->
  (c = Keys beats_pattern -> forall i self, i ∈ up -> insts !! i = Some self ->
     is_Some (entry st (instance_heartbeat_key self))) ->
  believable up c (redis c st).1.
Proof.
  intros Hs Hb. destruct c as [|p|k|k|k|k|k v ttl]; try done. cbn. split.
  - intros k Hk. split; [by eapply listed_plain|by apply listed_spec in Hk as [? _]].
  - intros -> i self Hup Hi. apply listed_spec. split; [|by eapply Hb].
    destruct (cf_inst _ _ _ _ _ Hcf i self Hi) as (Hp & _).
    pose proof (heartbeat_matches matches insts prefix ip_limit app_limits iterate Hcf Hstar self i self Hp Hi) as Hm.
    unfold heartbeat_pattern in Hm. by rewrite Hp in Hm.
Qed.

(** The replies of a modest store agree with the connections whose counters are
    claimed. *)
Lemma command_plausible R c st base L (P : string -> Prop) :
  sane prefix st -> modest st -> (forall k, P k -> occurs k L <= counter st k) ->
  (forall k, k ∈ base -> P k /\ matches (pattern R) k = true) ->
  (forall k, occurs k base <= occurs k L) ->
  plausible R base c (redis c st).1.
Proof.
  intros Hs Hm HL Hb Hle. destruct c as [|p|k|k|k|k|k v ttl]; try done.
  - split; [by apply listed_modest|]. intros -> k Hk. destruct (Hb k Hk) as [Hg Hmat]. apply listed_spec. split; [done|].
    apply counter_entry. specialize (HL k Hg). specialize (Hle k). pose proof (occurs_pos k base Hk). lia.
  - change (plausible R base (Get k) (redis (Get k) st).1)
      with (occurs k base <= unwrap_or_0 (redis (Get k) st).1 <= 2 ^ 40).
    rewrite unwrap_reading. split; [|by apply reading_modest]. destruct (decide (k ∈ base)) as [Hk|Hk].
    + destruct (Hb k Hk) as [Hg _]. specialize (HL k Hg). specialize (Hle k).
      pose proof (counter_reading st k). lia.
    + rewrite occurs_zero by done. unfold reading. lia.
Qed.

(** *** With faults *)

Lemma gain_failed e c : gain c (failed e c) = [].
Proof. by destruct c. Qed.

Lemma answer_earns f c st i L (P : string -> Prop) :
  sane prefix st -> (forall k, P k -> occurs k L <= counter st k) ->
  match c with Incr key => owned i key | Decr _ | Del _ | SetEx _ _ _ => False | _ => True end ->
  sane prefix (answer f c st).2 /\
  forall k, P k -> occurs k (gain c (answer f c st).1 ++ L) <= counter (answer f c st).2 k.
Proof.
  intros Hs HL Hc. destruct (command_earns c st i L P Hs HL Hc) as [H1 H2].
  destruct f as [|e|e]; cbn; [done|by rewrite gain_failed|]. rewrite gain_failed. split; [done|].
  intros k Hk. specialize (H2 k Hk). rewrite occurs_app in H2. pose proof (occurs_nonneg k (gain c (redis c st).1)).
  cbn. lia.
Qed.

Lemma settle_occurs k c owes : occurs k (settle c owes) <= occurs k owes.
Proof.
  destruct c as [|p|x|x|key|x|x v t]; try done. cbn. induction owes as [|x owes IH]; [done|]. cbn.
  destruct (decide (x = key)); rewrite !occurs_cons; case_decide; lia.
Qed.

Lemma answer_pays f c st i owes L (P : string -> Prop) :
  sane prefix st -> (forall k, owned i k -> P k) ->
  (forall k, P k -> occurs k (owes ++ L) <= counter st k) ->
  match c with
  | Decr key => owned i key /\ key ∈ owes
  | Incr _ | Del _ | SetEx _ _ _ => False
  | _ => True
  end ->
  sane prefix (answer f c st).2 /\
  forall k, P k -> occurs k (settle c owes ++ L) <= counter (answer f c st).2 k.
Proof.
  intros Hs HP HL Hc. destruct (command_pays c st i owes L P Hs HP HL Hc) as [H1 H2].
  destruct f as [|e|e]; cbn; [done| |done]. split; [done|]. intros k Hk. specialize (HL k Hk).
  pose proof (settle_occurs k c owes). rewrite occurs_app in *. lia.
Qed.

Lemma answer_spares f c st up :
  sane prefix st -> harmless up c ->
  sane prefix (answer f c st).2 /\ forall k, live up k -> counter (answer f c st).2 k = counter st k.
Proof. intros Hs Hc. destruct (command_spares c st up Hs Hc) as [H1 H2]. by destruct f. Qed.

Lemma answer_believable f c st up :
  sane prefix st ->
  (c = Keys beats_pattern -> forall i self, i ∈ up -> insts !! i = Some self ->
     is_Some (entry st (instance_heartbeat_key self))) ->
  believable up c (answer f c st).1.
Proof. intros Hs Hb. destruct f; [by apply command_believable|by destruct c..]. Qed.

(** A counter that cannot be read counts as zero, so its reading must be served. *)
Lemma answer_plausible R f c st base L (P : string -> Prop) :
  sane prefix st -> modest st -> (forall k, c = Get k -> f = Served) ->
  (forall k, P k -> occurs k L <= counter st k) ->
  (forall k, k ∈ base -> P k /\ matches (pattern R) k = true) ->
  (forall k, occurs k base <= occurs k L) ->
  plausible R base c (answer f c st).1.
Proof.
  intros Hs Hm Hf HL Hb Hle. destruct f; [by eapply command_plausible|..];
    (destruct c; try done; by specialize (Hf _ eq_refl)).
Qed.

(** The first heartbeat of an instance, run on its own. *)
Lemma execute_register faults i self now s st :
  insts !! i = Some self -> sane prefix st ->
  let '(_, s', st') := execute nil_value not_usize overflow matches faults (register_instance self now) s st in
  s' = s /\ sane prefix st' /\ forall k up, live up k -> counter st' k = counter st k.
Proof.
  intros Hi Hs. cbn.
  assert (Hc : (answer (faults GetConnection) GetConnection st).2 = st) by by destruct (faults GetConnection).
  destruct (answer (faults GetConnection) GetConnection st) as [[[]|e] st1]; cbn in Hc; subst st1; cbn; [|done].
  destruct (Z.ltb_spec now 0); cbn; [done|].
  set (c := SetEx _ _ _).
  assert (Hh : forall up, harmless up c) by (intros up; by split; [exists i, self|]).
  pose proof (fun up => answer_spares (faults c) c st up Hs (Hh up)) as H0.
  destruct (answer (faults c) c st) as [[[]|e] st']; cbn in *;
    (split_and!; [done|apply (H0 ∅)|intros k up; apply (H0 up)]).
Qed.

End Keys.

End Tasks.
