(* ===== verification/RedisConcurrent.v ===== *)
(** * Attempts that overlap at the shared Redis

    The commands of all operations interleave: the programs of the Redis limiter
    (crates/websocket-proxy/src/rate_limit.rs) run as tasks (RedisTasks), and one step
    executes one command, or one critical section, of one of them.  Any command may
    fail.  Instances start, crash and start again; the store may hold what dead
    instances left in it.

    The check of a limit and the increment that follows it are then separate, and more
    connections than the limit can be admitted; this file shows by how many at most,
    under the conditions of [favourable], and what happens without them.  The limit of
    connections of an instance is a semaphore of its own and holds exactly
    (RedisPermits). *)
From S2P Require Import Prelude Async Net RateLimit RedisRateLimit RedisStore RedisTasks.

Local Open Scope Z_scope.
Local Open Scope prog_scope.

Section Concurrent.
(** As in RedisStore: the errors of the redis crate, the keys that a pattern
    selects, and the instances with what they share. *)
Context {RedisError : Set} (nil_value not_usize overflow : RedisError).
Context (matches : string -> string -> bool).
Context (insts : list RedisRateLimit) (prefix : string) (ip_limit : Z) (app_limits : gmap string Z)
  (iterate : gset string -> list string).

Abbreviation RM A := (prog (@RedisReply RedisError) RedisObs RedisState A).
Abbreviation fault := (@fault RedisError).
Abbreviation answer := (answer nil_value not_usize overflow matches).
Abbreviation command_step := (command_step nil_value not_usize overflow matches).
Abbreviation gained := (gained nil_value not_usize overflow matches).
Abbreviation owned := (owned insts prefix).
Abbreviation live := (live insts prefix).
Abbreviation earns := (earns insts prefix).
Abbreviation pays := (pays insts prefix).
Abbreviation spares := (spares matches insts prefix).

(** ** Tasks and connections *)

(** An attempt to connect: its instance, what is asked for, the program that is left
    of it; when it began, the counters it has incremented, and the permits it has
    taken. *)
Record Attempt : Type := {
  a_inst : nat;
  a_addr : IpAddr;
  a_app : option string;
  a_prog : RM (result Ticket RateLimitError);
  a_started : nat;
  a_has : list string;
  a_permits : Z
}.

(** A connection: its instance and ticket; when its attempt began, and when it was
    admitted. *)
Record Session : Set := { s_inst : nat; s_ticket : Ticket; s_started : nat; s_admitted : nat }.

(** The drop of a ticket: the program that is left, the counters it still has to
    decrement, and the permit it has to give back. *)
Record Dropper : Type := { d_inst : nat; d_prog : RM unit; d_owes : list string; d_permits : Z }.

(** A round of the background task: heartbeat and cleanup; whether the cleanup has
    listed the heartbeats. *)
Record Keeper : Type := { k_inst : nat; k_prog : RM unit; k_listed : bool }.

(** The instances that are up, the tasks and the connections of all instances;
    [stamp] numbers the events. *)
Record Pool : Type := {
  p_store : Store;
  p_nodes : list RedisState;
  up : gset nat;
  attempts : list Attempt;
  alive : list Session;
  droppers : list Dropper;
  keepers : list Keeper;
  stamp : nat
}.

(** No instance is up yet; [st] is what earlier instances have left in Redis. *)
Definition Pool_from (st : Store) : Pool :=
  {| p_store := st; p_nodes := map (fun self => RedisState_new (r_instance_limit self)) insts;
     up := ∅; attempts := []; alive := []; droppers := []; keepers := []; stamp := 0 |}.

(** ** Steps *)

Definition set_store (st : Store) (x : Pool) : Pool :=
  {| p_store := st; p_nodes := p_nodes x; up := up x; attempts := attempts x; alive := alive x;
     droppers := droppers x; keepers := keepers x; stamp := stamp x |}.

(** An instance starts: it has all its permits and registers with its first heartbeat,
    whose errors are ignored; a panic keeps it from coming up. *)
Definition start_instance (i : nat) (now : Z) (faults : RedisCall -> fault) (x : Pool) : Pool :=
  match insts !! i with
  | Some self =>
      if decide (i ∈ up x) then x else
      match Semaphore_new (r_instance_limit self) with
      | Panicked _ => x
      | Returned permits =>
          let '(o, s', st') := execute nil_value not_usize overflow matches faults
            (register_instance self now) (RedisState_new permits) (p_store x) in
          match o with
          | Panicked _ => set_store st' x
          | Returned _ =>
              {| p_store := st'; p_nodes := <[i := s']> (p_nodes x); up := {[i]} ∪ up x;
                 attempts := attempts x; alive := alive x; droppers := droppers x;
                 keepers := keepers x; stamp := stamp x |}
          end
      end
  | None => x
  end.

(** An instance dies, with its connections and everything it was doing; nothing is
    released. *)
Definition instance_dies (i : nat) (x : Pool) : Pool :=
  {| p_store := p_store x; p_nodes := p_nodes x; up := up x ∖ {[i]};
     attempts := filter (fun a => a_inst a <> i) (attempts x);
     alive := filter (fun s => s_inst s <> i) (alive x);
     droppers := filter (fun d => d_inst d <> i) (droppers x);
     keepers := filter (fun k => k_inst k <> i) (keepers x); stamp := stamp x |}.

Definition begin_attempt (i : nat) (addr : IpAddr) (app : option string) (x : Pool) : Pool :=
  match insts !! i with
  | Some self =>
      if decide (i ∈ up x) then
        {| p_store := p_store x; p_nodes := p_nodes x; up := up x;
           attempts := {| a_inst := i; a_addr := addr; a_app := app;
                          a_prog := redis_try_acquire self addr app; a_started := stamp x;
                          a_has := []; a_permits := 0 |} :: attempts x;
           alive := alive x; droppers := droppers x; keepers := keepers x; stamp := S (stamp x) |}
      else x
  | None => x
  end.

Definition set_attempts (l : list Attempt) (x : Pool) : Pool :=
  {| p_store := p_store x; p_nodes := p_nodes x; up := up x; attempts := l; alive := alive x;
     droppers := droppers x; keepers := keepers x; stamp := stamp x |}.

(** What a step has taken from the permits of its instance. *)
Definition taken (s s' : RedisState) : Z := Z.of_nat (free_permits s) - Z.of_nat (free_permits s').

Definition advanced (a : Attempt) (p : RM (result Ticket RateLimitError)) (more : list string) (d : Z) : Attempt :=
  {| a_inst := a_inst a; a_addr := a_addr a; a_app := a_app a; a_prog := p;
     a_started := a_started a; a_has := more ++ a_has a; a_permits := a_permits a + d |}.

Definition run_attempt (n : nat) (f : fault) (a : Attempt) (x : Pool) : Pool :=
  match p_nodes x !! a_inst a with
  | Some s =>
      let '(p, s', st') := command_step f (a_prog a) s (p_store x) in
      {| p_store := st'; p_nodes := <[a_inst a := s']> (p_nodes x); up := up x;
         attempts := <[n := advanced a p (gained f (a_prog a) (p_store x)) (taken s s')]> (attempts x);
         alive := alive x; droppers := droppers x; keepers := keepers x; stamp := stamp x |}
  | None => x
  end.

(** One step of the attempt [n], whose command may fail; when it has returned, it
    becomes a connection or is gone. *)
Definition step_attempt (n : nat) (f : fault) (x : Pool) : Pool :=
  match attempts x !! n with
  | Some a =>
      match a_prog a with
      | Ret (Ok t) =>
          {| p_store := p_store x; p_nodes := p_nodes x; up := up x;
             attempts := delete n (attempts x);
             alive := {| s_inst := a_inst a; s_ticket := t; s_started := a_started a;
                         s_admitted := stamp x |} :: alive x;
             droppers := droppers x; keepers := keepers x; stamp := S (stamp x) |}
      | Ret (Err _) | Panic _ => set_attempts (delete n (attempts x)) x
      | _ => run_attempt n f a x
      end
  | None => x
  end.

(** The connection [n] ends and the drop of its ticket begins. *)
Definition begin_drop (n : nat) (x : Pool) : Pool :=
  match alive x !! n with
  | Some s =>
      match insts !! s_inst s with
      | Some self =>
          {| p_store := p_store x; p_nodes := p_nodes x; up := up x; attempts := attempts x;
             alive := delete n (alive x);
             droppers := {| d_inst := s_inst s; d_prog := redis_drop self (s_ticket s);
                            d_owes := counted_keys self (t_addr (s_ticket s)) (t_app (s_ticket s));
                            d_permits := 1 |} :: droppers x;
             keepers := keepers x; stamp := stamp x |}
      | None => x
      end
  | None => x
  end.

Definition paid (d : Dropper) (p : RM unit) (owes : list string) (c : Z) : Dropper :=
  {| d_inst := d_inst d; d_prog := p; d_owes := owes; d_permits := d_permits d + c |}.

Definition step_dropper (n : nat) (f : fault) (x : Pool) : Pool :=
  match droppers x !! n with
  | Some d =>
      match p_nodes x !! d_inst d with
      | Some s =>
          let '(p, s', st') := command_step f (d_prog d) s (p_store x) in
          {| p_store := st'; p_nodes := <[d_inst d := s']> (p_nodes x); up := up x;
             attempts := attempts x; alive := alive x;
             droppers := <[n := paid d p (settled (d_prog d) (d_owes d)) (taken s s')]> (droppers x);
             keepers := keepers x; stamp := stamp x |}
      | None => x
      end
  | None => x
  end.

(** A round of the background task of an instance begins; rounds of one instance may
    overlap here, which the code does not do. *)
Definition begin_round (i : nat) (now : Z) (x : Pool) : Pool :=
  match insts !! i with
  | Some self =>
      if decide (i ∈ up x) then
        {| p_store := p_store x; p_nodes := p_nodes x; up := up x; attempts := attempts x;
           alive := alive x; droppers := droppers x;
           keepers := {| k_inst := i; k_prog := background_round iterate self now; k_listed := false |} :: keepers x;
           stamp := stamp x |}
      else x
  | None => x
  end.

(** The next command lists the heartbeats. *)
Definition lists_heartbeats {A} (p : RM A) : bool :=
  match p with Await c _ => bool_decide (c = Keys (beats_pattern prefix)) | _ => false end.

Definition kept (k : Keeper) (p : RM unit) : Keeper :=
  {| k_inst := k_inst k; k_prog := p; k_listed := k_listed k || lists_heartbeats (k_prog k) |}.

Definition step_keeper (n : nat) (f : fault) (x : Pool) : Pool :=
  match keepers x !! n with
  | Some k =>
      match k_prog k with
      | Ret _ | Panic _ =>
          {| p_store := p_store x; p_nodes := p_nodes x; up := up x; attempts := attempts x;
             alive := alive x; droppers := droppers x; keepers := delete n (keepers x); stamp := stamp x |}
      | _ =>
          match p_nodes x !! k_inst k with
          | Some s =>
              let '(p, s', st') := command_step f (k_prog k) s (p_store x) in
              {| p_store := st'; p_nodes := <[k_inst k := s']> (p_nodes x); up := up x;
                 attempts := attempts x; alive := alive x; droppers := droppers x;
                 keepers := <[n := kept k p]> (keepers x);
                 stamp := stamp x |}
          | None => x
          end
      end
  | None => x
  end.

(** Every instance that is up has a heartbeat that has not expired. *)
Definition all_beating (x : Pool) : Prop :=
  forall i self, i ∈ up x -> insts !! i = Some self ->
    is_Some (entry (p_store x) (instance_heartbeat_key self)).

Definition wait (d : nat) (x : Pool) : Pool :=
  set_store {| entries := entries (p_store x); clock := clock (p_store x) + Z.of_nat d |} x.

(** ** The steps of the pool *)

Inductive action : Set :=
| Start (i : nat) (now : Z) (faults : RedisCall -> fault)
| Die (i : nat)
| Begin (i : nat) (addr : IpAddr) (app : option string)
| StepAttempt (n : nat) (f : fault)
| BeginDrop (n : nat)
| StepDropper (n : nat) (f : fault)
| Round (i : nat) (now : Z)
| StepKeeper (n : nat) (f : fault)
| Wait (seconds : nat).

Definition perform (a : action) : Pool -> Pool :=
  match a with
  | Start i now faults => start_instance i now faults
  | Die i => instance_dies i
  | Begin i addr app => begin_attempt i addr app
  | StepAttempt n f => step_attempt n f
  | BeginDrop n => begin_drop n
  | StepDropper n f => step_dropper n f
  | Round i now => begin_round i now
  | StepKeeper n f => step_keeper n f
  | Wait d => wait d
  end.

(** Anything can happen next. *)
Definition pool_step (x y : Pool) : Prop := exists a, y = perform a x.

Section Favourable.
(** A resource, and how many attempts for it may overlap. *)
Context (R : Resource) (overlap : nat).

Definition asel (a : Attempt) : bool := sel R (a_addr a) (a_app a).
Definition csel (s : Session) : bool := sel R (t_addr (s_ticket s)) (t_app (s_ticket s)).

Definition in_flight (x : Pool) : nat := length (filter (fun a => asel a = true) (attempts x)).

(** The next command reads a counter. *)
Definition reads_counter {A} (p : RM A) : Prop :=
  match p with Await (Get _) _ => True | _ => False end.

(** What the bound on connections needs of the surroundings, and the code does not
    ensure: no instance starts after a cleanup has listed the heartbeats and before
    that cleanup ends ([cleanup_start_race]); every instance that is up has a
    heartbeat when heartbeats are listed; no reading of a counter fails
    ([failed_read_admits]); counters do not add up to 2^64; the names of applications
    have no pattern characters; and at most [overlap] attempts for the resource are
    in flight at a time ([check_then_increment_race]). *)
Definition favourable (a : action) (x : Pool) : Prop :=
  match a with
  | Start _ _ _ => Forall (fun k => k_listed k = false) (keepers x)
  | Begin _ addr app =>
      (forall a, app = Some a -> plain a) /\ (sel R addr app = true -> (in_flight x < overlap)%nat)
  | StepAttempt n f =>
      modest (p_store x) /\
      forall at_n, attempts x !! n = Some at_n -> reads_counter (a_prog at_n) -> f = Served
  | StepKeeper n _ =>
      forall k, keepers x !! n = Some k -> lists_heartbeats (k_prog k) = true -> all_beating x
  | Die _ | BeginDrop _ | StepDropper _ _ | Round _ _ | Wait _ => True
  end.

Definition favourable_step (x y : Pool) : Prop := exists a, favourable a x /\ y = perform a x.

End Favourable.

(** ** The invariant *)

Section Bound.
Context (Hcf : configured insts prefix ip_limit app_limits iterate) (Hstar : one_star matches).
Context (R : Resource) (overlap : nat).
Context (Hguard : @guarded RedisError insts R).
Context (Hkey : forall i self addr app, insts !! i = Some self -> sel R addr app = true ->
  (forall a, app = Some a -> plain a) ->
  key R self ∈ counted_keys self addr app /\ matches (pattern R) (key R self) = true).

Abbreviation asel := (asel R).
Abbreviation csel := (csel R).

Definition keys_of (s : Session) : list string := session_keys insts (s_inst s, s_ticket s).
Definition counter_of (s : Session) : string :=
  match insts !! s_inst s with Some self => key R self | None => ""%string end.

(** The counters that are incremented on behalf of somebody. *)
Definition claims (A : list Attempt) (S : list Session) (D : list Dropper) : list string :=
  concat (map keys_of S) ++ concat (map a_has A) ++ concat (map d_owes D).

(** The counters of the connections that were admitted before [t]. *)
Definition old_keys (t : nat) (S : list Session) : list string :=
  map counter_of (filter (fun s => csel s = true /\ (s_admitted s < t)%nat) S).

(** Attempts that began before [t] and were not decided then. *)
Definition straddlers (t : nat) (A : list Attempt) (S : list Session) : nat :=
  length (filter (fun a => asel a = true /\ (a_started a < t)%nat) A) +
  length (filter (fun s => csel s = true /\ (s_started s < t <= s_admitted s)%nat) S).

Definition starts (A : list Attempt) (S : list Session) : list nat :=
  map a_started (filter (fun a => asel a = true) A) ++ map s_started (filter (fun s => csel s = true) S).

Definition attempt_ok (U : gset nat) (S : list Session) (n : nat) (a : Attempt) : Prop :=
  (a_inst a ∈ U /\ Forall (owned (a_inst a)) (a_has a)) /\
  (exists self, insts !! a_inst a = Some self /\
     earns (a_inst a) (a_prog a) (a_has a) (fun r has => forall t, r = Ok t ->
       t = {| t_addr := a_addr a; t_app := a_app a |} /\ has ≡ₚ counted_keys self (a_addr a) (a_app a))) /\
  (forall b, a_app a = Some b -> plain b) /\ (a_started a < n)%nat /\
  (asel a = true -> among R (a_prog a) (old_keys (a_started a) S) (admits R)).

Definition session_ok (U : gset nat) (S : list Session) (n : nat) (s : Session) : Prop :=
  s_inst s ∈ U /\ is_Some (insts !! s_inst s) /\ (forall b, t_app (s_ticket s) = Some b -> plain b) /\
  (s_started s < s_admitted s < n)%nat /\
  (csel s = true -> Z.of_nat (length (old_keys (s_started s) S)) < limit R).

(** The counters of the instances that are up cover all claims, and no instance that is
    down has a task or a connection. *)
Record tasks_inv (U : gset nat) (st : Store) (A : list Attempt) (S : list Session) (D : list Dropper) (n : nat) : Prop := {
  ti_sane : sane prefix st;
  ti_claims k : live U k -> occurs k (claims A S D) <= counter st k;
  ti_attempts : Forall (attempt_ok U S n) A;
  ti_sessions : Forall (session_ok U S n) S;
  ti_droppers : Forall (fun d => (d_inst d ∈ U /\ Forall (owned (d_inst d)) (d_owes d)) /\
    pays (d_inst d) (d_prog d) (d_owes d)) D;
  ti_straddle t : t ∈ starts A S -> (straddlers t A S < overlap)%nat;
  ti_starts : NoDup (starts A S)
}.

(** A round spares the counters of the instances that are up; before it has listed the
    heartbeats, those of any instances. *)
Definition keeper_ok (U : gset nat) (k : Keeper) : Prop :=
  forall V, k_listed k = false \/ V ⊆ U -> spares V (k_prog k).

Definition pool_inv (x : Pool) : Prop :=
  tasks_inv (up x) (p_store x) (attempts x) (alive x) (droppers x) (stamp x) /\
  Forall (keeper_ok (up x)) (keepers x).

(** *** The order of the lists does not matter *)

Lemma concat_map_perm {X} (f : X -> list string) l l' :
  l ≡ₚ l' -> concat (map f l) ≡ₚ concat (map f l').
Proof.
  induction 1 as [|x l l' _ IH|x y l|l1 l2 l3 _ IH1 _ IH2]; cbn; [done|by rewrite IH| |by etrans].
  rewrite !app_assoc. by rewrite (Permutation_app_comm (f x)).
Qed.

Lemma occurs_perm k l l' : l ≡ₚ l' -> occurs k l = occurs k l'.
Proof. intros H. unfold occurs. by rewrite H. Qed.

Lemma old_keys_perm t S S' : S ≡ₚ S' -> old_keys t S ≡ₚ old_keys t S'.
Proof. intros H. unfold old_keys. by rewrite H. Qed.

Lemma starts_perm A A' S S' : A ≡ₚ A' -> S ≡ₚ S' -> starts A S ≡ₚ starts A' S'.
Proof. intros HA HS. unfold starts. by rewrite HA, HS. Qed.

Lemma straddlers_perm t A A' S S' : A ≡ₚ A' -> S ≡ₚ S' -> straddlers t A S = straddlers t A' S'.
Proof. intros HA HS. unfold straddlers. by rewrite HA, HS. Qed.

Lemma attempt_ok_shrink U U' S S' n n' a :
  a_inst a ∈ U' -> (old_keys (a_started a) S' ⊆+ old_keys (a_started a) S) -> (n <= n')%nat ->
  attempt_ok U S n a -> attempt_ok U' S' n' a.
Proof.
  intros Hup Hs Hn ((_ & H0) & H1 & H2 & H3 & H4). split_and!; [done..|lia|]. intros Hsel.
  eapply among_shrink; [|exact Hs|by apply H4]. intros. by eapply admits_shrink.
Qed.

Lemma session_ok_shrink U U' S S' n n' s :
  s_inst s ∈ U' -> (old_keys (s_started s) S' ⊆+ old_keys (s_started s) S) -> (n <= n')%nat ->
  session_ok U S n s -> session_ok U' S' n' s.
Proof.
  intros Hup Hs Hn (_ & H1 & H2 & H3 & H4). split_and!; [done|done|done|lia|lia|]. intros Hsel. specialize (H4 Hsel).
  apply submseteq_length in Hs. lia.
Qed.

Lemma tasks_inv_perm U st A A' S S' D D' n :
  A ≡ₚ A' -> S ≡ₚ S' -> D ≡ₚ D' -> tasks_inv U st A S D n -> tasks_inv U st A' S' D' n.
Proof.
  intros HA HS HD [H1 H2 H3 H4 H5 H6 H7].
  assert (Hold : forall t, old_keys t S' ⊆+ old_keys t S) by (intros t; by rewrite (old_keys_perm t S S')).
  split; [done|..].
  - intros k Hk. rewrite <- (occurs_perm k (claims A S D)); [by apply H2|]. unfold claims.
    by rewrite (concat_map_perm _ _ _ HA), (concat_map_perm _ _ _ HS), (concat_map_perm _ _ _ HD).
  - rewrite <- HA. eapply Forall_impl; [exact H3|]. intros a Ha. eapply attempt_ok_shrink; [apply Ha|..|exact Ha]; [done|done].
  - eapply Forall_impl; [exact (Permutation_Forall HS H4)|]. intros a Ha. eapply session_ok_shrink; [apply Ha|..|exact Ha]; [done|done].
  - by rewrite <- HD.
  - intros t. rewrite <- (starts_perm _ _ _ _ HA HS), <- (straddlers_perm t _ _ _ _ HA HS). apply H6.
  - by rewrite <- (starts_perm _ _ _ _ HA HS).
Qed.

Lemma insert_perm {X} (l : list X) n a b : l !! n = Some a -> <[n := b]> l ≡ₚ b :: delete n l.
Proof.
  intros Hn. rewrite insert_take_drop by by eapply lookup_lt_Some.
  rewrite delete_take_drop. symmetry. apply Permutation_middle.
Qed.

Lemma starts_lt U st A S D n t : tasks_inv U st A S D n -> t ∈ starts A S -> (t < n)%nat.
Proof.
  intros Hi. unfold starts. rewrite elem_of_app, !list_elem_of_In, !in_map_iff.
  setoid_rewrite <- list_elem_of_In. intros [(a & <- & Ha)|(s & <- & Hs)].
  - apply list_elem_of_filter in Ha as [_ Ha]. pose proof (ti_attempts _ _ _ _ _ _ Hi) as H.
    rewrite Forall_forall in H. by apply H in Ha as (_ & _ & _ & ? & _).
  - apply list_elem_of_filter in Hs as [_ Hs]. pose proof (ti_sessions _ _ _ _ _ _ Hi) as H.
    rewrite Forall_forall in H. apply H in Hs as (_ & _ & _ & ? & _). lia.
Qed.

(** Sessions are admitted after they began, so none straddles the present. *)
Lemma straddlers_now U st A S D n :
  tasks_inv U st A S D n -> (straddlers n A S <= length (filter (fun a => asel a = true) A))%nat.
Proof.
  intros Hi. unfold straddlers. rewrite (filter_nothing _ S).
  - cbn. rewrite Nat.add_0_r. apply filter_length_le. by intros a [? _].
  - intros s Hs [_ Ht]. pose proof (ti_sessions _ _ _ _ _ _ Hi) as H. rewrite Forall_forall in H.
    apply H in Hs as (_ & _ & _ & ? & _). lia.
Qed.

(** *** An attempt begins *)
Lemma begin_inv U st A S D n i self addr app :
  insts !! i = Some self -> i ∈ U -> (forall a, app = Some a -> plain a) ->
  (sel R addr app = true -> (length (filter (fun a => asel a = true) A) < overlap)%nat) ->
  tasks_inv U st A S D n ->
  tasks_inv U st ({| a_inst := i; a_addr := addr; a_app := app; a_prog := redis_try_acquire self addr app;
                   a_started := n; a_has := []; a_permits := 0 |} :: A) S D (Datatypes.S n).
Proof.
  intros Hi Hup Happ Hlt Hinv. set (a := {| a_inst := i |}). destruct Hinv as [H1 H2 H3 H4 H5 H6 H7] eqn:E. clear E.
  pose proof (fun t => starts_lt U st A S D n t Hinv) as Hs. pose proof (straddlers_now U st A S D n Hinv) as Hnow.
  assert (Hgood : Forall (owned i) (counted_keys self addr app)).
  { apply Forall_forall. intros k.
    by apply (session_owned insts prefix ip_limit app_limits iterate Hcf i self {| t_addr := addr; t_app := app |}). }
  assert (Hst : forall t, (t <= n)%nat -> straddlers t (a :: A) S = straddlers t A S).
  { intros t Ht. unfold straddlers. rewrite filter_cons, decide_False; [done|]. intros [_ Hlt']. cbn in Hlt'. lia. }
  split; [done|done| | |done|..].
  - constructor.
    + split_and!; [done|by constructor|exists self; split; [done|by apply earns_try_acquire]|done|cbn; lia|].
      intros Hsel. by eapply Hguard.
    + eapply Forall_impl; [exact H3|]. intros b Hb. eapply attempt_ok_shrink; [apply Hb|..|exact Hb]; [done|lia].
  - eapply Forall_impl; [exact H4|]. intros b Hb. eapply session_ok_shrink; [apply Hb|..|exact Hb]; [done|lia].
  - intros t Ht. unfold starts in Ht. rewrite filter_cons in Ht. case_decide as Hsel; cbn in Ht.
    + apply elem_of_cons in Ht as [->|Ht].
      * rewrite Hst by lia. specialize (Hlt Hsel). lia.
      * rewrite Hst by (apply Nat.lt_le_incl, Hs, Ht). by apply H6.
    + rewrite Hst by (apply Nat.lt_le_incl, Hs, Ht). by apply H6.
  - unfold starts. rewrite filter_cons. case_decide as Hsel; [|done]. cbn. constructor; [|done].
    intros Hin%Hs. lia.
Qed.

(** The connections of an attempt's [base] are among the claims. *)
Lemma counter_of_key U S n s :
  session_ok U S n s -> csel s = true ->
  live U (counter_of s) /\ matches (pattern R) (counter_of s) = true /\ counter_of s ∈ keys_of s.
Proof.
  intros (Hup & [self Hi] & Happ & _) Hsel. unfold counter_of. rewrite Hi.
  destruct (Hkey (s_inst s) self _ _ Hi Hsel Happ) as [Hin Hm].
  assert (Hks : key R self ∈ keys_of s) by (unfold keys_of, session_keys; cbn; by rewrite Hi).
  split_and!; [|done|done]. exists (s_inst s). split; [done|].
  by apply (session_owned insts prefix ip_limit app_limits iterate Hcf (s_inst s) self (s_ticket s)).
Qed.

Lemma old_keys_in U S n t k :
  Forall (session_ok U S n) S -> k ∈ old_keys t S -> live U k /\ matches (pattern R) k = true.
Proof.
  intros Hs Hk. unfold old_keys in Hk. apply list_elem_of_In, in_map_iff in Hk as (s & <- & Hin).
  apply list_elem_of_In, list_elem_of_filter in Hin as [[Hsel _] Hin]. rewrite Forall_forall in Hs.
  destruct (counter_of_key U S n s (Hs s Hin) Hsel) as (? & ? & _). done.
Qed.

Lemma old_keys_claimed U S S' n t k :
  Forall (session_ok U S' n) S -> occurs k (old_keys t S) <= occurs k (concat (map keys_of S)).
Proof.
  intros Hs. unfold old_keys. induction Hs as [|s S Hok Hs IH]; [done|]. rewrite filter_cons. cbn [map concat]. rewrite occurs_app.
  pose proof (occurs_nonneg k (keys_of s)). case_decide as Hsel; [|lia]. cbn [map].
  rewrite occurs_cons. destruct (counter_of_key U S' n s Hok (proj1 Hsel)) as (_ & _ & Hin).
  case_decide; [subst; pose proof (occurs_pos _ _ Hin)|]; lia.
Qed.

(** *** An attempt returns *)

Lemma straddlers_cons_a t a A S :
  straddlers t (a :: A) S =
    ((if decide (asel a = true /\ (a_started a < t)%nat) then 1 else 0) + straddlers t A S)%nat.
Proof. unfold straddlers. rewrite filter_cons. case_decide; cbn [length]; lia. Qed.

Lemma straddlers_cons_s t s A S :
  straddlers t A (s :: S) =
    ((if decide (csel s = true /\ (s_started s < t <= s_admitted s)%nat) then 1 else 0) +
     straddlers t A S)%nat.
Proof. unfold straddlers. rewrite filter_cons. case_decide; cbn [length]; lia. Qed.

Lemma starts_cons_a a A S : starts (a :: A) S = (if asel a then [a_started a] else []) ++ starts A S.
Proof. unfold starts. rewrite filter_cons. by destruct (asel a). Qed.

Lemma starts_cons_s s A S : starts A (s :: S) ≡ₚ (if csel s then [s_started s] else []) ++ starts A S.
Proof.
  unfold starts. rewrite filter_cons. destruct (csel s); [|done]. rewrite decide_True by done. cbn.
  symmetry. apply Permutation_middle.
Qed.

(** A connection admitted now is not old for any attempt that has begun. *)
Lemma old_keys_new t s S : (t <= s_admitted s)%nat -> old_keys t (s :: S) = old_keys t S.
Proof. intros Ht. unfold old_keys. rewrite filter_cons, decide_False; [done|]. intros [_ ?]. lia. Qed.

Lemma admitted_inv U st a A S D n t :
  a_prog a = Ret (Ok t) -> tasks_inv U st (a :: A) S D n ->
  tasks_inv U st A ({| s_inst := a_inst a; s_ticket := t; s_started := a_started a; s_admitted := n |} :: S) D
    (Datatypes.S n).
Proof.
  intros Hp Hinv. set (s := {| s_inst := _ |}).
  pose proof (fun t => starts_lt U st (a :: A) S D n t Hinv) as Hlt.
  destruct Hinv as [H1 H2 [Ha HA]%Forall_cons HS HD H6 H7].
  destruct Ha as ([Hup Hown] & (self & Hi & Hearn) & Happ & Hst & Ham). rewrite Hp in Hearn, Ham. cbn in Hearn, Ham.
  destruct (Hearn t eq_refl) as [-> Hhas].
  assert (Hsel : csel s = asel a) by done.
  assert (Hstarts : starts A (s :: S) ≡ₚ starts (a :: A) S)
    by (rewrite starts_cons_s, starts_cons_a, Hsel; done).
  assert (Hstr : forall t, (t <= n)%nat -> straddlers t A (s :: S) = straddlers t (a :: A) S).
  { intros u Hu. rewrite straddlers_cons_s, straddlers_cons_a, Hsel. cbn.
    repeat case_decide; naive_solver lia. }
  split; [done| | | |done|..].
  - intros k Hk. specialize (H2 k Hk). unfold claims in *. cbn [map concat] in *.
    unfold keys_of at 1, session_keys. cbn [s_inst s_ticket s fst snd t_addr t_app]. rewrite Hi.
    rewrite !occurs_app in *. rewrite (occurs_perm k _ _ Hhas) in H2. lia.
  - eapply Forall_impl; [exact HA|]. intros b Hb. destruct Hb as (? & ? & ? & Hbn & ?) eqn:E. clear E.
    apply (attempt_ok_shrink U U S _ n); [apply Hb| |lia|exact Hb]. rewrite old_keys_new by (unfold s; cbn; lia). done.
  - constructor.
    + split_and!; [done|by eexists|done|cbn; lia|cbn; lia|]. intros Hs.
      rewrite old_keys_new by (unfold s; cbn; lia). by apply Ham.
    + eapply Forall_impl; [exact HS|]. intros b Hb. destruct Hb as (? & ? & ? & Hbn & ?) eqn:E. clear E.
      apply (session_ok_shrink U U S _ n); [done| |lia|exact Hb]. rewrite old_keys_new by (unfold s; cbn; lia). done.
  - intros u. rewrite Hstarts. intros Hu. rewrite Hstr by (apply Nat.lt_le_incl, Hlt, Hu). by apply H6.
  - by rewrite Hstarts.
Qed.

(** An attempt that is refused leaves; what it has incremented stays counted. *)
Lemma refused_inv U st a A S D n : tasks_inv U st (a :: A) S D n -> tasks_inv U st A S D n.
Proof.
  intros [H1 H2 [Ha HA]%Forall_cons HS HD H6 H7]. rewrite starts_cons_a in H7. split; try done.
  - intros k Hk. specialize (H2 k Hk). unfold claims in *. cbn [map concat] in *.
    rewrite !occurs_app in *. pose proof (occurs_nonneg k (a_has a)). lia.
  - intros u Hu. specialize (H6 u). rewrite starts_cons_a, straddlers_cons_a, elem_of_app in H6.
    specialize (H6 (or_intror Hu)). lia.
  - by apply NoDup_app in H7 as (_ & _ & ?).
Qed.

(** *** An attempt takes a step *)

Lemma running_inv U st st' a a' A S D n :
  a_inst a' = a_inst a -> a_addr a' = a_addr a -> a_app a' = a_app a -> a_started a' = a_started a ->
  sane prefix st' -> (forall k, live U k -> occurs k (claims (a' :: A) S D) <= counter st' k) ->
  attempt_ok U S n a' -> tasks_inv U st (a :: A) S D n -> tasks_inv U st' (a' :: A) S D n.
Proof.
  intros E1 E2 E3 E4 Hs Hc Ha' [H1 H2 [Ha HA]%Forall_cons HS HD H6 H7].
  assert (Hsel : asel a' = asel a) by (unfold asel; by rewrite E2, E3).
  assert (Hst : starts (a' :: A) S = starts (a :: A) S) by (by rewrite !starts_cons_a, Hsel, E4).
  split; try done.
  - by constructor.
  - intros u. rewrite Hst. intros Hu. specialize (H6 u Hu). rewrite straddlers_cons_a in *.
    by rewrite Hsel, E4.
  - by rewrite Hst.
Qed.

Lemma claims_advanced a p more d A S D :
  claims (advanced a p more d :: A) S D ≡ₚ more ++ claims (a :: A) S D.
Proof. unfold claims. cbn. solve_Permutation. Qed.

(** A step that is no command leaves the store and the counters alone. *)
Lemma silent_inv U st a p d A S D n :
  attempt_ok U S n (advanced a p [] d) -> tasks_inv U st (a :: A) S D n ->
  tasks_inv U st (advanced a p [] d :: A) S D n.
Proof.
  intros Ha Hinv. eapply running_inv; try exact Hinv; try done; [apply Hinv|].
  intros k Hk. rewrite (occurs_perm k _ _ (claims_advanced a p [] d A S D)). by apply Hinv.
Qed.

Lemma attempt_step_inv U f st s a A S D n p s' st' :
  modest st -> (reads_counter (a_prog a) -> f = Served) ->
  command_step f (a_prog a) s st = (p, s', st') -> tasks_inv U st (a :: A) S D n ->
  tasks_inv U st' (advanced a p (gained f (a_prog a) st) (taken s s') :: A) S D n.
Proof.
  intros Hm Hreads Hstep Hinv. pose proof Hinv as [H1 H2 [Ha _]%Forall_cons HS _ _ _].
  destruct Ha as ([Hup Hown] & (self & Hi & Hearn) & Happ & Hst & Ham).
  destruct (a_prog a) as [r|m|X g k|c k|o k] eqn:Hp; cbn in Hstep.
  - injection Hstep as <- <- <-. apply silent_inv; [|done]. split_and!; [done|done|exists self; done|done..].
  - injection Hstep as <- <- <-. apply silent_inv; [|done]. split_and!; [done|done|exists self; done|done..].
  - destruct (g s) as [x s1] eqn:Hf. injection Hstep as <- <- <-. apply silent_inv; [|done].
    replace x with (g s).1 by by rewrite Hf. split_and!; [done|done|exists self; split; [done|apply Hearn]|done|done|].
    intros Hsel. apply (Ham Hsel).
  - pose proof (answer_earns nil_value not_usize overflow matches _ _ _ _ _ Hcf f c st _ _ _ H1 H2 (proj1 Hearn)) as [E1 E2].
    assert (Hpl : plausible R (old_keys (a_started a) S) c (answer f c st).1).
    { apply (answer_plausible nil_value not_usize overflow matches prefix R f c st _ (claims (a :: A) S D) (live U));
        [done|done|intros k0 ->; by apply Hreads|done|intros k'; by apply (old_keys_in U S n)|].
      intros k'. unfold claims. rewrite occurs_app. pose proof (old_keys_claimed U S S n (a_started a) k' HS).
      pose proof (occurs_nonneg k' (concat (map a_has (a :: A)) ++ concat (map d_owes D))). lia. }
    cbn [gained]. destruct (answer f c st) as [r st1]. injection Hstep as <- <- <-. cbn [fst snd] in *.
    eapply running_inv; try exact Hinv; try done.
    + intros k' Hk'. rewrite (occurs_perm k' _ _ (claims_advanced a (k r) (gain c r) _ A S D)). by apply E2.
    + assert (Hg : Forall (owned (a_inst a)) (gain c r)).
      { destruct c as [|p0|k0|k0|k0|k0|k0 v0 t0]; try by constructor. cbn. destruct (is_ok r); [|by constructor].
        constructor; [apply Hearn|by constructor]. }
      split_and!; [done|by apply Forall_app|exists self; split; [done|apply Hearn]|done|done|]. intros Hsel.
      exact (Ham Hsel _ r (reflexivity _) Hpl).
  - injection Hstep as <- <- <-. apply silent_inv; [|done]. split_and!; [done|done|exists self; done|done..].
Qed.

(** *** Dropping a ticket *)

Lemma old_keys_drop t s S : old_keys t S ⊆+ old_keys t (s :: S).
Proof.
  unfold old_keys. rewrite filter_cons. case_decide; [|done]. cbn. by apply submseteq_cons.
Qed.

Lemma begin_drop_inv U st A s S D n self :
  insts !! s_inst s = Some self -> tasks_inv U st A (s :: S) D n ->
  tasks_inv U st A S ({| d_inst := s_inst s; d_prog := redis_drop self (s_ticket s);
     d_owes := counted_keys self (t_addr (s_ticket s)) (t_app (s_ticket s)); d_permits := 1 |} :: D) n.
Proof.
  intros Hi [H1 H2 HA [Hs HS]%Forall_cons HD H6 H7].
  assert (Hk : keys_of s = counted_keys self (t_addr (s_ticket s)) (t_app (s_ticket s)))
    by (unfold keys_of, session_keys; cbn; by rewrite Hi).
  split; [done|..].
  - intros k Hg. specialize (H2 k Hg). unfold claims in *. cbn [map concat] in *. rewrite Hk in H2.
    cbn [d_owes]. rewrite !occurs_app in *. lia.
  - eapply Forall_impl; [exact HA|]. intros b Hb. eapply attempt_ok_shrink; [apply Hb|..|exact Hb]; [apply old_keys_drop|done].
  - eapply Forall_impl; [exact HS|]. intros b Hb. eapply session_ok_shrink; [apply Hb|..|exact Hb]; [apply old_keys_drop|done].
  - destruct Hs as (Hup & _ & Happ & _). constructor; [|done].
    assert (Ho : Forall (owned (s_inst s)) (counted_keys self (t_addr (s_ticket s)) (t_app (s_ticket s)))).
    { apply Forall_forall. intros k.
      by apply (session_owned insts prefix ip_limit app_limits iterate Hcf (s_inst s) self (s_ticket s)). }
    split; [done|]. by apply pays_drop.
  - intros u Hu. specialize (H6 u). rewrite starts_cons_s, straddlers_cons_s, elem_of_app in H6.
    specialize (H6 (or_intror Hu)). lia.
  - rewrite starts_cons_s in H7. by apply NoDup_app in H7 as (_ & _ & ?).
Qed.

(** The claims beside those of one dropper. *)
Definition other_claims (A : list Attempt) (S : list Session) (D : list Dropper) : list string :=
  concat (map keys_of S) ++ concat (map a_has A) ++ concat (map d_owes D).

Lemma dropper_inv U st st' A S d d' D n :
  d_inst d' ∈ U /\ Forall (owned (d_inst d')) (d_owes d') -> sane prefix st' -> pays (d_inst d') (d_prog d') (d_owes d') ->
  (forall k, live U k -> occurs k (d_owes d' ++ other_claims A S D) <= counter st' k) ->
  tasks_inv U st A S (d :: D) n -> tasks_inv U st' A S (d' :: D) n.
Proof.
  intros Hup Hs Hp Hc [H1 H2 HA HS [_ HD]%Forall_cons H6 H7]. split; try done; [|by constructor].
  intros k Hk. rewrite (occurs_perm k _ (d_owes d' ++ other_claims A S D)); [by apply Hc|].
  unfold claims, other_claims. cbn. solve_Permutation.
Qed.

Lemma settle_owned i c owes : Forall (owned i) owes -> Forall (owned i) (settle c owes).
Proof.
  destruct c as [|p|k|k|k|k|k v t]; try done. cbn. induction 1 as [|x l Hx Hl IH]; cbn; [by constructor|].
  case_decide; [done|by constructor].
Qed.

Lemma dropper_step_inv U f st s A S d D n p s' st' :
  command_step f (d_prog d) s st = (p, s', st') -> tasks_inv U st A S (d :: D) n ->
  tasks_inv U st' A S (paid d p (settled (d_prog d) (d_owes d)) (taken s s') :: D) n.
Proof.
  intros Hstep Hinv. pose proof Hinv as [H1 H2 _ _ [[[Hup Hown] Hd] _]%Forall_cons _ _].
  assert (H2' : forall k, live U k -> occurs k (d_owes d ++ other_claims A S D) <= counter st k).
  { intros k Hk. specialize (H2 k Hk). unfold claims, other_claims in *. cbn [map concat] in H2.
    rewrite !occurs_app in *. lia. }
  destruct (d_prog d) as [r|m|X g k|c k|o k] eqn:Hp; cbn in Hstep, Hd |- *.
  - injection Hstep as <- <- <-. by eapply dropper_inv.
  - injection Hstep as <- <- <-. by eapply dropper_inv.
  - destruct (g s) as [x s1] eqn:Hf. injection Hstep as <- <- <-. specialize (Hd s). rewrite Hf in Hd.
    by eapply dropper_inv.
  - destruct Hd as [Hd1 Hd2]. destruct (answer_pays nil_value not_usize overflow matches _ _ _ _ _ Hcf Hstar f c st _ _ _ _ H1
      (fun k Hk => ex_intro _ (d_inst d) (conj Hup Hk)) H2' Hd1) as [E1 E2].
    destruct (answer f c st) as [r st1]. injection Hstep as <- <- <-. eapply dropper_inv; try done; [|apply Hd2].
    split; [done|]. by apply settle_owned.
  - injection Hstep as <- <- <-. by eapply dropper_inv.
Qed.

(** *** An instance starts or dies *)

Lemma keep_filter {X} (Inv : list X -> Prop) (P : X -> Prop) `{forall x, Decision (P x)} (l : list X) :
  (forall l l', l ≡ₚ l' -> Inv l -> Inv l') -> (forall x l, Inv (x :: l) -> Inv l) -> Inv l -> Inv (filter P l).
Proof.
  intros Hperm Htail Hl. apply (Hperm _ (filter (fun x => ~ P x) l ++ filter P l)) in Hl.
  - induction (filter (fun x => ~ P x) l) as [|x r IH]; [done|]. eapply IH, Htail, Hl.
  - rewrite Permutation_app_comm. symmetry. apply filter_app_complement.
Qed.

Lemma session_lost_inv U st A s S D n : tasks_inv U st A (s :: S) D n -> tasks_inv U st A S D n.
Proof.
  intros [H1 H2 HA [_ HS]%Forall_cons HD H6 H7]. split; try done.
  - intros k Hk. specialize (H2 k Hk). unfold claims in *. cbn [map concat] in H2.
    rewrite !occurs_app in *. pose proof (occurs_nonneg k (keys_of s)). lia.
  - eapply Forall_impl; [exact HA|]. intros b Hb.
    eapply attempt_ok_shrink; [apply Hb|..|exact Hb]; [apply old_keys_drop|done].
  - eapply Forall_impl; [exact HS|]. intros b Hb.
    eapply session_ok_shrink; [apply Hb|..|exact Hb]; [apply old_keys_drop|done].
  - intros u Hu. specialize (H6 u). rewrite starts_cons_s, straddlers_cons_s, elem_of_app in H6.
    specialize (H6 (or_intror Hu)). lia.
  - rewrite starts_cons_s in H7. by apply NoDup_app in H7 as (_ & _ & ?).
Qed.

Lemma dropper_lost_inv U st A S d D n : tasks_inv U st A S (d :: D) n -> tasks_inv U st A S D n.
Proof.
  intros [H1 H2 HA HS [_ HD]%Forall_cons H6 H7]. split; try done.
  intros k Hk. specialize (H2 k Hk). unfold claims in *. cbn [map concat] in H2.
  rewrite !occurs_app in *. pose proof (occurs_nonneg k (d_owes d)). lia.
Qed.

Lemma dies_inv U i st A S D n :
  tasks_inv U st A S D n ->
  tasks_inv (U ∖ {[i]}) st (filter (fun a => a_inst a <> i) A) (filter (fun s => s_inst s <> i) S)
    (filter (fun d => d_inst d <> i) D) n.
Proof.
  intros Hinv. set (A' := filter _ A). set (S' := filter _ S). set (D' := filter _ D).
  assert (H : tasks_inv U st A' S' D' n).
  { apply (keep_filter (fun A => tasks_inv U st A S' D' n)).
    { intros. by eapply tasks_inv_perm. } { intros. by eapply refused_inv. }
    apply (keep_filter (fun S => tasks_inv U st A S D' n)).
    { intros. by eapply tasks_inv_perm. } { intros. by eapply session_lost_inv. }
    apply (keep_filter (fun D => tasks_inv U st A S D n)); [|intros d D0; by apply dropper_lost_inv|done].
    intros. by eapply tasks_inv_perm. }
  destruct H as [H1 H2 HA HS HD H6 H7]. split; try done.
  - intros k Hk. apply H2. by eapply live_mono; [|exact Hk]; set_solver.
  - apply Forall_forall. intros a Ha. rewrite Forall_forall in HA. specialize (HA a Ha).
    apply list_elem_of_filter in Ha as [Hi _]. eapply attempt_ok_shrink; [|done|done|exact HA].
    destruct HA as [Hup _]. set_solver.
  - apply Forall_forall. intros s Hs. rewrite Forall_forall in HS. specialize (HS s Hs).
    apply list_elem_of_filter in Hs as [Hi _]. eapply session_ok_shrink; [|done|done|exact HS].
    destruct HS as [Hup _]. set_solver.
  - apply Forall_forall. intros d Hd. rewrite Forall_forall in HD. specialize (HD d Hd).
    apply list_elem_of_filter in Hd as [Hi _]. destruct HD. split; [set_solver|done].
Qed.

(** Changes of the store that leave the counters of the instances that are up. *)
Lemma store_inv U st st' A S D n :
  sane prefix st' -> (forall k, live U k -> counter st' k = counter st k) ->
  tasks_inv U st A S D n -> tasks_inv U st' A S D n.
Proof. intros Hs Hc [H1 H2 HA HS HD H6 H7]. split; try done. intros k Hk. rewrite Hc by done. by apply H2. Qed.

(** The claims are on counters of instances that are up. *)
Lemma claims_live U st A S D n k : tasks_inv U st A S D n -> k ∈ claims A S D -> live U k.
Proof.
  intros [_ _ HA HS HD _ _] Hin. unfold claims in Hin. rewrite !elem_of_app in Hin. 
  rewrite Forall_forall in HA. rewrite Forall_forall in HS. rewrite Forall_forall in HD.
  assert (Hc : forall {X} (f : X -> list string) l, k ∈ concat (map f l) -> exists x, x ∈ l /\ k ∈ f x).
  { intros X f l Hk. apply list_elem_of_In, in_concat in Hk as (y & Hy & Hk).
    apply in_map_iff in Hy as (x & <- & Hx). exists x. split; by apply list_elem_of_In. }
  destruct Hin as [(s & Hs & Hk)%Hc|[(a & Ha & Hk)%Hc|(d & Hd & Hk)%Hc]].
  - destruct (HS s Hs) as (Hup & [self Hi] & Happ & _). exists (s_inst s). split; [done|].
    apply (session_owned insts prefix ip_limit app_limits iterate Hcf (s_inst s) self (s_ticket s)); try done.
    unfold keys_of, session_keys in Hk. cbn in Hk. by rewrite Hi in Hk.
  - destruct (HA a Ha) as ((Hup & Ho) & _). exists (a_inst a). rewrite Forall_forall in Ho. auto.
  - destruct (HD d Hd) as ((Hup & Ho) & _). exists (d_inst d). rewrite Forall_forall in Ho. auto.
Qed.

(** An instance that starts has no tasks: its counters may hold anything. *)
Lemma start_inv U i st A S D n : tasks_inv U st A S D n -> tasks_inv ({[i]} ∪ U) st A S D n.
Proof.
  intros Hinv. pose proof Hinv as [H1 H2 HA HS HD H6 H7]. split; try done.
  - intros k _. destruct (decide (k ∈ claims A S D)) as [Hin|Hin].
    + apply H2. by eapply claims_live.
    + rewrite occurs_zero by done. by apply (counter_nonneg prefix).
  - eapply Forall_impl; [exact HA|]. intros a Ha. eapply attempt_ok_shrink; [|done|done|exact Ha].
    destruct Ha as [[? _] _]. set_solver.
  - eapply Forall_impl; [exact HS|]. intros s Hs. eapply session_ok_shrink; [|done|done|exact Hs].
    destruct Hs as [? _]. set_solver.
  - eapply Forall_impl; [exact HD|]. intros d [[Hup ?] ?]. split; [split; [set_solver|done]|done].
Qed.

(** *** Rounds *)

Lemma round_step_inv U f st s k p s' st' A S D n :
  command_step f (k_prog k) s st = (p, s', st') ->
  (lists_heartbeats (k_prog k) = true -> forall i self, i ∈ U -> insts !! i = Some self ->
     is_Some (entry st (instance_heartbeat_key self))) ->
  keeper_ok U k -> tasks_inv U st A S D n ->
  tasks_inv U st' A S D n /\ keeper_ok U (kept k p).
Proof.
  intros Hstep Hb Hk Hinv. pose proof (Hk U ltac:(by right)) as HU. unfold keeper_ok, kept in *. cbn [k_listed k_prog].
  destruct (k_prog k) as [r|m|X g q|c q|o q] eqn:Hp; cbn in Hstep; cbn [lists_heartbeats] in Hb |- *;
    rewrite ?orb_false_r.
  - injection Hstep as <- <- <-. by split.
  - injection Hstep as <- <- <-. by split.
  - destruct (g s) as [x s1] eqn:Hf. injection Hstep as <- <- <-. split; [done|]. intros V HV.
    replace x with (g s).1 by by rewrite Hf. by apply (Hk V HV).
  - pose proof (ti_sane _ _ _ _ _ _ Hinv) as Hs.
    assert (Hbel : forall V, V ⊆ U \/ c <> Keys (beats_pattern prefix) -> believable matches insts prefix V c (answer f c st).1).
    { intros V HV. apply (answer_believable nil_value not_usize overflow matches _ _ _ _ _ Hcf Hstar f c st V Hs).
      intros Hc i self Hi. destruct HV as [HV|HV]; [|done]. apply Hb; [by apply bool_decide_eq_true|by apply HV]. }
    destruct (answer_spares nil_value not_usize overflow matches _ _ _ _ _ Hcf f c st U Hs (proj1 HU)) as [E1 E2].
    destruct (answer f c st) as [r st1]. injection Hstep as <- <- <-. split; [by eapply store_inv|].
    intros V HV. apply (Hk V).
    + destruct HV as [[HV _]%orb_false_iff|HV]; auto.
    + apply Hbel. destruct HV as [[_ HV%bool_decide_eq_false]%orb_false_iff|HV]; auto.
  - injection Hstep as <- <- <-. split; [done|]. intros V HV. by apply (Hk V HV).
Qed.

(** *** All steps *)

Lemma pool_from_inv st : sane prefix st -> pool_inv (Pool_from st).
Proof.
  intros Hs. split; [|by constructor]. split; try done; try constructor.
  - intros k _. by apply (counter_nonneg prefix).
  - by intros t ?%elem_of_nil.
Qed.

Lemma start_instance_inv i now faults x :
  Forall (fun k => k_listed k = false) (keepers x) -> pool_inv x -> pool_inv (start_instance i now faults x).
Proof.
  intros Hk [Hinv HK]. unfold start_instance. destruct (insts !! i) as [self|] eqn:Hi; [|by split].
  case_decide; [by split|]. destruct (Semaphore_new (r_instance_limit self)) as [permits|m]; [|by split].
  pose proof (execute_register nil_value not_usize overflow matches insts prefix ip_limit app_limits iterate Hcf
    faults i self now (RedisState_new permits) (p_store x) Hi (ti_sane _ _ _ _ _ _ Hinv)) as Hr.
  destruct (execute _ _ _ _ faults _ _ _) as [[o s'] st']. destruct Hr as (_ & Hs & Hc).
  assert (Hst : tasks_inv (up x) st' (attempts x) (alive x) (droppers x) (stamp x))
    by (eapply store_inv; [exact Hs|intros k; apply Hc|exact Hinv]).
  destruct o as [r|m]; (split; [|cbn]); [by apply start_inv| |done|done].
  apply Forall_forall. intros k Hin V _. rewrite Forall_forall in Hk. rewrite Forall_forall in HK.
  apply (HK k Hin). left. by apply Hk.
Qed.

Lemma instance_dies_inv i x : pool_inv x -> pool_inv (instance_dies i x).
Proof.
  intros [Hinv HK]. split; [by apply dies_inv|]. cbn. apply Forall_forall. intros k [_ Hk]%list_elem_of_filter V HV.
  rewrite Forall_forall in HK. apply (HK k Hk). destruct HV; [by left|right; set_solver].
Qed.

Lemma step_attempt_inv n f x :
  modest (p_store x) -> (forall a, attempts x !! n = Some a -> reads_counter (a_prog a) -> f = Served) ->
  pool_inv x -> pool_inv (step_attempt n f x).
Proof.
  intros Hm Hreads [Hinv HK]. unfold step_attempt. destruct (attempts x !! n) as [a|] eqn:Hn; [|done].
  specialize (Hreads a eq_refl). pose proof (delete_Permutation _ _ _ Hn) as Hperm.
  eapply (tasks_inv_perm _ _ _ _ _ _ _ _ _ Hperm (reflexivity _) (reflexivity _)) in Hinv.
  assert (Hrun : pool_inv (run_attempt n f a x)).
  { unfold run_attempt. destruct (p_nodes x !! a_inst a) as [s|].
    - destruct (command_step f (a_prog a) s (p_store x)) as [[p s'] st'] eqn:Hstep. split; [|done]. cbn.
      apply (attempt_step_inv _ _ _ _ _ _ _ _ _ _ _ _ Hm Hreads Hstep) in Hinv.
      eapply tasks_inv_perm; [|done|done|exact Hinv]. symmetry. by apply (insert_perm _ _ a).
    - split; [|done]. eapply tasks_inv_perm; [symmetry; exact Hperm|done|done|done]. }
  destruct (a_prog a) as [[t|e]|m|X g k|c k|o k] eqn:Hp; try done; (split; [|done]); cbn.
  - by apply admitted_inv.
  - by eapply refused_inv.
  - by eapply refused_inv.
Qed.

Lemma step_dropper_inv n f x : pool_inv x -> pool_inv (step_dropper n f x).
Proof.
  intros [Hinv HK]. unfold step_dropper. destruct (droppers x !! n) as [d|] eqn:Hn; [|done].
  destruct (p_nodes x !! d_inst d) as [s|]; [|done].
  destruct (command_step f (d_prog d) s (p_store x)) as [[p s'] st'] eqn:Hstep. split; [|done]. cbn.
  eapply (tasks_inv_perm _ _ _ _ _ _ _ _ _ (reflexivity _) (reflexivity _) (delete_Permutation _ _ _ Hn)) in Hinv.
  apply (dropper_step_inv _ _ _ _ _ _ _ _ _ _ _ _ Hstep) in Hinv.
  eapply tasks_inv_perm; [done|done| |exact Hinv]. symmetry. by apply (insert_perm _ _ d).
Qed.

Lemma step_keeper_inv n f x :
  (forall k, keepers x !! n = Some k -> lists_heartbeats (k_prog k) = true -> all_beating x) ->
  pool_inv x -> pool_inv (step_keeper n f x).
Proof.
  intros Hb [Hinv HK]. unfold step_keeper. destruct (keepers x !! n) as [k|] eqn:Hn; [|done].
  specialize (Hb k eq_refl). pose proof (Forall_lookup_1 _ _ _ _ HK Hn) as Hk.
  assert (Hend : pool_inv {| p_store := p_store x; p_nodes := p_nodes x; up := up x; attempts := attempts x;
    alive := alive x; droppers := droppers x; keepers := delete n (keepers x); stamp := stamp x |})
    by (split; [done|]; cbn; by apply Forall_delete).
  destruct (k_prog k) as [r|m|X g q|c q|o q] eqn:Hp; [exact Hend|exact Hend|..]; rewrite <- Hp in *;
    (destruct (p_nodes x !! k_inst k) as [s|]; [|done]);
    (destruct (command_step f (k_prog k) s (p_store x)) as [[p s'] st'] eqn:Hstep);
    (destruct (round_step_inv _ _ _ _ _ _ _ _ _ _ _ _ Hstep Hb Hk Hinv) as [E1 E2]);
    (split; [done|]; cbn; by apply Forall_insert).
Qed.

Lemma favourable_step_inv x y : favourable_step R overlap x y -> pool_inv x -> pool_inv y.
Proof.
  intros (a & Ha & ->) Hinv. destruct a as [i now faults|i|i addr app|n f|n|n f|i now|n f|d]; cbn in Ha |- *.
  - by apply start_instance_inv.
  - by apply instance_dies_inv.
  - destruct Hinv as [Hinv HK]. unfold begin_attempt. destruct (insts !! i) as [self|] eqn:Hi; [|done].
    case_decide; [|done]. split; [|done]. destruct Ha. by apply (begin_inv _ _ _ _ _ _ i).
  - destruct Ha as [Hm Hreads]. by apply step_attempt_inv.
  - destruct Hinv as [Hinv HK]. unfold begin_drop. destruct (alive x !! n) as [s|] eqn:Hn; [|done].
    destruct (insts !! s_inst s) as [self|] eqn:Hi; [|done]. split; [|done]. cbn. apply begin_drop_inv; [done|].
    eapply tasks_inv_perm; [done| |done|exact Hinv]. by apply delete_Permutation.
  - by apply step_dropper_inv.
  - destruct Hinv as [Hinv HK]. unfold begin_round. destruct (insts !! i) as [self|] eqn:Hi; [|done].
    case_decide; [|done]. split; [done|]. cbn. constructor; [|done]. intros V _.
    by apply (spares_round matches insts prefix ip_limit app_limits iterate Hcf Hstar i).
  - by apply step_keeper_inv.
  - destruct Hinv as [[[S1 S2 S3] H2 HA HS HD H6 H7] HK]. split; [|done]. split; [by split|exact H2|done..].
Qed.

(** *** The bound *)

Lemma latest {X} (f : X -> nat) (l : list X) :
  l <> [] -> exists x, x ∈ l /\ forall y, y ∈ l -> (f y <= f x)%nat.
Proof.
  induction l as [|x l IH]; intros Hl; [done|]. destruct l as [|y l].
  - exists x. split; [left|]. intros y ->%list_elem_of_singleton. done.
  - destruct (IH ltac:(done)) as (z & Hz & Hmax). destruct (Nat.le_gt_cases (f x) (f z)) as [Hle|Hgt].
    + exists z. split; [by right|]. intros w [->|Hw]%elem_of_cons; auto.
    + exists x. split; [left|]. intros w [->|Hw]%elem_of_cons; [done|]. specialize (Hmax w Hw). lia.
Qed.

(** Every connection is the latest to begin, old for it, or straddles its beginning. *)
Lemma partition_at t S A :
  (forall s, s ∈ S -> csel s = true -> (s_started s <= t)%nat) ->
  (length (filter (fun s => csel s = true) S) <=
    length (filter (fun s => csel s = true /\ s_started s = t) S) + length (old_keys t S) + straddlers t A S)%nat.
Proof.
  clear Hkey Hguard Hcf Hstar.
  intros Ht. unfold straddlers, old_keys. rewrite length_map.
  induction S as [|s S IH]; [cbn; lia|]. rewrite !filter_cons.
  specialize (IH ltac:(intros; apply Ht; [by right|done])). specialize (Ht s ltac:(left)).
  case_decide as Hs; [|rewrite !decide_False by naive_solver; exact IH]. specialize (Ht Hs).
  repeat case_decide; cbn [length]; try lia.
  destruct (Nat.eq_dec (s_started s) t); [naive_solver|].
  destruct (Nat.lt_ge_cases (s_admitted s) t); [naive_solver|naive_solver lia].
Qed.

Lemma started_once t A S :
  NoDup (starts A S) -> (length (filter (fun s => csel s = true /\ s_started s = t) S) <= 1)%nat.
Proof.
  clear Hkey Hguard Hcf Hstar.
  intros (_ & _ & H)%NoDup_app. induction S as [|s S IH]; [cbn; lia|]. rewrite filter_cons in H |- *.
  destruct (decide (csel s = true /\ s_started s = t)) as [Hs|Hs].
  2: { apply IH. case_decide; [|done]. cbn in H. by apply NoDup_cons in H as [_ H]. }
  rewrite decide_True in H by apply Hs. cbn in H. apply NoDup_cons in H as [Hnin H].
  rewrite filter_nothing; [cbn; lia|]. intros s' Hin [Hsel Heq]. apply Hnin.
  destruct Hs as [_ <-]. rewrite <- Heq. apply list_elem_of_In, in_map, list_elem_of_In.
  by apply list_elem_of_filter.
Qed.

Lemma pool_bounded x :
  pool_inv x ->
  Z.of_nat (length (filter (fun s => csel s = true) (alive x))) <= Z.max 0 (limit R + Z.of_nat overlap - 1).
Proof.
  intros [[_ _ _ HS _ H6 H7] _].
  destruct (decide (filter (fun s => csel s = true) (alive x) = [])) as [->|Hne]; [cbn; lia|].
  destruct (latest s_started _ Hne) as (s & Hin & Hmax).
  assert (Hst : s_started s ∈ starts (attempts x) (alive x)).
  { unfold starts. apply elem_of_app. right. by apply list_elem_of_In, in_map, list_elem_of_In. }
  apply list_elem_of_filter in Hin as [Hsel Hin].
  pose proof (partition_at (s_started s) (alive x) (attempts x)) as Hp.
  pose proof (started_once (s_started s) _ _ H7). specialize (H6 _ Hst).
  rewrite Forall_forall in HS. destruct (HS s Hin) as (_ & _ & _ & _ & Hold). specialize (Hold Hsel).
  specialize (Hp ltac:(intros s' Hs' Hc; apply Hmax; by apply list_elem_of_filter)). lia.
Qed.

End Bound.

(** ** The limits of an address and of an application *)

Abbreviation of_address := (of_address prefix ip_limit).
Abbreviation of_application := (of_application prefix app_limits).

Lemma of_address_guarded addr :
  configured insts prefix ip_limit app_limits iterate -> 0 < ip_limit -> @guarded RedisError insts (of_address addr).
Proof.
  intros Hcf Hpos i self a app base Hi Hsel%bool_decide_eq_true. subst a.
  destruct (cf_inst _ _ _ _ _ Hcf i self Hi) as (Hp & Hl & _).
  apply among_try_acquire. left. intros b. by apply (among_count_ip matches).
Qed.

Lemma of_application_guarded app :
  configured insts prefix ip_limit app_limits iterate -> @guarded RedisError insts (of_application app).
Proof.
  intros Hcf i self a app' base Hi Hsel%bool_decide_eq_true. subst app'.
  destruct (cf_inst _ _ _ _ _ Hcf i self Hi) as (Hp & _ & Hl & _).
  apply among_try_acquire. right. intros b. by apply (among_count_app matches).
Qed.

Lemma of_address_key addr i self a app :
  configured insts prefix ip_limit app_limits iterate -> one_star matches -> 0 < ip_limit ->
  insts !! i = Some self -> sel (of_address addr) a app = true ->
  key (of_address addr) self ∈ counted_keys self a app /\
  matches (pattern (of_address addr)) (key (of_address addr) self) = true.
Proof.
  intros Hcf Hstar Hpos Hi Hsel%bool_decide_eq_true. subst a.
  destruct (cf_inst _ _ _ _ _ Hcf i self Hi) as (Hp & Hl & _). split.
  - unfold counted_keys. rewrite Hl. destruct (Z.ltb_spec 0 ip_limit); [cbn; set_solver|lia].
  - cbn. unfold ip_instance_key. rewrite Hp.
    apply (star_key matches insts prefix ip_limit app_limits iterate Hcf Hstar "ip");
      [by apply plain_const|apply show_ip_plain].
Qed.

Lemma of_application_key app i self a app' :
  configured insts prefix ip_limit app_limits iterate -> one_star matches ->
  insts !! i = Some self -> sel (of_application app) a app' = true ->
  (forall b, app' = Some b -> plain b) ->
  key (of_application app) self ∈ counted_keys self a app' /\
  matches (pattern (of_application app)) (key (of_application app) self) = true.
Proof.
  intros Hcf Hstar Hi Hsel%bool_decide_eq_true Happ. subst app'.
  destruct (cf_inst _ _ _ _ _ Hcf i self Hi) as (Hp & _). split.
  - unfold counted_keys. cbn. set_solver.
  - cbn. unfold app_instance_key. rewrite Hp.
    apply (star_key matches insts prefix ip_limit app_limits iterate Hcf Hstar "app");
      [by apply plain_const|by apply Happ].
Qed.

Definition from_address (addr : IpAddr) (x : Pool) : Z :=
  Z.of_nat (length (filter (fun s => t_addr (s_ticket s) = addr) (alive x))).
Definition of_app_alive (app : string) (x : Pool) : Z :=
  Z.of_nat (length (filter (fun s => t_app (s_ticket s) = Some app) (alive x))).

Lemma filter_iff {X} (P Q : X -> Prop) `{forall x, Decision (P x), forall x, Decision (Q x)} (l : list X) :
  (forall x, P x <-> Q x) -> filter P l = filter Q l.
Proof.
  intros Hpq. induction l as [|x l IH]; [done|]. rewrite !filter_cons, IH.
  specialize (Hpq x). repeat case_decide; (done || naive_solver).
Qed.


End Concurrent.

(** ** Two overlapping attempts *)
Module ConcurrentExamples.
Import ClusterExamples.

Abbreviation pool := (Pool (RedisError := unit)).
Abbreviation act := (perform tt tt tt glob insts "flashblocks" elements (RedisError := unit)).
Abbreviation favourable_steps R overlap :=
  (star (favourable_step tt tt tt glob insts "flashblocks" elements R overlap)).

Definition acts (l : list (@action unit)) (x : pool) : pool := foldl (fun x a => act a x) x l.

(** A dead instance has left a connection of alice in Redis. *)
Definition stale : Store :=
  {| entries := {["flashblocks:ip:1.1.1.1:instance:uuid-dead:connections" := (1, None)]}; clock := 0 |}.

Lemma stale_sane : sane "flashblocks" stale.
Proof.
  split; cbn; intros k.
  - intros v e [<- [= <- <-]]%lookup_singleton_Some. lia.
  - by intros v e [<- [= <- <-]]%lookup_singleton_Some.
  - intros [v [<- _]%lookup_singleton_Some]. by apply plain_const.
Qed.

(** Both instances come up, the first one after its first heartbeat was refused and
    its round has repaired that; it has cleaned up. *)
Definition start_up : list (@action unit) :=
  [Start 1 0 (fun _ => Served); Start 0 0 (fun _ => Refused tt); Round 0 0] ++
  repeat (StepKeeper 0 Served) 15.

(** Both instances check before either increments: the limit of one is overshot by
    one, which is the bound. *)
Definition overlapping : list (@action unit) :=
  [Begin 0 alice None; Begin 1 alice None] ++ repeat (StepAttempt 0 Served) 5 ++
  repeat (StepAttempt 1 Served) 5 ++ repeat (StepAttempt 0 Served) 4.

Definition crowded : pool := acts (start_up ++ overlapping) (Pool_from insts stale).

(** The conditions of [favourable], computed. *)
Definition modest_b (st : Store) : bool :=
  (Z.of_nat (length (map_to_list (entries st))) <? 2 ^ 24) &&
  forallb (fun kv => kv.2.1 <? 2 ^ 40) (map_to_list (entries st)).

Lemma modest_b_sound st : modest_b st = true -> modest st.
Proof.
  unfold modest_b. rewrite andb_true_iff, forallb_forall. intros [Hs%Z.ltb_lt Hv]. rewrite length_map_to_list in Hs. split; [done|].
  intros k v e Hk. apply elem_of_map_to_list, list_elem_of_In, Hv in Hk. by apply Z.ltb_lt.
Qed.

Definition both_beat (x : pool) : bool :=
  bool_decide (is_Some (entry (p_store x) (instance_heartbeat_key (node "uuid-a")))) &&
  bool_decide (is_Some (entry (p_store x) (instance_heartbeat_key (node "uuid-b")))).

Definition favourable_b (R : Resource) (overlap : nat) (a : @action unit) (x : pool) : bool :=
  match a with
  | Start _ _ _ => forallb (fun k => negb (k_listed k)) (keepers x)
  | Begin _ addr app =>
      bool_decide (app = None) && (negb (sel R addr app) || (in_flight R x <? overlap)%nat)
  | StepAttempt n Served => modest_b (p_store x)
  | StepKeeper n _ =>
      match keepers x !! n with
      | Some k => negb (lists_heartbeats "flashblocks" (k_prog k)) || both_beat x
      | None => true
      end
  | Die _ | BeginDrop _ | StepDropper _ _ | Round _ _ | Wait _ => true
  | StepAttempt _ _ => false
  end.

Lemma favourable_b_sound R overlap a x :
  favourable_b R overlap a x = true -> favourable insts "flashblocks" R overlap a x.
Proof.
  destruct a as [i now faults|i|i addr app|n f|n|n f|i now|n f|d]; cbn [favourable_b favourable]; try done.
  - rewrite forallb_forall, Forall_forall. intros H k Hk%list_elem_of_In. by apply negb_true_iff, H.
  - rewrite andb_true_iff, bool_decide_eq_true, orb_true_iff, negb_true_iff, Nat.ltb_lt.
    intros [-> H]. split; [done|]. intros Hsel. destruct H; [congruence|done].
  - destruct f; try done. intros H. split; [by apply modest_b_sound|done].
  - intros H k Hk Hl. rewrite Hk, Hl in H. cbn in H. apply andb_true_iff in H as [H1 H2].
    apply bool_decide_eq_true in H1, H2. intros [|[|i]] self _ Hi; [..|done]; by injection Hi as <-.
Qed.

Fixpoint favourable_run (R : Resource) (overlap : nat) (l : list (@action unit)) (x : pool) : bool :=
  match l with
  | [] => true
  | a :: l => favourable_b R overlap a x && favourable_run R overlap l (act a x)
  end.

Lemma favourable_run_sound R overlap l x :
  favourable_run R overlap l x = true -> favourable_steps R overlap x (acts l x).
Proof.
  revert x. induction l as [|a l IH]; intros x; cbn; [intros; apply star_refl|].
  intros [Ha Hl]%andb_true_iff. eapply star_step; [|by apply IH].
  exists a. split; [by apply favourable_b_sound|done].
Qed.


(** ** A reading that fails *)

(** The first instance has admitted alice; the second one then checks, one command
    at a time, and her counter cannot be read. *)
Definition second_attempt (f : @fault unit) : pool :=
  acts (start_up ++ [Begin 0 alice None] ++ repeat (StepAttempt 0 Served) 7 ++ [Begin 1 alice None] ++
        repeat (StepAttempt 0 Served) 5 ++ [StepAttempt 0 f] ++ repeat (StepAttempt 0 Served) 2)
    (Pool_from insts stale).

(** A counter that cannot be read counts as zero: alice is admitted above her limit of
    one although no attempts overlap; when it can be read she is refused. *)
Theorem failed_read_admits :
  from_address alice (second_attempt (Refused tt)) = 2 /\
  from_address alice (second_attempt Served) = 1.
Proof. split; by vm_compute. Qed.

(** ** A cleanup that overlaps the start of an instance *)

(** The first instance lists the heartbeats; then the second one starts and admits
    alice; the cleanup goes on (or does not), and alice asks the first instance. *)
Definition late_start (goes_on : bool) : pool :=
  acts ([Start 0 0 (fun _ => Served); Round 0 0] ++ repeat (StepKeeper 0 Served) 4 ++
        [Start 1 0 (fun _ => Served); Begin 1 alice None] ++ repeat (StepAttempt 0 Served) 7 ++
        (if goes_on then repeat (StepKeeper 0 Served) 10 else []) ++
        [Begin 0 alice None] ++ repeat (StepAttempt 0 Served) 8)
    (Pool_from insts Store_new).

(** The cleanup compares counters with heartbeats that it has listed before: it takes
    an instance that starts in between for a stale one and deletes its counters, and
    alice gets a second connection although her limit is one and both instances are
    alive.  Without the rest of the cleanup she is refused. *)
Theorem cleanup_start_race :
  from_address alice (late_start true) = 2 /\ from_address alice (late_start false) = 1.
Proof. split; by vm_compute. Qed.

End ConcurrentExamples.
