(* ===== verification/RedisPermits.v ===== *)
(** * The permits of the instances

    The limit of connections of an instance is a semaphore in its own process
    (crates/websocket-proxy/src/rate_limit.rs, [RedisRateLimit]).  With all commands
    interleaved as in RedisConcurrent, and any of them failing, every permit of an
    instance that is up is free, or held by exactly one attempt, connection or dropped
    ticket. *)
From S2P Require Import Prelude Async Net RateLimit RedisRateLimit RedisStore RedisTasks RedisConcurrent.

Local Open Scope Z_scope.
Local Open Scope prog_scope.

Section Permits.
Context {RedisError : Set} (nil_value not_usize overflow : RedisError).
Context (matches : string -> string -> bool).
Context (insts : list RedisRateLimit) (prefix : string) (iterate : gset string -> list string).

Abbreviation RM A := (prog (@RedisReply RedisError) RedisObs RedisState A).
Abbreviation fault := (@fault RedisError).
Abbreviation command_step := (command_step nil_value not_usize overflow matches).

(** ** What a task holds *)

(** [h] is the number of permits that the task holds: never negative, and [Q] of the
    result at its end; it does not panic. *)
Fixpoint holds {A} (p : RM A) (h : Z) (Q : A -> Z -> Prop) : Prop :=
  0 <= h /\
  match p with
  | Ret a => Q a h
  | Panic _ => False
  | Atomic f k => forall s, holds (k (f s).1) (h + taken s (f s).2) Q
  | Await c k => forall r, holds (k r) h Q
  | Emit _ k => holds k h Q
  end.

Lemma holds_nonneg {A} (p : RM A) h Q : holds p h Q -> 0 <= h.
Proof. by destruct p; intros [? _]. Qed.

Lemma holds_bind {A B} (p : RM A) (q : A -> RM B) h Q :
  holds p h (fun a h' => holds (q a) h' Q) -> holds (bind p q) h Q.
Proof.
  revert h. induction p as [a|m|X f k IH|c k IH|o k IH]; cbn; intros h [Hh H]; try done; split; auto.
Qed.

Lemma holds_mono {A} (p : RM A) h (Q Q' : A -> Z -> Prop) :
  (forall a h, Q a h -> Q' a h) -> holds p h Q -> holds p h Q'.
Proof.
  intros HQ. revert h. induction p as [a|m|X f k IH|c k IH|o k IH]; cbn; intros h [Hh H]; split; auto.
Qed.

(** Parts that leave the semaphore alone. *)
Lemma holds_keeps {A} (p : RM A) h (Q : A -> Z -> Prop) :
  keeps p -> every p (fun _ o => no_panic o) -> 0 <= h -> (forall a, Q a h) -> holds p h Q.
Proof.
  intros Hk He Hh HQ. induction p as [a|m|X f k IH|c k IH|o k IH]; cbn in *; (split; [done|]); auto.
  - by destruct He as [? ?].
  - intros s. destruct (Hk s) as [-> Hks]. unfold taken. rewrite Z.sub_diag, Z.add_0_r. by apply IH.
Qed.

Definition counts_quiet {A} (p : RM (result A RateLimitError)) keys :
  every p (counts keys) -> every p (fun _ o => no_panic o).
Proof. apply every_mono. by intros t o [? _]. Qed.

Lemma taken_self s : taken s s = 0.
Proof. unfold taken. lia. Qed.

Lemma holds_start_background : holds (start_background_tasks : RM _) 0 (fun _ h => h = 0).
Proof.
  split; [done|]. intros s. unfold taken. cbn.
  destruct (background_tasks_started s); cbn; rewrite Z.sub_diag; done.
Qed.

Lemma holds_give {A} (p : RM A) (Q : A -> Z -> Prop) : holds p 0 Q -> holds (give_permit ;; p) 1 Q.
Proof.
  intros Hp. split; [lia|]. intros s. cbn.
  by replace (1 + taken s _) with 0 by (unfold taken; cbn; lia).
Qed.

(** An attempt holds one permit when it is admitted and none otherwise; a dropped
    ticket gives its permit back. *)
Lemma holds_try_acquire self addr app :
  holds (redis_try_acquire self addr app : RM _) 0 (fun r h => h = if is_ok r then 1 else 0).
Proof.
  unfold redis_try_acquire. apply holds_bind. eapply holds_mono; [|apply holds_start_background].
  intros _ h ->. split; [done|]. intros s.
  destruct (free_permits s) as [|left] eqn:Hf; cbn [fst snd negb bind].
  { rewrite taken_self. by split. }
  replace (0 + taken s _) with 1 by (unfold taken; cbn; lia).
  split; [lia|]. intros [[]|e]; cbn [bind]; [|by apply holds_give].
  apply holds_bind, holds_keeps; [apply count_ip_keeps|by eapply counts_quiet, count_ip_counts|lia|].
  intros [n|e]; cbn beta iota; [|by apply holds_give].
  apply holds_bind, holds_keeps; [apply count_app_keeps|by eapply counts_quiet, count_app_counts|lia|].
  intros [m|e]; [|by apply holds_give]. by split; [lia|].
Qed.

Lemma holds_drop self t : holds (redis_drop self t : RM _) 1 (fun _ h => h = 0).
Proof.
  unfold redis_drop. apply holds_bind, holds_keeps; [| |lia|].
  - unfold redis_release. intros [[]|e]; cbn; [|done]. destruct (0 <? _), (t_app t); cbn; done.
  - unfold redis_release. intros [[]|e]; cbn; [|by eexists].
    destruct (0 <? _), (t_app t); cbn; intros; by eexists.
  - intros _. split; [lia|]. intros s. cbn. unfold taken. cbn. lia.
Qed.

Lemma keeps_delete_keys keys : keeps (delete_keys keys : RM _).
Proof. induction keys as [|k keys IH]; [done|]. by intros [[]|e]. Qed.

Lemma keeps_cleanup_loop self active ids : keeps (cleanup_loop self active ids : RM _).
Proof.
  induction ids as [|id ids IH]; cbn [cleanup_loop]; [done|]. do 2 (case_decide; [done|]).
  apply keeps_bind; [|by intros [[]|e]]. unfold cleanup_instance. intros [ips|e]; cbn; [|done].
  intros [apps|e]; cbn; [|done]. apply keeps_bind; [apply keeps_delete_keys|]. intros [[]|e]; [|done].
  apply keeps_bind; [apply keeps_delete_keys|]. by intros [[]|e].
Qed.

Lemma keeps_round self now : keeps (background_round iterate self now : RM _).
Proof.
  unfold background_round. apply keeps_bind.
  { intros [[]|e]; [|done]. cbn. destruct (now <? 0); [done|]. by intros [[]|e]. }
  intros _.
  apply keeps_bind; [|done]. unfold cleanup_stale_instances. intros [[]|e]; cbn; [|done].
  intros [beats|e]; cbn; [|done]. intros [ips|e]; cbn; [|done]. intros [apps|e]; cbn; [|done].
  apply keeps_bind; [apply keeps_cleanup_loop|]. intros [[]|e]; [|done].
  apply keeps_bind; [apply keeps_cleanup_loop|]. by intros [[]|e].
Qed.

(** ** One step of a task *)

Lemma step_holds {A} f (p : RM A) s st p' s' st' h Q :
  command_step f p s st = (p', s', st') -> holds p h Q -> holds p' (h + taken s s') Q.
Proof.
  intros Hs Hp. destruct p as [a|m|X g k|c k|o k]; cbn in Hs.
  - injection Hs as <- <- <-. by rewrite taken_self, Z.add_0_r.
  - injection Hs as <- <- <-. by rewrite taken_self, Z.add_0_r.
  - destruct Hp as [_ Hp]. specialize (Hp s). destruct (g s) as [x s1]. by injection Hs as <- <- <-.
  - destruct Hp as [_ Hp]. destruct (answer _ _ _ _ f c st) as [r st1]. injection Hs as <- <- <-.
    rewrite taken_self, Z.add_0_r. apply Hp.
  - destruct Hp as [_ Hp]. injection Hs as <- <- <-. by rewrite taken_self, Z.add_0_r.
Qed.

Lemma step_keeps {A} f (p : RM A) s st p' s' st' :
  command_step f p s st = (p', s', st') -> keeps p -> s' = s /\ keeps p'.
Proof.
  intros Hs Hp. destruct p as [a|m|X g k|c k|o k]; cbn in Hs, Hp.
  - by injection Hs as <- <- <-.
  - by injection Hs as <- <- <-.
  - destruct (Hp s) as [H1 H2]. destruct (g s) as [x s1]. by injection Hs as <- <- <-.
  - destruct (answer _ _ _ _ f c st) as [r st1]. by injection Hs as <- <- <-.
  - by injection Hs as <- <- <-.
Qed.

(** ** The balance of an instance *)

(** The weights of the elements that belong to the instance [i]. *)
Definition sum_for {X} (i : nat) (inst : X -> nat) (w : X -> Z) (l : list X) : Z :=
  foldr (fun x n => (if decide (inst x = i) then w x else 0) + n) 0 l.

#[local] Arguments sum_for : simpl never.

Lemma sum_for_cons {X} i inst (w : X -> Z) x l :
  sum_for i inst w (x :: l) = (if decide (inst x = i) then w x else 0) + sum_for i inst w l.
Proof. done. Qed.

Lemma sum_for_perm {X} i inst (w : X -> Z) l l' : l ≡ₚ l' -> sum_for i inst w l = sum_for i inst w l'.
Proof. induction 1; rewrite ?sum_for_cons; lia. Qed.

Lemma sum_for_delete {X} i inst (w : X -> Z) l n x :
  l !! n = Some x ->
  sum_for i inst w (delete n l) = sum_for i inst w l - (if decide (inst x = i) then w x else 0).
Proof. intros Hn. rewrite (sum_for_perm _ _ _ l _ (delete_Permutation _ _ _ Hn)), sum_for_cons. lia. Qed.

Lemma sum_for_insert {X} i inst (w : X -> Z) l n x y :
  l !! n = Some x -> inst y = inst x ->
  sum_for i inst w (<[n := y]> l) = sum_for i inst w l + (if decide (inst x = i) then w y - w x else 0).
Proof.
  intros Hn Hxy. rewrite (sum_for_perm _ _ _ _ _ (insert_perm l n x y Hn)), sum_for_cons, Hxy.
  rewrite (sum_for_delete _ _ _ _ _ _ Hn). case_decide; lia.
Qed.

Lemma sum_for_others {X} i j inst (w : X -> Z) l :
  i <> j -> sum_for i inst w (filter (fun x => inst x <> j) l) = sum_for i inst w l.
Proof.
  intros Hij. induction l as [|x l IH]; [done|]. rewrite filter_cons.
  case_decide; rewrite ?sum_for_cons, IH; [done|]. rewrite decide_False by naive_solver. lia.
Qed.

Lemma sum_for_none {X} i inst (w : X -> Z) l : Forall (fun x => inst x <> i) l -> sum_for i inst w l = 0.
Proof. induction 1 as [|x l Hx Hl IH]; [done|]. rewrite sum_for_cons, decide_False by done. lia. Qed.

Lemma sum_for_nonneg {X} i inst (w : X -> Z) l : Forall (fun x => 0 <= w x) l -> 0 <= sum_for i inst w l.
Proof. induction 1 as [|x l Hx Hl IH]; [done|]. rewrite sum_for_cons. case_decide; lia. Qed.

Abbreviation pool := (@Pool RedisError).

(** The permits that the attempts, the connections and the dropped tickets of the
    instance [i] hold. *)
Definition trying (i : nat) (x : pool) : Z := sum_for i a_inst a_permits (attempts x).
Definition served (i : nat) (x : pool) : Z := sum_for i s_inst (fun _ => 1) (alive x).
Definition leaving (i : nat) (x : pool) : Z := sum_for i d_inst d_permits (droppers x).

Definition admitted_holds (r : result Ticket RateLimitError) (h : Z) : Prop := h = if is_ok r then 1 else 0.

Record permits_inv (x : pool) : Prop := {
  pi_attempts : Forall (fun a => a_inst a ∈ up x /\ holds (a_prog a) (a_permits a) admitted_holds) (attempts x);
  pi_sessions : Forall (fun s => s_inst s ∈ up x) (alive x);
  pi_droppers : Forall (fun d => d_inst d ∈ up x /\ holds (d_prog d) (d_permits d) (fun _ h => h = 0)) (droppers x);
  pi_keepers : Forall (fun k => keeps (k_prog k)) (keepers x);
  pi_nodes : length (p_nodes x) = length insts;
  pi_balance i self s : i ∈ up x -> insts !! i = Some self -> p_nodes x !! i = Some s ->
    trying i x + served i x + leaving i x + Z.of_nat (free_permits s) = Z.of_nat (r_instance_limit self)
}.

(** A task of the instance [j] takes permits of its own instance only. *)
Lemma balance_step (nodes : list RedisState) j s s' i si :
  nodes !! j = Some s -> <[j := s']> nodes !! i = Some si ->
  exists si0, nodes !! i = Some si0 /\
    Z.of_nat (free_permits si) = Z.of_nat (free_permits si0) - (if decide (j = i) then taken s s' else 0).
Proof.
  intros Hj Hi. destruct (decide (j = i)) as [->|Hne].
  - rewrite list_lookup_insert_eq in Hi by by eapply lookup_lt_Some. injection Hi as <-. exists s.
    split; [done|]. unfold taken. lia.
  - rewrite list_lookup_insert_ne in Hi by done. exists si. split; [done|lia].
Qed.

(** The first heartbeat leaves the semaphore alone. *)
Lemma execute_keeps {A} faults (p : RM A) s st :
  keeps p -> (execute nil_value not_usize overflow matches faults p s st).1.2 = s.
Proof.
  revert st. induction p as [a|m|X g k IH|c k IH|o k IH]; intros st Hk; cbn in *; try done; auto.
  - destruct (Hk s) as [H1 H2]. destruct (g s) as [x s1]. cbn in *. subst s1. auto.
  - destruct (answer _ _ _ _ (faults c) c st) as [r st1]. auto.
Qed.

Lemma keeps_register self now : keeps (register_instance self now : RM _).
Proof. intros [[]|e]; cbn; [|done]. destruct (now <? 0); cbn; [done|]. by intros [[]|e]. Qed.

Lemma set_store_permits st x : permits_inv x -> permits_inv (set_store st x).
Proof. intros [HA HS HD HK Hn Hb]. by split. Qed.

Lemma start_permits i now faults x :
  permits_inv x -> permits_inv (start_instance nil_value not_usize overflow matches insts i now faults x).
Proof.
  intros Hinv. unfold start_instance. destruct (insts !! i) as [self|] eqn:Hi; [|done].
  case_decide as Hup; [done|]. unfold Semaphore_new. destruct (_ <? _); [done|].
  pose proof (execute_keeps faults (register_instance self now) (RedisState_new (r_instance_limit self))
    (p_store x) (keeps_register self now)) as Hst.
  destruct (execute _ _ _ _ faults _ _ _) as [[o s0] st']. cbn in Hst. subst s0.
  destruct o as [r|m]; [|by apply set_store_permits]. destruct Hinv as [HA HS HD HK Hn Hb]. split; cbn.
  - eapply Forall_impl; [exact HA|]. intros a [? ?]. split; [set_solver|done].
  - eapply Forall_impl; [exact HS|]. intros s ?. cbn. set_solver.
  - eapply Forall_impl; [exact HD|]. intros d [? ?]. split; [set_solver|done].
  - done.
  - by rewrite length_insert.
  - intros j selfj s Hj Hsj Hs. unfold trying, served, leaving. cbn. destruct (decide (j = i)) as [->|Hne].
    + rewrite list_lookup_insert_eq in Hs by (rewrite Hn; by eapply lookup_lt_Some). injection Hs as <-.
      rewrite !sum_for_none; [cbn; assert (selfj = self) as -> by congruence; lia|..]; (eapply Forall_impl; [eassumption|]); cbn.
      * intros d [? _] <-. done.
      * intros d ? <-. done.
      * intros d [? _] <-. done.
    + rewrite list_lookup_insert_ne in Hs by done. apply (Hb j); [set_solver|done|done].
Qed.

Lemma dies_permits i x : permits_inv x -> permits_inv (instance_dies i x).
Proof.
  intros [HA HS HD HK Hn Hb]. split; cbn; try done.
  - apply Forall_forall. intros a [Hi Ha]%list_elem_of_filter. rewrite Forall_forall in HA.
    destruct (HA a Ha). split; [set_solver|done].
  - apply Forall_forall. intros a [Hi Ha]%list_elem_of_filter. rewrite Forall_forall in HS.
    specialize (HS a Ha). set_solver.
  - apply Forall_forall. intros a [Hi Ha]%list_elem_of_filter. rewrite Forall_forall in HD.
    destruct (HD a Ha). split; [set_solver|done].
  - apply Forall_forall. intros a [Hi Ha]%list_elem_of_filter. rewrite Forall_forall in HK. auto.
  - intros j self s Hj Hself Hs. unfold trying, served, leaving. cbn. rewrite !sum_for_others by set_solver.
    apply (Hb j); [set_solver|done|done].
Qed.

Lemma begin_attempt_permits i addr app x : permits_inv x -> permits_inv (begin_attempt insts i addr app x).
Proof.
  intros [HA HS HD HK Hn Hb]. unfold begin_attempt. destruct (insts !! i) as [self|] eqn:Hi; [|by split].
  case_decide; [|by split]. split; cbn; try done.
  - constructor; [|done]. split; [done|apply holds_try_acquire].
  - intros j selfj s Hj Hsj Hs. specialize (Hb j selfj s Hj Hsj Hs). unfold trying in *. cbn [attempts].
    rewrite sum_for_cons. cbn. case_decide; exact Hb.
Qed.

Lemma run_attempt_permits n f a x :
  attempts x !! n = Some a -> permits_inv x ->
  permits_inv (run_attempt nil_value not_usize overflow matches n f a x).
Proof.
  intros Hn [HA HS HD HK Hl Hb]. unfold run_attempt. destruct (p_nodes x !! a_inst a) as [s|] eqn:Hs; [|by split].
  destruct (command_step f (a_prog a) s (p_store x)) as [[p s'] st'] eqn:Hstep.
  destruct (Forall_lookup_1 _ _ _ _ HA Hn) as [Hup Hh]. split; cbn; try done.
  - apply Forall_insert; [done|]. split; [done|]. by eapply step_holds.
  - by rewrite length_insert.
  - intros i self si Hi Hself Hsi. destruct (balance_step _ _ _ _ _ _ Hs Hsi) as (si0 & Hsi0 & Hf).
    specialize (Hb i self si0 Hi Hself Hsi0). unfold trying in *. cbn [attempts].
    rewrite (sum_for_insert _ _ _ _ _ a) by done. cbn in *.
    change (served i _) with (served i x). change (leaving i _) with (leaving i x). case_decide; lia.
Qed.

Lemma step_attempt_permits n f x :
  permits_inv x -> permits_inv (step_attempt nil_value not_usize overflow matches n f x).
Proof.
  intros Hinv. unfold step_attempt. destruct (attempts x !! n) as [a|] eqn:Hn; [|done].
  pose proof (run_attempt_permits n f a x Hn Hinv) as Hrun. destruct Hinv as [HA HS HD HK Hl Hb].
  destruct (Forall_lookup_1 _ _ _ _ HA Hn) as [Hup Hh].
  destruct (a_prog a) as [[t|e]|m|X g k|c k|o k] eqn:Hp; try exact Hrun; [..|by destruct Hh];
    (destruct Hh as [_ Hh]; cbn in Hh; unfold admitted_holds in Hh; cbn in Hh); split; cbn; try done.
  - by apply Forall_delete.
  - by constructor.
  - intros i self s Hi Hself Hs. specialize (Hb i self s Hi Hself Hs). unfold trying, served, leaving in *.
    cbn [attempts alive droppers]. rewrite (sum_for_delete _ _ _ _ _ _ Hn), sum_for_cons. cbn [s_inst].
    case_decide; lia.
  - by apply Forall_delete.
  - intros i self s Hi Hself Hs. specialize (Hb i self s Hi Hself Hs). unfold trying, served, leaving in *.
    cbn [attempts alive droppers set_attempts]. rewrite (sum_for_delete _ _ _ _ _ _ Hn). case_decide; lia.
Qed.

Lemma begin_drop_permits n x : permits_inv x -> permits_inv (begin_drop insts n x).
Proof.
  intros [HA HS HD HK Hl Hb]. unfold begin_drop. destruct (alive x !! n) as [s|] eqn:Hn; [|by split].
  destruct (insts !! s_inst s) as [self|] eqn:Hi; [|by split].
  pose proof (Forall_lookup_1 _ _ _ _ HS Hn) as Hup. split; cbn; try done.
  - by apply Forall_delete.
  - constructor; [|done]. split; [done|apply holds_drop].
  - intros i selfi si Hii Hself Hs. specialize (Hb i selfi si Hii Hself Hs). unfold trying, served, leaving in *.
    cbn [attempts alive droppers]. rewrite (sum_for_delete _ _ _ _ _ _ Hn), sum_for_cons. cbn [d_inst d_permits].
    case_decide; lia.
Qed.

Lemma step_dropper_permits n f x :
  permits_inv x -> permits_inv (step_dropper nil_value not_usize overflow matches n f x).
Proof.
  intros [HA HS HD HK Hl Hb]. unfold step_dropper. destruct (droppers x !! n) as [d|] eqn:Hn; [|by split].
  destruct (p_nodes x !! d_inst d) as [s|] eqn:Hs; [|by split].
  destruct (command_step f (d_prog d) s (p_store x)) as [[p s'] st'] eqn:Hstep.
  destruct (Forall_lookup_1 _ _ _ _ HD Hn) as [Hup Hh]. split; cbn; try done.
  - apply Forall_insert; [done|]. split; [done|]. by eapply step_holds.
  - by rewrite length_insert.
  - intros i self si Hi Hself Hsi. destruct (balance_step _ _ _ _ _ _ Hs Hsi) as (si0 & Hsi0 & Hf).
    specialize (Hb i self si0 Hi Hself Hsi0). unfold leaving in *. cbn [droppers].
    rewrite (sum_for_insert _ _ _ _ _ d) by done. cbn in *.
    change (served i _) with (served i x). change (trying i _) with (trying i x). case_decide; lia.
Qed.

Lemma begin_round_permits i now x : permits_inv x -> permits_inv (begin_round insts iterate i now x).
Proof.
  intros [HA HS HD HK Hl Hb]. unfold begin_round. destruct (insts !! i) as [self|] eqn:Hi; [|by split].
  case_decide; [|by split]. split; cbn; try done. constructor; [apply keeps_round|done].
Qed.

Lemma step_keeper_permits n f x :
  permits_inv x -> permits_inv (step_keeper nil_value not_usize overflow matches prefix n f x).
Proof.
  intros [HA HS HD HK Hl Hb]. unfold step_keeper. destruct (keepers x !! n) as [k|] eqn:Hn; [|by split].
  pose proof (Forall_lookup_1 _ _ _ _ HK Hn) as Hk. cbn in Hk.
  assert (Hdone : permits_inv {| p_store := p_store x; p_nodes := p_nodes x; up := up x; attempts := attempts x;
    alive := alive x; droppers := droppers x; keepers := delete n (keepers x); stamp := stamp x |})
    by (split; try done; by apply Forall_delete).
  destruct (k_prog k) as [r|m|X h g|c g|o g] eqn:Hp; [exact Hdone|exact Hdone|..];
    (destruct (p_nodes x !! k_inst k) as [s|] eqn:Hs; [|by split]); rewrite <- Hp in *;
    (destruct (command_step f (k_prog k) s (p_store x)) as [[p s'] st'] eqn:Hstep);
    (destruct (step_keeps _ _ _ _ _ _ _ Hstep Hk) as [-> Hk']); rewrite (list_insert_id _ _ _ Hs);
    (split; try done; by apply Forall_insert).
Qed.

Lemma pool_step_permits x y :
  pool_step nil_value not_usize overflow matches insts prefix iterate x y ->
  permits_inv x -> permits_inv y.
Proof.
  intros [a ->] Hinv. destruct a as [i now faults|i|i addr app|n f|n|n f|i now|n f|d]; cbn.
  - by apply start_permits.
  - by apply dies_permits.
  - by apply begin_attempt_permits.
  - by apply step_attempt_permits.
  - by apply begin_drop_permits.
  - by apply step_dropper_permits.
  - by apply begin_round_permits.
  - by apply step_keeper_permits.
  - by apply set_store_permits.
Qed.

Lemma pool_from_permits st : permits_inv (Pool_from insts st).
Proof.
  split; cbn; [constructor..|apply length_map|]. intros i self s Hi. set_solver.
Qed.

(** C33: whatever happens, an instance never has more connections than its limit; and
    when none of its attempts and dropped tickets is under way, every permit that no
    connection holds is free again.  The commands of all instances interleave in any
    way, each of them (the connection to Redis, [KEYS], [GET], [INCR], [DECR] and the
    rest) may be refused or lose its reply, and Redis may hold anything at first: no
    permit is lost, on no error path. *)
Theorem instance_limit_exact st x :
  star (pool_step nil_value not_usize overflow matches insts prefix iterate) (Pool_from insts st) x ->
  forall i self, i ∈ up x -> insts !! i = Some self -> exists s,
    p_nodes x !! i = Some s /\ served i x <= Z.of_nat (r_instance_limit self) /\
    (Forall (fun a => a_inst a <> i) (attempts x) ->
     Forall (fun d => d_inst d = i -> d_prog d = Ret tt) (droppers x) ->
     served i x + Z.of_nat (free_permits s) = Z.of_nat (r_instance_limit self)).
Proof.
  intros Hr i self Hi Hself.
  apply (star_invariant _ permits_inv) in Hr as [HA HS HD HK Hl Hb];
    [|intros ? ? ? ?; by eapply pool_step_permits|apply pool_from_permits].
  destruct (p_nodes x !! i) as [s|] eqn:Hs.
  2: { apply lookup_ge_None in Hs. apply lookup_lt_Some in Hself. lia. }
  exists s. specialize (Hb i self s Hi Hself Hs). unfold trying, leaving in Hb. split_and!; [done|..].
  - assert (0 <= sum_for i a_inst a_permits (attempts x)).
    { apply sum_for_nonneg. eapply Forall_impl; [exact HA|]. intros a [_ Ha]. by eapply holds_nonneg. }
    assert (0 <= sum_for i d_inst d_permits (droppers x)); [|lia].
    apply sum_for_nonneg. eapply Forall_impl; [exact HD|]. intros a [_ Ha]. by eapply holds_nonneg.
  - intros H1 H2. rewrite (sum_for_none _ _ _ _ H1) in Hb.
    assert (Hz : sum_for i d_inst d_permits (droppers x) = 0); [|lia].
    clear -HD H2. induction HD as [|d l [_ Hd] HD IH]; [done|]. apply Forall_cons in H2 as [H H2].
    rewrite sum_for_cons, IH by done. case_decide as Hi; [|done]. rewrite (H Hi) in Hd.
    destruct Hd as [_ Hd]. cbn in Hd. lia.
Qed.

End Permits.

(** ** A concrete pool *)
Module PermitExamples.
Import ClusterExamples ConcurrentExamples.

Lemma acts_reachable l x :
  star (pool_step tt tt tt glob insts "flashblocks" elements) x (acts l x).
Proof.
  revert x. induction l as [|a l IH]; intros x; [apply star_refl|]. eapply star_step; [by exists a|apply IH].
Qed.

(** Attempts at the first instance that Redis refuses the connection, the [KEYS] and the
    [INCR] of, in turn; the other steps of each are served. *)
Definition refused_at (n : nat) : list (@action unit) :=
  [Begin 0 alice None] ++ repeat (StepAttempt 0 Served) n ++ [StepAttempt 0 (Refused tt)] ++
  repeat (StepAttempt 0 Served) 2.

(** Two connections at two instances, with refused attempts before them: the first
    instance has nine of its ten permits left. *)
Definition after_refusals : list (@action unit) :=
  start_up ++ refused_at 3 ++ refused_at 3 ++ refused_at 4 ++ overlapping.

Lemma instance_limit_exact_witness :
  let x := acts after_refusals (Pool_from insts stale) in
  served 0 x = 1 /\ exists s, p_nodes x !! 0%nat = Some s /\ 1 + Z.of_nat (free_permits s) = 10.
Proof.
  set (x := acts after_refusals (Pool_from insts stale)). cbn zeta. split; [by vm_compute|].
  destruct (instance_limit_exact tt tt tt glob insts "flashblocks" elements stale x
    (acts_reachable _ _)) with (i := 0%nat) (self := node "uuid-a") as (s & Hs & _ & H).
  - apply (bool_decide_unpack _). by vm_compute.
  - done.
  - exists s. split; [done|]. apply H; [vm_compute; constructor|vm_compute; constructor].
Defined.

End PermitExamples.
