(* ===== verification/RateLimitTests.v ===== *)
(** * The unit tests of the rate limiters, run on the model

    The tests in crates/websocket-proxy/src/rate_limit.rs as executable scenarios:
    the in-memory limiter on [RateLimit], the Redis limiter on the store of
    [RedisStore].  A test is a program that may fail an assertion. *)
From S2P Require Import Prelude Async Net RateLimit RedisRateLimit RedisStore.

(** ** Tests *)

Definition test (S A : Type) : Type := S -> option (A * S).

Definition test_ret {S A} (a : A) : test S A := fun s => Some (a, s).
Definition test_bind {S A B} (p : test S A) (q : A -> test S B) : test S B := fun s =>
  match p s with Some (a, s') => q a s' | None => None end.
Definition check {S} (f : S -> bool) : test S unit := fun s => if f s then Some (tt, s) else None.
Definition passes {S A} (p : test S A) (s : S) : bool :=
  match p s with Some _ => true | None => false end.

Declare Scope test_scope.
Delimit Scope test_scope with test.
Notation "'let!' x ':=' p 'in' q" := (test_bind p (fun x => q))
  (at level 10, x name, p at level 100, q at level 200) : test_scope.
Notation "p '!;' q" := (test_bind p (fun _ => q))
  (at level 100, q at level 200, right associativity) : test_scope.
Local Open Scope test_scope.

(** [err.to_string()] *)
Definition RateLimitError_to_string (e : RateLimitError) : string :=
  match e with Limit reason => ("Rate Limit Reached: " ++ reason)%string end.

(** ** The in-memory limiter *)

Section InMemory.
Context (rate_limiter : InMemoryRateLimit).

(** [rate_limiter.clone().try_acquire(..).unwrap()] *)
Definition acquired (addr : IpAddr) (app : option string) : test Inner Ticket := fun i =>
  match try_acquire rate_limiter addr app i with (Ok t, i') => Some (t, i') | (Err _, _) => None end.

(** The attempt fails with this message. *)
Definition refused (addr : IpAddr) (app : option string) (message : string) : test Inner unit := fun i =>
  match try_acquire rate_limiter addr app i with
  | (Err e, i') => if String.eqb (RateLimitError_to_string e) message then Some (tt, i') else None
  | (Ok _, _) => None
  end.

(** [drop(ticket)]: the release, then the permit. *)
Definition dropped (t : Ticket) : test Inner unit := fun i =>
  Some (tt, drop_permit (release rate_limiter (t_addr t) (t_app t) i)).

End InMemory.

Definition available_permits (n : nat) : test Inner unit := check (fun i => Nat.eqb (semaphore i) n).
Definition ip_len (n : nat) : test Inner unit :=
  check (fun i => Nat.eqb (size (active_connections_per_ip i)) n).
Definition app_len (n : nat) : test Inner unit :=
  check (fun i => Nat.eqb (size (active_connections_per_app i)) n).
Definition ip_count (addr : IpAddr) (n : nat) : test Inner unit :=
  check (fun i => bool_decide (active_connections_per_ip i !! addr = Some n)).
Definition app_count (app : string) (n : nat) : test Inner unit :=
  check (fun i => bool_decide (active_connections_per_app i !! app = Some n)).

Definition limiter (ip : nat) (apps : list (string * nat)) : InMemoryRateLimit :=
  {| per_ip_limit := ip; per_app_limit := list_to_map apps |}.

Definition GLOBAL_LIMIT : nat := 3.
Definition PER_IP_LIMIT : nat := 2.
Definition PER_APP_LIMIT : nat := 2.

Definition user_1 : IpAddr := IPv4 127 0 0 1.
Definition user_2 : IpAddr := IPv4 127 0 0 2.
Definition user_3 : IpAddr := IPv4 127 0 0 3.
Definition app_1 : string := "app_1".
Definition app_2 : string := "app_2".
Definition app_3 : string := "app_3".

Definition test_ip_tickets_are_released : bool :=
  let l := limiter PER_IP_LIMIT [] in
  passes (available_permits GLOBAL_LIMIT !; ip_len 0 !;
    let! c1 := acquired l user_1 None in
    available_permits (GLOBAL_LIMIT - 1) !; ip_len 1 !; ip_count user_1 1 !;
    dropped l c1 !; available_permits GLOBAL_LIMIT !; ip_len 0) (Inner_new GLOBAL_LIMIT).

Definition test_global_rate_limits : bool :=
  let l := limiter PER_IP_LIMIT [] in
  let user_2 := IPv4 128 0 0 1 in
  passes (let! c1 := acquired l user_1 None in let! c2 := acquired l user_2 None in
    let! c3 := acquired l user_1 None in available_permits 0 !;
    refused l user_2 None "Rate Limit Reached: Global limit" !;
    dropped l c3 !; acquired l user_2 None) (Inner_new GLOBAL_LIMIT).

Definition test_per_ip_limits : bool :=
  let l := limiter PER_IP_LIMIT [] in
  passes (let! c1 := acquired l user_1 None in let! c2 := acquired l user_1 None in
    ip_count user_1 2 !; refused l user_1 None "Rate Limit Reached: IP limit exceeded" !;
    acquired l user_2 None) (Inner_new GLOBAL_LIMIT).

Definition test_global_limits_with_multiple_ips : bool :=
  let l := limiter 3 [] in
  passes (let! ticket_1_1 := acquired l user_1 None in let! ticket_1_2 := acquired l user_1 None in
    let! ticket_2_1 := acquired l user_2 None in let! ticket_2_2 := acquired l user_2 None in
    available_permits 0 !; refused l user_3 None "Rate Limit Reached: Global limit" !;
    dropped l ticket_1_1 !; let! ticket_3_1 := acquired l user_3 None in
    dropped l ticket_1_2 !; dropped l ticket_2_1 !; dropped l ticket_2_2 !; dropped l ticket_3_1 !;
    available_permits 4 !; ip_len 0) (Inner_new 4).

Definition test_per_ip_limits_remain_enforced : bool :=
  let l := limiter 2 [] in
  passes (let! ticket_1_1 := acquired l user_1 None in let! ticket_1_2 := acquired l user_1 None in
    refused l user_1 None "Rate Limit Reached: IP limit exceeded" !;
    let! ticket_2_1 := acquired l user_2 None in dropped l ticket_1_1 !;
    let! ticket_1_3 := acquired l user_1 None in
    refused l user_1 None "Rate Limit Reached: IP limit exceeded" !;
    dropped l ticket_1_2 !; dropped l ticket_1_3 !; dropped l ticket_2_1 !;
    available_permits 5 !; ip_len 0) (Inner_new 5).

Definition test_app_tickets_are_released : bool :=
  let l := limiter 0 [(app_1, PER_APP_LIMIT)] in
  passes (available_permits GLOBAL_LIMIT !; app_len 0 !;
    let! c1 := acquired l user_1 (Some app_1) in
    available_permits (GLOBAL_LIMIT - 1) !; app_len 1 !; app_count app_1 1 !;
    dropped l c1 !; available_permits GLOBAL_LIMIT !; app_len 0) (Inner_new GLOBAL_LIMIT).

Definition test_per_app_limits : bool :=
  let l := limiter 0 [(app_1, PER_APP_LIMIT); (app_2, PER_APP_LIMIT)] in
  passes (let! c1 := acquired l user_1 (Some app_1) in let! c2 := acquired l user_2 (Some app_1) in
    app_count app_1 2 !; refused l user_1 (Some app_1) "Rate Limit Reached: App limit exceeded" !;
    acquired l user_2 (Some app_2)) (Inner_new GLOBAL_LIMIT).

Definition test_global_limits_with_multiple_apps : bool :=
  let l := limiter 0 [(app_1, PER_APP_LIMIT); (app_2, PER_APP_LIMIT); (app_3, PER_APP_LIMIT)] in
  passes (let! ticket_1_1 := acquired l user_1 (Some app_1) in
    let! ticket_1_2 := acquired l user_1 (Some app_1) in
    let! ticket_2_1 := acquired l user_2 (Some app_2) in
    let! ticket_2_2 := acquired l user_2 (Some app_2) in
    available_permits 0 !; refused l user_3 (Some app_3) "Rate Limit Reached: Global limit" !;
    dropped l ticket_1_1 !; let! ticket_3_1 := acquired l user_3 (Some app_3) in
    dropped l ticket_1_2 !; dropped l ticket_2_1 !; dropped l ticket_2_2 !; dropped l ticket_3_1 !;
    available_permits 4 !; app_len 0) (Inner_new 4).

Definition test_per_app_limits_remain_enforced : bool :=
  let l := limiter 0 [(app_1, PER_APP_LIMIT); (app_2, PER_APP_LIMIT)] in
  passes (let! ticket_1_1 := acquired l user_1 (Some app_1) in
    let! ticket_1_2 := acquired l user_2 (Some app_1) in
    refused l user_1 (Some app_1) "Rate Limit Reached: App limit exceeded" !;
    let! ticket_2_1 := acquired l user_2 (Some app_2) in dropped l ticket_1_1 !;
    let! ticket_1_3 := acquired l user_1 (Some app_1) in
    refused l user_2 (Some app_1) "Rate Limit Reached: App limit exceeded" !;
    dropped l ticket_1_2 !; dropped l ticket_1_3 !; dropped l ticket_2_1 !;
    available_permits 5 !; app_len 0) (Inner_new 5).

(** ** The Redis limiter *)

(** The server of the test, with the state of the limiter that is running. *)
Definition redis_test := test (RedisState * Store).

(** An operation of a limiter, unwrapped. *)
Definition performed {A E} (p : prog (@RedisReply unit) RedisObs RedisState (result A E)) : redis_test A :=
  fun '(s, st) =>
    match execute tt tt tt glob (fun _ => Served) p s st with
    | (Returned (Ok a), s', st') => Some (a, (s', st'))
    | _ => None
    end.

(** A limiter built by hand, with its semaphore and flag. *)
Definition constructed (started : bool) : redis_test unit := fun '(_, st) =>
  Some (tt, ({| free_permits := 10; background_tasks_started := started |}, st)).

Definition sleep (seconds : Z) : redis_test unit := fun '(s, st) =>
  Some (tt, (s, {| entries := entries st; clock := (clock st + seconds)%Z |})).

(** [EXISTS] and [GET] of a client of the test. *)
Definition exists_key (k : string) (b : bool) : redis_test unit :=
  check (fun '(_, st) => Bool.eqb (bool_decide (is_Some (entry st k))) b).
Definition has_count (k : string) (n : Z) : redis_test unit :=
  check (fun '(_, st) => bool_decide (fst <$> entry st k = Some n)).

Definition redis_limiter (ip : Z) (apps : gmap string Z) (id : string) (ttl : Z) : RedisRateLimit :=
  {| r_instance_limit := 10; r_per_ip_limit := ip; r_per_app_limit := apps; key_prefix := "test";
     instance_id := id; heartbeat_interval := 0; heartbeat_ttl := ttl |}.

Definition test_redis_instance_ip_tracking_and_cleanup : bool :=
  let l1 := redis_limiter 5 ∅ "instance1" 1 in
  let l2 := redis_limiter 5 ∅ "instance2" 2 in
  let ip1 := "test:ip:127.0.0.1:instance:instance1:connections"%string in
  let ip2 := "test:ip:127.0.0.2:instance:instance1:connections"%string in
  passes (constructed true !; performed (register_instance l1 0) !;
    performed (redis_try_acquire l1 user_1 None) !; performed (redis_try_acquire l1 user_2 None) !;
    exists_key "test:instance:instance1:heartbeat" true !; has_count ip1 1 !; has_count ip2 1 !;
    sleep 1 !;
    exists_key "test:instance:instance1:heartbeat" false !; has_count ip1 1 !; has_count ip2 1 !;
    constructed false !; performed (register_instance l2 1) !;
    performed (cleanup_stale_instances elements l2) !;
    sleep 1 !; exists_key ip1 false !; exists_key ip2 false !;
    performed (redis_try_acquire l2 user_1 None) !;
    has_count "test:ip:127.0.0.1:instance:instance2:connections" 1)
    (RedisState_new 10, Store_new).

Definition test_redis_instance_app_tracking_and_cleanup : bool :=
  let apps : gmap string Z := {[app_1 := 5%Z; app_2 := 5%Z]} in
  let l1 := redis_limiter 0 apps "instance1" 1 in
  let l2 := redis_limiter 0 apps "instance2" 2 in
  let app1 := "test:app:app_1:instance:instance1:connections"%string in
  let app2 := "test:app:app_2:instance:instance1:connections"%string in
  passes (constructed true !; performed (register_instance l1 0) !;
    performed (redis_try_acquire l1 user_1 (Some app_1)) !;
    performed (redis_try_acquire l1 user_2 (Some app_2)) !;
    exists_key "test:instance:instance1:heartbeat" true !; has_count app1 1 !; has_count app2 1 !;
    sleep 1 !;
    exists_key "test:instance:instance1:heartbeat" false !; has_count app1 1 !; has_count app2 1 !;
    constructed false !; performed (register_instance l2 1) !;
    performed (cleanup_stale_instances elements l2) !;
    sleep 1 !; exists_key app1 false !; exists_key app2 false !;
    performed (redis_try_acquire l2 user_1 (Some app_1)) !;
    has_count "test:app:app_1:instance:instance2:connections" 1)
    (RedisState_new 10, Store_new).

(** The model passes the tests of rate_limit.rs. *)
Example rate_limit_tests_pass :
  [test_ip_tickets_are_released; test_global_rate_limits; test_per_ip_limits;
   test_global_limits_with_multiple_ips; test_per_ip_limits_remain_enforced;
   test_app_tickets_are_released; test_per_app_limits; test_global_limits_with_multiple_apps;
   test_per_app_limits_remain_enforced; test_redis_instance_ip_tracking_and_cleanup;
   test_redis_instance_app_tracking_and_cleanup] = repeat true 11.
Proof. by vm_compute. Qed.
