(* ===== verification/WsAuth.v ===== *)
(** * Configuration of the WebSocket proxy

    crates/websocket-proxy/src/auth.rs (the API keys and their rate limits) and the
    parts of main.rs that read the API keys and the metric labels. *)
From S2P Require Import Prelude Net.

Local Open Scope Z_scope.

(** ** API keys *)

Record Authentication : Set := {
  key_to_application : gmap string string;
  app_to_rate_limit : gmap string Z
}.

Inductive AuthenticationParseError : Set :=
| NoData
| MissingApplicationArgument (arg : string)
| MissingAPIKeyArgument (app : string)
| MissingRateLimitArgument (app : string)
| TooManyComponents (app : string)
| DuplicateApplicationArgument (app : string)
| DuplicateAPIKeyArgument (app : string).

(** [Display for AuthenticationParseError] *)
Definition show_auth_error (e : AuthenticationParseError) : string :=
  match e with
  | NoData => "No API Keys Provided"
  | MissingApplicationArgument arg => "Missing application argument: [" ++ arg ++ "]"
  | MissingAPIKeyArgument app => "Missing API Key argument: [" ++ app ++ "]"
  | MissingRateLimitArgument app => "Missing rate limit argument: [" ++ app ++ "]"
  | TooManyComponents app => "Too many components: [" ++ app ++ "]"
  | DuplicateApplicationArgument app => "Duplicate application argument: [" ++ app ++ "]"
  | DuplicateAPIKeyArgument app => "Duplicate API key: [" ++ app ++ "]"
  end.

(** One argument: application, key and the text of the rate limit. *)
Definition parse_arg (arg : string)
  : result (string * string * string) AuthenticationParseError :=
  match split colon arg with
  | [] => Err (MissingApplicationArgument arg)
  | app :: parts =>
      if str_is_empty app then Err (MissingApplicationArgument arg)
      else match parts with
      | [] => Err (MissingAPIKeyArgument app)
      | key :: parts =>
          if str_is_empty key then Err (MissingAPIKeyArgument app)
          else match parts with
          | [] => Err (MissingRateLimitArgument app)
          | rate_limit :: parts =>
              if str_is_empty rate_limit then Err (MissingRateLimitArgument app)
              else if (0 <? length parts)%nat then Err (TooManyComponents app)
              else Ok (app, key, rate_limit)
          end
      end
  end.

(** The loop of [try_from]; [rate_limit.parse().unwrap()] may panic. *)
Fixpoint parse_args (args : list string) (applications : gset string)
    (keys : gmap string string) (limits : gmap string Z)
  : outcome (result Authentication AuthenticationParseError) :=
  match args with
  | [] => Returned (Ok {| key_to_application := keys; app_to_rate_limit := limits |})
  | arg :: args =>
      match parse_arg arg with
      | Err e => Returned (Err e)
      | Ok (app, key, rate_limit) =>
          if decide (app ∈ applications) then Returned (Err (DuplicateApplicationArgument app))
          else if decide (is_Some (keys !! key)) then Returned (Err (DuplicateAPIKeyArgument app))
          else
            match parse_usize rate_limit with
            | Some n =>
                parse_args args ({[app]} ∪ applications) (<[key := app]> keys) (<[app := n]> limits)
            | None => Panicked "called `Result::unwrap()` on an `Err` value"
            end
      end
  end.

(** [TryFrom<Vec<String>> for Authentication] *)
Definition try_from (args : list string)
  : outcome (result Authentication AuthenticationParseError) :=
  match args with
  | [] => Returned (Err NoData)
  | _ => parse_args args ∅ ∅ ∅
  end.

Definition Authentication_none : Authentication :=
  {| key_to_application := ∅; app_to_rate_limit := ∅ |}.

Definition Authentication_new (api_keys : gmap string string) (limits : gmap string Z)
  : Authentication :=
  {| key_to_application := api_keys; app_to_rate_limit := limits |}.

Definition get_application_for_key (self : Authentication) (api_key : string) : option string :=
  key_to_application self !! api_key.

Definition get_rate_limits (self : Authentication) : gmap string Z := app_to_rate_limit self.

(** How [main] reads the keys: [None] is the public endpoint. *)
Definition configure_authentication (args : list string) : outcome (option Authentication) :=
  match filter (fun s => str_is_empty s = false) args with
  | [] => Returned None
  | api_keys =>
      match try_from api_keys with
      | Returned (Ok auth) => Returned (Some auth)
      | Returned (Err e) => Panicked ("Failed to parse API Keys: " ++ show_auth_error e)
      | Panicked m => Panicked m
      end
  end.

(** The limits that [main] hands to the rate limiter. *)
Definition app_rate_limits (authentication : option Authentication) : gmap string Z :=
  match authentication with Some auth => get_rate_limits auth | None => ∅ end.

(** ** When parsing succeeds *)

Record Entry : Set := { e_app : string; e_key : string; e_limit : Z }.

(** [arg] is the text of an entry: three parts that are not empty. *)
Definition denotes (arg : string) (e : Entry) : Prop :=
  exists rl, split colon arg = [e_app e; e_key e; rl] /\
    e_app e <> "" /\ e_key e <> "" /\ parse_usize rl = Some (e_limit e).

Definition add_key (m : gmap string string) (e : Entry) := <[e_key e := e_app e]> m.
Definition add_limit (m : gmap string Z) (e : Entry) := <[e_app e := e_limit e]> m.

Definition authentication_of (es : list Entry) : Authentication :=
  {| key_to_application := foldl add_key ∅ es; app_to_rate_limit := foldl add_limit ∅ es |}.

Lemma parse_arg_ok arg app key rl :
  parse_arg arg = Ok (app, key, rl) <->
  split colon arg = [app; key; rl] /\ app <> "" /\ key <> "" /\ rl <> "".
Proof.
  unfold parse_arg.
  destruct (split colon arg) as [|[|? ?] [|[|? ?] [|[|? ?] [|? ?]]]]; simpl;
    (split; [intros; simplify_eq|intros (? & ? & ? & ?); simplify_eq]); done.
Qed.

(** The loop, from any accumulators. *)
Lemma parse_args_ok args A K L auth :
  parse_args args A K L = Returned (Ok auth) <->
  exists es, Forall2 denotes args es /\
    NoDup (e_app <$> es) /\ (forall e, e ∈ es -> e_app e ∉ A) /\
    NoDup (e_key <$> es) /\ (forall e, e ∈ es -> K !! e_key e = None) /\
    auth = {| key_to_application := foldl add_key K es; app_to_rate_limit := foldl add_limit L es |}.
Proof.
  revert A K L. induction args as [|arg args IH]; intros A K L; cbn [parse_args].
  { split.
    - intros [= <-]. exists []. by split_and!; try constructor; intros e ?%elem_of_nil.
    - intros (es & Hes & _ & _ & _ & _ & ->). by inversion Hes. }
  split.
  - destruct (parse_arg arg) as [[[app key] rl]|e] eqn:Harg; [|done].
    apply parse_arg_ok in Harg as (Hsplit & Happ & Hkey & _).
    case_decide as HA; [done|]. case_decide as HK; [done|].
    destruct (parse_usize rl) as [n|] eqn:Hn; [|done].
    intros (es & Hes & Hda & Ha & Hdk & Hk & ->)%IH. apply eq_None_not_Some in HK.
    exists ({| e_app := app; e_key := key; e_limit := n |} :: es). split_and!; [|..|done].
    + constructor; [by exists rl|done].
    + cbn. apply NoDup_cons. split; [|done].
      intros (e & -> & Hin)%list_elem_of_fmap. specialize (Ha e Hin). set_solver.
    + intros e [->|Hin]%elem_of_cons; [done|]. specialize (Ha e Hin). set_solver.
    + cbn. apply NoDup_cons. split; [|done].
      intros (e & -> & Hin)%list_elem_of_fmap. specialize (Hk e Hin).
      by rewrite lookup_insert_eq in Hk.
    + intros e [->|Hin]%elem_of_cons; [done|]. specialize (Hk e Hin).
      by apply lookup_insert_None in Hk as [? _].
  - intros (es & Hes & Hda & Ha & Hdk & Hk & ->).
    inversion Hes as [|? e ? es' (rl & Hsplit & Happ & Hkey & Hn) Hes']; subst.
    assert (Harg : parse_arg arg = Ok (e_app e, e_key e, rl)).
    { apply parse_arg_ok. split_and!; [done..|]. by intros ->. }
    rewrite Harg, decide_False by (apply Ha; left).
    rewrite decide_False by (rewrite (Hk e) by left; by apply is_Some_None). rewrite Hn.
    cbn in Hda, Hdk. apply NoDup_cons in Hda as [Hna Hda], Hdk as [Hnk Hdk].
    apply IH. exists es'. split_and!; [done|done| |done| |done].
    + intros e' Hin. specialize (Ha e' ltac:(by right)).
      assert (e_app e' <> e_app e) by (intros E; apply Hna; rewrite <- E; by apply list_elem_of_fmap_2).
      set_solver.
    + intros e' Hin. rewrite lookup_insert_ne; [apply Hk; by right|].
      intros E. apply Hnk. rewrite E. by apply list_elem_of_fmap_2.
Qed.

(** C35: the API keys are accepted exactly when there is at least one, each has the
    form [app:key:limit] with parts that are not empty and a limit that is a
    [usize], and no application and no key occurs twice; the result then maps
    exactly these keys to their applications and these applications to their
    limits. *)
Theorem try_from_ok (args : list string) (auth : Authentication) :
  try_from args = Returned (Ok auth) <->
  args <> [] /\ exists es, Forall2 denotes args es /\
    NoDup (e_app <$> es) /\ NoDup (e_key <$> es) /\ auth = authentication_of es.
Proof.
  unfold try_from. destruct args as [|arg args]; [split; [done|by intros [? _]]|].
  rewrite parse_args_ok. unfold authentication_of. split.
  - intros (es & ? & ? & _ & ? & _ & ->). split; [done|]. by exists es.
  - intros (_ & es & ? & ? & ? & ->). exists es. split_and!; try done; set_solver.
Qed.

(** Maps built by inserting the entries one after the other. *)
Lemma foldl_insert_elem {V} (f : Entry -> string) (g : Entry -> V) (es : list Entry) (m : gmap string V) k v :
  foldl (fun m e => <[f e := g e]> m) m es !! k = Some v ->
  m !! k = Some v \/ exists e, e ∈ es /\ f e = k /\ g e = v.
Proof.
  revert m. induction es as [|e es IH]; intros m; simpl; [by left|].
  intros [H|(e' & ? & ? & ?)]%IH.
  - apply lookup_insert_Some in H as [[<- <-]|[_ H]]; [|by left].
    right. exists e. split_and!; [left|done|done].
  - right. exists e'. split_and!; [by right|done|done].
Qed.

Lemma foldl_insert_is_Some {V} (f : Entry -> string) (g : Entry -> V) (es : list Entry) (m : gmap string V) k :
  is_Some (m !! k) \/ (exists e, e ∈ es /\ f e = k) ->
  is_Some (foldl (fun m e => <[f e := g e]> m) m es !! k).
Proof.
  revert m. induction es as [|e es IH]; intros m; simpl.
  - intros [?|(e & ?%elem_of_nil & _)]; done.
  - intros H. apply IH. destruct H as [H|(e' & [->|Hin]%elem_of_cons & <-)].
    + left. destruct (decide (f e = k)) as [<-|?]; [by rewrite lookup_insert_eq|].
      by rewrite lookup_insert_ne.
    + left. by rewrite lookup_insert_eq.
    + right. eauto.
Qed.

Lemma key_app_limited args au key app :
  try_from args = Returned (Ok au) -> get_application_for_key au key = Some app ->
  is_Some (get_rate_limits au !! app).
Proof.
  unfold try_from. destruct args as [|arg args]; [done|].
  rewrite parse_args_ok. intros (es & _ & _ & _ & _ & _ & ->) Hk.
  apply (foldl_insert_elem e_key e_app) in Hk as [Hk|(e & Hin & _ & <-)].
  { by rewrite lookup_empty in Hk. }
  apply (foldl_insert_is_Some e_app e_limit). right. eauto.
Qed.

(** Every application that a key gives access to has a rate limit in the
    configuration that reaches the rate limiter. *)
Theorem keys_have_limits (args : list string) (auth : Authentication) (key app : string) :
  try_from args = Returned (Ok auth) ->
  get_application_for_key auth key = Some app ->
  is_Some (app_rate_limits (Some auth) !! app).
Proof. apply key_app_limited. Qed.

(** The endpoint is public exactly when no key is configured. *)
Lemma configure_none args o :
  configure_authentication args = Returned o -> o = None <-> Forall (fun k => k = ""%string) args.
Proof.
  unfold configure_authentication. intros H.
  assert (Hf : Forall (fun k => k = ""%string) args <->
    filter (fun s => str_is_empty s = false) args = []).
  { induction args as [|[|a k] args IH]; [done|..]; rewrite Forall_cons, filter_cons; cbn.
    - case_decide; [done|]. rewrite <- (IH H). naive_solver.
    - split; [by intros [? _]|done]. }
  rewrite Hf. destruct (filter _ args) as [|k ks]; [naive_solver|].
  destruct (try_from (k :: ks)) as [[au|e]|m]; [|done|done]. by injection H as <-.
Qed.

Lemma configured_key_limited args auth key app :
  configure_authentication args = Returned (Some auth) ->
  get_application_for_key auth key = Some app -> is_Some (app_rate_limits (Some auth) !! app).
Proof.
  unfold configure_authentication. destruct (filter _ args) as [|k ks]; [done|].
  destruct (try_from (k :: ks)) as [[au|e]|m] eqn:H; [|done|done].
  intros [= <-]. by eapply key_app_limited.
Qed.

(** ** Metric labels *)

(** [parse_global_metrics], one item. *)
Definition parse_label (metric : string) : option (string * string) :=
  if str_is_empty metric then None
  else match splitn2 equals metric with
       | [label; value] => if str_is_empty label || str_is_empty value then None
                           else Some (label, value)
       | _ => None
       end.

Definition parse_global_metrics (metrics : string) : list (string * string) :=
  omap parse_label (split comma metrics).

Definition show_label (l : string * string) : string := (l.1 ++ String equals l.2)%string.

(** A label that can be written: not empty, without separators. *)
Definition writable (l : string * string) : Prop :=
  l.1 <> "" /\ l.2 <> "" /\ has_char equals l.1 = false /\
  has_char comma l.1 = false /\ has_char comma l.2 = false.

Lemma parse_show_label l : writable l -> parse_label (show_label l) = Some l.
Proof.
  destruct l as [x y]. intros (Hx & Hy & Heq & _ & _). unfold parse_label, show_label. simpl in *.
  destruct x as [|a x]; [done|]. destruct y as [|b y]; [done|].
  rewrite splitn2_app by done. done.
Qed.

(** Printing labels as [label=value] separated by commas and parsing them
    gives the labels back; a value may contain [=]. *)
Theorem parse_global_metrics_roundtrip (ls : list (string * string)) :
  Forall writable ls -> parse_global_metrics (join_with comma (show_label <$> ls)) = ls.
Proof.
  intros Hall. unfold parse_global_metrics. destruct ls as [|l ls]; [done|].
  rewrite split_join; [|done|].
  - induction Hall as [|x xs Hx Hxs IH]; [done|]. cbn. rewrite parse_show_label by done.
    destruct xs; [done|]. f_equal. exact IH.
  - apply Forall_fmap. eapply Forall_impl; [exact Hall|]. intros [x y] (_ & _ & _ & Hx & Hy).
    unfold show_label. simpl in *. rewrite has_char_app, Hx. simpl. by rewrite Hy.
Qed.

(** ** Concrete configurations *)
Module AuthExamples.

(** A limit that is not a number panics instead of being reported. *)
Example limit_not_a_number :
  try_from ["app1:key1:ten"] = Panicked "called `Result::unwrap()` on an `Err` value".
Proof. reflexivity. Qed.

Definition one_app : Authentication :=
  {| key_to_application := {["key1" := "app1"]}; app_to_rate_limit := {["app1" := 10]} |}.

Lemma keys_have_limits_witness : is_Some (app_rate_limits (Some one_app) !! "app1").
Proof. apply (keys_have_limits ["app1:key1:10"] one_app "key1" "app1"); by vm_compute. Defined.

Lemma parse_global_metrics_roundtrip_witness :
  parse_global_metrics "a=b,c=d=e" = [("a", "b"); ("c", "d=e")].
Proof.
  apply (parse_global_metrics_roundtrip [("a", "b"); ("c", "d=e")]).
  by repeat constructor.
Defined.

End AuthExamples.
