(* ===== verification/WsServer.v ===== *)
(** * The endpoint of the WebSocket proxy

    crates/websocket-proxy/src/server.rs with client.rs and metrics.rs: who may
    open a connection, from which address it counts, and what it is told when it
    may not. *)
From S2P Require Import Prelude Net RateLimit WsAuth.

Local Open Scope Z_scope.

(** ** Messages and metrics *)

(** [axum::extract::ws::Message]; the payloads are bytes. *)
Inductive Message : Set :=
| Text (text : list Z)
| Binary (data : list Z)
| Ping (data : list Z)
| Pong (data : list Z)
| Close.

Definition get_message_size (msg : Message) : Z :=
  match msg with
  | Text d | Binary d | Ping d | Pong d => Z.of_nat (length d)
  | Close => 0
  end.

(** The fields of [Metrics], and the two counters with a label. *)
Inductive metric : Set :=
| sent_messages | failed_messages | new_connections | closed_connections
| lagged_connections | active_connections | rate_limited_requests | unauthorized_requests
| upstream_errors | upstream_connections | upstream_connection_attempts
| upstream_connection_successes | upstream_connection_failures | bytes_broadcasted
| client_pong_disconnects
| connections_by_app (app : string)
| upstream_messages (upstream : string).

#[global] Instance metric_eq_dec : EqDecision metric.
Proof. solve_decision. Defined.

Definition Metrics : Set := metric -> Z.
Definition Metrics_default : Metrics := fun _ => 0.

Definition increment (m : metric) (n : Z) (ms : Metrics) : Metrics :=
  fun x => if decide (x = m) then ms x + n else ms x.

Definition proxy_connections_by_app (app : string) : Metrics -> Metrics :=
  increment (connections_by_app app) 1.
Definition message_received_from_upstream (upstream : string) : Metrics -> Metrics :=
  increment (upstream_messages upstream) 1.
Definition record_message_sent (msg : Message) (ms : Metrics) : Metrics :=
  increment bytes_broadcasted (get_message_size msg) (increment sent_messages 1 ms).

Lemma increment_other m n ms x : x <> m -> increment m n ms x = ms x.
Proof. intros H. unfold increment. by rewrite decide_False. Qed.

(** Evaluate increments of distinct metrics. *)
Ltac metrics_simpl :=
  unfold record_message_sent, message_received_from_upstream, proxy_connections_by_app, increment in *;
  repeat (case_decide; try done; try congruence).

(** [ClientConnection], without its socket. *)
Record ClientConnection : Set := { client_addr : IpAddr; ticket : Ticket }.
Definition client_id (c : ClientConnection) : string := show_ip (client_addr c).

(** ** The client's address *)

Section Server.
(** The http crate's [HeaderValue::to_str], and serde_json's rendering of
    [json!({"message": m})]. *)
Context (to_str : string -> option string) (json_message : string -> string).

Definition extract_addr (header : string) (fallback : IpAddr) : IpAddr :=
  if str_is_empty header then fallback
  else match to_str header with
       | Some header_value =>
           let raw_value := last (trim <$> split comma header_value) in
           match raw_value with
           | Some raw_value => default fallback (parse_ip raw_value)
           | None => fallback
           end
       | None => fallback
       end.

(** ** Handlers *)

Record ServerState : Set := { auth : Authentication; ip_addr_http_header : string }.

(** What the client gets: an HTTP error, or the upgrade of its connection. *)
Inductive WsResponse : Set :=
| HttpError (status : Z) (body : string)
| Upgrade (client : ClientConnection).

Definition UNAUTHORIZED : Z := 401.
Definition TOO_MANY_REQUESTS : Z := 429.
Definition OK : Z := 200.

(** [Arc<dyn RateLimit>]: a limiter's [try_acquire] on its state. *)
Context {L : Type} (acquire : IpAddr -> option string -> L -> result Ticket RateLimitError * L).

Definition websocket_handler (state : ServerState) (connect_addr : IpAddr)
    (headers : string -> option string) (app : option string) (l : L) (ms : Metrics)
  : WsResponse * L * Metrics :=
  let addr :=
    match headers (ip_addr_http_header state) with
    | None => connect_addr
    | Some value => extract_addr value connect_addr
    end in
  match acquire addr app l with
  | (Ok ticket, l) => (Upgrade {| client_addr := addr; ticket := ticket |}, l, ms)
  | (Err (Limit reason), l) =>
      (HttpError TOO_MANY_REQUESTS (json_message reason), l, increment rate_limited_requests 1 ms)
  end.

Definition authenticated_websocket_handler (state : ServerState) (connect_addr : IpAddr)
    (headers : string -> option string) (api_key : string) (l : L) (ms : Metrics)
  : WsResponse * L * Metrics :=
  match get_application_for_key (auth state) api_key with
  | None =>
      (HttpError UNAUTHORIZED (json_message "Invalid API key"), l,
       increment unauthorized_requests 1 ms)
  | Some app =>
      websocket_handler state connect_addr headers (Some app) l (proxy_connections_by_app app ms)
  end.

Definition unauthenticated_websocket_handler (state : ServerState) (connect_addr : IpAddr)
    (headers : string -> option string) (l : L) (ms : Metrics) : WsResponse * L * Metrics :=
  websocket_handler state connect_addr headers None l ms.

(** The routes of [Server::listen]. *)
Inductive handler : Set := Healthz | Authenticated | Unauthenticated.

Definition routes (authentication : option Authentication) : list (string * handler) :=
  ("/healthz", Healthz) ::
  match authentication with
  | Some _ => [("/ws/{api_key}", Authenticated)]
  | None => [("/ws", Unauthenticated)]
  end.

Definition server_state (authentication : option Authentication) (header : string) : ServerState :=
  {| auth := default Authentication_none authentication; ip_addr_http_header := header |}.

(** ** The last forwarded address decides *)

Lemma digit_not_space a d : to_digit 10 a = Some d -> is_space a = false.
Proof.
  intros H. assert (Hall : forallb (fun n => match to_digit 10 (Ascii.ascii_of_nat n) with
    | Some _ => negb (is_space (Ascii.ascii_of_nat n)) | None => true end) (seq 0 256) = true)
    by by vm_compute.
  rewrite forallb_forall in Hall. specialize (Hall (Ascii.nat_of_ascii a)).
  rewrite Ascii.ascii_nat_embedding, H in Hall. apply negb_true_iff, Hall, in_seq.
  pose proof (Ascii.nat_ascii_bounded a). lia.
Qed.

(** Text without white space at either end is not changed by [trim]. *)
Lemma trim_end_last s a : is_space a = false -> trim_end (s ++ String a "")%string = (s ++ String a "")%string.
Proof.
  intros Ha. induction s as [|b s IH].
  - rewrite string_nil_app. simpl. by rewrite Ha.
  - rewrite string_cons_app. cbn [trim_end]. rewrite IH.
    destruct (s ++ String a "")%string eqn:E; [|done]. by destruct s.
Qed.

Lemma octet_text x :
  is_octet x -> exists a s b t, print_dec x = String a s /\ print_dec x = (t ++ String b "")%string /\
    is_space a = false /\ is_space b = false.
Proof.
  intros Hx. pose proof (octet_digits_ok x Hx) as Hd. unfold octet_digits in Hd.
  destruct (print_dec x) as [|a [|b [|c [|? ?]]]]; try done.
  - apply bool_decide_eq_true in Hd. apply digit_not_space in Hd.
    by exists a, "", a, "".
  - destruct (to_digit 10 a) eqn:Ha, (to_digit 10 b) eqn:Hb; try done.
    apply digit_not_space in Ha, Hb. by exists a, (String b ""), b, (String a "").
  - destruct (to_digit 10 a) eqn:Ha, (to_digit 10 b) eqn:Hb, (to_digit 10 c) eqn:Hc; try done.
    apply digit_not_space in Ha, Hc.
    by exists a, (String b (String c "")), c, (String a (String b "")).
Qed.

Lemma trim_show_v4 a b c d :
  is_octet a -> is_octet b -> is_octet c -> is_octet d ->
  trim (show_v4 a b c d) = show_v4 a b c d.
Proof.
  intros Ha _ _ Hd. destruct (octet_text a Ha) as (x & s & _ & _ & Hs & _ & Hx & _).
  destruct (octet_text d Hd) as (_ & _ & y & t & _ & Ht & _ & Hy).
  unfold trim, show_v4. rewrite Ht. rewrite <- !string_app_assoc. rewrite Hs at 1.
  rewrite !string_cons_app. cbn [trim_start]. rewrite Hx, <- !string_cons_app, <- Hs.
  by apply trim_end_last.
Qed.

Lemma show_v4_no_comma a b c d :
  is_octet a -> is_octet b -> is_octet c -> is_octet d ->
  has_char comma (show_v4 a b c d) = false.
Proof.
  assert (H : forall x, is_octet x -> has_char comma (print_dec x) = false).
  { intros x Hx%octets_spec.
    assert (Hall : forallb (fun x => negb (has_char comma (print_dec x))) octets = true) by by vm_compute.
    rewrite forallb_forall in Hall. apply list_elem_of_In, Hall in Hx. by apply negb_true_iff. }
  intros. unfold show_v4. by rewrite !has_char_app, !H.
Qed.

(** The address that counts is the last one of the forwarding header: when a
    proxy appends the client's IPv4 address to whatever header the client sent,
    that address is used, and nothing in the part the client controls changes
    it. *)
Theorem extract_addr_last (forged : string) (a b c d : Z) (fallback : IpAddr) :
  is_octet a -> is_octet b -> is_octet c -> is_octet d ->
  let header := (forged ++ String comma (show_ip (IPv4 a b c d)))%string in
  to_str header = Some header ->
  extract_addr header fallback = IPv4 a b c d.
Proof.
  intros Ha Hb Hc Hd header Hstr. unfold extract_addr.
  assert (Hne : str_is_empty header = false) by (unfold header; by destruct forged).
  rewrite Hne, Hstr. unfold header. rewrite split_app. simpl show_ip.
  rewrite (split_no_sep comma (show_v4 a b c d)) by by apply show_v4_no_comma.
  rewrite fmap_app. cbn [fmap list_fmap]. rewrite last_snoc, trim_show_v4 by done.
  pose proof (parse_show_v4 a b c d Ha Hb Hc Hd) as Hp. simpl show_ip in Hp. by rewrite Hp.
Qed.

End Server.

(** ** The authenticated endpoint *)

Definition nat_limits (m : gmap string Z) : gmap string nat := Z.to_nat <$> m.

(** The in-memory limiter of a configuration. *)
Definition limiter_of (per_ip : nat) (auth : Authentication) : InMemoryRateLimit :=
  {| per_ip_limit := per_ip; per_app_limit := nat_limits (app_rate_limits (Some auth)) |}.

(** An upgrade, with any limiter: the key belongs to a configured application, and the
    limiter has issued the ticket for the client's address and that application. *)
Lemma upgrade_admitted (to_str : string -> option string) (json : string -> string)
    (args : list string) (au : Authentication) (header : string) {L : Type}
    (acquire : IpAddr -> option string -> L -> result Ticket RateLimitError * L)
    connect_addr headers key l ms c l' ms' :
  try_from args = Returned (Ok au) ->
  authenticated_websocket_handler to_str json acquire
    (server_state (Some au) header) connect_addr headers key l ms = (Upgrade c, l', ms') ->
  exists app n, get_application_for_key au key = Some app /\ get_rate_limits au !! app = Some n /\
    acquire (client_addr c) (Some app) l = (Ok (ticket c), l').
Proof.
  intros Htry. unfold authenticated_websocket_handler, websocket_handler.
  change (auth (server_state (Some au) header)) with au.
  destruct (get_application_for_key au key) as [app|] eqn:Hkey; [|done].
  destruct (acquire _ (Some app) l) as [[t|[r]] l1] eqn:Hacq; [|done]. intros [= <- <- _].
  destruct (key_app_limited args au key app Htry Hkey) as [n Hn]. by exists app, n.
Qed.

(** C36: whatever the limiter, a connection is upgraded at the authenticated endpoint
    only with a key of the configuration, whose application has a limit there, and
    with a ticket that the limiter has issued for the client's address and that
    application.  With the in-memory limiter of the configuration, in any state that
    it can reach, the application then had fewer live connections than that limit. *)
Theorem upgrade_needs_key (to_str : string -> option string) (json : string -> string)
    (args : list string) (au : Authentication) (header : string)
    (connect_addr : IpAddr) (headers : string -> option string) (key : string) (ms : Metrics) :
  try_from args = Returned (Ok au) ->
  (forall (L : Type) (acquire : IpAddr -> option string -> L -> result Ticket RateLimitError * L) l c l' ms',
     authenticated_websocket_handler to_str json acquire
       (server_state (Some au) header) connect_addr headers key l ms = (Upgrade c, l', ms') ->
     exists app n, get_application_for_key au key = Some app /\ get_rate_limits au !! app = Some n /\
       acquire (client_addr c) (Some app) l = (Ok (ticket c), l')) /\
  (forall (per_ip limit : nat) (s : System) c i ms',
     star (limiter_step (limiter_of per_ip au)) (System_new limit) s ->
     authenticated_websocket_handler to_str json (try_acquire (limiter_of per_ip au))
       (server_state (Some au) header) connect_addr headers key (inner_of s) ms = (Upgrade c, i, ms') ->
     exists app n, get_application_for_key au key = Some app /\
       ticket c = {| t_addr := client_addr c; t_app := Some app |} /\
       get_rate_limits au !! app = Some n /\ Z.of_nat (of_app app (live s)) < n).
Proof.
  intros Htry. split; [intros; by eapply upgrade_admitted|].
  intros per_ip limit s c i ms' Hreach Hup.
  destruct (upgrade_admitted _ _ _ _ _ _ _ _ _ _ _ _ _ _ Htry Hup) as (app & n & Hkey & Hn & Hacq).
  assert (Hinv : limiter_inv (limiter_of per_ip au) limit s).
  { eapply star_invariant; [|apply System_new_inv|exact Hreach]. eauto using step_inv. }
  destruct (try_acquire_cases (limiter_of per_ip au) (client_addr c) (Some app) (inner_of s))
    as [H0|H0 Hl Hc|a m H0 [= <-] Hc -> Hlt|m m' k H0 _ Hlt _ Hap]; simplify_eq/=.
  exists app, n. split_and!; [done..|].
  specialize (Hap app eq_refl). rewrite (inv_app _ _ _ Hinv) in Hap.
  unfold get_or_0, limiter_of, nat_limits, app_rate_limits, get_rate_limits in *. simpl in Hap.
  rewrite lookup_fmap, Hn in Hap. simpl in Hap. lia.
Qed.

(** ** Concrete requests *)
Module WsExamples.

Lemma extract_addr_last_witness :
  extract_addr Some "6.6.6.6, nonsense,129.1.1.1" (IPv4 127 0 0 1) = IPv4 129 1 1 1.
Proof.
  apply (extract_addr_last Some "6.6.6.6, nonsense" 129 1 1 1 (IPv4 127 0 0 1));
    (reflexivity || (unfold is_octet; lia)).
Defined.

Definition one_app : Authentication := AuthExamples.one_app.

Definition request := authenticated_websocket_handler Some id (try_acquire (limiter_of 2 one_app))
  (server_state (Some one_app) "X-Forwarded-For") (IPv4 9 9 9 9) (fun _ => None) "key1"
  (inner_of (System_new 5)) Metrics_default.

Lemma upgrade_needs_key_witness :
  exists app n, get_application_for_key one_app "key1" = Some app /\
    get_rate_limits one_app !! app = Some n /\ Z.of_nat (of_app app (live (System_new 5))) < n.
Proof.
  destruct (upgrade_needs_key Some id ["app1:key1:10"] one_app "X-Forwarded-For"
    (IPv4 9 9 9 9) (fun _ => None) "key1" Metrics_default ltac:(by vm_compute)) as [_ H].
  destruct (H 2%nat 5%nat (System_new 5)
    {| client_addr := IPv4 9 9 9 9; ticket := {| t_addr := IPv4 9 9 9 9; t_app := Some "app1" |} |}
    request.1.2 request.2 ltac:(apply star_refl) ltac:(reflexivity)) as (app & n & ? & _ & ? & ?).
  by exists app, n.
Defined.

End WsExamples.
