(* ===== verification/WsFanout.v ===== *)
(** * Distribution of messages by the WebSocket proxy

    crates/websocket-proxy/src/subscriber.rs (the connection to an upstream),
    the listener of main.rs (from an upstream to the broadcast channel) and
    registry.rs (from the channel to a client).  Each loop is a [tokio::select!]
    over events; it is modelled as a fold over the sequence of events it gets. *)
From S2P Require Import Prelude Net RateLimit WsAuth WsServer.

Local Open Scope Z_scope.

(** ** A client of the registry *)
Module Registry.

Record Registry : Set := { ping_enabled : bool; pong_timeout_ms : Z }.

(** What [subscribe] waits for: a broadcast message with the result of sending it
    to the client, the two errors of [recv], the signal of the reader task. *)
Inductive input : Set :=
| Received (msg : Message) (sent : bool)
| Closed
| Lagged (n : Z)
| Disconnect.

(** The loop: what the client was sent, the metrics, and whether it ended. *)
Fixpoint subscribe_loop (inputs : list input) (ms : Metrics) : list Message * Metrics * bool :=
  match inputs with
  | [] => ([], ms, false)
  | Received msg true :: inputs =>
      let '(sent, ms, ended) := subscribe_loop inputs (record_message_sent msg ms) in
      (msg :: sent, ms, ended)
  | Received msg false :: _ => ([], increment failed_messages 1 ms, true)
  | Closed :: _ => ([], ms, true)
  | Lagged _ :: _ => ([], increment lagged_connections 1 ms, true)
  | Disconnect :: _ => ([], ms, true)
  end.

Definition subscribe (inputs : list input) (ms : Metrics) : list Message * Metrics * bool :=
  let '(sent, ms, ended) := subscribe_loop inputs (increment new_connections 1 ms) in
  (sent, if ended then increment closed_connections 1 ms else ms, ended).

(** *** The reader task *)

(** A frame of the client, or the end of its stream, or a tick of the timer, with
    the time in milliseconds where it is read. *)
Inductive read_event : Set :=
| ReadPong (now : Z)
| ReadClose
| ReadError
| ReadEnd
| ReadOther
| Tick (now : Z).

(** Why the reader signalled the disconnect. *)
Inductive reason : Set := ByClient | PongTimeout (now : Z).

Fixpoint read_loop (self : Registry) (events : list read_event) (last_pong : Z) (ms : Metrics)
  : option reason * Metrics :=
  match events with
  | [] => (None, ms)
  | ReadPong now :: events =>
      read_loop self events (if ping_enabled self then now else last_pong) ms
  | ReadClose :: _ | ReadError :: _ | ReadEnd :: _ => (Some ByClient, ms)
  | ReadOther :: events => read_loop self events last_pong ms
  | Tick now :: events =>
      if ping_enabled self && (pong_timeout_ms self <? now - last_pong)
      then (Some (PongTimeout now), increment client_pong_disconnects 1 ms)
      else read_loop self events last_pong ms
  end.

(** [start_reader]; [tokio::time::interval] panics on a period of zero. *)
Definition start_reader (self : Registry) (events : list read_event) (started : Z) (ms : Metrics)
  : outcome (option reason * Metrics) :=
  if pong_timeout_ms self / 4 =? 0 then Panicked "`period` must be non-zero."
  else Returned (read_loop self events started ms).

(** The messages before the first event that ends the loop. *)
Fixpoint until_end (inputs : list input) : list Message :=
  match inputs with
  | Received msg true :: inputs => msg :: until_end inputs
  | _ => []
  end.

Definition ends (inputs : list input) : bool :=
  existsb (fun i => match i with Received _ true => false | _ => true end) inputs.

Definition total_size (l : list Message) : Z := foldr (fun m n => get_message_size m + n) 0 l.

Lemma subscribe_loop_spec inputs ms :
  let '(sent, ms', ended) := subscribe_loop inputs ms in
  sent = until_end inputs /\ ended = ends inputs /\
  ms' sent_messages = ms sent_messages + Z.of_nat (length sent) /\
  ms' bytes_broadcasted = ms bytes_broadcasted + total_size sent /\
  ms' new_connections = ms new_connections /\ ms' closed_connections = ms closed_connections.
Proof.
  revert ms. induction inputs as [|[msg [|]| |n|] inputs IH]; intros ms; simpl;
    try (metrics_simpl; split_and!; (done || lia)).
  specialize (IH (record_message_sent msg ms)).
  destruct (subscribe_loop inputs (record_message_sent msg ms)) as [[sent ms'] ended].
  destruct IH as (-> & -> & H1 & H2 & H3 & H4). metrics_simpl.
  split_and!; [done|done|simpl; lia|simpl; lia|done|done].
Qed.

(** A client gets exactly the messages broadcast before the first event that
    ends its connection (a failed send, a closed channel, lagging, its own
    disconnect), in order; the metrics count them and their bytes, one opened
    connection, and one closed connection once it has ended. *)
Theorem subscribe_spec (inputs : list input) (ms : Metrics) :
  let '(sent, ms', ended) := subscribe inputs ms in
  sent = until_end inputs /\ ended = ends inputs /\
  ms' sent_messages = ms sent_messages + Z.of_nat (length sent) /\
  ms' bytes_broadcasted = ms bytes_broadcasted + total_size sent /\
  ms' new_connections = ms new_connections + 1 /\
  ms' closed_connections = ms closed_connections + (if ends inputs then 1 else 0).
Proof.
  unfold subscribe. pose proof (subscribe_loop_spec inputs (increment new_connections 1 ms)) as H.
  destruct (subscribe_loop inputs _) as [[sent ms'] ended].
  destruct H as (-> & -> & H1 & H2 & H3 & H4).
  destruct (ends inputs); metrics_simpl; split_and!; (done || lia).
Qed.

(** *** Pong timeouts *)

(** Ticks at most [period] apart, after [from]. *)
Fixpoint spaced (period from : Z) (ticks : list Z) : Prop :=
  match ticks with
  | [] => True
  | t :: ticks => from <= t <= from + period /\ spaced period t ticks
  end.

Lemma read_loop_ticks self ticks from last_pong ms period :
  ping_enabled self = true -> spaced period from ticks -> from - last_pong <= pong_timeout_ms self ->
  match (read_loop self (Tick <$> ticks) last_pong ms).1 with
  | Some (PongTimeout t) =>
      last_pong + pong_timeout_ms self < t <= last_pong + pong_timeout_ms self + period
  | Some ByClient => False
  | None => Forall (fun t => t <= last_pong + pong_timeout_ms self) ticks
  end.
Proof.
  intros Hp. revert from. induction ticks as [|t ticks IH]; intros from Hs Hf; cbn; [constructor|].
  rewrite Hp. cbn [andb]. destruct Hs as [Ht Hs]. destruct (Z.ltb_spec (pong_timeout_ms self) (t - last_pong)).
  - cbn. lia.
  - specialize (IH t Hs ltac:(lia)).
    destruct (read_loop self (Tick <$> ticks) last_pong ms) as [[[|t']|] ms']; cbn in *; [done|done|].
    constructor; [lia|done].
Qed.

(** With pings enabled, a client that stops answering is disconnected: later
    than the timeout after its last pong, and at most one timer period after
    that; until then no tick disconnects it.  (The timer period is a quarter of
    the timeout.) *)
Theorem silent_client_disconnected (self : Registry) (ticks : list Z) (last_pong : Z) (ms : Metrics) :
  ping_enabled self = true -> 0 <= pong_timeout_ms self ->
  spaced (pong_timeout_ms self / 4) last_pong ticks ->
  (exists t, t ∈ ticks /\ last_pong + pong_timeout_ms self < t) ->
  exists t, (read_loop self (Tick <$> ticks) last_pong ms).1 = Some (PongTimeout t) /\
    last_pong + pong_timeout_ms self < t <=
      last_pong + pong_timeout_ms self + pong_timeout_ms self / 4.
Proof.
  intros Hp H0 Hs (t & Hin & Ht).
  pose proof (read_loop_ticks self ticks last_pong last_pong ms _ Hp Hs ltac:(lia)) as H.
  destruct (read_loop self (Tick <$> ticks) last_pong ms).1 as [[|t']|]; [done|by exists t'|].
  rewrite Forall_forall in H. specialize (H t Hin). lia.
Qed.

Lemma silent_client_disconnected_witness :
  exists t, (read_loop {| ping_enabled := true; pong_timeout_ms := 100 |}
      (Tick <$> [0; 25; 50; 75; 100; 125; 150]) 0 Metrics_default).1 = Some (PongTimeout t) /\
    100 < t <= 125.
Proof.
  apply (silent_client_disconnected {| ping_enabled := true; pong_timeout_ms := 100 |}
    [0; 25; 50; 75; 100; 125; 150] 0 Metrics_default).
  - reflexivity.
  - simpl. lia.
  - vm_compute. intuition congruence.
  - exists 125. split; [set_solver|simpl; lia].
Defined.

End Registry.

(** ** A connection to an upstream *)
Module Subscriber.

Record SubscriberOptions : Set := {
  max_backoff_interval : Z;
  backoff_initial_interval : Z;
  ping_interval : Z;
  pong_timeout : Z;
  initial_grace_period : Z
}.

Definition SubscriberOptions_default : SubscriberOptions :=
  {| max_backoff_interval := 20000; backoff_initial_interval := 500; ping_interval := 2000;
     pong_timeout := 4000; initial_grace_period := 5000 |}.

Definition with_max_backoff_interval (v : Z) (o : SubscriberOptions) : SubscriberOptions :=
  {| max_backoff_interval := v; backoff_initial_interval := backoff_initial_interval o;
     ping_interval := ping_interval o; pong_timeout := pong_timeout o;
     initial_grace_period := initial_grace_period o |}.
Definition with_ping_interval (v : Z) (o : SubscriberOptions) : SubscriberOptions :=
  {| max_backoff_interval := max_backoff_interval o;
     backoff_initial_interval := backoff_initial_interval o;
     ping_interval := v; pong_timeout := pong_timeout o;
     initial_grace_period := initial_grace_period o |}.
Definition with_pong_timeout (v : Z) (o : SubscriberOptions) : SubscriberOptions :=
  {| max_backoff_interval := max_backoff_interval o;
     backoff_initial_interval := backoff_initial_interval o;
     ping_interval := ping_interval o; pong_timeout := v;
     initial_grace_period := initial_grace_period o |}.
Definition with_backoff_initial_interval (v : Z) (o : SubscriberOptions) : SubscriberOptions :=
  {| max_backoff_interval := max_backoff_interval o; backoff_initial_interval := v;
     ping_interval := ping_interval o; pong_timeout := pong_timeout o;
     initial_grace_period := initial_grace_period o |}.
Definition with_initial_grace_period (v : Z) (o : SubscriberOptions) : SubscriberOptions :=
  {| max_backoff_interval := max_backoff_interval o;
     backoff_initial_interval := backoff_initial_interval o;
     ping_interval := ping_interval o; pong_timeout := pong_timeout o;
     initial_grace_period := v |}.

Section Subscriber.
(** [tungstenite::Error], of which [ConnectionClosed] is one, and the backoff
    crate's [ExponentialBackoff]. *)
Context {Error : Set} (ConnectionClosed : Error)
  {Backoff : Set} (backoff_reset : Backoff -> Backoff)
  (next_backoff : Backoff -> option Z * Backoff).
Context (uri : string) (options : SubscriberOptions).

(** [handle_message]: the bytes handed to the handler, the new deadline. *)
Definition handle_message (message : result Message Error) (now deadline : Z) (ms : Metrics)
  : result (option (list Z) * Z * Metrics) Error :=
  match message with
  | Err e => Err e
  | Ok (Text d) => Ok (Some d, deadline, message_received_from_upstream uri ms)
  | Ok (Binary d) => Ok (Some d, deadline, message_received_from_upstream uri ms)
  | Ok (Pong _) => Ok (None, now + pong_timeout options, ms)
  | Ok Close => Err ConnectionClosed
  | Ok (Ping _) => Ok (None, deadline, ms)
  end.

(** What the loop of [connect_and_listen] waits for. *)
Inductive listen_event : Set :=
| DeadlineTick (now : Z)
| PingFailed (e : Error)
| Incoming (message : result Message Error) (now : Z)
| StreamEnd.

(** The loop: the payloads handled, the metrics, and how it ended, if it did. *)
Fixpoint listen (events : list listen_event) (deadline : Z) (ms : Metrics)
  : list (list Z) * Metrics * option (result unit Error) :=
  match events with
  | [] => ([], ms, None)
  | DeadlineTick now :: events =>
      if deadline <=? now then ([], ms, Some (Err ConnectionClosed)) else listen events deadline ms
  | PingFailed e :: _ => ([], ms, Some (Err e))
  | StreamEnd :: _ => ([], ms, Some (Ok tt))
  | Incoming message now :: events =>
      match handle_message message now deadline ms with
      | Err e => ([], ms, Some (Err e))
      | Ok (data, deadline, ms) =>
          let '(handled, ms, ended) := listen events deadline ms in
          (option_list data ++ handled, ms, ended)
      end
  end.

(** One call of [connect_and_listen]: the result of connecting, when, and the
    events of the connection. *)
Record upstream_attempt : Set := {
  connection : result unit Error;
  connected_at : Z;
  events : list listen_event
}.

Definition connect_and_listen (a : upstream_attempt) (b : Backoff) (ms : Metrics)
  : list (list Z) * Backoff * Metrics * option (result unit Error) :=
  let ms := increment upstream_connection_attempts 1 ms in
  match connection a with
  | Err e => ([], b, increment upstream_connection_failures 1 ms, Some (Err e))
  | Ok tt =>
      let ms := increment upstream_connection_successes 1 ms in
      let ms := increment upstream_connections 1 ms in
      let '(handled, ms, ended) :=
        listen (events a) (connected_at a + initial_grace_period options) ms in
      (handled, backoff_reset b, ms, ended)
  end.

(** [run]: the attempts it makes until the token is cancelled; [true] with an
    attempt cancels it during the backoff that follows it. *)
Fixpoint subscriber_run (attempts : list (upstream_attempt * bool)) (b : Backoff) (ms : Metrics)
  : list (list Z) * Backoff * Metrics :=
  match attempts with
  | [] => ([], b, ms)
  | (a, cancelled_in_backoff) :: attempts =>
      let '(handled, b, ms, ended) := connect_and_listen a b ms in
      match ended with
      | None => (handled, b, ms)
      | Some (Ok tt) =>
          let '(rest, b, ms) := subscriber_run attempts b ms in (handled ++ rest, b, ms)
      | Some (Err _) =>
          let ms := increment upstream_connections (-1) (increment upstream_errors 1 ms) in
          let (pause, b) := next_backoff b in
          match pause with
          | Some _ =>
              if cancelled_in_backoff : bool then (handled, b, ms)
              else let '(rest, b, ms) := subscriber_run attempts b ms in (handled ++ rest, b, ms)
          | None => let '(rest, b, ms) := subscriber_run attempts b ms in (handled ++ rest, b, ms)
          end
      end
  end.

(** *** The gauge of upstream connections *)

Lemma listen_metrics es deadline ms x :
  (forall u, x <> upstream_messages u) -> (listen es deadline ms).1.2 x = ms x.
Proof.
  intros Hx. revert deadline ms. induction es as [|[now|e|m now|] es IH]; intros deadline ms;
    cbn [listen]; try done.
  - by destruct (deadline <=? now).
  - destruct m as [[d|d|d|d|]|e]; cbn; try done;
      match goal with |- context [listen es ?d ?m] => specialize (IH d m);
        destruct (listen es d m) as [[? ?] ?] end; cbn in *; rewrite IH;
      unfold message_received_from_upstream; by rewrite ?increment_other by done.
Qed.

(** Over any sequence of attempts the gauge [upstream_connections] moves by
    the number of successful connections minus the number of errors; a failed
    attempt to connect is such an error, although it never raised the gauge, and
    a connection that the upstream closes in order is none. *)
Theorem upstream_connections_gauge (attempts : list (upstream_attempt * bool)) (b : Backoff) (ms : Metrics) :
  let ms' := (subscriber_run attempts b ms).2 in
  ms' upstream_connections - ms upstream_connections =
    (ms' upstream_connection_successes - ms upstream_connection_successes) -
    (ms' upstream_errors - ms upstream_errors).
Proof.
  revert b ms. induction attempts as [|[a c] attempts IH]; intros b ms; [cbn; lia|].
  cbn [subscriber_run]. unfold connect_and_listen. destruct (connection a) as [[]|e].
  - match goal with |- context [listen ?es ?d ?m] =>
      pose proof (listen_metrics es d m upstream_connections ltac:(done)) as H1;
      pose proof (listen_metrics es d m upstream_connection_successes ltac:(done)) as H2;
      pose proof (listen_metrics es d m upstream_errors ltac:(done)) as H3;
      destruct (listen es d m) as [[handled ms1] ended] end.
    cbn [fst snd] in H1, H2, H3.
    metrics_simpl.
    destruct ended as [[[]|e]|]; [|destruct (next_backoff _) as [[p|] b']; [destruct c|]|];
      cbn [snd]; try match goal with |- context [subscriber_run attempts ?b ?m] => specialize (IH b m);
        destruct (subscriber_run attempts b m) as [[? ?] ?] end; cbn [snd] in *;
      metrics_simpl; lia.
  - destruct (next_backoff b) as [[p|] b']; [destruct c|];
      cbn [snd]; try match goal with |- context [subscriber_run attempts ?b ?m] => specialize (IH b m);
        destruct (subscriber_run attempts b m) as [[? ?] ?] end; cbn [snd] in *;
      metrics_simpl; lia.
Qed.

(** *** What reaches the handler *)

(** The payloads of text and binary frames. *)
Definition payload (e : listen_event) : option (list Z) :=
  match e with Incoming (Ok (Text d)) _ | Incoming (Ok (Binary d)) _ => Some d | _ => None end.

(** Events that do not end a connection with this deadline. *)
Fixpoint healthy (es : list listen_event) (deadline : Z) : Prop :=
  match es with
  | [] => True
  | DeadlineTick now :: es => now < deadline /\ healthy es deadline
  | Incoming (Ok (Pong _)) now :: es => healthy es (now + pong_timeout options)
  | Incoming (Ok Close) _ :: _ | Incoming (Err _) _ :: _ | PingFailed _ :: _ | StreamEnd :: _ => False
  | Incoming (Ok _) _ :: es => healthy es deadline
  end.

Lemma listen_healthy es deadline ms :
  healthy es deadline -> (listen es deadline ms).1.1 = omap payload es /\ (listen es deadline ms).2 = None.
Proof.
  revert deadline ms. induction es as [|[now|e|m now|] es IH]; intros deadline ms; cbn [listen healthy];
    try done.
  - intros [Hn Hh]. destruct (Z.leb_spec deadline now); [lia|]. by apply IH.
  - destruct m as [[d|d|d|d|]|e]; cbn; try done; intros Hh;
      match goal with |- context [listen es ?d ?m] => destruct (IH d m Hh) as [H1 H2];
        destruct (listen es d m) as [[? ?] ?] end; cbn in *; by rewrite H1.
Qed.

End Subscriber.

Arguments upstream_attempt : clear implicits.
End Subscriber.

(** ** From an upstream to the clients *)
Module Fanout.

Section Fanout.
(** brotli's compressor. *)
Context (compress : list Z -> list Z).

(** The listener of [main]: the message it broadcasts, and the gauge it sets from
    the number of receivers. *)
Definition listener (enable_compression : bool) (receiver_count : Z) (data : list Z) (ms : Metrics)
  : Message * Metrics :=
  let ms := fun x => if decide (x = active_connections) then receiver_count - 1 else ms x in
  (Binary (if enable_compression then compress data else data), ms).

Definition broadcast (enable_compression : bool) (receiver_count : Z) (data : list Z) : Message :=
  (listener enable_compression receiver_count data Metrics_default).1.

(** End to end, a client that keeps up gets one binary message for every text
    or binary message of a healthy upstream connection, in order, with the
    payload unchanged or compressed as configured. *)
Theorem fanout_delivers {Error : Set} (cc : Error) (uri : string) (options : Subscriber.SubscriberOptions)
    (es : list Subscriber.listen_event) (deadline : Z) (compressed : bool) (receivers : Z)
    (ms ms' : Metrics) :
  Subscriber.healthy (Error := Error) options es deadline ->
  let handled := (Subscriber.listen cc uri options es deadline ms).1.1 in
  let inputs := (fun d => Registry.Received (broadcast compressed receivers d) true) <$> handled in
  (Registry.subscribe inputs ms').1.1 =
    (fun d => Binary (if compressed then compress d else d)) <$> omap Subscriber.payload es.
Proof.
  intros Hh handled inputs. unfold Registry.subscribe.
  pose proof (Registry.subscribe_loop_spec inputs (increment new_connections 1 ms')) as H.
  destruct (Registry.subscribe_loop inputs _) as [[sent ms1] ended]. destruct H as (-> & _). cbn [fst].
  destruct (Subscriber.listen_healthy cc uri options es deadline ms Hh) as [Hl _].
  subst inputs handled. rewrite Hl. generalize (omap Subscriber.payload es) as ds.
  induction ds as [|d ds IH]; [done|]. rewrite !fmap_cons. cbn [Registry.until_end]. by rewrite IH.
Qed.

End Fanout.

Lemma fanout_delivers_witness :
  (Registry.subscribe ((fun d => Registry.Received (broadcast id false 3 d) true) <$>
      (Subscriber.listen tt "ws://up" Subscriber.SubscriberOptions_default
        [Subscriber.Incoming (Ok (Text [1; 2])) 10; Subscriber.DeadlineTick 20;
         Subscriber.Incoming (Ok (Pong [])) 30; Subscriber.Incoming (Ok (Binary [3])) 40]
        5000 Metrics_default).1.1) Metrics_default).1.1 = [Binary [1; 2]; Binary [3]].
Proof.
  apply (fanout_delivers id tt "ws://up" Subscriber.SubscriberOptions_default
    [Subscriber.Incoming (Ok (Text [1; 2])) 10; Subscriber.DeadlineTick 20;
     Subscriber.Incoming (Ok (Pong [])) 30; Subscriber.Incoming (Ok (Binary [3])) 40]
    5000 false 3 Metrics_default Metrics_default).
  by vm_compute.
Defined.

(** A subscriber whose first connection attempt fails reports -1 upstream
    connections; one whose upstream closed in order reports 1. *)
Definition attempt_of (c : result unit unit) (es : list Subscriber.listen_event) : Subscriber.upstream_attempt unit :=
  {| Subscriber.connection := c; Subscriber.connected_at := 0; Subscriber.events := es |}.

Definition gauge (a : Subscriber.upstream_attempt unit) : Z :=
  (Subscriber.subscriber_run tt id (fun b => (Some 500, b)) "ws://up" Subscriber.SubscriberOptions_default
    [(a, false)] tt Metrics_default).2 upstream_connections.

(** The gauge of active upstream connections is wrong after a failed attempt
    to connect (it is -1 with no connection) and after an orderly close (it is 1
    with no connection). *)
Theorem gauge_inaccurate :
  gauge (attempt_of (Err tt) []) = -1 /\ gauge (attempt_of (Ok tt) [Subscriber.StreamEnd]) = 1.
Proof. split; by vm_compute. Qed.

End Fanout.
