(* ===== verification/WsTests.v ===== *)
(** * Unit tests of the WebSocket proxy, run on the model

    The tests in auth.rs, server.rs and subscriber.rs of
    crates/websocket-proxy/src as executable scenarios. *)
From S2P Require Import Prelude Net RateLimit WsAuth WsServer WsFanout.

Local Open Scope Z_scope.

Module WsTests.

(** ** auth.rs *)

#[local] Instance AuthenticationParseError_eq_dec : EqDecision AuthenticationParseError.
Proof. solve_decision. Defined.

Definition fails_with (args : list string) (e : AuthenticationParseError) : bool :=
  match try_from args with Returned (Err e') => bool_decide (e' = e) | _ => false end.

Definition test_parsing : bool :=
  match try_from ["app1:key1:10"; "app2:key2:10"; "app3:key3:10"] with
  | Returned (Ok auth) =>
      bool_decide (size (key_to_application auth) = 3%nat) &&
      bool_decide (key_to_application auth !! "key1" = Some "app1"%string) &&
      bool_decide (key_to_application auth !! "key2" = Some "app2"%string) &&
      bool_decide (key_to_application auth !! "key3" = Some "app3"%string) &&
      bool_decide (size (app_to_rate_limit auth) = 3%nat) &&
      bool_decide (app_to_rate_limit auth !! "app1" = Some 10) &&
      bool_decide (app_to_rate_limit auth !! "app2" = Some 10) &&
      bool_decide (app_to_rate_limit auth !! "app3" = Some 10)
  | _ => false
  end &&
  fails_with ["app1:key1:10"; ""; "app3:key3:10"] (MissingApplicationArgument "") &&
  fails_with ["app1:key1:10"; "app2"; "app3:key3:10"] (MissingAPIKeyArgument "app2") &&
  fails_with ["app1:key1:10"; "app2:key2:10"; "app3:key3"] (MissingRateLimitArgument "app3") &&
  fails_with ["app1:key1:10"; ":"; "app3:key3:10"] (MissingApplicationArgument ":") &&
  fails_with ["app1:key1:10"; "app2:"; "app3:key3:10"] (MissingAPIKeyArgument "app2") &&
  fails_with ["app1:key1:10"; "app2:key2:10"; "app3:key3:"] (MissingRateLimitArgument "app3") &&
  fails_with ["app1:key1:10"; "app2:key2:10:unexpected2"; "app3:key3:10"] (TooManyComponents "app2") &&
  fails_with ["app1:key1:10"; "app1:key3:10"; "app2:key2:10"] (DuplicateApplicationArgument "app1") &&
  fails_with ["app1:key1:10"; "app2:key1:10"] (DuplicateAPIKeyArgument "app2").

(** ** server.rs *)

Definition test_header_addr : bool :=
  let fb := IPv4 127 0 0 1 in
  let test header expected := bool_decide (extract_addr Some header fb = expected) in
  test "129.1.1.1"%string (IPv4 129 1 1 1) &&
  test "129.1.1.1,130.1.1.1"%string (IPv4 130 1 1 1) &&
  test "129.1.1.1  ,  130.1.1.1   "%string (IPv4 130 1 1 1) &&
  test "nonsense"%string fb && test "400.0.0.1"%string fb && test "120.0.0.1.0"%string fb.

(** ** subscriber.rs *)

Import Subscriber.

Definition doubling (b : Z) : option Z * Z := (Some b, Z.min 20000 (2 * b)).

(** A connection to a server that accepts and then reads nothing: the deadline is
    looked at every 100 ms. *)
Definition unresponsive (at_ms : Z) (checks : nat) : upstream_attempt string :=
  {| connection := Ok tt; connected_at := at_ms;
     events := map (fun k => DeadlineTick (at_ms + 100 * Z.of_nat k)) (seq 0 checks) |}.

(** The subscriber's connections to that server in one second: an attempt ends
    with its deadline, 50 ms after the connection, and the next one follows the
    backoff of 100 ms. *)
Definition test_ping_pong_reconnection : bool :=
  let options := with_initial_grace_period 50 (with_pong_timeout 200 (with_ping_interval 100
    (with_backoff_initial_interval 100 SubscriberOptions_default))) in
  let '(_, _, ms) := subscriber_run "closed"%string (fun _ => 100) doubling "ws://server" options
    [(unresponsive 0 10, false); (unresponsive 200 8, false); (unresponsive 400 6, true)] 100 Metrics_default in
  2 <=? ms upstream_connection_attempts.

(** Two servers send two messages each; the listener is shared. *)
Definition from_server (first second : list Z) : upstream_attempt string :=
  {| connection := Ok tt; connected_at := 0;
     events := [Incoming (Ok (Binary first)) 500; Incoming (Ok (Binary second)) 1000] |}.

Definition test_multiple_subscribers_single_listener : bool :=
  let run server := (subscriber_run "closed"%string (fun b => b) doubling "ws://server"
    SubscriberOptions_default [(server, true)] 500 Metrics_default).1.1 in
  let messages := run (from_server [1; 1] [1; 2]) ++ run (from_server [2; 1] [2; 2]) in
  (length messages =? 4)%nat && bool_decide ([1; 1] ∈ messages) && bool_decide ([2; 1] ∈ messages) &&
  bool_decide ([1; 2] ∈ messages) && bool_decide ([2; 2] ∈ messages).

(** The model passes the tests. *)
Example ws_tests_pass :
  test_parsing && test_header_addr && test_ping_pong_reconnection &&
  test_multiple_subscribers_single_listener = true.
Proof. by vm_compute. Qed.

End WsTests.
