(* ===== verification/WsMain.v ===== *)
(** * The WebSocket proxy program

    [main] of crates/websocket-proxy/src/main.rs: the arguments, the construction of
    the parts that the other files model, the listener of the server, the task that
    pings the clients, and the shutdown.  Starting is a program over Redis, since the limiter announces itself
    there; a panic of [main] is the panic of the program. *)
From S2P Require Import Prelude Async Net RateLimit RedisRateLimit WsAuth WsServer WsFanout.

Local Open Scope Z_scope.
Local Open Scope prog_scope.

(** ** Arguments *)

Record Args : Set := {
  listen_addr : IpAddr * Z;
  upstream_ws : list string;
  message_buffer_size : Z;
  instance_connection_limit : Z;
  per_ip_connection_limit : Z;
  enable_compression : bool;
  arg_ip_addr_http_header : string;
  arg_log_format : string;
  arg_metrics : bool;
  api_keys : list string;
  metrics_addr : IpAddr * Z;
  metrics_global_labels : string;
  metrics_host_label : bool;
  subscriber_max_interval_ms : Z;
  subscriber_ping_interval_ms : Z;
  subscriber_pong_timeout_ms : Z;
  redis_url : option string;
  redis_key_prefix : string;
  client_ping_enabled : bool;
  client_ping_interval_ms : Z;
  client_pong_timeout_ms : Z
}.

(** The defaults, with the upstreams of the command line. *)
Definition Args_default (upstreams : list string) : Args :=
  {| listen_addr := (IPv4 0 0 0 0, 8545); upstream_ws := upstreams; message_buffer_size := 20;
     instance_connection_limit := 100; per_ip_connection_limit := 10; enable_compression := false;
     arg_ip_addr_http_header := "X-Forwarded-For"; arg_log_format := "text"; arg_metrics := true;
     api_keys := []; metrics_addr := (IPv4 0 0 0 0, 9000); metrics_global_labels := "";
     metrics_host_label := false; subscriber_max_interval_ms := 20000;
     subscriber_ping_interval_ms := 2000; subscriber_pong_timeout_ms := 4000; redis_url := None;
     redis_key_prefix := "flashblocks"; client_ping_enabled := false;
     client_ping_interval_ms := 15000; client_pong_timeout_ms := 30000 |}.

(** Any format other than JSON is text, without an error. *)
Definition log_json (args : Args) : bool := String.eqb (to_lowercase (arg_log_format args)) "json".

(** ** The started program *)

Record PrometheusSetup : Set := { http_listener : IpAddr * Z; global_labels : list (string * string) }.

(** [Arc<dyn RateLimit>] *)
Inductive Limiter : Set :=
| InMemory (self : InMemoryRateLimit) (inner : Inner)
| OverRedis (self : RedisRateLimit).

(** The task that pings the clients, or the future that never ends. *)
Inductive PingTask : Set := PingEvery (interval_ms : Z) | Pending.

Record Proxy : Set := {
  json_logs : bool;
  prometheus : option PrometheusSetup;
  subscribers : list (string * Subscriber.SubscriberOptions);
  ping_task_of : PingTask;
  registry : Registry.Registry;
  rate_limiter : Limiter;
  proxy_listen_addr : IpAddr * Z;
  authentication : option Authentication;
  proxy_ip_header : string
}.

Section Main.
(** The redis crate's error type and [Client::open]; the name of the host (an error,
    a name that is not UTF-8, a name), the Prometheus exporter, the signal
    handlers; binding a listener and asking for its address; the id of this instance
    and the time, in seconds since 1970. *)
Context {RedisError : Set} (redis_open : string -> result unit RedisError)
  (hostname : result (option string) string) (prometheus_install : result unit string)
  (signal_handlers : result unit string) (tcp_bind : IpAddr * Z -> result unit string) (uuid : string) (now : Z).

Abbreviation RM A := (prog (@RedisReply RedisError) RedisObs RedisState A).

(** The value of an [outcome] in a program. *)
Definition lift_outcome {A} (o : outcome A) : RM A :=
  match o with Returned a => Ret a | Panicked m => Panic m end.

(** [--metrics]: the labels are the host name, then the configured ones. *)
Definition setup_prometheus (args : Args) : outcome (option PrometheusSetup) :=
  if arg_metrics args then
    let host :=
      if metrics_host_label args then
        match hostname with
        | Err _ => Panicked "could not find hostname"
        | Ok None => Panicked "could not convert hostname to string"
        | Ok (Some h) => Returned [("hostname", h)]
        end
      else Returned [] in
    match host with
    | Panicked m => Panicked m
    | Returned labels =>
        let labels := labels ++ parse_global_metrics (metrics_global_labels args) in
        match prometheus_install with
        | Ok _ => Returned (Some {| http_listener := metrics_addr args; global_labels := labels |})
        | Err _ => Panicked "failed to setup Prometheus endpoint"
        end
    end
  else Returned None.

(** [broadcast::channel]: tokio refuses a capacity of zero, and one above half of
    the address space. *)
Definition broadcast_channel (capacity : Z) : outcome unit :=
  if capacity =? 0 then Panicked "broadcast channel capacity cannot be zero"
  else if u64_max / 2 <? capacity then Panicked "broadcast channel capacity exceeded `usize::MAX / 2`"
  else Returned tt.

(** The options of every subscriber. *)
Definition subscriber_options (args : Args) : Subscriber.SubscriberOptions :=
  Subscriber.with_initial_grace_period 5000
    (Subscriber.with_backoff_initial_interval 500
      (Subscriber.with_pong_timeout (subscriber_pong_timeout_ms args)
        (Subscriber.with_ping_interval (subscriber_ping_interval_ms args)
          (Subscriber.with_max_backoff_interval (subscriber_max_interval_ms args)
            Subscriber.SubscriberOptions_default)))).

Definition in_memory (args : Args) (limits : gmap string Z) : outcome Limiter :=
  match InMemoryRateLimit_new (Z.to_nat (instance_connection_limit args))
          (Z.to_nat (per_ip_connection_limit args)) (Z.to_nat <$> limits) with
  | Returned (self, inner) => Returned (InMemory self inner)
  | Panicked m => Panicked m
  end.

(** The choice of the limiter: Redis if it is configured and its URL can be opened,
    which connects to nothing yet. *)
Definition choose_limiter (args : Args) (limits : gmap string Z) : RM Limiter :=
  match redis_url args with
  | Some url =>
      let* r := RedisRateLimit_new (redis_open url) (Z.to_nat (instance_connection_limit args))
                  (per_ip_connection_limit args) limits (redis_key_prefix args) uuid now in
      match r with
      | Ok limiter => Ret (OverRedis limiter)
      | Err _ => lift_outcome (in_memory args limits)
      end
  | None => lift_outcome (in_memory args limits)
  end.

(** [Server::listen] up to serving: the routes and the state of the server are those
    of [WsServer]; a listener that cannot be bound is a panic. *)
Definition listen_start (addr : IpAddr * Z) : outcome unit :=
  match tcp_bind addr with Ok _ => Returned tt | Err m => Panicked m end.

(** [main] up to its final [select!], and the first poll of the server in it, which
    binds the listener in the task of [main]. *)
Definition proxy_start (args : Args) : RM Proxy :=
  let* auth := lift_outcome (configure_authentication (api_keys args)) in
  let* prom := lift_outcome (setup_prometheus args) in
  match upstream_ws args with
  | [] => Panic "No upstream URIs provided"
  | _ =>
      lift_outcome (broadcast_channel (message_buffer_size args)) ;;
      let subscribers := map (fun uri => (uri, subscriber_options args)) (upstream_ws args) in
      let ping :=
        if client_ping_enabled args then PingEvery (client_ping_interval_ms args) else Pending in
      let registry :=
        {| Registry.ping_enabled := client_ping_enabled args;
           Registry.pong_timeout_ms := client_pong_timeout_ms args |} in
      let* limiter := choose_limiter args (app_rate_limits auth) in
      match signal_handlers with
      | Err m => Panic m
      | Ok _ =>
          lift_outcome (listen_start (listen_addr args)) ;;
          Ret {| json_logs := log_json args; prometheus := prom; subscribers := subscribers;
                 ping_task_of := ping; registry := registry; rate_limiter := limiter;
                 proxy_listen_addr := listen_addr args; authentication := auth;
                 proxy_ip_header := arg_ip_addr_http_header args |}
      end
  end.

(** ** The task that pings the clients *)

Inductive ping_event : Set := PingTick (receivers : bool) | PingCancelled.

(** Its loop: the messages broadcast, and whether it has ended; a send without
    receivers is only logged. *)
Fixpoint ping_loop (events : list ping_event) : list Message * bool :=
  match events with
  | [] => ([], false)
  | PingTick _ :: events => let '(sent, ended) := ping_loop events in (Ping [] :: sent, ended)
  | PingCancelled :: _ => ([], true)
  end.

(** [tokio::time::interval] panics on a period of zero. *)
Definition run_ping_task (t : PingTask) (events : list ping_event) : outcome (list Message * bool) :=
  match t with
  | PingEvery ms =>
      if ms =? 0 then Panicked "`period` must be non-zero." else Returned (ping_loop events)
  | Pending => Returned ([], false)
  end.

(** ** Shutdown *)

(** The branches of the final [select!]; a panic of a spawned task completes its
    handle like any other end, one of the server, which [main] itself polls, is
    the program's. *)
Inductive finished : Set := AllSubscribers | ServerTask | PingTaskDone | Interrupt | Terminate.

(** The message that is logged; every branch cancels the token. *)
Definition main_select (f : finished) : string * bool :=
  match f with
  | AllSubscribers => ("all subscriber tasks terminated", true)
  | ServerTask => ("server task terminated", true)
  | PingTaskDone => ("ping task terminated", true)
  | Interrupt => ("process interrupted, shutting down", true)
  | Terminate => ("process terminated, shutting down", true)
  end.

(** The ping task has ended, by cancellation or by a panic. *)
Definition ping_done (o : outcome (list Message * bool)) : bool :=
  match o with Panicked _ => true | Returned (_, ended) => ended end.

(** ** What starts, and what keeps the program from starting *)

(** A configuration or an environment that [main] panics on. *)
Definition startup_fault (args : Args) : Prop :=
  (exists m, configure_authentication (api_keys args) = Panicked m) \/
  (exists m, setup_prometheus args = Panicked m) \/
  upstream_ws args = [] \/
  (exists m, broadcast_channel (message_buffer_size args) = Panicked m) \/
  MAX_PERMITS < instance_connection_limit args \/
  (exists m, signal_handlers = Err m) \/
  (exists m, tcp_bind (listen_addr args) = Err m).

(** The clock is before 1970 and there is a connection to Redis to send a heartbeat
    over. *)
Definition clock_fault (t : list (event (@RedisReply RedisError) RedisObs RedisState)) : Prop :=
  now < 0 /\ EvAwait GetConnection (Ok tt) ∈ t.

(** The limiter enforces the configured limits, in Redis exactly when a Redis is
    configured and its URL can be opened. *)
Definition limiter_as_configured (args : Args) (auth : option Authentication) (l : Limiter) : Prop :=
  let limits := app_rate_limits auth in
  match l with
  | OverRedis self =>
      (exists url, redis_url args = Some url /\ redis_open url = Ok tt) /\
      r_instance_limit self = Z.to_nat (instance_connection_limit args) /\
      r_per_ip_limit self = per_ip_connection_limit args /\ r_per_app_limit self = limits /\
      key_prefix self = redis_key_prefix args /\ instance_id self = uuid
  | InMemory self inner =>
      (forall url, redis_url args = Some url -> exists e, redis_open url = Err e) /\
      per_ip_limit self = Z.to_nat (per_ip_connection_limit args) /\
      per_app_limit self = Z.to_nat <$> limits /\
      inner = Inner_new (Z.to_nat (instance_connection_limit args))
  end.

Abbreviation Ev := (event (@RedisReply RedisError) RedisObs RedisState).

(** A part of the start that yields [Q], or panics on one of the two faults. *)
Definition starts {A} (args : Args) (Q : A -> Prop) (t : list Ev) (o : outcome A) : Prop :=
  match o with
  | Panicked _ => MAX_PERMITS < instance_connection_limit args \/ clock_fault t
  | Returned a => instance_connection_limit args <= MAX_PERMITS /\ ~ clock_fault t /\ Q a
  end.

Lemma register_instance_starts args self :
  instance_connection_limit args <= MAX_PERMITS ->
  every (register_instance (RedisError := RedisError) self now) (starts args (fun _ => True)).
Proof.
  intros Hl. unfold starts, clock_fault. cbn. intros [[]|e]; cbn.
  - destruct (Z.ltb_spec now 0); cbn; [right; split; [done|left]|]. intros [[]|e]; cbn;
      (split_and!; [done|intros [? _]; lia|done]).
  - split_and!; [done| |done]. intros [_ Hin%list_elem_of_singleton].
    apply (f_equal (fun v : Ev => match v with EvAwait GetConnection (Err _) => true | _ => false end)) in Hin. done.
Qed.

Lemma Semaphore_new_spec args :
  Semaphore_new (Z.to_nat (instance_connection_limit args)) =
    if decide (MAX_PERMITS < instance_connection_limit args)
    then Panicked "a semaphore may not have more than MAX_PERMITS permits (2305843009213693951)"
    else Returned (Z.to_nat (instance_connection_limit args)).
Proof.
  unfold Semaphore_new. assert (0 < MAX_PERMITS) by by vm_compute. generalize dependent MAX_PERMITS. intros M HM.
  destruct (Z.ltb_spec M (Z.of_nat (Z.to_nat (instance_connection_limit args)))); case_decide; (done || lia).
Qed.

Lemma no_request_starts args {A} (o : outcome A) (Q : A -> Prop) :
  (forall a, o = Returned a -> instance_connection_limit args <= MAX_PERMITS /\ Q a) ->
  (forall m, o = Panicked m -> MAX_PERMITS < instance_connection_limit args) ->
  every (lift_outcome o) (starts args Q).
Proof.
  intros Ho Hm. destruct o as [a|m]; cbn; [|left; by eapply Hm]. destruct (Ho a eq_refl).
  split_and!; [done| |done]. by intros [_ ?%elem_of_nil].
Qed.

Lemma in_memory_starts args auth :
  (forall url, redis_url args = Some url -> exists e, redis_open url = Err e) ->
  every (lift_outcome (in_memory args (app_rate_limits auth))) (starts args (limiter_as_configured args auth)).
Proof.
  intros Hurl. apply no_request_starts; unfold in_memory, InMemoryRateLimit_new; rewrite Semaphore_new_spec;
    case_decide; try done.
  intros a [= <-]. split; [lia|done].
Qed.

Lemma choose_limiter_spec args auth :
  every (choose_limiter args (app_rate_limits auth)) (starts args (limiter_as_configured args auth)).
Proof.
  unfold choose_limiter. destruct (redis_url args) as [url|] eqn:Hurl; [|apply in_memory_starts; by rewrite Hurl].
  destruct (redis_open url) as [[]|e] eqn:Hopen; cbn [RedisRateLimit_new bind].
  2: { apply in_memory_starts. rewrite Hurl. intros url' [= <-]. eauto. }
  rewrite Semaphore_new_spec. case_decide as Hl; [by left|].
  eapply every_bind with (P := starts args (fun r => r = Ok (RedisRateLimit_of
    (Z.to_nat (instance_connection_limit args)) (per_ip_connection_limit args) (app_rate_limits auth)
    (redis_key_prefix args) uuid))); [|by intros t m H|].
  - eapply every_bind; [apply (register_instance_starts args); lia|by intros t m H|].
    intros t r (H1 & H2 & _). cbn. by rewrite app_nil_r.
  - intros t r (H1 & H2 & ->). cbn. rewrite app_nil_r. split_and!; try done; eauto.
Qed.

(** C38: the proxy is what its arguments describe: one subscriber per upstream, in
    order, with the configured intervals; an endpoint that needs a key exactly when
    a key is configured, where every key leads to an application with a limit; a
    limiter with the configured limits, in Redis exactly when a Redis URL is configured
    and can be opened, whether or not Redis can then be reached.  It panics exactly on
    the faults of [startup_fault] (among them an instance limit above what a
    semaphore takes and a listener that cannot be bound), and on a clock before
    1970 when there is a connection to Redis. *)
Theorem proxy_start_spec (args : Args) :
  every (proxy_start args) (fun t o =>
    match o with
    | Panicked _ => startup_fault args \/ clock_fault t
    | Returned p =>
        ~ startup_fault args /\ ~ clock_fault t /\
        subscribers p = map (fun uri => (uri,
          {| Subscriber.max_backoff_interval := subscriber_max_interval_ms args;
             Subscriber.backoff_initial_interval := 500;
             Subscriber.ping_interval := subscriber_ping_interval_ms args;
             Subscriber.pong_timeout := subscriber_pong_timeout_ms args;
             Subscriber.initial_grace_period := 5000 |})) (upstream_ws args) /\
        (authentication p = None <-> Forall (fun k => k = ""%string) (api_keys args)) /\
        (forall auth key app, authentication p = Some auth ->
           get_application_for_key auth key = Some app ->
           is_Some (app_rate_limits (authentication p) !! app)) /\
        limiter_as_configured args (authentication p) (rate_limiter p) /\
        (ping_task_of p = Pending <-> Registry.ping_enabled (registry p) = false)
    end).
Proof.
  unfold proxy_start, startup_fault.
  destruct (configure_authentication (api_keys args)) as [auth|m] eqn:Ha; [|cbn; eauto 10].
  destruct (setup_prometheus args) as [prom|m] eqn:Hp; [|cbn; eauto 10].
  cbn [lift_outcome bind]. destruct (upstream_ws args) as [|u us] eqn:Hu; [cbn; auto 10|].
  destruct (broadcast_channel (message_buffer_size args)) as [[]|m] eqn:Hb; [|cbn; eauto 10].
  cbn [lift_outcome bind]. eapply every_bind; [apply (choose_limiter_spec args auth)| |].
  { intros t m [H|H]; [left; auto 10|by right]. }
  intros t l (Hl & Hc & Hlim). destruct signal_handlers as [[]|m] eqn:Hs; [|cbn; eauto 10].
  unfold listen_start. destruct (tcp_bind (listen_addr args)) as [[]|m] eqn:Ht; [|cbn; eauto 10].
  cbn. rewrite app_nil_r. split_and!; [|done|done| | |done|].
  - intros [[? ?]|[[? ?]|[?|[[? ?]|[?|[[? ?]|[? ?]]]]]]]; (congruence || lia).
  - by apply configure_none in Ha.
  - intros auth' key app -> Hk. by eapply configured_key_limited.
  - by destruct (client_ping_enabled args).
Qed.

End Main.

(** The ping task ends only when the token is cancelled, except that a period of
    zero ends it at once, which the final [select!] takes as a reason to shut the
    whole proxy down; until it ends it broadcasts one ping per tick. *)
Theorem ping_task_lifetime (ms : Z) (events : list ping_event) :
  ping_done (run_ping_task (PingEvery ms) events) = true <-> ms = 0 \/ PingCancelled ∈ events.
Proof.
  unfold run_ping_task. destruct (Z.eqb_spec ms 0) as [->|Hne]; [cbn; naive_solver|]. cbn.
  assert (H : (ping_loop events).2 = true <-> PingCancelled ∈ events).
  { induction events as [|[r|] events IH]; cbn.
    - split; [done|]. by intros ?%elem_of_nil.
    - destruct (ping_loop events) as [sent ended]. cbn in *. rewrite IH, elem_of_cons. naive_solver.
    - split; [intros _; left|done]. }
  destruct (ping_loop events) as [sent ended]. cbn in *. rewrite H. naive_solver.
Qed.

Lemma ping_loop_messages events :
  (ping_loop events).1 = repeat (Ping []) (length (ping_loop events).1).
Proof.
  induction events as [|[r|] events IH]; cbn; [done| |done].
  destruct (ping_loop events) as [sent ended]. cbn in *. by rewrite <- IH.
Qed.

(** ** Concrete starts *)
Module WsMainExamples.

(** Redis that refuses every command. *)
Definition no_redis : env (@RedisReply string) RedisObs RedisState :=
  {| respond := fun _ c =>
       match c as c return RedisReply c with
       | GetConnection => Err "refused" | Keys _ => Err "refused" | Get _ => Err "refused"
       | Incr _ => Err "refused" | Decr _ => Err "refused" | Del _ => Err "refused"
       | SetEx _ _ _ => Err "refused"
       end%string;
     interfere := fun _ s => s |}.

Definition start_with (a : Args) : outcome Proxy :=
  run_outcome no_redis
    (proxy_start (fun _ => Ok tt) (Ok (Some "host"%string)) (Ok tt) (Ok tt) (fun _ => Ok tt) "id"%string 0 a)
    (RedisState_new 100).

(** Two upstreams and the defaults: a public endpoint and the in-memory limiter. *)
Example default_start :
  match start_with (Args_default ["ws://a"; "ws://b"]) with
  | Returned p => fst <$> subscribers p = ["ws://a"; "ws://b"] /\ authentication p = None /\
      routes (authentication p) = [("/healthz", Healthz); ("/ws", Unauthenticated)] /\
      ping_task_of p = Pending
  | Panicked _ => False
  end%string.
Proof. vm_compute. done. Qed.

(** A Redis that cannot be reached: the proxy starts with the limiter over Redis all
    the same, which then refuses every connection. *)
Definition with_redis (a : Args) : Args :=
  {| listen_addr := listen_addr a; upstream_ws := upstream_ws a;
     message_buffer_size := message_buffer_size a;
     instance_connection_limit := instance_connection_limit a;
     per_ip_connection_limit := per_ip_connection_limit a; enable_compression := enable_compression a;
     arg_ip_addr_http_header := arg_ip_addr_http_header a; arg_log_format := arg_log_format a;
     arg_metrics := arg_metrics a; api_keys := api_keys a; metrics_addr := metrics_addr a;
     metrics_global_labels := metrics_global_labels a; metrics_host_label := metrics_host_label a;
     subscriber_max_interval_ms := subscriber_max_interval_ms a;
     subscriber_ping_interval_ms := subscriber_ping_interval_ms a;
     subscriber_pong_timeout_ms := subscriber_pong_timeout_ms a;
     redis_url := Some "redis://redis:6379"%string; redis_key_prefix := redis_key_prefix a;
     client_ping_enabled := client_ping_enabled a; client_ping_interval_ms := client_ping_interval_ms a;
     client_pong_timeout_ms := client_pong_timeout_ms a |}.

Example unreachable_redis_refuses_all :
  match start_with (with_redis (Args_default ["ws://a"%string])) with
  | Returned p =>
      match rate_limiter p with
      | OverRedis self =>
          run_outcome no_redis (redis_try_acquire self (IPv4 1 1 1 1) None) (RedisState_new 100) =
            Returned (Err (Limit "Redis connection failed"))
      | InMemory _ _ => False
      end
  | Panicked _ => False
  end.
Proof. vm_compute. done. Qed.

Example no_upstreams : start_with (Args_default []) = Panicked "No upstream URIs provided".
Proof. reflexivity. Qed.

End WsMainExamples.
