(* ===== verification/WsSystem.v ===== *)
(** * The WebSocket proxy as one system

    The parts that WsServer, WsFanout, WsMain and RateLimit model one by one run
    together here: requests at the endpoint (server.rs), the limiter's tickets
    (rate_limit.rs), the broadcast channel with the listener and the ping task that
    send into it (main.rs), and for every client the loop of [Registry::subscribe]
    beside its reader task (registry.rs).  A state is everything they share; an
    event is one step of one task, and events come in any order. *)
From S2P Require Import Prelude Net RateLimit WsAuth WsServer WsFanout.

Import Registry.

(** ** Clients *)

(** The life of a connection: the response that upgrades it is on its way; the
    upgrade failed; [subscribe] is in its loop; the loop is left; [subscribe] has
    returned and dropped the receiver and the ticket. *)
Inductive status : Set := Upgrading | UpgradeFailed | Open | Closing | Gone.

#[global] Instance status_eq_dec : EqDecision status.
Proof. solve_decision. Defined.

(** The reader task: spawned, in its loop with the time of the last pong, ended
    (it sent the signal, or it panicked and dropped its end of the channel, which
    the receiver takes the same way), or stopped by [abort]. *)
Inductive reader : Set := NotStarted | Reading (last_pong : Z) | Signalled | Aborted.

(** [first] and [next] are positions in the channel: that of the first message the
    client's receiver can get, and that of the next one; [inputs] is what the loop
    of [subscribe] has got so far, [sending] a message whose [send] is pending. *)
Record Client : Set := {
  conn : ClientConnection;
  status_of : status;
  first : nat;
  next : nat;
  inputs : list input;
  sending : option Message;
  reader_of : reader
}.

Definition Client_new (c : ClientConnection) : Client :=
  {| conn := c; status_of := Upgrading; first := 0; next := 0; inputs := []; sending := None;
     reader_of := NotStarted |}.

(** What the client was sent. *)
Definition delivered (c : Client) : list Message := until_end (inputs c).

(** It holds a ticket; its [subscribe] has begun; its [subscribe] has left the loop. *)
Definition holding (c : Client) : bool :=
  match status_of c with Upgrading | Open | Closing => true | _ => false end.
Definition opened (c : Client) : bool :=
  match status_of c with Open | Closing | Gone => true | _ => false end.
Definition closed (c : Client) : bool :=
  match status_of c with Closing | Gone => true | _ => false end.

Definition set_status (x : status) (c : Client) : Client :=
  {| conn := conn c; status_of := x; first := first c; next := next c; inputs := inputs c;
     sending := sending c; reader_of := reader_of c |}.
Definition set_reader (r : reader) (c : Client) : Client :=
  {| conn := conn c; status_of := status_of c; first := first c; next := next c; inputs := inputs c;
     sending := sending c; reader_of := r |}.

(** ** The broadcast channel *)

(** What [recv] gives: nothing yet, a message, or how many messages were missed. *)
Inductive received : Set := Empty | Value (msg : Message) | Missed (n : nat).

(** [Receiver::recv] of a channel that keeps the last [capacity] of the messages
    [sent] so far, for a receiver at position [next]. *)
Definition recv (capacity : nat) (sent : list Message) (next : nat) : received :=
  match sent !! next with
  | None => Empty
  | Some msg =>
      if (next + capacity <? length sent)%nat then Missed (length sent - capacity - next) else Value msg
  end.

(** ** The whole proxy *)

(** [channel] is every message ever sent, [payloads] what the upstreams sent. *)
Record ProxyState : Type := {
  channel : list Message;
  payloads : list (list Z);
  clients : list Client;
  limiter : System;
  metrics : Metrics
}.

(** One step of one of the tasks. *)
Inductive event : Set :=
| Request (connect_addr : IpAddr) (headers : string -> option string) (api_key : string)
| Upgraded (i : nat) (ok : bool)
| FromUpstream (data : list Z)
| PingTick
| Recv (i : nat)
| SendDone (i : nat) (ok : bool)
| SeeSignal (i : nat)
| StartReader (i : nat) (now : Z)
| ReaderEvent (i : nat) (e : read_event)
| AbortReader (i : nat)
| DropClient (i : nat)
| ReturnPermit.

Section WsSystem.
(** brotli's compressor, the http crate's [to_str], serde_json's rendering of a
    message, the capacity tokio gives the channel; then the configuration. *)
Context (compress : list Z -> list Z) (to_str : string -> option string)
  (json_message : string -> string) (capacity : nat).
Context (enable_compression : bool) (registry : Registry) (rate_limiter : InMemoryRateLimit)
  (instance_limit : nat) (authentication : option Authentication) (header : string).

Definition ProxyState_new : ProxyState :=
  {| channel := []; payloads := []; clients := []; limiter := System_new instance_limit;
     metrics := Metrics_default |}.

(** *** Requests *)

(** The handler of the route that is configured. *)
Definition handle (connect_addr : IpAddr) (headers : string -> option string) (api_key : string)
    (i : Inner) (ms : Metrics) : WsResponse * Inner * Metrics :=
  let state := server_state authentication header in
  match authentication with
  | Some _ => authenticated_websocket_handler to_str json_message (try_acquire rate_limiter) state
                connect_addr headers api_key i ms
  | None => unauthenticated_websocket_handler to_str json_message (try_acquire rate_limiter) state
              connect_addr headers i ms
  end.

Definition request connect_addr headers api_key (s : ProxyState) : ProxyState :=
  let lim := limiter s in
  let '(response, i, ms) := handle connect_addr headers api_key (inner_of lim) (metrics s) in
  match response with
  | HttpError _ _ =>
      {| channel := channel s; payloads := payloads s; clients := clients s;
         limiter := {| inner_of := i; live := live lim; closing := closing lim |}; metrics := ms |}
  | Upgrade c =>
      {| channel := channel s; payloads := payloads s; clients := clients s ++ [Client_new c];
         limiter := {| inner_of := i; live := ticket c :: live lim; closing := closing lim |};
         metrics := ms |}
  end.

(** *** Messages into the channel *)

(** [receiver_count]: a receiver per client in [subscribe], and the one of [main]. *)
Definition receiver_count (s : ProxyState) : Z :=
  1 + Z.of_nat (length (filter (fun c => status_of c = Open \/ status_of c = Closing) (clients s))).

Definition from_upstream (data : list Z) (s : ProxyState) : ProxyState :=
  let '(msg, ms) := Fanout.listener compress enable_compression (receiver_count s) data (metrics s) in
  {| channel := channel s ++ [msg]; payloads := payloads s ++ [data]; clients := clients s;
     limiter := limiter s; metrics := ms |}.

Definition ping_tick (s : ProxyState) : ProxyState :=
  if ping_enabled registry then
    {| channel := channel s ++ [Ping []]; payloads := payloads s; clients := clients s;
       limiter := limiter s; metrics := metrics s |}
  else s.

(** *** The loop of [subscribe] *)

(** The loop takes one input; leaving it, the task aborts the reader and counts the
    closed connection. *)
Definition feed (x : input) (c : Client) (ms : Metrics) : Client * Metrics :=
  let '(_, ms, ended) := subscribe_loop [x] ms in
  ({| conn := conn c; status_of := if ended then Closing else status_of c; first := first c;
      next := next c; inputs := inputs c ++ [x]; sending := None; reader_of := reader_of c |},
   if ended then increment closed_connections 1 ms else ms).

Definition subscribe_step (sent : list Message) (c : Client) (ms : Metrics) : Client * Metrics :=
  ({| conn := conn c; status_of := Open; first := length sent; next := length sent;
      inputs := []; sending := None; reader_of := NotStarted |}, increment new_connections 1 ms).

Definition recv_step (sent : list Message) (c : Client) (ms : Metrics) : Client * Metrics :=
  match status_of c, sending c with
  | Open, None =>
      match recv capacity sent (next c) with
      | Empty => (c, ms)
      | Missed n => feed (Lagged (Z.of_nat n)) c ms
      | Value msg =>
          ({| conn := conn c; status_of := Open; first := first c; next := S (next c);
              inputs := inputs c; sending := Some msg; reader_of := reader_of c |}, ms)
      end
  | _, _ => (c, ms)
  end.

Definition send_done (ok : bool) (c : Client) (ms : Metrics) : Client * Metrics :=
  match status_of c, sending c with
  | Open, Some msg => feed (Received msg ok) c ms
  | _, _ => (c, ms)
  end.

Definition see_signal (c : Client) (ms : Metrics) : Client * Metrics :=
  match status_of c, sending c, reader_of c with
  | Open, None, Signalled => feed Disconnect c ms
  | _, _, _ => (c, ms)
  end.

(** *** The reader task *)

Definition after_event (e : read_event) (last_pong : Z) : Z :=
  match e with ReadPong now => if ping_enabled registry then now else last_pong | _ => last_pong end.

(** It starts with [start_reader], whose panic drops the sender of the signal. *)
Definition reader_start (now : Z) (c : Client) (ms : Metrics) : Client * Metrics :=
  match reader_of c, opened c with
  | NotStarted, true =>
      match start_reader registry [] now ms with
      | Panicked _ => (set_reader Signalled c, ms)
      | Returned _ => (set_reader (Reading now) c, ms)
      end
  | _, _ => (c, ms)
  end.

Definition reader_step (e : read_event) (c : Client) (ms : Metrics) : Client * Metrics :=
  match reader_of c with
  | Reading last_pong =>
      match read_loop registry [e] last_pong ms with
      | (Some _, ms) => (set_reader Signalled c, ms)
      | (None, ms) => (set_reader (Reading (after_event e last_pong)) c, ms)
      end
  | _ => (c, ms)
  end.

Definition abort_reader (c : Client) (ms : Metrics) : Client * Metrics :=
  match closed c, reader_of c with
  | true, (NotStarted | Reading _) => (set_reader Aborted c, ms)
  | _, _ => (c, ms)
  end.

(** *** Steps of the system *)

Definition on_client (i : nat) (f : Client -> Metrics -> Client * Metrics) (s : ProxyState) : ProxyState :=
  match clients s !! i with
  | Some c =>
      let '(c', ms) := f c (metrics s) in
      {| channel := channel s; payloads := payloads s; clients := <[i := c']> (clients s);
         limiter := limiter s; metrics := ms |}
  | None => s
  end.

(** The drop of a ticket among the live ones. *)
Definition release_ticket (t : Ticket) (lim : System) : System :=
  match list_find (fun t' => t' = t) (live lim) with
  | Some (n, _) => drop_ticket rate_limiter n lim
  | None => lim
  end.

(** The connection [i] ends in [st], and its ticket is dropped. *)
Definition retire (i : nat) (x : status) (s : ProxyState) : ProxyState :=
  match clients s !! i with
  | Some c =>
      {| channel := channel s; payloads := payloads s;
         clients := <[i := set_status x c]> (clients s);
         limiter := release_ticket (ticket (conn c)) (limiter s); metrics := metrics s |}
  | None => s
  end.

(** The client [i] has this status. *)
Definition is_status (i : nat) (x : status) (s : ProxyState) : bool :=
  match clients s !! i with Some c => bool_decide (status_of c = x) | None => false end.

Definition system_step (e : event) (s : ProxyState) : ProxyState :=
  match e with
  | Request connect_addr headers api_key => request connect_addr headers api_key s
  | Upgraded i true =>
      if is_status i Upgrading s then on_client i (subscribe_step (channel s)) s else s
  | Upgraded i false => if is_status i Upgrading s then retire i UpgradeFailed s else s
  | FromUpstream data => from_upstream data s
  | PingTick => ping_tick s
  | Recv i => on_client i (recv_step (channel s)) s
  | SendDone i ok => on_client i (send_done ok) s
  | SeeSignal i => on_client i see_signal s
  | StartReader i now => on_client i (reader_start now) s
  | ReaderEvent i e => on_client i (reader_step e) s
  | AbortReader i => on_client i abort_reader s
  | DropClient i => if is_status i Closing s then retire i Gone s else s
  | ReturnPermit =>
      {| channel := channel s; payloads := payloads s; clients := clients s;
         limiter := return_permit (limiter s); metrics := metrics s |}
  end.

Definition run_events (es : list event) (s : ProxyState) : ProxyState := foldl (fun s e => system_step e s) s es.

Inductive steps_to : ProxyState -> ProxyState -> Prop :=
| a_step e s : steps_to s (system_step e s).

Definition reachable (s : ProxyState) : Prop := star steps_to ProxyState_new s.

(** ** Stepping the loops one event at a time

    The client's loop and its reader take one event per step; the loops of the
    registry take a list.  They agree. *)

Lemma read_loop_cons e es last_pong ms :
  read_loop registry (e :: es) last_pong ms =
    match read_loop registry [e] last_pong ms with
    | (Some r, ms) => (Some r, ms)
    | (None, ms) => read_loop registry es (after_event e last_pong) ms
    end.
Proof. destruct e; cbn; try done. by case_match. Qed.

Lemma until_end_snoc l x :
  ends l = false ->
  until_end (l ++ [x]) = until_end l ++ match x with Received msg true => [msg] | _ => [] end.
Proof.
  unfold ends. induction l as [|[msg [|]| |n|] l IH]; cbn; try done.
  intros H. by rewrite IH.
Qed.

Lemma ends_snoc l x :
  ends (l ++ [x]) = ends l || match x with Received _ true => false | _ => true end.
Proof. unfold ends. rewrite existsb_app. cbn. by rewrite orb_false_r. Qed.

(** ** The invariant of one client *)

(** [sent] is what the channel has got so far. *)
Record client_inv (sent : list Message) (c : Client) : Prop := {
  ci_prefix : delivered c ++ option_list (sending c) `prefix_of` drop (first c) sent;
  ci_next : status_of c = Open -> next c = first c + length (delivered c ++ option_list (sending c));
  ci_range : first c <= next c <= length sent;
  ci_ends : ends (inputs c) = closed c;
  ci_idle : status_of c <> Open -> sending c = None;
  ci_fresh : opened c = false -> inputs c = [];
  ci_lagged n : Lagged n ∈ inputs c -> first c + length (delivered c) + capacity < length sent
}.

(** The invariant survives what the other tasks do. *)
Lemma client_inv_grow sent l c : client_inv sent c -> client_inv (sent ++ l) c.
Proof.
  intros [Hp Hn Hr He Hi Hf Hl]. split; auto.
  - rewrite drop_app_le by lia. by apply prefix_app_r.
  - rewrite length_app. lia.
  - intros n Hin. rewrite length_app. specialize (Hl n Hin). lia.
Qed.

Lemma client_inv_set_reader sent r c : client_inv sent c -> client_inv sent (set_reader r c).
Proof. by intros []; split. Qed.

Lemma Client_new_inv sent c : client_inv sent (Client_new c).
Proof.
  split; cbn; try done.
  - apply prefix_nil.
  - lia.
  - by intros n ?%elem_of_nil.
Qed.

Lemma subscribe_step_inv sent c ms : client_inv sent (subscribe_step sent c ms).1.
Proof.
  split; cbn; try done; try lia.
  - apply prefix_nil.
  - by intros n ?%elem_of_nil.
Qed.

#[local] Hint Resolve client_inv_grow client_inv_set_reader Client_new_inv subscribe_step_inv : boost.

(** An input that ends the loop leaves the delivered messages as they are. *)
Lemma feed_end_inv sent x c ms :
  client_inv sent c -> status_of c = Open ->
  match x with
  | Received msg true => False
  | Lagged _ => next c + capacity < length sent /\ sending c = None
  | _ => True
  end ->
  client_inv sent (feed x c ms).1.
Proof.
  intros [Hp Hn Hr He Hi Hf Hl] Ho Hx. unfold closed in He. rewrite Ho in He. specialize (Hn Ho).
  assert (Hd : until_end (inputs c ++ [x]) = delivered c).
  { rewrite until_end_snoc by done. destruct x as [? []| | |]; by rewrite ?app_nil_r. }
  assert (Hc : (feed x c ms).1 = {| conn := conn c; status_of := Closing; first := first c;
      next := next c; inputs := inputs c ++ [x]; sending := None; reader_of := reader_of c |})
    by by destruct x as [? []| | |].
  rewrite Hc. split; cbn; try done.
  - rewrite Hd, app_nil_r. by eapply prefix_app_l.
  - rewrite ends_snoc, He. by destruct x as [? []| | |].
  - intros n [Hin|<-%list_elem_of_singleton]%elem_of_app; unfold delivered; cbn; rewrite Hd; [by eapply Hl|].
    destruct Hx as [Hx Hs]. rewrite Hs, app_nil_r in Hn. lia.
Qed.

Lemma feed_sent_inv sent msg c ms :
  client_inv sent c -> status_of c = Open -> sending c = Some msg ->
  client_inv sent (feed (Received msg true) c ms).1.
Proof.
  intros [Hp Hn Hr He Hi Hf Hl] Ho Hs. unfold closed in He. rewrite Ho in He. specialize (Hn Ho).
  rewrite Hs in Hp, Hn. cbn in Hp, Hn.
  assert (Hd : until_end (inputs c ++ [Received msg true]) = delivered c ++ [msg])
    by by rewrite until_end_snoc.
  split; cbn; unfold closed, opened, delivered; cbn; rewrite ?Ho, ?Hd, ?app_nil_r; try done.
  - rewrite ends_snoc. by rewrite He.
  - intros n [Hin|[=]%list_elem_of_singleton]%elem_of_app. exfalso.
    apply Is_true_false in He. apply He, Is_true_true, existsb_exists. exists (Lagged n).
    by split; [apply list_elem_of_In|].
Qed.

Lemma recv_step_inv sent c ms : client_inv sent c -> client_inv sent (recv_step sent c ms).1.
Proof.
  intros Hc. unfold recv_step, recv.
  destruct (status_of c) eqn:Ho, (sending c) eqn:Hs; try done.
  destruct (sent !! next c) as [msg|] eqn:Hm; [|done].
  destruct (Nat.ltb_spec (next c + capacity) (length sent)); [by apply feed_end_inv|].
  apply lookup_lt_Some in Hm as Hlt.
  destruct Hc as [Hp Hn Hr He Hi Hf Hl]. specialize (Hn Ho). rewrite Hs, app_nil_r in *.
  assert (Hmsg : drop (first c) sent !! length (delivered c) = Some msg)
    by (rewrite lookup_drop, <- Hn; done).
  split; cbn; unfold closed, opened in *; rewrite ?Ho in *; cbn; try done.
  - destruct Hp as [k Hk]. rewrite Hk in Hmsg |- *. unfold delivered in *. cbn in *.
    rewrite lookup_app_r, Nat.sub_diag in Hmsg by done. destruct k as [|x k]; [done|].
    injection Hmsg as ->. exists k. by rewrite <- app_assoc.
  - intros _. unfold delivered in *. cbn in *. rewrite length_app. cbn. lia.
  - lia.
Qed.

Lemma send_done_inv sent ok c ms : client_inv sent c -> client_inv sent (send_done ok c ms).1.
Proof.
  intros Hc. unfold send_done. destruct (status_of c) eqn:Ho, (sending c) eqn:Hs; try done.
  destruct ok; [by apply feed_sent_inv|by apply feed_end_inv].
Qed.

Lemma see_signal_inv sent c ms : client_inv sent c -> client_inv sent (see_signal c ms).1.
Proof.
  intros Hc. unfold see_signal. destruct (status_of c) eqn:Ho, (sending c) eqn:Hs; try done.
  destruct (reader_of c); try done. by apply feed_end_inv.
Qed.

Lemma reader_start_inv sent now c ms : client_inv sent c -> client_inv sent (reader_start now c ms).1.
Proof. intros Hc. unfold reader_start. repeat case_match; cbn; auto with boost. Qed.

Lemma reader_step_inv sent e c ms : client_inv sent c -> client_inv sent (reader_step e c ms).1.
Proof. intros Hc. unfold reader_step. repeat case_match; cbn; auto with boost. Qed.

Lemma abort_reader_inv sent c ms : client_inv sent c -> client_inv sent (abort_reader c ms).1.
Proof. intros Hc. unfold abort_reader. repeat case_match; cbn; auto with boost. Qed.

#[local] Hint Resolve recv_step_inv send_done_inv see_signal_inv reader_start_inv reader_step_inv
  abort_reader_inv : boost.

(** ** The clients of the system *)

Lemma on_client_Forall (P : Client -> Prop) i f s :
  Forall P (clients s) -> (forall c, P c -> P (f c (metrics s)).1) ->
  Forall P (clients (on_client i f s)).
Proof.
  intros Hs Hf. unfold on_client. destruct (clients s !! i) as [c|] eqn:Hi; [|done].
  specialize (Hf c). destruct (f c (metrics s)) as [c' ms]. cbn in *.
  apply Forall_insert; [done|]. apply Hf. by eapply Forall_lookup_1.
Qed.

(** A client that ends keeps what it was sent. *)
Lemma retired_inv sent c x :
  (status_of c = Upgrading /\ x = UpgradeFailed \/ status_of c = Closing /\ x = Gone) ->
  client_inv sent c -> client_inv sent (set_status x c).
Proof.
  intros Hx [Hp Hn Hr He Hi Hf Hl].
  split; cbn; unfold closed, opened in *; cbn; destruct Hx as [[Ho ->]|[Ho ->]]; rewrite ?Ho in *; naive_solver.
Qed.

Definition clients_inv (s : ProxyState) : Prop := Forall (client_inv (channel s)) (clients s).

Lemma retire_inv i x y s :
  is_status i x s = true -> (x = Upgrading /\ y = UpgradeFailed \/ x = Closing /\ y = Gone) ->
  clients_inv s -> clients_inv (retire i y s).
Proof.
  unfold is_status, retire, clients_inv. destruct (clients s !! i) as [c|] eqn:Hi; [|done]. cbn.
  intros Hx%bool_decide_eq_true Hxy Hs. apply Forall_insert; [done|].
  eapply Forall_lookup_1 in Hs as Hc; [|done]. apply retired_inv; [|done]. by rewrite Hx.
Qed.

Lemma on_client_channel i f s : channel (on_client i f s) = channel s.
Proof. unfold on_client. by destruct (clients s !! i); [destruct (f _ _)|]. Qed.

Lemma clients_grow sent l cs : Forall (client_inv sent) cs -> Forall (client_inv (sent ++ l)) cs.
Proof. intros H. eapply Forall_impl; [exact H|]. auto with boost. Qed.

Lemma system_step_clients e s : clients_inv s -> clients_inv (system_step e s).
Proof.
  unfold clients_inv. intros Hs. destruct e as [a h k|i [|]|d| |i|i ok|i|i now|i e|i|i|]; cbn;
    try (rewrite on_client_channel; apply on_client_Forall; auto with boost; done).
  - unfold request. destruct (handle _ _ _ _ _) as [[[st b|c] i] ms]; cbn; [done|].
    apply Forall_app_2; [done|]. auto with boost.
  - destruct (is_status i Upgrading s); [|done].
    rewrite on_client_channel. apply on_client_Forall; auto with boost.
  - destruct (is_status i Upgrading s) eqn:Hi; [|done]. eapply retire_inv; eauto.
  - by apply clients_grow.
  - unfold ping_tick. destruct (ping_enabled registry); [|done]. by apply clients_grow.
  - destruct (is_status i Closing s) eqn:Hi; [|done]. eapply retire_inv; eauto.
  - done.
Qed.

Lemma reachable_clients s : reachable s -> clients_inv s.
Proof.
  apply star_invariant; [|constructor]. intros x y Hx Hstep. destruct Hstep. by apply system_step_clients.
Qed.

(** ** What the channel carries *)

Definition encode (data : list Z) : Message := Binary (if enable_compression then compress data else data).

Definition is_data (m : Message) : bool := match m with Binary _ => true | _ => false end.

(** The binary messages are the payloads of the upstreams, in order; the others are
    pings, if these are enabled. *)
Definition channel_inv (s : ProxyState) : Prop :=
  filter is_data (channel s) = encode <$> payloads s /\
  Forall (fun m => is_data m = true \/ m = Ping [] /\ ping_enabled registry = true) (channel s).

Lemma request_channel a h k s :
  channel (request a h k s) = channel s /\ payloads (request a h k s) = payloads s.
Proof. unfold request. by destruct (handle _ _ _ _ _) as [[[]] ]. Qed.

Lemma retire_channel i x s :
  channel (retire i x s) = channel s /\ payloads (retire i x s) = payloads s.
Proof. unfold retire. by destruct (clients s !! i). Qed.

Lemma on_client_payloads i f s : payloads (on_client i f s) = payloads s.
Proof. unfold on_client. by destruct (clients s !! i); [destruct (f _ _)|]. Qed.

Lemma system_step_channel e s : channel_inv s -> channel_inv (system_step e s).
Proof.
  unfold channel_inv. intros [Hd Hp]. destruct e as [a h k|i [|]|d| |i|i ok|i|i now|i e|i|i|]; cbn;
    rewrite ?on_client_channel, ?on_client_payloads; try done.
  - by destruct (request_channel a h k s) as [-> ->].
  - destruct (is_status i Upgrading s); [|done]. by rewrite on_client_channel, on_client_payloads.
  - destruct (is_status i Upgrading s); [|done]. by destruct (retire_channel i UpgradeFailed s) as [-> ->].
  - rewrite filter_app, fmap_app, Hd. split; [done|]. apply Forall_app_2; [done|]. repeat constructor.
  - unfold ping_tick. destruct (ping_enabled registry); [|done]. cbn. rewrite filter_app, Hd.
    split; [by rewrite app_nil_r|]. apply Forall_app_2; [done|]. apply Forall_singleton. by right.
  - destruct (is_status i Closing s); [|done]. by destruct (retire_channel i Gone s) as [-> ->].
Qed.

Lemma reachable_channel s : reachable s -> channel_inv s.
Proof.
  apply star_invariant; [|by repeat constructor].
  intros x y Hx Hstep. destruct Hstep. by apply system_step_channel.
Qed.

(** The payloads a client was sent are a contiguous part of what the upstreams sent. *)
Lemma contiguous s i c :
  clients_inv s -> channel_inv s -> clients s !! i = Some c ->
  exists before got after, payloads s = before ++ got ++ after /\
    filter is_data (take (first c) (channel s)) = encode <$> before /\
    filter is_data (delivered c) = encode <$> got.
Proof.
  intros Hc [Hd _] Hi. eapply Forall_lookup_1 in Hc; [|done]. destruct Hc as [[rest Hp] _ _ _ _ _ _].
  rewrite <- (take_drop (first c) (channel s)), Hp, <- !app_assoc, !filter_app in Hd.
  symmetry in Hd. apply fmap_app_inv in Hd as (before & r & Hb & Hd & Heq).
  symmetry in Hd. apply fmap_app_inv in Hd as (got & after & Hg & _ & ->). eauto 6.
Qed.

(** C19: whatever the tasks do and in whatever order, a client gets a gapless run of
    what was broadcast since it subscribed, nothing twice and nothing out of order:
    the payloads it gets are a contiguous part of what the upstreams sent,
    beginning with the first that came after its subscription, each encoded as
    configured, with pings between them only if these are enabled; the next message
    it takes from the channel is the one after what it was sent. *)
Theorem client_gets_contiguous (s : ProxyState) (i : nat) (c : Client) :
  reachable s -> clients s !! i = Some c ->
  (exists before got after, payloads s = before ++ got ++ after /\
     filter is_data (take (first c) (channel s)) = encode <$> before /\
     filter is_data (delivered c) = encode <$> got) /\
  Forall (fun m => is_data m = true \/ m = Ping [] /\ ping_enabled registry = true) (delivered c) /\
  (status_of c = Open ->
     delivered c ++ option_list (sending c) = take (next c - first c) (drop (first c) (channel s))).
Proof.
  intros Hs Hi. pose proof (reachable_channel s Hs) as Hch.
  pose proof (reachable_clients s Hs) as Hc. split; [by eapply contiguous|].
  eapply Forall_lookup_1 in Hc; [|done]. destruct Hc as [[rest Hp] Hn _ _ _ _ _].
  destruct Hch as [_ Hf]. rewrite <- (take_drop (first c) (channel s)) in Hf. rewrite Hp in Hf |- *.
  rewrite <- app_assoc, !Forall_app in Hf. split; [by apply Hf|].
  intros Ho. specialize (Hn Ho). rewrite take_app_length' by lia. done.
Qed.

(** A client is cut off for lagging only if more than [message_buffer_size]
    messages were sent after the last one it got. *)
Theorem lagging_means_behind (message_buffer_size : nat) (s : ProxyState) (i : nat) (c : Client) (n : Z) :
  message_buffer_size <= capacity -> reachable s -> clients s !! i = Some c -> Lagged n ∈ inputs c ->
  message_buffer_size < length (drop (first c + length (delivered c)) (channel s)).
Proof.
  intros Hcap Hs Hi Hn. pose proof (reachable_clients s Hs) as Hc.
  eapply Forall_lookup_1 in Hc; [|done]. apply (ci_lagged _ _ Hc) in Hn. rewrite length_drop. lia.
Qed.

(** ** Tickets

    Each step of the system is a step of the limiter or leaves it alone, so the
    limiter's invariant holds here too, and its live tickets are those the
    connections hold. *)

(** The metrics the registry keeps: what each client has added to them. *)
Definition weight (m : metric) (c : Client) : Z :=
  match m with
  | new_connections => if opened c then 1 else 0
  | closed_connections => if closed c then 1 else 0
  | sent_messages => Z.of_nat (length (delivered c))
  | bytes_broadcasted => total_size (delivered c)
  | failed_messages =>
      if existsb (fun x => match x with Received _ false => true | _ => false end) (inputs c) then 1 else 0
  | lagged_connections =>
      if existsb (fun x => match x with Lagged _ => true | _ => false end) (inputs c) then 1 else 0
  | _ => 0
  end.

Definition tracked (m : metric) : bool :=
  match m with
  | new_connections | closed_connections | sent_messages | bytes_broadcasted | failed_messages
  | lagged_connections => true
  | _ => false
  end.

(** A request acquires at most one ticket, of the limiter's choosing, and touches
    none of the tracked metrics. *)
Lemma handle_acquires a h k i ms :
  exists response i' ms', handle a h k i ms = (response, i', ms') /\
    (forall m, tracked m = true -> ms' m = ms m) /\
    match response with
    | HttpError _ _ => i' = i \/ exists addr app e, try_acquire rate_limiter addr app i = (Err e, i')
    | Upgrade c => exists addr app, try_acquire rate_limiter addr app i = (Ok (ticket c), i')
    end.
Proof.
  assert (Hw : forall state app ms0, (forall m, tracked m = true -> ms0 m = ms m) ->
    exists response i' ms',
      websocket_handler to_str json_message (try_acquire rate_limiter) state a h app i ms0 =
        (response, i', ms') /\
      (forall m, tracked m = true -> ms' m = ms m) /\
      match response with
      | HttpError _ _ => i' = i \/ exists addr app e, try_acquire rate_limiter addr app i = (Err e, i')
      | Upgrade c => exists addr app, try_acquire rate_limiter addr app i = (Ok (ticket c), i')
      end).
  { intros state app ms0 H0. unfold websocket_handler.
    set (addr := match h _ with Some _ => _ | None => _ end).
    destruct (try_acquire rate_limiter addr app i) as [[t|[reason]] i'] eqn:E.
    - eexists _, _, _. split; [done|]. eauto.
    - eexists _, _, _. split; [done|]. split; [|eauto 7].
      intros m Hm. rewrite increment_other; [auto|by intros ->]. }
  unfold handle. destruct authentication as [au|]; [|by apply Hw].
  unfold authenticated_websocket_handler. destruct (get_application_for_key _ _) as [app|].
  - apply Hw. intros m Hm. unfold proxy_connections_by_app. by rewrite increment_other by (by intros ->).
  - eexists _, _, _. split; [done|]. split; [|by left].
    intros m Hm. by rewrite increment_other by (by intros ->).
Qed.

(** The tickets that connections hold. *)
Definition held (cs : list Client) : list Ticket :=
  omap (fun c => if holding c then Some (ticket (conn c)) else None) cs.

Lemma held_insert cs i c c' :
  cs !! i = Some c -> held [c] ++ held (<[i := c']> cs) ≡ₚ held [c'] ++ held cs.
Proof.
  intros Hi. rewrite <- (take_drop_middle cs i c Hi) at 2.
  rewrite insert_take_drop by by eapply lookup_lt_Some.
  unfold held. rewrite !omap_app. cbn. repeat case_match; cbn; solve_Permutation.
Qed.

Lemma held_same cs i c c' :
  cs !! i = Some c -> holding c' = holding c -> conn c' = conn c -> held (<[i := c']> cs) ≡ₚ held cs.
Proof.
  intros Hi Hh Hc. pose proof (held_insert cs i c c' Hi) as H.
  unfold held at 1 3 in H. cbn in H. rewrite Hh, Hc in H. by apply Permutation_app_inv_l in H.
Qed.

Record tickets_inv (s : ProxyState) : Prop := {
  ti_limiter : limiter_inv rate_limiter instance_limit (limiter s);
  ti_live : live (limiter s) ≡ₚ held (clients s)
}.

Lemma release_ticket_spec t lim :
  t ∈ live lim -> exists n, release_ticket t lim = drop_ticket rate_limiter n lim /\
    t :: live (release_ticket t lim) ≡ₚ live lim.
Proof.
  intros Ht. unfold release_ticket. destruct (list_find_elem_of (fun t' => t' = t) _ _ Ht eq_refl)
    as [[n t'] Hn]. rewrite Hn. exists n. split; [done|].
  apply list_find_Some in Hn as (Hn & -> & _). unfold drop_ticket. rewrite Hn. cbn.
  symmetry. by apply delete_Permutation.
Qed.

Lemma holding_held cs i c : cs !! i = Some c -> holding c = true -> ticket (conn c) ∈ held cs.
Proof.
  intros Hi Hh. apply list_elem_of_omap. exists c. rewrite Hh. split; [|done]. by eapply list_elem_of_lookup_2.
Qed.

Lemma retire_tickets i x y s :
  is_status i x s = true -> (x = Upgrading /\ y = UpgradeFailed \/ x = Closing /\ y = Gone) ->
  tickets_inv s -> tickets_inv (retire i y s).
Proof.
  unfold is_status, retire. destruct (clients s !! i) as [c|] eqn:Hi; [|done].
  intros Hx%bool_decide_eq_true Hxy [Hl Hp].
  assert (Hh : holding c = true /\ holding (set_status y c) = false).
  { unfold holding. cbn. rewrite Hx. by destruct Hxy as [[-> ->]|[-> ->]]. }
  destruct Hh as [Hh Hh'].
  destruct (release_ticket_spec (ticket (conn c)) (limiter s)) as (n & Hn & Hperm).
  { rewrite Hp. by eapply holding_held. }
  split; cbn.
  - rewrite Hn. auto with boost.
  - pose proof (held_insert _ i c (set_status y c) Hi) as Hins. unfold held at 1 3 in Hins. cbn in Hins.
    rewrite Hh, Hh' in Hins. cbn in Hins. rewrite <- Hp, <- Hperm in Hins.
    by apply Permutation_cons_inv in Hins.
Qed.

Lemma request_tickets a h k s : tickets_inv s -> tickets_inv (request a h k s).
Proof.
  intros [Hl Hp]. unfold request.
  destruct (handle_acquires a h k (inner_of (limiter s)) (metrics s)) as (r & i & ms & -> & _ & Hr).
  destruct r as [st b|c]; cbn.
  - destruct Hr as [->|(addr & app & e & E)]; split; cbn; try done; [by destruct (limiter s)|].
    pose proof (connect_inv _ _ addr app _ Hl) as H. unfold connect in H. by rewrite E in H.
  - destruct Hr as (addr & app & E). split; cbn.
    + pose proof (connect_inv _ _ addr app _ Hl) as H. unfold connect in H. by rewrite E in H.
    + unfold held. rewrite omap_app. cbn. rewrite <- Permutation_cons_append. by constructor.
Qed.

(** A step of one client's tasks keeps its connection, and whether it holds a ticket. *)
Definition keeps_ticket (f : Client -> Metrics -> Client * Metrics) : Prop :=
  forall c ms, conn (f c ms).1 = conn c /\ holding (f c ms).1 = holding c.

Lemma on_client_tickets i f s : keeps_ticket f -> tickets_inv s -> tickets_inv (on_client i f s).
Proof.
  intros Hf [Hl Hp]. unfold on_client. destruct (clients s !! i) as [c|] eqn:Hi; [|done].
  destruct (Hf c (metrics s)) as [Hc Hh]. destruct (f c (metrics s)) as [c' ms]. cbn in *.
  split; cbn; [done|]. by rewrite (held_same _ i c c').
Qed.

Lemma feed_keeps x c ms :
  status_of c = Open -> conn (feed x c ms).1 = conn c /\ holding (feed x c ms).1 = holding c.
Proof. intros Ho. destruct x as [? []| | |]; unfold holding; cbn; by rewrite Ho. Qed.

Lemma recv_step_keeps sent : keeps_ticket (recv_step sent).
Proof.
  intros c ms. unfold recv_step. destruct (status_of c) eqn:Ho, (sending c); try done.
  destruct (recv _ _ _); try done; [by unfold holding; cbn; rewrite Ho|by apply feed_keeps].
Qed.

Lemma send_done_keeps ok : keeps_ticket (send_done ok).
Proof.
  intros c ms. unfold send_done. destruct (status_of c) eqn:Ho, (sending c); try done. by apply feed_keeps.
Qed.

Lemma see_signal_keeps : keeps_ticket see_signal.
Proof.
  intros c ms. unfold see_signal. destruct (status_of c) eqn:Ho, (sending c), (reader_of c); try done.
  by apply feed_keeps.
Qed.

Lemma reader_start_keeps now : keeps_ticket (reader_start now).
Proof. intros c ms. unfold reader_start. by repeat case_match. Qed.

Lemma reader_step_keeps e : keeps_ticket (reader_step e).
Proof. intros c ms. unfold reader_step. by repeat case_match. Qed.

Lemma abort_reader_keeps : keeps_ticket abort_reader.
Proof. intros c ms. unfold abort_reader. by repeat case_match. Qed.

#[local] Hint Resolve recv_step_keeps send_done_keeps see_signal_keeps reader_start_keeps
  reader_step_keeps abort_reader_keeps request_tickets on_client_tickets : boost.

Lemma upgraded_tickets i s :
  is_status i Upgrading s = true -> tickets_inv s ->
  tickets_inv (on_client i (subscribe_step (channel s)) s).
Proof.
  unfold is_status, on_client. destruct (clients s !! i) as [c|] eqn:Hi; [|done].
  intros Hu%bool_decide_eq_true [Hl Hp]. split; cbn; [done|].
  rewrite (held_same _ i c); [done|done| |done]. unfold holding. cbn. by rewrite Hu.
Qed.

Lemma system_step_tickets e s : tickets_inv s -> tickets_inv (system_step e s).
Proof.
  intros Hs. destruct e as [a h k|i [|]|d| |i|i ok|i|i now|i e|i|i|]; cbn; auto with boost.
  - destruct (is_status i Upgrading s) eqn:Hi; [|done]. by apply upgraded_tickets.
  - destruct (is_status i Upgrading s) eqn:Hi; [|done]. eapply retire_tickets; eauto.
  - by destruct Hs.
  - unfold ping_tick. destruct (ping_enabled registry); [|done]. by destruct Hs.
  - destruct (is_status i Closing s) eqn:Hi; [|done]. eapply retire_tickets; eauto.
  - destruct Hs as [Hl Hp]. split; cbn; [auto with boost|].
    unfold return_permit. by destruct (closing (limiter s)).
Qed.

Lemma reachable_tickets s : reachable s -> tickets_inv s.
Proof.
  apply star_invariant; [|split; [apply System_new_inv|done]].
  intros x y Hx Hstep. destruct Hstep. by apply system_step_tickets.
Qed.

(** C21: with the in-memory limiter, the limits hold for the connections themselves,
    from the moment a request is answered with an upgrade until its [subscribe] has
    returned: never more than the instance limit, never more from one address than
    the limit per address, never more of an application than its limit. *)
Theorem connections_limited (s : ProxyState) :
  reachable s ->
  length (held (clients s)) <= instance_limit /\
  (0 < per_ip_limit rate_limiter ->
     forall a, of_addr a (held (clients s)) <= per_ip_limit rate_limiter) /\
  (forall a, of_app a (held (clients s)) <= get_or_0 (per_app_limit rate_limiter) a).
Proof.
  intros [[Hp Ha Hal Hip _] Hperm]%reachable_tickets.
  unfold of_addr, of_app in *. setoid_rewrite <- Hperm.
  split_and!; [lia| |done]. intros Hpos a. specialize (Hip a Hpos). lia.
Qed.

(** C27: with the in-memory limiter, nothing leaks through the life of a connection:
    once every connection has ended, however it ended (a failed upgrade, a failed
    send, lagging, its own disconnect), and the last permits are back, the whole
    instance limit is available and no application has a connection counted. *)
Theorem drained_limiter_is_fresh (s : ProxyState) :
  reachable s -> Forall (fun c => holding c = false) (clients s) -> closing (limiter s) = 0 ->
  semaphore (inner_of (limiter s)) = instance_limit /\
  active_connections_per_app (inner_of (limiter s)) = ∅.
Proof.
  intros [[Hp Ha _ _ [_ Hz]] Hperm]%reachable_tickets Hnone Hc.
  assert (Hl : live (limiter s) = []).
  { apply Permutation_nil_r. rewrite Hperm. unfold held. clear - Hnone.
    induction Hnone as [|c cs Hh Hnone IH]; cbn; [done|]. by rewrite Hh. }
  rewrite Hl in *. cbn in Hp. split; [lia|].
  apply map_eq. intros a. rewrite lookup_empty. specialize (Ha a). specialize (Hz a).
  unfold get_or_0, of_app in Ha. cbn in Ha. destruct (_ !! a) as [[|n]|]; [done|done|done].
Qed.

(** ** Metrics *)

Definition total {A : Type} (w : A -> Z) (cs : list A) : Z := foldr (fun c n => w c + n)%Z 0%Z cs.
#[local] Arguments total : simpl never.

Lemma total_app {A} (w : A -> Z) cs cs' : total w (cs ++ cs') = (total w cs + total w cs')%Z.
Proof. unfold total. induction cs as [|c cs IH]; cbn; [done|]. rewrite IH. lia. Qed.

Lemma total_cons {A} (w : A -> Z) c cs : total w (c :: cs) = (w c + total w cs)%Z.
Proof. done. Qed.

Lemma total_insert {A} (w : A -> Z) cs i c c' :
  cs !! i = Some c -> total w (<[i := c']> cs) = (total w cs + w c' - w c)%Z.
Proof.
  intros Hi. rewrite <- (take_drop_middle cs i c Hi) at 2.
  rewrite insert_take_drop by by eapply lookup_lt_Some. rewrite !total_app, !total_cons. lia.
Qed.

Lemma total_size_app l l' : total_size (l ++ l') = (total_size l + total_size l')%Z.
Proof. unfold total_size. induction l as [|m l IH]; cbn; [done|]. rewrite IH. lia. Qed.

(** A step of a client's tasks moves each metric by what the client's share moves. *)
Definition accounted (f : Client -> Metrics -> Client * Metrics) (c : Client) : Prop :=
  forall ms m, tracked m = true -> ((f c ms).2 m - ms m = weight m (f c ms).1 - weight m c)%Z.

Lemma running_inputs (p : input -> bool) l :
  ends l = false -> (forall msg, p (Received msg true) = false) -> existsb p l = false.
Proof.
  intros He Hp. apply not_true_iff_false. intros (x & Hx & Hpx)%existsb_exists.
  apply not_true_iff_false in He. apply He, existsb_exists. exists x. split; [done|].
  destruct x as [msg [|]| | |]; try done. by rewrite Hp in Hpx.
Qed.

Lemma feed_accounted sent x c :
  client_inv sent c -> status_of c = Open -> accounted (feed x) c.
Proof.
  intros Hc Ho ms m Hm. pose proof (ci_ends _ _ Hc) as He. unfold closed in He. rewrite Ho in He.
  pose proof (until_end_snoc (inputs c) x He) as Hu.
  destruct x as [msg [|]| |n|], m; try done; cbn; unfold closed, opened, delivered, record_message_sent, increment; cbn;
    rewrite ?Ho, ?Hu, ?existsb_app, ?length_app, ?total_size_app, ?app_nil_r; cbn;
    rewrite ?running_inputs by done; cbn; repeat (case_decide; try done); cbn; lia.
Qed.

Lemma recv_step_accounted sent c : client_inv sent c -> accounted (recv_step sent) c.
Proof.
  intros Hc ms m Hm. unfold recv_step. destruct (status_of c) eqn:Ho, (sending c); try (cbn; lia).
  destruct (recv _ _ _); [cbn; lia| |by eapply feed_accounted].
  destruct m; try done; cbn; unfold opened, closed, delivered; cbn; rewrite ?Ho; fold (total_size (until_end (inputs c))); lia.
Qed.

Lemma send_done_accounted sent ok c : client_inv sent c -> accounted (send_done ok) c.
Proof.
  intros Hc ms m Hm. unfold send_done. destruct (status_of c) eqn:Ho, (sending c); try (cbn; lia).
  by eapply feed_accounted.
Qed.

Lemma see_signal_accounted sent c : client_inv sent c -> accounted see_signal c.
Proof.
  intros Hc ms m Hm. unfold see_signal.
  destruct (status_of c) eqn:Ho, (sending c), (reader_of c); try (cbn; lia). by eapply feed_accounted.
Qed.

Lemma weight_set_reader m r c : weight m (set_reader r c) = weight m c.
Proof. by destruct m. Qed.

Lemma reader_start_accounted now c : accounted (reader_start now) c.
Proof.
  intros ms m Hm. unfold reader_start. repeat case_match; cbn [fst snd]; rewrite ?weight_set_reader; lia.
Qed.

Lemma reader_step_accounted e c : accounted (reader_step e) c.
Proof.
  intros ms m Hm. unfold reader_step. destruct (reader_of c) as [|lp| |]; cbn [fst snd]; try lia.
  destruct e; cbn [read_loop fst snd]; rewrite ?weight_set_reader; try lia.
  destruct (_ && _); cbn [fst snd]; rewrite weight_set_reader, ?increment_other by (by intros ->); lia.
Qed.

Lemma abort_reader_accounted c : accounted abort_reader c.
Proof.
  intros ms m Hm. unfold abort_reader. repeat case_match; cbn [fst snd]; rewrite ?weight_set_reader; lia.
Qed.

Lemma subscribe_step_accounted sent sent' c :
  client_inv sent c -> status_of c = Upgrading -> accounted (subscribe_step sent') c.
Proof.
  intros Hc Hu ms m Hm. pose proof (ci_fresh _ _ Hc) as Hf. unfold opened in Hf. rewrite Hu in Hf.
  specialize (Hf eq_refl).
  destruct m; try done; cbn; unfold opened, closed, delivered, increment; cbn; rewrite ?Hu, ?Hf;
    repeat (case_decide; try done); cbn; lia.
Qed.

#[local] Hint Resolve recv_step_accounted send_done_accounted see_signal_accounted
  reader_start_accounted reader_step_accounted abort_reader_accounted
  subscribe_step_accounted : boost.

Definition metrics_inv (s : ProxyState) : Prop :=
  forall m, tracked m = true -> metrics s m = total (weight m) (clients s).

Lemma on_client_metrics i f s :
  clients_inv s -> metrics_inv s ->
  (forall c, clients s !! i = Some c -> client_inv (channel s) c -> accounted f c) ->
  metrics_inv (on_client i f s).
Proof.
  intros Hc Hs Hf m Hm. specialize (Hs m Hm). unfold on_client.
  destruct (clients s !! i) as [c|] eqn:Hi; [|done].
  eapply Forall_lookup_1 in Hc as Hci; [|done]. specialize (Hf c eq_refl Hci (metrics s) m Hm).
  destruct (f c (metrics s)) as [c' ms]. cbn in *. rewrite (total_insert _ _ i c) by done. lia.
Qed.

Lemma retire_metrics i x y s :
  is_status i x s = true -> (x = Upgrading /\ y = UpgradeFailed \/ x = Closing /\ y = Gone) ->
  metrics_inv s -> metrics_inv (retire i y s).
Proof.
  unfold is_status, retire. destruct (clients s !! i) as [c|] eqn:Hi; [|done].
  intros Hx%bool_decide_eq_true Hxy Hs m Hm. specialize (Hs m Hm). cbn.
  rewrite (total_insert _ _ i c) by done.
  assert (weight m (set_status y c) = weight m c); [|lia].
  destruct m; try done; cbn; unfold opened, closed; cbn; rewrite Hx;
    by destruct Hxy as [[-> ->]|[-> ->]].
Qed.

Lemma request_metrics a h k s : metrics_inv s -> metrics_inv (request a h k s).
Proof.
  intros Hs m Hm. specialize (Hs m Hm). unfold request.
  destruct (handle_acquires a h k (inner_of (limiter s)) (metrics s)) as (r & i & ms & -> & Hms & _).
  destruct r as [st b|c]; cbn; rewrite Hms by done; [done|].
  rewrite total_app, total_cons. change (total (weight m) []) with 0%Z. assert (weight m (Client_new c) = 0%Z) by by destruct m. lia.
Qed.

Lemma system_step_metrics e s : clients_inv s -> metrics_inv s -> metrics_inv (system_step e s).
Proof.
  intros Hc Hs. destruct e as [a h k|i [|]|d| |i|i ok|i|i now|i e|i|i|]; cbn;
    try (apply on_client_metrics; [done|done|]; eauto with boost).
  - by apply request_metrics.
  - unfold is_status. destruct (clients s !! i) as [c|] eqn:Hi; [|done].
    case_bool_decide; [|done]. apply on_client_metrics; [done..|].
    rewrite Hi. intros c' [= <-] Hci. eauto with boost.
  - destruct (is_status i Upgrading s) eqn:Hi; [|done]. eapply retire_metrics; eauto.
  - intros m Hm. cbn. rewrite decide_False by (by intros ->). auto.
  - unfold ping_tick. by destruct (ping_enabled registry).
  - destruct (is_status i Closing s) eqn:Hi; [|done]. eapply retire_metrics; eauto.
  - done.
Qed.

Lemma reachable_metrics s : reachable s -> metrics_inv s.
Proof.
  intros Hs. apply (star_invariant steps_to (fun s => clients_inv s /\ metrics_inv s) ProxyState_new s);
    [|by split; [constructor|intros []]|done].
  intros x y [Hx Hm] Hstep. destruct Hstep. split; [by apply system_step_clients|by apply system_step_metrics].
Qed.

(** The clients that are in the loop of [subscribe]. *)
Definition open_clients (s : ProxyState) : list Client := filter (fun c => status_of c = Open) (clients s).

Lemma total_difference cs :
  (total (weight new_connections) cs - total (weight closed_connections) cs)%Z =
    Z.of_nat (length (filter (fun c => status_of c = Open) cs)).
Proof.
  induction cs as [|c cs IH]; [done|]. rewrite !total_cons, filter_cons. cbn [weight].
  unfold opened, closed. destruct (status_of c); rewrite ?decide_True, ?decide_False by done; cbn; lia.
Qed.

Lemma on_client_lookup i j f s c :
  clients s !! j = Some c ->
  clients (on_client i f s) !! j = Some (if decide (i = j) then (f c (metrics s)).1 else c).
Proof.
  intros Hj. unfold on_client. destruct (clients s !! i) as [c'|] eqn:Hi.
  - destruct (f c' (metrics s)) as [c'' ms] eqn:Hf. cbn. case_decide; subst.
    + rewrite Hj in Hi. injection Hi as ->. rewrite Hf. apply list_lookup_insert_eq. by eapply lookup_lt_Some.
    + by rewrite list_lookup_insert_ne.
  - case_decide; [congruence|done].
Qed.

(** C28: the registry's metrics are exactly what the connections did: opened minus
    closed connections is the number of clients being served, the messages and
    bytes counted as sent are those delivered, and each failed or lagging client is
    counted once. *)
Theorem metrics_account (s : ProxyState) :
  reachable s ->
  (metrics s new_connections - metrics s closed_connections = Z.of_nat (length (open_clients s)))%Z /\
  metrics s sent_messages = total (fun c => Z.of_nat (length (delivered c))) (clients s) /\
  metrics s bytes_broadcasted = total (fun c => total_size (delivered c)) (clients s) /\
  metrics s failed_messages = total (weight failed_messages) (clients s) /\
  metrics s lagged_connections = total (weight lagged_connections) (clients s).
Proof.
  intros Hs%reachable_metrics. rewrite !Hs by done. split; [|done]. apply total_difference.
Qed.

(** ** Progress *)

(** One more message taken from the channel and sent. *)
Definition deliver_one (i : nat) : list event := [Recv i; SendDone i true].

Lemma deliver_one_progress s i c msg :
  clients s !! i = Some c -> client_inv (channel s) c -> status_of c = Open -> sending c = None ->
  channel s !! next c = Some msg -> length (channel s) <= next c + capacity ->
  exists c', clients (run_events (deliver_one i) s) !! i = Some c' /\
    channel (run_events (deliver_one i) s) = channel s /\
    status_of c' = Open /\ sending c' = None /\ next c' = S (next c) /\ first c' = first c.
Proof.
  intros Hi Hc Ho Hs Hm Hcap. cbn [run_events deliver_one foldl system_step].
  set (s1 := on_client i (recv_step (channel s)) s).
  assert (H1 : clients s1 !! i = Some (recv_step (channel s) c (metrics s)).1)
    by (unfold s1; rewrite (on_client_lookup i i _ s c) by done; by rewrite decide_True).
  rewrite (on_client_lookup i i _ s1 _ H1), decide_True by done.
  eexists. split; [done|]. unfold s1. rewrite !on_client_channel.
  unfold recv_step, recv. rewrite Ho, Hs, Hm.
  destruct (Nat.ltb_spec (next c + capacity) (length (channel s))); [lia|]. done.
Qed.

(** C26: a client that has not fallen behind by more than the capacity gets
    everything: once its pending messages are sent, it has been delivered all that
    was broadcast since it subscribed. *)
Theorem client_catches_up (s : ProxyState) (i : nat) (c : Client) :
  reachable s -> clients s !! i = Some c -> status_of c = Open -> sending c = None ->
  length (channel s) <= next c + capacity ->
  exists c', clients (run_events (concat (replicate (length (channel s) - next c) (deliver_one i))) s) !! i
      = Some c' /\
    status_of c' = Open /\ delivered c' = drop (first c) (channel s).
Proof.
  intros Hs Hi Ho Hn Hcap. remember (length (channel s) - next c) as k eqn:Hk.
  revert s c Hs Hi Ho Hn Hcap Hk. induction k as [|k IH]; intros s c Hs Hi Ho Hn Hcap Hk;
    pose proof (reachable_clients s Hs) as Hc; eapply Forall_lookup_1 in Hc; try done.
  - exists c. split; [done|]. split; [done|]. destruct Hc as [[r Hp] Hnext Hr _ _ _ _].
    rewrite Hn, app_nil_r in *. specialize (Hnext Ho). rewrite Hp.
    pose proof (f_equal length Hp) as Hl. rewrite length_drop, length_app in Hl.
    destruct r; [by rewrite app_nil_r|cbn in Hl; lia].
  - destruct (lookup_lt_is_Some_2 (channel s) (next c)) as [msg Hm]; [lia|].
    destruct (deliver_one_progress s i c msg) as (c1 & H1 & Hch & Ho1 & Hn1 & Hx1 & Hf1); try done.
    cbn [replicate concat]. unfold run_events in *. rewrite foldl_app.
    destruct (IH (foldl (fun s e => system_step e s) s (deliver_one i)) c1) as (c' & H' & Ho' & Hd'); try done.
    + eapply star_snoc; [eapply star_snoc; [exact Hs|]|]; constructor.
    + rewrite Hch. lia.
    + rewrite Hch. lia.
    + exists c'. rewrite Hd', Hf1, Hch. done.
Qed.

(** ** A send that does not end *)

(** Client [i] is in the middle of sending [msg] and its send is pending. *)
Definition stuck (i : nat) (t : Ticket) (s : ProxyState) : Prop :=
  exists c msg, clients s !! i = Some c /\ status_of c = Open /\ sending c = Some msg /\ ticket (conn c) = t.

Definition not_send_done (i : nat) (e : event) : Prop :=
  match e with SendDone j _ => i <> j | _ => True end.

Lemma on_client_stuck i j t f s :
  (i = j -> forall c msg ms, status_of c = Open -> sending c = Some msg ->
     status_of (f c ms).1 = Open /\ sending (f c ms).1 = Some msg /\ conn (f c ms).1 = conn c) ->
  stuck i t s -> stuck i t (on_client j f s).
Proof.
  intros Hf (c & msg & Hi & Ho & Hs & Ht). pose proof (on_client_lookup j i f s c Hi) as H.
  case_decide as Hij; [|by exists c, msg]. destruct (Hf (eq_sym Hij) c msg (metrics s) Ho Hs) as (H1 & H2 & H3).
  exists (f c (metrics s)).1, msg. rewrite H3. done.
Qed.

Lemma retire_stuck i j t x y s :
  is_status j x s = true -> x <> Open -> stuck i t s -> stuck i t (retire j y s).
Proof.
  unfold is_status, retire. destruct (clients s !! j) as [c|] eqn:Hj; [|done].
  intros Hx%bool_decide_eq_true Hne (c' & msg & Hi & Ho & Hrest).
  exists c', msg. cbn. split; [|done]. rewrite list_lookup_insert_ne; [done|]. intros ->. congruence.
Qed.

Lemma system_step_stuck i t e s : not_send_done i e -> stuck i t s -> stuck i t (system_step e s).
Proof.
  intros He Hs. destruct e as [a h k|j [|]|d| |j|j ok|j|j now|j e|j|j|]; cbn;
    try (apply on_client_stuck; [|done]; intros -> c msg ms Ho Hm;
      unfold recv_step, see_signal, reader_start, reader_step, abort_reader, opened, closed;
      rewrite ?Ho, ?Hm; by repeat case_match).
  - destruct Hs as (c & msg & Hi & Hrest). exists c, msg. split; [|done]. unfold request.
    destruct (handle _ _ _ _ _) as [[[] ?] ?]; cbn; [done|]. by apply lookup_app_l_Some.
  - unfold is_status. destruct (clients s !! j) as [c|] eqn:Hj; [|done]. case_bool_decide as Hu; [|done].
    destruct Hs as (c' & msg & Hi & Ho & Hrest). exists c', msg. split; [|done].
    rewrite (on_client_lookup j i _ s c' Hi). case_decide; [congruence|done].
  - destruct (is_status j Upgrading s) eqn:Hj; [|done]. by eapply retire_stuck.
  - done.
  - unfold ping_tick. by destruct (ping_enabled registry).
  - destruct (is_status j Closing s) eqn:Hj; [|done]. by eapply retire_stuck.
  - done.
Qed.

(** C29: while the send of a message to a client is pending, nothing else ends its
    connection: not the signal of its reader, so not the pong timeout either, not
    lagging; the client keeps its ticket and counts against all limits. *)
Theorem pending_send_keeps_ticket (s : ProxyState) (i : nat) (c : Client) (msg : Message) (es : list event) :
  reachable s -> clients s !! i = Some c -> status_of c = Open -> sending c = Some msg ->
  Forall (not_send_done i) es ->
  exists c', clients (run_events es s) !! i = Some c' /\ status_of c' = Open /\
    ticket (conn c) ∈ live (limiter (run_events es s)).
Proof.
  intros Hs Hi Ho Hm Hes.
  assert (H : reachable (run_events es s) /\ stuck i (ticket (conn c)) (run_events es s)).
  { assert (H0 : stuck i (ticket (conn c)) s) by by exists c, msg. clear Hi Ho Hm.
    revert s Hs H0. induction Hes as [|e es He Hes IH]; intros s Hs H0; [done|].
    apply IH; [by eapply star_snoc; [|constructor]|by apply system_step_stuck]. }
  destruct H as [Hr (c' & m' & Hi' & Ho' & _ & Ht)]. exists c'. split; [done|]. split; [done|].
  apply reachable_tickets in Hr as [_ Hp]. rewrite Hp, <- Ht. eapply holding_held; [done|].
  unfold holding. by rewrite Ho'.
Qed.

(** ** A pong timeout below four milliseconds *)

(** The timer of the reader has a quarter of the timeout as its period; when that is
    zero, starting it panics, and the client is disconnected at once, also when
    pings are disabled and no pong is expected. *)
Theorem tiny_timeout_disconnects (s : ProxyState) (i : nat) (c : Client) (now : Z) :
  (0 <= pong_timeout_ms registry < 4)%Z ->
  clients s !! i = Some c -> status_of c = Open -> sending c = None -> reader_of c = NotStarted ->
  exists c', clients (run_events [StartReader i now; SeeSignal i] s) !! i = Some c' /\
    status_of c' = Closing.
Proof.
  intros Ht Hi Ho Hs Hr. cbn [run_events foldl system_step].
  pose proof (on_client_lookup i i (reader_start now) s c Hi) as H1. rewrite decide_True in H1 by done.
  pose proof (on_client_lookup i i see_signal _ _ H1) as H2. rewrite decide_True in H2 by done.
  rewrite H2. eexists. split; [done|].
  unfold reader_start, opened, start_reader. rewrite Hr, Ho, Z.div_small by lia. cbn.
  unfold see_signal. cbn. by rewrite Ho, Hs.
Qed.

End WsSystem.

(** ** Concrete runs *)
Module WsSystemExamples.

Definition registry : Registry := {| ping_enabled := true; pong_timeout_ms := 100 |}.
Definition small : InMemoryRateLimit := {| per_ip_limit := 1; per_app_limit := ∅ |}.

Definition proxy_run (es : list event) : ProxyState :=
  run_events id Some id 2 false registry small None "X-Forwarded-For" es (ProxyState_new 2).

Lemma proxy_run_reachable es :
  reachable id Some id 2 false registry small 2 None "X-Forwarded-For" (proxy_run es).
Proof.
  unfold proxy_run, reachable. generalize (star_refl (steps_to id Some id 2 false registry small None
    "X-Forwarded-For") (ProxyState_new 2)). generalize (ProxyState_new 2) at 2 4 as s.
  induction es as [|e es IH]; intros s Hs; [done|]. apply IH. eapply star_snoc; [done|constructor].
Qed.

Definition alice : IpAddr := IPv4 1 1 1 1.
Definition bob : IpAddr := IPv4 2 2 2 2.
Definition ask (a : IpAddr) : event := Request a (fun _ => None) "".

(** Alice subscribes, is refused a second connection, and gets a ping and a message;
    bob subscribes between them and is sending the message. *)
Definition two_clients : list event :=
  [ask alice; Upgraded 0 true; StartReader 0 0; PingTick; ask alice; Recv 0; SendDone 0 true;
   ask bob; Upgraded 1 true; StartReader 1 10; FromUpstream [7%Z]; Recv 0; SendDone 0 true; Recv 1].

Example two_clients_delivered :
  delivered <$> clients (proxy_run two_clients) = [[Ping []; Binary [7%Z]]; []].
Proof. by vm_compute. Qed.

(** Alice sleeps through three messages of a channel that keeps two. *)
Definition sleeper : list event :=
  [ask alice; Upgraded 0 true; FromUpstream [1%Z]; FromUpstream [2%Z]; FromUpstream [3%Z]; Recv 0].

(** Alice leaves and everything is released. *)
Definition leaver : list event :=
  [ask alice; Upgraded 0 true; StartReader 0 0; ReaderEvent 0 ReadClose; SeeSignal 0; DropClient 0;
   ReturnPermit].

(** Alice and bob at the end of that run. *)
Definition alice_served : Client := Eval vm_compute in
  default (Client_new {| client_addr := alice; ticket := {| t_addr := alice; t_app := None |} |})
    (clients (proxy_run two_clients) !! 0).
Definition bob_sending : Client := Eval vm_compute in
  default (Client_new {| client_addr := alice; ticket := {| t_addr := alice; t_app := None |} |})
    (clients (proxy_run two_clients) !! 1).

Lemma client_gets_contiguous_witness :
  exists before got after, payloads (proxy_run two_clients) = before ++ got ++ after /\
    filter is_data (take (first alice_served) (channel (proxy_run two_clients))) =
      encode id false <$> before /\
    filter is_data (delivered alice_served) = encode id false <$> got.
Proof.
  apply (client_gets_contiguous id Some id 2 false registry small 2 None "X-Forwarded-For"
    (proxy_run two_clients) 0 alice_served (proxy_run_reachable two_clients)
    ltac:(vm_compute; reflexivity)).
Defined.

Lemma lagging_means_behind_witness : 2 < length (drop 0 (channel (proxy_run sleeper))).
Proof.
  apply (lagging_means_behind id Some id 2 false registry small 2 None "X-Forwarded-For" 2
    (proxy_run sleeper) 0 _ 1%Z ltac:(lia) (proxy_run_reachable sleeper) eq_refl).
  vm_compute. apply list_elem_of_singleton. reflexivity.
Defined.

Lemma connections_limited_witness :
  length (held (clients (proxy_run two_clients))) <= 2 /\
  of_addr alice (held (clients (proxy_run two_clients))) <= 1.
Proof.
  destruct (connections_limited id Some id 2 false registry small 2 None "X-Forwarded-For"
    (proxy_run two_clients) (proxy_run_reachable two_clients)) as (H1 & H2 & _).
  split; [exact H1|]. apply H2. simpl. lia.
Defined.

Lemma drained_limiter_is_fresh_witness :
  semaphore (inner_of (limiter (proxy_run leaver))) = 2.
Proof.
  apply (drained_limiter_is_fresh id Some id 2 false registry small 2 None "X-Forwarded-For"
    (proxy_run leaver) (proxy_run_reachable leaver)).
  - vm_compute. repeat constructor.
  - reflexivity.
Defined.

Lemma metrics_account_witness :
  metrics (proxy_run two_clients) sent_messages =
    total (fun c => Z.of_nat (length (delivered c))) (clients (proxy_run two_clients)) /\
  metrics (proxy_run two_clients) sent_messages = 2%Z.
Proof.
  split; [|reflexivity].
  apply (metrics_account id Some id 2 false registry small 2 None "X-Forwarded-For"
    (proxy_run two_clients) (proxy_run_reachable two_clients)).
Defined.

(** Alice has two messages to catch up with. *)
Definition behind : list event :=
  [ask alice; Upgraded 0 true; FromUpstream [1%Z]; FromUpstream [2%Z]].

Lemma client_catches_up_witness :
  exists c', clients (proxy_run (behind ++ concat (replicate 2 (deliver_one 0)))) !! 0 = Some c' /\
    delivered c' = [Binary [1%Z]; Binary [2%Z]].
Proof.
  destruct (client_catches_up id Some id 2 false registry small 2 None "X-Forwarded-For"
    (proxy_run behind) 0 _ (proxy_run_reachable behind) eq_refl eq_refl eq_refl
    ltac:(vm_compute; lia)) as (c' & H & _ & Hd).
  exists c'. split; [exact H|exact Hd].
Defined.

(** Bob's send is pending while his pong timeout passes. *)
Definition silence : list event :=
  [ReaderEvent 1 (Tick 500); SeeSignal 1; AbortReader 1; DropClient 1].

Definition silenced : ProxyState :=
  run_events id Some id 2 false registry small None "X-Forwarded-For" silence (proxy_run two_clients).

Lemma pending_send_keeps_ticket_witness :
  exists c', clients silenced !! 1 = Some c' /\ status_of c' = Open /\
    reader_of c' = Signalled /\
    {| t_addr := bob; t_app := None |} ∈ live (limiter silenced).
Proof.
  destruct (pending_send_keeps_ticket id Some id 2 false registry small 2 None "X-Forwarded-For"
    (proxy_run two_clients) 1 bob_sending (Binary [7%Z]) silence (proxy_run_reachable two_clients)
    ltac:(vm_compute; reflexivity) eq_refl eq_refl ltac:(repeat constructor)) as (c' & H & Ho & Ht).
  exists c'. split; [exact H|]. split; [exact Ho|]. split; [|exact Ht].
  apply (f_equal (fun o => match o with Some c => reader_of c | None => NotStarted end)) in H.
  rewrite <- H. vm_compute. reflexivity.
Defined.

End WsSystemExamples.
