(* ===== verification/WsUpstreams.v ===== *)
(** * The upstreams of the WebSocket proxy

    [main] spawns a task per upstream that runs [WebsocketSubscriber::run]
    (subscriber.rs) with a clone of the listener.  Here these tasks run beside each
    other and beside all tasks of [WsSystem]: a step of a subscriber is what it does
    between two points at which it waits, and the steps of all of them come in any
    order.  The theorems say what the interleaving leaves of [subscriber_run], which
    [WsFanout] proves of one subscriber alone. *)
From S2P Require Import Prelude Net RateLimit WsAuth WsServer WsFanout WsSystem.

Import Registry Subscriber.

Local Open Scope Z_scope.

(** ** One subscriber *)

Section WsUpstreams.
(** The errors of tungstenite; the backoff crate. *)
Context {Error : Set} (ConnectionClosed : Error)
  {Backoff : Set} (backoff_new : SubscriberOptions -> Backoff) (backoff_reset : Backoff -> Backoff)
  (next_backoff : Backoff -> option Z * Backoff).

Abbreviation attempt := (upstream_attempt Error).
Abbreviation heard := (listen_event (Error := Error)).

(** Where [run] waits: nowhere yet, at the head of its loop; for the connection; in the
    loop of [connect_and_listen], with the events of the connection so far and the
    deadline for the next pong; in the backoff.  Or the task has ended: [run] has
    returned, or it panicked. *)
Inductive run_phase : Set :=
| Idle
| Connecting
| Listening (a : attempt) (pong_deadline : Z)
| Sleeping
| Stopped.

(** [attempts] are those that have ended, or that [run] gave up when it returned. *)
Record UpstreamTask : Set := {
  uri : string;
  options : SubscriberOptions;
  backoff : Backoff;
  phase_of : run_phase;
  attempts : list attempt
}.

Definition WebsocketSubscriber_new (u : string) (o : SubscriberOptions) : UpstreamTask :=
  {| uri := u; options := o; backoff := backoff_new o; phase_of := Idle; attempts := [] |}.

Definition goto (p : run_phase) (t : UpstreamTask) : UpstreamTask :=
  {| uri := uri t; options := options t; backoff := backoff t; phase_of := p; attempts := attempts t |}.
Definition push (a : attempt) (t : UpstreamTask) : UpstreamTask :=
  {| uri := uri t; options := options t; backoff := backoff t; phase_of := phase_of t;
     attempts := attempts t ++ [a] |}.
Definition set_backoff (b : Backoff) (t : UpstreamTask) : UpstreamTask :=
  {| uri := uri t; options := options t; backoff := b; phase_of := phase_of t; attempts := attempts t |}.

Definition attempt_now (c : result unit Error) (now : Z) : attempt :=
  {| connection := c; connected_at := now; events := [] |}.
Definition hear (e : heard) (a : attempt) : attempt :=
  {| connection := connection a; connected_at := connected_at a; events := events a ++ [e] |}.

(** What wakes a subscriber up. *)
Inductive wakeup : Set :=
| Polled
| ConnectDone (c : result unit Error) (now : Z)
| Heard (e : heard)
| Slept
| SeesToken.

(** The deadline after an event that does not end the loop. *)
Definition deadline_after (o : SubscriberOptions) (e : heard) (deadline : Z) : Z :=
  match e with Incoming (Ok (Pong _)) now => now + pong_timeout o | _ => deadline end.

(** The arm of [run] for an error of [connect_and_listen]. *)
Definition subscription_error (t : UpstreamTask) (ms : Metrics) : UpstreamTask * Metrics :=
  let ms := increment upstream_connections (-1) (increment upstream_errors 1 ms) in
  let (pause, b) := next_backoff (backoff t) in
  (goto match pause with Some _ => Sleeping | None => Idle end (set_backoff b t), ms).

(** One step of [run]: the payloads it hands to the listener, and the metrics.  With a
    pong timeout of zero the timer of the deadline check has a period of zero, on which
    tokio panics. *)
Definition subscriber_step (token : bool) (w : wakeup) (t : UpstreamTask) (ms : Metrics)
  : UpstreamTask * list (list Z) * Metrics :=
  match w, phase_of t with
  | Polled, Idle => (goto Connecting t, [], increment upstream_connection_attempts 1 ms)
  | ConnectDone (Ok tt) now, Connecting =>
      let ms := increment upstream_connections 1 (increment upstream_connection_successes 1 ms) in
      let t := set_backoff (backoff_reset (backoff t)) t in
      let a := attempt_now (Ok tt) now in
      if pong_timeout (options t) =? 0 then (goto Stopped (push a t), [], ms)
      else (goto (Listening a (now + initial_grace_period (options t))) t, [], ms)
  | ConnectDone (Err e) now, Connecting =>
      let ms := increment upstream_connection_failures 1 ms in
      let (t, ms) := subscription_error (push (attempt_now (Err e) now) t) ms in (t, [], ms)
  | Heard e, Listening a deadline =>
      let '(data, ms, ended) := listen ConnectionClosed (uri t) (options t) [e] deadline ms in
      match ended with
      | None => (goto (Listening (hear e a) (deadline_after (options t) e deadline)) t, data, ms)
      | Some (Ok tt) => (goto Idle (push (hear e a) t), data, ms)
      | Some (Err _) => let (t, ms) := subscription_error (push (hear e a) t) ms in (t, data, ms)
      end
  | Slept, Sleeping => (goto Idle t, [], ms)
  | SeesToken, Listening a _ => if token then (goto Stopped (push a t), [], ms) else (t, [], ms)
  | SeesToken, (Idle | Connecting | Sleeping) => if token then (goto Stopped t, [], ms) else (t, [], ms)
  | _, _ => (t, [], ms)
  end.

(** ** What a subscriber did is [subscriber_run] of its attempts *)

(** Its attempts, the one under way last. *)
Definition past (t : UpstreamTask) : list attempt :=
  attempts t ++ match phase_of t with Listening a _ => [a] | _ => [] end.

#[local] Arguments past : simpl never.

(** [run] alone, over the attempts [l]. *)
Definition replay_of (u : string) (o : SubscriberOptions) (l : list attempt) (b : Backoff) (ms : Metrics) :=
  subscriber_run ConnectionClosed backoff_reset next_backoff u o ((fun a => (a, false)) <$> l) b ms.

(** The same for the attempts of a subscriber, from its start. *)
Definition replay (t : UpstreamTask) : list (list Z) * Backoff * Metrics :=
  replay_of (uri t) (options t) (past t) (backoff_new (options t)) Metrics_default.

(** How an attempt ended, if it has. *)
Definition how_ended (u : string) (o : SubscriberOptions) (a : attempt) : option (result unit Error) :=
  match connection a with
  | Err e => Some (Err e)
  | Ok _ => (listen ConnectionClosed u o (events a) (connected_at a + initial_grace_period o) Metrics_default).2
  end.

(** Every text or binary frame of its connections. *)
Definition frames (t : UpstreamTask) : list (list Z) := omap payload (past t ≫= events).

(** *** The metrics only move *)

Lemma listen_shift u o es d ms ms' :
  let r := listen ConnectionClosed u o es d ms in
  let r' := listen ConnectionClosed u o es d ms' in
  r.1.1 = r'.1.1 /\ r.2 = r'.2 /\ forall x, r.1.2 x - ms x = r'.1.2 x - ms' x.
Proof.
  revert d ms ms'. induction es as [|[now|e|m now|] es IH]; intros d ms ms'; cbn [listen];
    try (split_and!; [done..|cbn; lia]).
  - destruct (d <=? now); [split_and!; [done..|cbn; lia]|apply IH].
  - destruct m as [[b|b|b|b|]|e]; cbn; try (split_and!; [done..|lia]);
      match goal with |- context [listen _ _ _ es ?d1 ?m1] =>
        match goal with |- context [listen _ _ _ es d1 ?m2] =>
          assert_fails (constr_eq m1 m2); destruct (IH d1 m1 m2) as (H1 & H2 & H3);
          destruct (listen _ _ _ es d1 m1) as [[? ?] ?], (listen _ _ _ es d1 m2) as [[? ?] ?] end end;
      cbn in *; subst; split_and!; try done; intros x; specialize (H3 x);
      unfold message_received_from_upstream, increment in *; case_decide; lia.
Qed.

Lemma connect_and_listen_shift u o a b ms ms' :
  let r := connect_and_listen ConnectionClosed backoff_reset u o a b ms in
  let r' := connect_and_listen ConnectionClosed backoff_reset u o a b ms' in
  r.1.1 = r'.1.1 /\ r.2 = r'.2 /\ r.2 = how_ended u o a /\ forall x, r.1.2 x - ms x = r'.1.2 x - ms' x.
Proof.
  unfold connect_and_listen, how_ended. destruct (connection a) as [[]|e]; cbn.
  - match goal with |- context [listen _ _ _ ?es ?d ?m1] =>
      match goal with |- context [listen _ _ _ es d ?m2] =>
        assert_fails (constr_eq m1 m2); destruct (listen_shift u o es d m1 m2) as (H1 & H2 & H3);
        destruct (listen_shift u o es d m1 Metrics_default) as (_ & H4 & _);
        destruct (listen _ _ _ es d m1) as [[? ?] ?], (listen _ _ _ es d m2) as [[? ?] ?] end end.
    cbn in *; subst. split_and!; try done. intros x. specialize (H3 x). metrics_simpl; lia.
  - split_and!; try done. intros x. metrics_simpl; lia.
Qed.

(** What one attempt leaves, with the error arm of [run]. *)
Definition effect (u : string) (o : SubscriberOptions) (a : attempt) (b : Backoff) (ms : Metrics)
  : list (list Z) * Backoff * Metrics :=
  let '(h, b, ms, ended) := connect_and_listen ConnectionClosed backoff_reset u o a b ms in
  match ended with
  | Some (Err _) =>
      (h, (next_backoff b).2, increment upstream_connections (-1) (increment upstream_errors 1 ms))
  | _ => (h, b, ms)
  end.

Definition prepend (h : list (list Z)) (r : list (list Z) * Backoff * Metrics) :=
  (h ++ r.1.1, r.1.2, r.2).

Lemma replay_cons u o a l b ms :
  let r := effect u o a b ms in
  replay_of u o (a :: l) b ms =
    match how_ended u o a with None => r | Some _ => prepend r.1.1 (replay_of u o l r.1.2 r.2) end.
Proof.
  unfold replay_of, effect, prepend. rewrite fmap_cons. cbn [subscriber_run].
  destruct (connect_and_listen_shift u o a b ms ms) as (_ & _ & <- & _).
  destruct (connect_and_listen _ _ _ _ a b ms) as [[[h b1] ms1] [[[]|e]|]]; cbn [fst snd]; [| |done].
  - by destruct (subscriber_run _ _ _ _ _ _ b1 ms1) as [[? ?] ?].
  - destruct (next_backoff b1) as [[p|] b2]; cbn [snd];
      by destruct (subscriber_run _ _ _ _ _ _ b2 (increment _ _ _)) as [[? ?] ?].
Qed.

Lemma replay_one u o a b ms : replay_of u o [a] b ms = effect u o a b ms.
Proof.
  rewrite replay_cons. cbn zeta. destruct (effect u o a b ms) as [[h b1] ms1].
  destruct (how_ended u o a); [|done]. unfold prepend. cbn. by rewrite app_nil_r.
Qed.

Lemma effect_shift u o a b ms ms' :
  (effect u o a b ms).1 = (effect u o a b ms').1 /\
  forall x, (effect u o a b ms).2 x - ms x = (effect u o a b ms').2 x - ms' x.
Proof.
  unfold effect. destruct (connect_and_listen_shift u o a b ms ms') as (H1 & H2 & _ & H3).
  destruct (connect_and_listen _ _ _ _ a b ms) as [[[h b1] ms1] e],
    (connect_and_listen _ _ _ _ a b ms') as [[[h' b1'] ms1'] e']. cbn in H1, H2, H3.
  injection H1 as -> ->. subst e'. destruct e as [[[]|e]|]; cbn; try by split.
  split; [done|]. intros x. specialize (H3 x). metrics_simpl; lia.
Qed.

Lemma run_shift u o l b ms ms' :
  (replay_of u o l b ms).1 = (replay_of u o l b ms').1 /\
  forall x, (replay_of u o l b ms).2 x - ms x = (replay_of u o l b ms').2 x - ms' x.
Proof.
  revert b ms ms'. induction l as [|a l IH]; intros b ms ms'; [cbn; split; [done|lia]|].
  rewrite !replay_cons. destruct (effect_shift u o a b ms ms') as [H1 H2].
  destruct (effect u o a b ms) as [[h b1] ms1], (effect u o a b ms') as [[h' b1'] ms1'].
  cbn in H1, H2. injection H1 as -> ->. destruct (how_ended u o a); [|done].
  destruct (IH b1' ms1 ms1') as [IH1 IH2]. unfold prepend. cbn. rewrite IH1. split; [done|].
  intros x. specialize (H2 x). specialize (IH2 x). lia.
Qed.

(** *** One more attempt, one more event *)

Lemma run_snoc u o l a b ms :
  Forall (fun a => how_ended u o a <> None) l ->
  replay_of u o (l ++ [a]) b ms =
    let r := replay_of u o l b ms in prepend r.1.1 (effect u o a r.1.2 r.2).
Proof.
  revert b ms. induction l as [|x l IH]; intros b ms Hl; cbn [app].
  { rewrite replay_one. cbn. by destruct (effect u o a b ms) as [[? ?] ?]. }
  apply Forall_cons in Hl as [Hx Hl]. rewrite !replay_cons.
  destruct (effect u o x b ms) as [[h b1] ms1]. destruct (how_ended u o x); [|done].
  rewrite (IH _ _ Hl). unfold prepend. cbn. by rewrite app_assoc.
Qed.

Lemma listen_snoc u o es e d ms :
  (listen ConnectionClosed u o es d ms).2 = None ->
  listen ConnectionClosed u o (es ++ [e]) d ms =
    let '(h, ms1, _) := listen ConnectionClosed u o es d ms in
    let '(h2, ms2, ended) :=
      listen ConnectionClosed u o [e] (foldl (fun d e => deadline_after o e d) d es) ms1 in
    (h ++ h2, ms2, ended).
Proof.
  remember (listen ConnectionClosed u o [e]) as one eqn:Hone.
  revert d ms. induction es as [|[now|x|m now|] es IH]; intros d ms; cbn [app foldl];
    [|cbn [listen]; try done..].
  - intros _. rewrite <- Hone. cbn [listen]. by destruct (one d ms) as [[? ?] ?].
  - destruct (d <=? now); [done|]. apply IH.
  - destruct m as [[b|b|b|b|]|x]; cbn [handle_message deadline_after]; try done;
      match goal with |- context [listen _ _ _ es ?d1 ?m1] => specialize (IH d1 m1) end;
      (destruct (listen _ _ _ es _ _) as [[? ?] ?]; cbn [snd]; intros H; rewrite (IH H);
       destruct (one _ _) as [[? ?] ?]; by rewrite app_assoc).
Qed.

Lemma listen_one u o e d ms : (listen ConnectionClosed u o [e] d ms).1.1 = option_list (payload e).
Proof. destruct e as [now|x|[[b|b|b|b|]|x] now|]; cbn; try done. by destruct (d <=? now). Qed.

(** The deadline of a connection after its events so far. *)
Definition deadline_of (o : SubscriberOptions) (a : attempt) : Z :=
  foldl (fun d e => deadline_after o e d) (connected_at a + initial_grace_period o) (events a).

Lemma effect_hear u o e a b ms :
  connection a = Ok tt -> how_ended u o a = None ->
  let r := effect u o a b ms in
  let '(h, ms1, ended) := listen ConnectionClosed u o [e] (deadline_of o a) r.2 in
  how_ended u o (hear e a) = ended /\
  effect u o (hear e a) b ms =
    match ended with
    | Some (Err _) => (r.1.1 ++ h, (next_backoff r.1.2).2,
                       increment upstream_connections (-1) (increment upstream_errors 1 ms1))
    | _ => (r.1.1 ++ h, r.1.2, ms1)
    end.
Proof.
  unfold effect, connect_and_listen, how_ended, deadline_of, hear. cbn [connection connected_at events].
  intros -> Hout. set (d := connected_at a + initial_grace_period o) in *.
  set (ms0 := increment upstream_connections 1 _).
  assert (Hn : forall m, (listen ConnectionClosed u o (events a) d m).2 = None).
  { intros m. by rewrite (proj1 (proj2 (listen_shift u o (events a) d m Metrics_default))). }
  rewrite !listen_snoc by done. specialize (Hn ms0) as Hn0.
  destruct (listen _ _ _ (events a) d Metrics_default) as [[h1 m1] e1].
  destruct (listen _ _ _ (events a) d ms0) as [[h2 m2] e2]. cbn in Hn0. subst e2. cbn [fst snd].
  set (d1 := foldl _ d (events a)).
  destruct (listen_shift u o [e] d1 m1 m2) as (_ & H2 & _).
  destruct (listen _ _ _ [e] d1 m1) as [[? ?] x1]. destruct (listen _ _ _ [e] d1 m2) as [[? ?] x2].
  cbn in H2. subst x2. split; [done|]. by destruct x1 as [[[]|]|].
Qed.

Record task_inv (t : UpstreamTask) : Prop := {
  ti_ended : phase_of t <> Stopped -> Forall (fun a => how_ended (uri t) (options t) a <> None) (attempts t);
  ti_listening a d : phase_of t = Listening a d ->
    connection a = Ok tt /\ how_ended (uri t) (options t) a = None /\ d = deadline_of (options t) a;
  ti_backoff : (replay t).1.2 = backoff t;
  ti_frames : (replay t).1.1 = frames t
}.

(** [t'] is [t] with the attempt [a] as its last. *)
Lemma replay_extend t t' a :
  uri t' = uri t -> options t' = options t -> past t' = attempts t ++ [a] ->
  Forall (fun a => how_ended (uri t) (options t) a <> None) (attempts t) ->
  let r := replay_of (uri t) (options t) (attempts t) (backoff_new (options t)) Metrics_default in
  replay t' = prepend r.1.1 (effect (uri t) (options t) a r.1.2 r.2) /\
  frames t' = omap payload (attempts t ≫= events) ++ omap payload (events a).
Proof.
  intros Hu Ho Hp Hl. unfold replay, frames. rewrite Hu, Ho, Hp. split; [by apply run_snoc|].
  rewrite bind_app, omap_app. cbn. by rewrite app_nil_r.
Qed.

Lemma replay_same t t' :
  uri t' = uri t -> options t' = options t -> past t' = past t -> replay t' = replay t /\ frames t' = frames t.
Proof. unfold replay, frames. by intros -> -> ->. Qed.

(** A step that leaves the attempts alone. *)
Lemma task_inv_same t t' :
  task_inv t -> uri t' = uri t -> options t' = options t -> past t' = past t -> backoff t' = backoff t ->
  (phase_of t' = Stopped \/ phase_of t <> Stopped /\ attempts t' = attempts t) ->
  (forall a d, phase_of t' <> Listening a d) ->
  task_inv t' /\ replay t' = replay t /\ frames t' = frames t.
Proof.
  intros [He Hl Hb Hf] Hu Ho Hp Hbk Ha Hn. destruct (replay_same t t' Hu Ho Hp) as [Hr Hfr].
  split; [|done]. split; rewrite ?Hu, ?Ho, ?Hr, ?Hfr, ?Hbk; try done.
  - intros H. destruct Ha as [Ha|[Ha ->]]; [done|auto].
  - intros a d H. by destruct (Hn a d).
Qed.

(** The steps of a subscriber keep it what [subscriber_run] of its attempts is: it
    hands on the new frames, and moves the metrics as that run does. *)
Definition step_ok (t : UpstreamTask) (ms : Metrics) (r : UpstreamTask * list (list Z) * Metrics) : Prop :=
  let '(t', data, ms') := r in
  task_inv t' /\ uri t' = uri t /\ options t' = options t /\ frames t' = frames t ++ data /\
  forall x, x <> upstream_connection_attempts -> ms' x - ms x = (replay t').2 x - (replay t).2 x.

Lemma quiet_ok t t' ms ms' :
  task_inv t -> uri t' = uri t -> options t' = options t -> past t' = past t -> backoff t' = backoff t ->
  (phase_of t' = Stopped \/ phase_of t <> Stopped /\ attempts t' = attempts t) ->
  (forall a d, phase_of t' <> Listening a d) ->
  (forall x, x <> upstream_connection_attempts -> ms' x = ms x) ->
  step_ok t ms (t', [], ms').
Proof.
  intros Hi Hu Ho Hp Hb Ha Hn Hm. destruct (task_inv_same t t') as (Hi' & Hr & Hf); auto.
  unfold step_ok. rewrite Hf, Hr, app_nil_r. split_and!; [done..|]. intros x Hx. rewrite Hm by done. lia.
Qed.

Lemma subscription_error_spec t ms :
  exists p, (p = Sleeping \/ p = Idle) /\
    subscription_error t ms = (goto p (set_backoff (next_backoff (backoff t)).2 t),
                   increment upstream_connections (-1) (increment upstream_errors 1 ms)).
Proof. unfold subscription_error. destruct (next_backoff (backoff t)) as [[z|] b]; eauto. Qed.

Lemma idle_past t p : (p = Sleeping \/ p = Idle) -> past (goto p t) = attempts t.
Proof. unfold past. cbn. intros [-> | ->]; by rewrite app_nil_r. Qed.

(** An attempt [a] that is the last of [t'] and that [t] did not have, or had in part. *)
Lemma extend_ok t t' a ms ms' data :
  task_inv t -> phase_of t <> Stopped -> uri t' = uri t -> options t' = options t ->
  past t' = attempts t ++ [a] ->
  let r := replay_of (uri t) (options t) (attempts t) (backoff_new (options t)) Metrics_default in
  let e := effect (uri t) (options t) a r.1.2 r.2 in
  (attempts t' = attempts t /\ (exists d, phase_of t' = Listening a d) \/
   attempts t' = attempts t ++ [a] /\ (phase_of t' = Sleeping \/ phase_of t' = Idle) /\
     how_ended (uri t) (options t) a <> None \/
   attempts t' = attempts t ++ [a] /\ phase_of t' = Stopped) ->
  (forall d, phase_of t' = Listening a d ->
    connection a = Ok tt /\ how_ended (uri t) (options t) a = None /\ d = deadline_of (options t) a) ->
  e.1.2 = backoff t' -> r.1.1 ++ e.1.1 = (replay t).1.1 ++ data ->
  omap payload (attempts t ≫= events) ++ omap payload (events a) = frames t ++ data ->
  (forall x, x <> upstream_connection_attempts -> ms' x - ms x = e.2 x - (replay t).2 x) ->
  step_ok t ms (t', data, ms').
Proof.
  intros [He Hl Hb Hf] Hs Hu Ho Hp r e Ha Hl' Hb' Hd Hfr Hm. specialize (He Hs).
  destruct (replay_extend t t' a Hu Ho Hp He) as [Hr Hfr']. fold r in Hr. fold e in Hr.
  split_and!; [|done|done|by rewrite Hfr', Hfr|intros x Hx; rewrite Hr; cbn; auto].
  split; rewrite ?Hu, ?Ho, ?Hr; try done.
  - intros Hn. destruct Ha as [[-> _]|[(-> & _ & Hx)|[_ Hx]]]; [done| |done]. apply Forall_app. by split; [|constructor].
  - intros a' d H. destruct Ha as [[_ [d' Hd']]|[(_ & [Hp'|Hp'] & _)|[_ Hp']]]; [|congruence..].
    rewrite H in Hd'. injection Hd' as -> ->. auto.
  - cbn. rewrite Hfr', Hfr, <- Hf. done.
Qed.

(** Outside a connection the attempts that have ended are all there is. *)
Lemma replay_idle t :
  (forall a d, phase_of t <> Listening a d) ->
  replay t = replay_of (uri t) (options t) (attempts t) (backoff_new (options t)) Metrics_default /\
  frames t = omap payload (attempts t ≫= events).
Proof.
  intros Hn. unfold replay, frames, past. destruct (phase_of t) eqn:E; try (by rewrite app_nil_r).
  by destruct (Hn a pong_deadline).
Qed.

Lemma connect_ok token c now t ms :
  task_inv t -> phase_of t = Connecting -> step_ok t ms (subscriber_step token (ConnectDone c now) t ms).
Proof.
  intros Hi Hp. destruct (replay_idle t) as [Hr Hf]; [by rewrite Hp|].
  pose proof (ti_backoff _ Hi) as Hb. unfold subscriber_step. rewrite Hp. destruct c as [[]|e].
  - cbn zeta. destruct (pong_timeout _ =? 0);
      (apply extend_ok with (a := attempt_now (Ok tt) now); rewrite <- ?Hr; try done; cbn;
       [by rewrite Hp|..]; rewrite ?Hb, ?Hf; eauto;
       try (intros x Hx; metrics_simpl; lia); try (by intros d [= <-])).
    unfold past. cbn. by rewrite app_nil_r.
  - destruct (subscription_error_spec (push (attempt_now (Err e) now) t)
      (increment upstream_connection_failures 1 ms)) as (p & Hpp & ->).
    apply extend_ok with (a := attempt_now (Err e) now); rewrite <- ?Hr; try done; cbn.
    + by rewrite Hp.
    + by rewrite idle_past.
    + right. left. done.
    + intros d ->. by destruct Hpp.
    + by rewrite Hb.
    + by rewrite Hf.
    + intros x Hx. metrics_simpl; lia.
Qed.

Lemma heard_ok token e a d t ms :
  task_inv t -> phase_of t = Listening a d -> step_ok t ms (subscriber_step token (Heard e) t ms).
Proof.
  intros Hi Hp. destruct (ti_listening _ Hi a d Hp) as (Hc & Ho & Hd).
  pose proof (ti_backoff _ Hi) as Hb.
  assert (Hns : phase_of t <> Stopped) by by rewrite Hp.
  destruct (replay_extend t t a) as [Hr Hf]; [done|done|by unfold past; rewrite Hp|by apply ti_ended|].
  set (r := replay_of (uri t) (options t) (attempts t) (backoff_new (options t)) Metrics_default) in *.
  pose proof (effect_hear (uri t) (options t) e a r.1.2 r.2 Hc Ho) as He. rewrite <- Hd in He.
  pose proof (listen_shift (uri t) (options t) [e] d ms (effect (uri t) (options t) a r.1.2 r.2).2) as Hs.
  pose proof (listen_one (uri t) (options t) e d ms) as Hdata.
  assert (Hfr : forall data, data = option_list (payload e) ->
    omap payload (attempts t ≫= events) ++ omap payload (events (hear e a)) = frames t ++ data).
  { intros data ->. rewrite Hf, <- app_assoc. cbn [hear events]. rewrite omap_app. do 2 f_equal. }
  unfold subscriber_step. rewrite Hp. cbn zeta in He, Hs.
  destruct (listen _ _ _ [e] d ms) as [[data ms1] ended].
  destruct (listen _ _ _ [e] d (effect _ _ a _ _).2) as [[h ms2] ended'].
  cbn [fst snd] in Hs, Hdata. destruct Hs as (<- & <- & Hm). destruct He as [Ho' He].
  rewrite Hr in Hb. cbn in Hb.
  destruct ended as [[[]|x]|].
  - apply extend_ok with (a := hear e a); fold r; try done; rewrite ?He, ?Hr; cbn; try done.
    + by rewrite idle_past by auto.
    + right. left. rewrite Ho'. auto.
    + by rewrite app_assoc.
    + by apply Hfr.
  - destruct (subscription_error_spec (push (hear e a) t) ms1) as (p & Hpp & ->).
    apply extend_ok with (a := hear e a); fold r; try done; rewrite ?He, ?Hr; cbn; try done.
    + by rewrite idle_past.
    + right. left. by rewrite Ho'.
    + intros d' ->. by destruct Hpp.
    + by rewrite Hb.
    + by rewrite app_assoc.
    + by apply Hfr.
    + intros y Hy. specialize (Hm y). metrics_simpl; lia.
  - apply extend_ok with (a := hear e a); fold r; try done; rewrite ?He, ?Hr; cbn; try done.
    + left. eauto.
    + intros d' [= <-]. split_and!; try done. unfold deadline_of, hear in *. cbn. by rewrite foldl_snoc, <- Hd.
    + by rewrite app_assoc.
    + by apply Hfr.
Qed.

Lemma subscriber_step_ok token w t ms : task_inv t -> step_ok t ms (subscriber_step token w t ms).
Proof.
  intros Hi. assert (Hstay : step_ok t ms (t, [], ms)).
  { split_and!; [done..|by rewrite app_nil_r|intros; lia]. }
  destruct (phase_of t) as [| |a d| |] eqn:Hp, w as [|c now|e| |];
    first [by apply connect_ok | by eapply heard_ok | unfold subscriber_step; rewrite Hp];
    try exact Hstay; try (by destruct c as [[]|]); try (destruct token; [|exact Hstay]);
    (apply quiet_ok; try done; cbn; unfold past; cbn;
     rewrite ?Hp, ?app_nil_r; auto using increment_other).
Qed.

(** ** The upstreams beside the rest of the proxy *)

(** brotli's compressor, the http crate's [to_str], serde_json's rendering of a
    message, the capacity tokio gives the channel; then the configuration. *)
Context (compress : list Z -> list Z) (to_str : string -> option string)
  (json_message : string -> string) (capacity : nat).
Context (enable_compression : bool) (registry : Registry) (rate_limiter : InMemoryRateLimit)
  (instance_limit : nat) (authentication : option Authentication) (header : string)
  (upstreams : list (string * SubscriberOptions)).

(** [token] is whether the cancellation token is cancelled. *)
Record Upstreams : Type := {
  proxy : ProxyState;
  tasks : list UpstreamTask;
  token : bool
}.

Definition Upstreams_new : Upstreams :=
  {| proxy := ProxyState_new instance_limit;
     tasks := (fun '(u, o) => WebsocketSubscriber_new u o) <$> upstreams; token := false |}.

Definition set_metrics (ms : Metrics) (s : ProxyState) : ProxyState :=
  {| channel := channel s; payloads := payloads s; clients := clients s; limiter := limiter s;
     metrics := ms |}.

(** A step of the subscriber [i], of another task, or the cancellation. *)
Inductive any_event : Set :=
| OfSubscriber (i : nat) (w : wakeup)
| OfProxy (e : event)
| CancelToken.

Definition upstreams_step (e : any_event) (s : Upstreams) : Upstreams :=
  match e with
  | OfSubscriber i w =>
      match tasks s !! i with
      | None => s
      | Some t =>
          let '(t, data, ms) := subscriber_step (token s) w t (metrics (proxy s)) in
          {| proxy := foldl (fun p d => from_upstream compress enable_compression d p)
                        (set_metrics ms (proxy s)) data;
             tasks := <[i := t]> (tasks s); token := token s |}
      end
  | OfProxy (FromUpstream _) => s
  | OfProxy e =>
      {| proxy := system_step compress to_str json_message capacity enable_compression registry
                    rate_limiter authentication header e (proxy s);
         tasks := tasks s; token := token s |}
  | CancelToken => {| proxy := proxy s; tasks := tasks s; token := true |}
  end.

Inductive upstreams_to : Upstreams -> Upstreams -> Prop :=
| an_event e s : upstreams_to s (upstreams_step e s).

Definition upstreams_reachable (s : Upstreams) : Prop := star upstreams_to Upstreams_new s.

(** *** The rest of the proxy leaves the metrics of the upstreams alone *)

Definition of_upstreams (x : metric) : bool :=
  match x with
  | upstream_errors | upstream_connections | upstream_connection_successes
  | upstream_connection_failures | upstream_messages _ => true
  | _ => false
  end.

Definition spares_upstreams (f : Client -> Metrics -> Client * Metrics) : Prop :=
  forall c ms x, of_upstreams x = true -> (f c ms).2 x = ms x.

Lemma feed_spares x : spares_upstreams (feed x).
Proof.
  intros c ms y Hy. unfold feed. destruct x as [msg [|]| |n|], y; try done; cbn; by metrics_simpl.
Qed.

Lemma request_spares a h k s x :
  of_upstreams x = true ->
  metrics (request to_str json_message rate_limiter authentication header a h k s) x = metrics s x.
Proof.
  intros Hx. unfold request.
  assert (Hw : forall state app i ms,
    (websocket_handler to_str json_message (try_acquire rate_limiter) state a h app i ms).2 x = ms x).
  { intros state app i ms. unfold websocket_handler. destruct (try_acquire _ _ _ _) as [[t|[r]] i']; [done|].
    apply increment_other. by intros ->. }
  assert (Hh : forall i ms, (handle to_str json_message rate_limiter authentication header a h k i ms).2 x = ms x).
  { intros i ms. unfold handle. destruct authentication as [au|]; [|apply Hw].
    unfold authenticated_websocket_handler. destruct (get_application_for_key _ _) as [app|].
    - rewrite Hw. unfold proxy_connections_by_app. apply increment_other. by intros ->.
    - apply increment_other. by intros ->. }
  specialize (Hh (inner_of (limiter s)) (metrics s)). by destruct (handle _ _ _ _ _ _ _ _ _ _) as [[[]] ].
Qed.

Lemma on_client_spares i f s x :
  spares_upstreams f -> of_upstreams x = true -> metrics (on_client i f s) x = metrics s x.
Proof.
  intros Hf Hx. unfold on_client. destruct (clients s !! i) as [c|]; [|done].
  specialize (Hf c (metrics s) x Hx). by destruct (f c (metrics s)).
Qed.

Lemma system_step_spares e s x :
  of_upstreams x = true ->
  metrics (system_step compress to_str json_message capacity enable_compression registry
    rate_limiter authentication header e s) x = metrics s x.
Proof.
  intros Hx. destruct e as [a h k|i [|]|d| |i|i ok|i|i now|i e|i|i|]; cbn [system_step];
    rewrite ?request_spares by done; try done;
    try (apply on_client_spares; [|done]; intros c ms y Hy).
  - case_match; [|done]. apply on_client_spares; [|done]. intros c ms y Hy. apply increment_other. by intros ->.
  - case_match; [|done]. unfold retire. by case_match.
  - cbn. by rewrite decide_False by (by intros ->).
  - unfold ping_tick. by case_match.
  - unfold recv_step. repeat case_match; try done. by apply feed_spares.
  - unfold send_done. repeat case_match; try done. by apply feed_spares.
  - unfold see_signal. repeat case_match; try done. by apply feed_spares.
  - unfold reader_start. by repeat case_match.
  - unfold reader_step. destruct (reader_of c); try done.
    destruct e, y; try done; cbn; repeat case_match; simplify_eq; cbn; try done; by metrics_simpl.
  - unfold abort_reader. by repeat case_match.
  - case_match; [|done]. unfold retire. by case_match.
Qed.

(** *** The invariant *)

(** What the subscribers have added to a metric, all together. *)
Definition total_of (x : metric) (l : list UpstreamTask) : Z := total (fun t => (replay t).2 x) l.

(** [merged] tells for every payload in the channel which subscriber handed it on;
    those of each subscriber are its frames in order. *)
Definition merges (merged : list (nat * list Z)) (s : Upstreams) : Prop :=
  payloads (proxy s) = merged.*2 /\
  Forall (fun p => (p.1 < length (tasks s))%nat) merged /\
  forall i t, tasks s !! i = Some t -> (filter (fun p => p.1 = i) merged).*2 = frames t.

Record upstreams_inv (s : Upstreams) : Prop := {
  ui_clients : clients_inv capacity (proxy s);
  ui_channel : channel_inv compress enable_compression registry (proxy s);
  ui_configured : (fun t => (uri t, options t)) <$> tasks s = upstreams;
  ui_tasks : Forall task_inv (tasks s);
  ui_merged : exists merged, merges merged s;
  ui_metrics x : of_upstreams x = true -> metrics (proxy s) x = total_of x (tasks s);
  ui_running : Forall (fun t => phase_of t = Stopped -> token s = true \/ pong_timeout (options t) = 0) (tasks s)
}.

Lemma Upstreams_new_inv : upstreams_inv Upstreams_new.
Proof.
  assert (Ht : forall t, t ∈ tasks Upstreams_new -> exists u o, t = WebsocketSubscriber_new u o).
  { intros t Ht. apply list_elem_of_fmap in Ht as ([u o] & -> & _). eauto. }
  split; try done.
  - by repeat constructor.
  - cbn. rewrite <- list_fmap_compose. rewrite <- (list_fmap_id upstreams) at 2.
    apply list_fmap_ext. by intros ? [].
  - apply Forall_forall. intros t (u & o & ->)%Ht. by split.
  - exists []. split_and!; [done|by constructor|]. intros i t (u & o & ->)%list_elem_of_lookup_2%Ht. done.
  - intros x _. cbn. clear Ht. unfold total_of, total.
    induction upstreams as [|[u o] l IH]; [done|]. cbn in *. by rewrite <- IH.
  - apply Forall_forall. by intros t (u & o & ->)%Ht.
Qed.

(** What reaches the listener. *)
Lemma foldl_from_upstream data p :
  let p' := foldl (fun p d => from_upstream compress enable_compression d p) p data in
  payloads p' = payloads p ++ data /\
  (forall x, x <> active_connections -> metrics p' x = metrics p x) /\
  (clients_inv capacity p -> clients_inv capacity p') /\
  (channel_inv compress enable_compression registry p ->
   channel_inv compress enable_compression registry p').
Proof.
  revert p. induction data as [|d data IH]; intros p; cbn [foldl]; [by rewrite app_nil_r|].
  cbn zeta.
  destruct (IH (from_upstream compress enable_compression d p)) as (H1 & H2 & H3 & H4).
  split_and!.
  - rewrite H1. cbn. by rewrite <- app_assoc.
  - intros x Hx. rewrite H2 by done. cbn. by rewrite decide_False.
  - intros H. apply H3. by apply (system_step_clients compress to_str json_message capacity
      enable_compression registry rate_limiter authentication header (FromUpstream d)).
  - intros H. apply H4. by apply (system_step_channel compress to_str json_message capacity
      enable_compression registry rate_limiter authentication header (FromUpstream d)).
Qed.

Lemma merges_snoc merged s s' i t t' data :
  merges merged s -> tasks s !! i = Some t -> tasks s' = <[i := t']> (tasks s) ->
  payloads (proxy s') = payloads (proxy s) ++ data -> frames t' = frames t ++ data ->
  merges (merged ++ (pair i <$> data)) s'.
Proof.
  intros (Hp & Hl & Hf) Hi Ht Hd Hfr. split_and!.
  - rewrite Hd, Hp, fmap_app, <- list_fmap_compose. f_equal. symmetry. by apply list_fmap_id.
  - rewrite Ht, length_insert. apply Forall_app. split; [done|]. apply Forall_fmap, Forall_true.
    intros d. cbn. by eapply lookup_lt_Some.
  - intros j tj. rewrite Ht, filter_app, fmap_app. intros Hj.
    destruct (decide (i = j)) as [<-|Hne].
    + rewrite list_lookup_insert_eq in Hj by by eapply lookup_lt_Some. injection Hj as <-.
      rewrite (Hf i t Hi), Hfr. f_equal. clear. induction data as [|d data IH]; [done|].
      rewrite fmap_cons, filter_cons_True by done. cbn. by f_equal.
    + rewrite list_lookup_insert_ne in Hj by done. rewrite (Hf j tj Hj). clear - Hne.
      replace (filter (fun p => p.1 = j) (pair i <$> data)) with (@nil (nat * list Z)); [by rewrite app_nil_r|].
      induction data as [|d data IH]; [done|]. by rewrite fmap_cons, filter_cons_False.
Qed.

(** [run] ends only when it sees the token cancelled, or on a zero timeout. *)
Lemma subscriber_step_stops tok w t ms :
  phase_of (subscriber_step tok w t ms).1.1 = Stopped ->
  phase_of t = Stopped \/ tok = true \/ pong_timeout (options t) = 0.
Proof.
  assert (Hf : forall t ms, phase_of (subscription_error t ms).1 <> Stopped).
  { intros t0 ms0. destruct (subscription_error_spec t0 ms0) as (p & [-> | ->] & ->); done. }
  unfold subscriber_step. destruct (phase_of t) eqn:Hp, w as [|[[]|e] now|e| |];
    try (destruct tok; cbn; rewrite ?Hp; by auto).
  - cbn [options set_backoff]. destruct (Z.eqb_spec (pong_timeout (options t)) 0); by auto.
  - specialize (Hf (push (attempt_now (Err e) now) t) (increment upstream_connection_failures 1 ms)).
    by destruct (subscription_error _ _).
  - destruct (listen _ _ _ _ _ _) as [[data ms1] [[[]|x]|]]; try done.
    specialize (Hf (push (hear e a) t) ms1). by destruct (subscription_error _ _).
Qed.

Lemma system_step_payloads e s :
  (forall d, e <> FromUpstream d) ->
  payloads (system_step compress to_str json_message capacity enable_compression registry
    rate_limiter authentication header e s) = payloads s.
Proof.
  intros He. destruct e as [a h k|i [|]|d| |i|i ok|i|i now|i e|i|i|]; cbn [system_step];
    rewrite ?on_client_payloads; try done.
  - apply request_channel.
  - case_match; [|done]. apply on_client_payloads.
  - case_match; [|done]. apply retire_channel.
  - by destruct (He d).
  - unfold ping_tick. by case_match.
  - case_match; [|done]. apply retire_channel.
Qed.

Lemma upstreams_step_inv e s : upstreams_inv s -> upstreams_inv (upstreams_step e s).
Proof.
  intros [Hc Hch Hcf Ht Hm Hx Hr]. destruct e as [i w|e|].
  - cbn [upstreams_step]. destruct (tasks s !! i) as [t|] eqn:Hi; [|done].
    pose proof (Forall_lookup_1 _ _ _ _ Ht Hi) as Hti.
    pose proof (subscriber_step_ok (token s) w t (metrics (proxy s)) Hti) as Hok.
    pose proof (subscriber_step_stops (token s) w t (metrics (proxy s))) as Hst.
    destruct (subscriber_step (token s) w t (metrics (proxy s))) as [[t' data] ms].
    destruct Hok as (Ht' & Hu & Ho & Hf & Hms). cbn [fst] in Hst.
    destruct (foldl_from_upstream data (set_metrics ms (proxy s))) as (H1 & H2 & H3 & H4).
    split; cbn [proxy tasks token]; auto.
    + rewrite list_fmap_insert, Hu, Ho, Hcf. apply list_insert_id. rewrite <- Hcf, list_lookup_fmap, Hi. done.
    + by apply Forall_insert.
    + destruct Hm as [merged Hm]. eexists. by eapply merges_snoc.
    + intros x Hxu. unfold total_of. rewrite H2 by (by intros ->). rewrite (total_insert _ _ _ t) by done.
      specialize (Hx x Hxu). unfold total_of in Hx. specialize (Hms x ltac:(by intros ->)). cbn. lia.
    + apply Forall_insert; [done|]. intros Hs0. rewrite Ho. destruct (Hst Hs0) as [Hst'|]; [|done].
      by apply (Forall_lookup_1 _ _ _ _ Hr Hi).
  - assert (He : (exists d, e = FromUpstream d) \/ forall d, e <> FromUpstream d) by (destruct e; eauto).
    destruct He as [[d ->]|He]; [done|].
    replace (upstreams_step (OfProxy e) s) with
      {| proxy := system_step compress to_str json_message capacity enable_compression registry
                    rate_limiter authentication header e (proxy s); tasks := tasks s; token := token s |}
      by (destruct e; try done; by destruct (He data)).
    split; cbn [proxy tasks token]; auto using system_step_clients, system_step_channel.
    + destruct Hm as (merged & Hp & Hm). exists merged. split; [|done]. cbn. by rewrite system_step_payloads.
    + intros x Hxu. rewrite system_step_spares by done. by apply Hx.
  - split; try done. eapply Forall_impl; [exact Hr|]. intros t _ _. by left.
Qed.

Lemma upstreams_reachable_inv s : upstreams_reachable s -> upstreams_inv s.
Proof.
  apply star_invariant; [|apply Upstreams_new_inv].
  intros x y Hx Hstep. destruct Hstep. by apply upstreams_step_inv.
Qed.

(** ** What the clients get from the upstreams *)

(** C20: with the subscribers of all upstreams running beside each other and beside
    every other task, what the proxy broadcasts is a merge of the upstreams: each
    payload comes from one configured upstream, and those of an upstream are all text
    and binary frames of its connections, in order, none lost, added or repeated, as
    when its subscriber runs alone; every client gets, encoded, a contiguous part of
    this merge. *)
Theorem upstreams_merge (s : Upstreams) :
  upstreams_reachable s ->
  exists merged : list (nat * list Z),
    payloads (proxy s) = merged.*2 /\
    Forall (fun p => (p.1 < length upstreams)%nat) merged /\
    (forall i t, tasks s !! i = Some t ->
       upstreams !! i = Some (uri t, options t) /\
       (filter (fun p => p.1 = i) merged).*2 = omap payload (past t ≫= events) /\
       (subscriber_run ConnectionClosed backoff_reset next_backoff (uri t) (options t)
          ((fun a => (a, false)) <$> past t) (backoff_new (options t)) Metrics_default).1 =
         (omap payload (past t ≫= events), backoff t)) /\
    (forall j c, clients (proxy s) !! j = Some c ->
       exists before got after, merged = before ++ got ++ after /\
         filter is_data (delivered c) = encode compress enable_compression <$> got.*2).
Proof.
  intros [Hc Hch Hcf Ht (merged & Hp & Hl & Hm) _ _]%upstreams_reachable_inv. exists merged.
  split_and!; [done|by rewrite <- Hcf, length_fmap|..].
  - intros i t Hi. split_and!; [by rewrite <- Hcf, list_lookup_fmap, Hi|by apply Hm|].
    destruct (Forall_lookup_1 _ _ _ _ Ht Hi) as [_ _ Hb Hf]. unfold replay, replay_of in Hb, Hf.
    destruct (subscriber_run _ _ _ _ _ _ _ _) as [[? ?] ?]. cbn in *. by rewrite Hb, Hf.
  - intros j c Hj. destruct (contiguous _ _ _ _ _ _ _ Hc Hch Hj) as (before & got & after & Heq & _ & Hg).
    rewrite Hp in Heq. apply fmap_app_inv in Heq as (b & r & -> & Hr & Hbr).
    symmetry in Hr. apply fmap_app_inv in Hr as (g & a & -> & -> & ->). eauto 6.
Qed.

(** ** The metrics of the upstreams *)

(** Every metric the subscribers keep is what their runs, each alone, add up to, and
    no subscriber gives up before the token is cancelled, unless the timeout is zero. *)
Theorem upstream_metrics_add_up (s : Upstreams) (x : metric) :
  upstreams_reachable s ->
  (of_upstreams x = true -> metrics (proxy s) x = total (fun t => (replay t).2 x) (tasks s)) /\
  (token s = false ->
   Forall (fun t => phase_of t = Stopped -> pong_timeout (options t) = 0) (tasks s)).
Proof.
  intros [_ _ _ _ _ Hx Hr]%upstreams_reachable_inv. split; [apply Hx|].
  intros Ht. eapply Forall_impl; [exact Hr|]. intros t H [Hs|Hs]%H; [congruence|done].
Qed.

Definition orderly (u : string) (o : SubscriberOptions) (a : attempt) : bool :=
  match how_ended u o a with Some (Ok _) => true | _ => false end.

(** A connection that is open; the connections that the upstream closed in order. *)
Definition listening_now (t : UpstreamTask) : Z := match phase_of t with Listening _ _ => 1 | _ => 0 end.
Definition orderly_closes (t : UpstreamTask) : Z :=
  Z.of_nat (length (filter (fun a => orderly (uri t) (options t) a = true) (attempts t))).

Definition gauge_and_failures (ms : Metrics) : Z := ms upstream_connections + ms upstream_connection_failures.

(** An attempt moves the gauge and the failures together by one, unless an error ends it. *)
Lemma effect_gauge u o a b ms :
  gauge_and_failures (effect u o a b ms).2 =
    gauge_and_failures ms + match how_ended u o a with Some (Err _) => 0 | _ => 1 end.
Proof.
  unfold effect, connect_and_listen, how_ended, gauge_and_failures.
  destruct (connection a) as [[]|e]; [|cbn; metrics_simpl; lia].
  set (d := connected_at a + _). set (ms0 := increment upstream_connections 1 _).
  destruct (listen_shift u o (events a) d Metrics_default ms0) as (_ & -> & _).
  pose proof (listen_metrics ConnectionClosed u o (events a) d ms0 upstream_connections ltac:(done)) as H1.
  pose proof (listen_metrics ConnectionClosed u o (events a) d ms0 upstream_connection_failures
    ltac:(done)) as H2.
  destruct (listen _ _ _ (events a) d ms0) as [[h ms1] [[[]|x]|]]; cbn in H1, H2 |- *;
    subst ms0; metrics_simpl; lia.
Qed.

Lemma replay_gauge u o l b ms :
  Forall (fun a => how_ended u o a <> None) l ->
  gauge_and_failures (replay_of u o l b ms).2 =
    gauge_and_failures ms + Z.of_nat (length (filter (fun a => orderly u o a = true) l)).
Proof.
  revert b ms. induction l as [|a l IH]; intros b ms Hl; [cbn; lia|]. apply Forall_cons in Hl as [Ha Hl].
  rewrite replay_cons, filter_cons. pose proof (effect_gauge u o a b ms) as He.
  destruct (decide (orderly u o a = true)) as [Ho|Ho]; unfold orderly in Ho;
    destruct (how_ended u o a) as [[[]|x]|]; try done; unfold prepend; cbn [snd];
    rewrite (IH _ _ Hl), He; cbn; lia.
Qed.

Lemma task_gauge t :
  task_inv t -> phase_of t <> Stopped ->
  gauge_and_failures (replay t).2 = listening_now t + orderly_closes t.
Proof.
  intros Hi Hs. pose proof (ti_ended _ Hi Hs) as He. unfold listening_now, orderly_closes.
  assert (Hr := replay_gauge _ _ _ (backoff_new (options t)) Metrics_default He).
  change (gauge_and_failures Metrics_default) with 0 in Hr.
  destruct (phase_of t) as [| |a d| |] eqn:Hp; try done;
    try (destruct (replay_idle t) as [Hi' _]; [by rewrite Hp|]; rewrite Hi', Hr; lia).
  destruct (ti_listening _ Hi a d Hp) as (_ & Ho & _).
  destruct (replay_extend t t a) as [-> _]; [done|done|by unfold past; rewrite Hp|done|].
  unfold prepend. cbn [snd]. rewrite effect_gauge, Hr, Ho. lia.
Qed.


End WsUpstreams.

(** ** Concrete runs *)
Module WsUpstreamsExamples.
Import WsSystemExamples.

(** A backoff that doubles up to its maximum. *)
Definition doubling_new (o : SubscriberOptions) : Z * Z * Z :=
  (backoff_initial_interval o, backoff_initial_interval o, max_backoff_interval o).
Definition doubling_reset (b : Z * Z * Z) : Z * Z * Z := let '(_, initial, top) := b in (initial, initial, top).
Definition doubling_next (b : Z * Z * Z) : option Z * (Z * Z * Z) :=
  let '(current, initial, top) := b in (Some current, (Z.min (2 * current) top, initial, top)).

Definition both : list (string * SubscriberOptions) :=
  [("ws://a", SubscriberOptions_default); ("ws://b", SubscriberOptions_default)].

Definition upstreams_run (es : list any_event) : Upstreams :=
  foldl (fun s e => upstreams_step tt doubling_reset doubling_next id Some id 2 false registry small
    None "X-Forwarded-For" e s) (Upstreams_new (Error := unit) doubling_new 2 both) es.

Lemma upstreams_run_reachable es :
  upstreams_reachable tt doubling_new doubling_reset doubling_next id Some id 2 false registry small 2
    None "X-Forwarded-For" both (upstreams_run es).
Proof.
  unfold upstreams_run, upstreams_reachable.
  generalize (star_refl (upstreams_to tt doubling_reset doubling_next id Some id 2 false registry small None
    "X-Forwarded-For") (Upstreams_new (Error := unit) doubling_new 2 both)).
  generalize (Upstreams_new (Error := unit) doubling_new 2 both) at 2 4 as s.
  induction es as [|e es IH]; intros s Hs; [done|]. apply IH. eapply star_snoc; [done|constructor].
Qed.

Definition text_frame (i : nat) (d : list Z) (now : Z) : any_event (Error := unit) :=
  OfSubscriber i (Heard (Incoming (Ok (Text d)) now)).

(** The first upstream refuses a connection and is back later; both then send the same
    payload, with another one of the second between them; then the second closes in
    order. *)
Definition two_upstreams : list any_event :=
  [OfSubscriber 0 Polled; OfSubscriber 1 Polled; OfSubscriber 0 (ConnectDone (Err tt) 5);
   OfProxy (ask alice); OfProxy (Upgraded 0 true); OfSubscriber 1 (ConnectDone (Ok tt) 6);
   text_frame 1 [7] 10; OfSubscriber 0 Slept; OfSubscriber 0 Polled; OfSubscriber 0 (ConnectDone (Ok tt) 505);
   OfProxy (Recv 0); OfProxy (SendDone 0 true); text_frame 1 [8] 510; text_frame 0 [7] 511;
   OfProxy (Recv 0); OfProxy (SendDone 0 true); OfProxy (Recv 0); OfProxy (SendDone 0 true);
   OfSubscriber 1 (Heard StreamEnd)].

(** The client gets the payload that both upstreams sent twice: nothing looks for
    duplicates. *)
Example duplicates_pass :
  delivered <$> clients (proxy (upstreams_run two_upstreams)) = [[Binary [7]; Binary [8]; Binary [7]]].
Proof. by vm_compute. Qed.

Lemma upstreams_merge_witness :
  exists merged : list (nat * list Z),
    payloads (proxy (upstreams_run two_upstreams)) = merged.*2 /\
    (filter (fun p => p.1 = 0%nat) merged).*2 = [[7]] /\
    (filter (fun p => p.1 = 1%nat) merged).*2 = [[7]; [8]].
Proof.
  destruct (upstreams_merge tt doubling_new doubling_reset doubling_next id Some id 2 false registry small 2
    None "X-Forwarded-For" both _ (upstreams_run_reachable two_upstreams)) as (merged & Hp & _ & Ht & _).
  exists merged. split; [exact Hp|].
  destruct (Ht 0%nat _ eq_refl) as (_ & H0 & _). destruct (Ht 1%nat _ eq_refl) as (_ & H1 & _).
  rewrite H0, H1. split; vm_compute; reflexivity.
Defined.

(** One connection is open and the gauge says one: the failed attempt and the orderly
    close, each counted wrongly, cancel out.  The same close of the last connection
    leaves the gauge at one with none open. *)
Example gauge_by_chance :
  let s := upstreams_run two_upstreams in
  total listening_now (tasks s) = 1 /\ metrics (proxy s) upstream_connections = 1 /\
  let s' := upstreams_run (two_upstreams ++ [OfSubscriber 0 (Heard StreamEnd)]) in
  total listening_now (tasks s') = 0 /\ metrics (proxy s') upstream_connections = 1.
Proof. by vm_compute. Qed.


(** With a pong timeout of zero a subscriber panics when it connects for the first
    time, and nothing starts it again. *)
Example zero_timeout_panics :
  phase_of (subscriber_step tt doubling_reset doubling_next false (ConnectDone (Ok tt) 5)
    (goto Connecting (WebsocketSubscriber_new doubling_new "ws://a"
      (with_pong_timeout 0 SubscriberOptions_default))) Metrics_default).1.1 = Stopped.
Proof. by vm_compute. Qed.

End WsUpstreamsExamples.
