(* ===== verification/Tracing.v ===== *)
(** * Tracing, span metrics and version information

    crates/rollup-boost/src/tracing.rs, version.rs and build.rs: how the service
    sets up logging and tracing, and the span processor that turns the fields
    which the engine handlers record in their spans into histograms.  The last
    part follows the differences in gas and transactions from the handler of
    getPayload, through their text in the span, to the histograms. *)
From S2P Require Import Prelude Async Payload RpcClient F64 DebugApi Server ServerProps.
From S2P Require Import FlashblockBuilder FlashblocksService Net Launch ServerExamples.

Local Open Scope Z_scope.
Local Open Scope prog_scope.

(** ** Spans, as opentelemetry hands them to a processor *)

Inductive Status : Set := StatusUnset | StatusOk | StatusError (description : string).

Inductive SpanKind : Set := KindClient | KindServer | KindProducer | KindConsumer | KindInternal.

(** [Debug for SpanKind] *)
Definition SpanKind_debug (k : SpanKind) : string :=
  match k with
  | KindClient => "Client" | KindServer => "Server" | KindProducer => "Producer"
  | KindConsumer => "Consumer" | KindInternal => "Internal"
  end.

(** [SpanData]; times in nanoseconds since the epoch, attribute values as their
    text ([Value::as_str]). *)
Record SpanData : Set := {
  span_name : string;
  start_time : Z;
  end_time : Z;
  span_status : Status;
  span_kind : SpanKind;
  span_attributes : list (string * string)
}.

(** ** The processor *)

Definition SPAN_ATTRIBUTE_LABELS : list string :=
  ["code"; "payload_source"; "method"; "builder_has_payload"].

(** A signed binary64, and [n as f64] for an [i64]. *)
Record signed_f64 : Set := { negative : bool; magnitude : f64 }.

Definition f64_of_i64 (n : Z) : signed_f64 :=
  {| negative := n <? 0; magnitude := f64_of_u64 (Z.abs n) |}.

(** What a histogram records: a number, or a duration in nanoseconds. *)
Inductive sample : Set := Number_sample (x : signed_f64) | Duration_sample (ns : Z).

Record recording : Set := {
  rec_histogram : string;
  rec_labels : list (string * string);
  rec_value : sample
}.

(** [SystemTime::duration_since(..).unwrap_or_default()] *)
Definition span_duration (span : SpanData) : Z :=
  if start_time span <=? end_time span then end_time span - start_time span else 0.

Definition status_label (s : Status) : string :=
  match s with StatusOk => "ok" | StatusError _ => "error" | StatusUnset => "unset" end.

Definition span_labels (span : SpanData) : list (string * string) :=
  filter (fun attr => attr.1 ∈ SPAN_ATTRIBUTE_LABELS) (span_attributes span)
  ++ [("span_kind", SpanKind_debug (span_kind span)); ("status", status_label (span_status span))].

(** [attributes.iter().find(|attr| attr.key == key)] *)
Fixpoint find_attribute (key : string) (attrs : list (string * string)) : option string :=
  match attrs with
  | [] => None
  | (k, x) :: attrs => if String.eqb k key then Some x else find_attribute key attrs
  end.

(** One of the two differences: the text is parsed back, 0 when it is no number. *)
Definition delta_recording (key name : string) (span : SpanData) : list recording :=
  match find_attribute key (span_attributes span) with
  | Some text =>
      [{| rec_histogram := name; rec_labels := span_labels span;
          rec_value := Number_sample (f64_of_i64 (default 0 (parse_i64 text))) |}]
  | None => []
  end.

(** [MetricsSpanProcessor::on_end] *)
Definition on_end (span : SpanData) : list recording :=
  delta_recording "gas_delta" "block_building_gas_delta" span
  ++ delta_recording "tx_count_delta" "block_building_tx_count_delta" span
  ++ [{| rec_histogram := span_name span ++ "_duration"; rec_labels := span_labels span;
         rec_value := Duration_sample (span_duration span) |}].

(** Every span yields its duration, and every recording carries the same labels,
    whose names come from a fixed list: the status description and the other
    attributes never become labels. *)
Theorem on_end_labels (span : SpanData) :
  Forall (fun r => rec_labels r = span_labels span) (on_end span) /\
  (forall l, l ∈ span_labels span -> l.1 ∈ "span_kind" :: "status" :: SPAN_ATTRIBUTE_LABELS) /\
  (exists r, r ∈ on_end span /\ rec_histogram r = (span_name span ++ "_duration")%string /\
     rec_value r = Duration_sample (Z.max 0 (end_time span - start_time span))).
Proof.
  split_and!.
  - unfold on_end, delta_recording. rewrite !Forall_app.
    split_and!; [by destruct (find_attribute _ _); repeat constructor..|by repeat constructor].
  - intros l [[Hl _]%list_elem_of_filter|Hl]%elem_of_app; [set_solver|].
    rewrite !elem_of_cons, elem_of_nil in Hl. destruct Hl as [->|[->|[]]]; set_solver.
  - eexists. split; [unfold on_end; rewrite !elem_of_app; right; right; left|].
    split; [done|]. simpl. f_equal. unfold span_duration.
    destruct (Z.leb_spec (start_time span) (end_time span)); lia.
Qed.

(** ** The spans of the engine handlers *)

(** The fields that the [#[instrument]] attributes of getPayload declare
    (server.rs), with the ones set when the span is created. *)
Definition get_payload_fields (v : PayloadVersion) : list string :=
  match v with
  | V3 => ["payload_id"; "payload_source"; "gas_delta"; "tx_count_delta"; "builder_has_payload";
           "flashblocks_count"]
  | V4 => ["payload_id"; "payload_source"; "gas_delta"; "tx_count_delta"]
  end.

Definition get_payload_span (v : PayloadVersion) : string :=
  match v with V3 => "get_payload_v3" | V4 => "get_payload_v4" end.

(** The fields of the spans of [RpcClient] (client/rpc.rs) that requests make. *)
Definition rpc_fields {ET : EngineTypes} (r : engine_request) : list string :=
  match r with
  | Req_forkchoiceUpdatedV3 _ _ => ["target"; "head_block_hash"; "url"; "code"; "payload_id"]
  | Req_getPayloadV3 _ | Req_getPayloadV4 _ => ["target"; "url"; "payload_id"]
  | Req_newPayloadV3 _ _ _ | Req_newPayloadV4 _ _ _ _ => ["target"; "url"; "block_hash"; "code"]
  | Req_getBlockByNumber _ _ => []
  end.

Section Spans.
Context {ET : EngineTypes} (show_payload_id : PayloadId -> string).

(** What [Span::record] of a field leaves in the span: nothing when the span does
    not declare the field. *)
Definition recorded_field (declared : list string) (o : Obs) : option (string * string) :=
  match o with
  | SpanStr f x => if decide (f ∈ declared) then Some (f, x) else None
  | SpanInt f n =>
      if decide (f ∈ declared) then
        Some (f, if String.eqb f "payload_id" then show_payload_id n else print_i64 n)
      else None
  | _ => None
  end.

Definition recorded {S} (declared : list string) (t : list (event Reply Obs S))
  : list (string * string) :=
  omap (fun v => match v with EvEmit o => recorded_field declared o | _ => None end) t.

Lemma recorded_app {S} declared (t t' : list (event Reply Obs S)) :
  recorded declared (t ++ t') = recorded declared t ++ recorded declared t'.
Proof. apply omap_app. Qed.

(** A V4 getPayload span never has the label that tells whether the builder has
    the payload, nor the number of flashblocks, though the handler records them. *)
Lemma v4_has_no_builder_label {S} (t : list (event Reply Obs S)) x :
  (("builder_has_payload", x) ∉ recorded (get_payload_fields V4) t) /\
  (("flashblocks_count", x) ∉ recorded (get_payload_fields V4) t).
Proof.
  split; intros (v & _ & Hv)%list_elem_of_omap; destruct v as [| |o]; try done;
    destruct o; simpl in Hv; try done; case_decide as Hd; simplify_eq; set_solver.
Qed.

(** The duration of the client's getPayload requests never has the label [code]:
    [set_code] records a field that these spans do not declare. *)
Lemma get_payload_request_has_no_code {S} (t : list (event Reply Obs S)) id v x :
  ("code", x) ∉ recorded (rpc_fields (get_payload_request id v)) t.
Proof.
  intros (w & _ & Hw)%list_elem_of_omap. destruct w as [| |o]; try done.
  destruct o; simpl in Hw; try done; case_decide as Hd; simplify_eq; destruct v; set_solver.
Qed.

End Spans.

(** ** From the handler to the histogram *)

Definition is_delta (f : string) : bool :=
  String.eqb f "gas_delta" || String.eqb f "tx_count_delta".

(** The event records neither of the two differences; nor the payload's source. *)
Definition no_delta {ET : EngineTypes} {S} (v : event Reply Obs S) : Prop :=
  match v with EvEmit (SpanStr f _) | EvEmit (SpanInt f _) => is_delta f = false | _ => True end.

Definition unreserved {ET : EngineTypes} {S} (v : event Reply Obs S) : Prop :=
  match v with
  | EvEmit (SpanStr f _) | EvEmit (SpanInt f _) =>
      is_delta f = false /\ String.eqb f "payload_source" = false
  | _ => True
  end.

(** What the span metrics rely on of a builder client: it leaves the fields of the
    handler's span alone. *)
Class ClientSpans {ET : EngineTypes} (T : Type) `{!EngineApiExt T} : Prop :=
  get_payload_unreserved id v : all_events unreserved (get_payload (T := T) id v).

Section Clients.
Context {ET : EngineTypes} (payload_id_optimism : B256 -> OpPayloadAttributes -> Z -> PayloadId).

Ltac unreserved_tac :=
  cbn; let r := fresh "r" in intros r; destruct r as [res|e]; cbn;
  repeat (case_match; cbn); repeat constructor.

Lemma rpc_get_payload_unreserved {S} (c : RpcClient) id v :
  all_events unreserved (rpc_get_payload (S := S) c id v).
Proof. destruct v; unreserved_tac. Qed.

Lemma rpc_new_payload_unreserved {S} (c : RpcClient) np :
  all_events unreserved (rpc_new_payload (S := S) c np).
Proof. destruct np; unreserved_tac. Qed.

Lemma rpc_fork_choice_updated_unreserved {S} (c : RpcClient) s a :
  all_events unreserved (rpc_fork_choice_updated_v3 (S := S) c s a).
Proof. unreserved_tac. Qed.

Lemma RpcClient_ClientSpans (c : RpcClient) : @ClientSpans _ unit (RpcClient_EngineApiExt c).
Proof. intros id v. apply rpc_get_payload_unreserved. Qed.

Lemma FlashblocksService_ClientSpans (c : RpcClient) :
  @ClientSpans _ _ (FlashblocksService_EngineApiExt payload_id_optimism c).
Proof.
  intros id v. apply all_events_bind.
  - unfold get_best_payload. apply all_events_bind; [by apply all_events_atomic|]. intros cur.
    case_match; [apply all_events_ret|].
    cbn. intros s. repeat (case_match; cbn); by repeat constructor.
  - intros [p|e]; [cbn; by repeat constructor|].
    apply all_events_bind; [apply rpc_get_payload_unreserved|]. intros [r|e']; apply all_events_ret.
Qed.

End Clients.

Section Deltas.
Context {ET : EngineTypes} {T : Type} `{EA : !EngineApiExt T} {BC : BuilderClient T} {CS : ClientSpans T}.
Context (self : RollupBoostServer) (Hl2 : payload_source (l2_client self) = L2).
Context (show_payload_id : PayloadId -> string).

Abbreviation Ev := (event Reply Obs (Shared (T := T))).

Lemma on_trace_unreserved {A} (p : M PayloadTrace.PayloadTraceContext A) :
  all_events unreserved p -> all_events unreserved (on_trace (T := T) p).
Proof. apply all_events_zoom; [done|]. by intros []. Qed.

Lemma builder_fut_unreserved id v : all_events unreserved (builder_fut (T := T) self id v).
Proof.
  unfold builder_fut.
  apply all_events_bind; [by apply on_trace_unreserved, all_events_atomic|]. intros cause.
  apply all_events_bind; [destruct cause; [by apply all_events_emit|apply all_events_ret]|].
  intros _. apply all_events_bind; [by apply on_trace_unreserved, all_events_atomic|].
  intros [|]; cbn [negb]; (apply all_events_bind; [by apply all_events_emit|intros _]);
    [|apply all_events_ret].
  apply all_events_bind.
  { eapply all_events_zoom; [done| |apply get_payload_unreserved]. by intros []. }
  intros [p|e]; [|apply all_events_ret]. destruct (external_state_root self); cbn [negb].
  - apply all_events_bind; [|intros [q|e]; apply all_events_ret].
    apply all_events_bind; [by apply all_events_atomic|].
    intros [[fs fa]|]; [|constructor].
    apply all_events_bind; [apply rpc_fork_choice_updated_unreserved|].
    intros [res|e]; cbn; [|constructor]. destruct (payload_id res); [|constructor].
    apply all_events_bind; [apply rpc_get_payload_unreserved|]. intros [q|e]; apply all_events_ret.
  - apply all_events_bind; [apply rpc_new_payload_unreserved|].
    intros st. destruct (into_rpc st); apply all_events_ret.
Qed.

Lemma join_unreserved sch id v :
  every (join (rpc_get_payload (l2_client self) id v) sch (builder_fut (T := T) self id v))
    (fun t o => match o with Returned _ => Forall unreserved t | Panicked _ => True end).
Proof.
  eapply every_join; [apply rpc_get_payload_unreserved|apply builder_fut_unreserved|].
  split_and!; [|done|done]. intros t1 t2 t a b Hi H1 H2. by eapply interleaving_Forall.
Qed.

Lemma unreserved_no_delta (t : list Ev) : Forall unreserved t -> Forall no_delta t.
Proof. intros H. eapply Forall_impl; [exact H|]. intros [| |[]]; by try (intros [? ?]). Qed.

(** The run records the differences between [b] and [l], once each. *)
Definition records_deltas (t : list Ev) (b l : OpExecutionPayloadEnvelope) : Prop :=
  exists t1 t2, Forall no_delta t1 /\ Forall no_delta t2 /\
    t = t1 ++ EvEmit (SpanInt "gas_delta" (gas_delta b l))
           :: EvEmit (SpanInt "tx_count_delta" (tx_count_delta b l)) :: t2.

(** The span says that the builder's payload was chosen. *)
Definition chose_builder : Ev := EvEmit (SpanStr "payload_source" (PayloadSource_to_string Builder)).

(** Neither difference is recorded and the builder's payload is not chosen. *)
Definition plain (v : Ev) : Prop := no_delta v /\ v <> chose_builder.

Lemma unreserved_plain (t : list Ev) : Forall unreserved t -> Forall plain t.
Proof.
  intros H. eapply Forall_impl; [exact H|]. intros [| |[]]; try by split.
  - intros [? ?]. split; [done|]. by intros [= -> _].
  - intros [? _]. by split.
Qed.

Lemma records_deltas_around (t0 t t' : list Ev) b l :
  Forall no_delta t0 -> Forall no_delta t' -> records_deltas t b l ->
  records_deltas (t0 ++ t ++ t') b l.
Proof.
  intros H0 H' (t1 & t2 & H1 & H2 & ->). exists (t0 ++ t1), (t2 ++ t').
  rewrite !Forall_app. split_and!; try done. by rewrite <- !app_assoc.
Qed.

(** [evaluate] records the differences exactly when it has both payloads, and only
    then can it choose the builder's. *)
Lemma evaluate_deltas l2p bp :
  every (evaluate (T := T) self l2p bp) (fun t o =>
    match l2p, bp with
    | Ok l, Ok {| bp_payload := Some b |} => records_deltas t b l
    | _, _ => Forall unreserved t /\ forall p, o <> Returned (Ok (p, Builder))
    end).
Proof.
  destruct l2p as [l|e]; [|intros s; by repeat constructor].
  intros s. destruct bp as [[[b|] f]|e]; cbn.
  - intros s'. exists [EvAtomic s (set_probes (Probe.set_health Probe.Healthy (probes s)) s)],
      [EvAtomic s' s']. by repeat constructor.
  - intros s'. destruct (_ && _); cbn; intros; by repeat constructor.
  - intros s'. destruct (_ && _); cbn; intros; by repeat constructor.
Qed.

(** What the trace of getPayload shows of the differences. *)
Definition deltas_shown (id : PayloadId) (v : PayloadVersion) (t : list Ev) : Prop :=
  Forall plain t \/
  exists r b l, EvAwait (L2, get_payload_request id v) r ∈ t /\
    get_payload_result L2 id v r = Ok l /\
    (if external_state_root self then built_by_l2 t v b else validated t b) /\
    records_deltas t b l.

(** The payload was checked in a part of the run. *)
Lemma checked_mono (t t' : list Ev) v b :
  t ⊆ t' -> (if external_state_root self then built_by_l2 t v b else validated t b) ->
  if external_state_root self then built_by_l2 t' v b else validated t' b.
Proof.
  intros Hs. destruct (external_state_root self).
  - intros (id & r & ? & ?). exists id, r. auto.
  - intros (r & st & ? & ?). exists r, st. auto.
Qed.

Ltac plain_tac :=
  repeat first [assumption | apply Forall_nil_2 | apply Forall_cons_2 | apply Forall_app_2];
  try (split; [done|by intros [=]]).

Lemma get_payload_deltas sch id v :
  every (server_get_payload (T := T) self sch id v) (fun t o =>
    match o with Returned _ => deltas_shown id v t | Panicked _ => True end).
Proof.
  unfold server_get_payload. apply every_read. intros s0.
  destruct (is_disabled (execution_mode s0)).
  - unfold get_payload_disabled.
    eapply every_bind; [apply rpc_get_payload_unreserved|done|].
    intros t [p|e] Ht%unreserved_plain; cbn; intros s1; left;
      plain_tac.
  - eapply every_bind;
      [apply every_conj; [apply (get_payload_join self Hl2)|apply join_unreserved]|by intros|].
    intros t [l2p bp] [[(r & Hr & ->) Hb] Ht]. cbn beta iota.
    eapply every_bind; [apply evaluate_deltas|by intros|]. intros t' res Hev.
    destruct (get_payload_result L2 id v r) as [l|e] eqn:Hres, bp as [[[b|] f]|e'].
    1: { cbn in Hb. destruct (Hb b eq_refl) as [_ Hc].
      assert (H : forall t2, Forall no_delta t2 ->
        deltas_shown id v (EvAtomic s0 s0 :: t ++ t' ++ t2)).
      { intros t2 H2. right. exists r, b, l. split; [set_solver|]. split; [done|].
        split; [eapply checked_mono; [|exact Hc]; set_solver|].
        apply (records_deltas_around (EvAtomic s0 s0 :: t) t' t2); [|done|done].
        constructor; [done|]. by apply unreserved_no_delta. }
      destruct res as [chosen|e]; cbn; apply H; by repeat constructor. }
    all: destruct Hev as [Ht'%unreserved_plain Hne]; apply unreserved_plain in Ht;
      (destruct res as [[p [|]]|e2]; [|by destruct (Hne p)|]); cbn; left; plain_tac.
Qed.
(** ** The processor on such a span *)

(** What one histogram receives from a span. *)
Definition samples (name : string) (span : SpanData) : list sample :=
  omap (fun r => if String.eqb (rec_histogram r) name then Some (rec_value r) else None) (on_end span).

(** The span of the handler: the attributes it was created with, and what the run
    has recorded in it. *)
Definition handler_span (v : PayloadVersion) (start stop : Z) (st : Status)
    (created : list (string * string)) (t : list Ev) : SpanData :=
  {| span_name := get_payload_span v; start_time := start; end_time := stop; span_status := st;
     span_kind := KindServer;
     span_attributes := created ++ recorded show_payload_id (get_payload_fields v) t |}.

Lemma find_attribute_app key a b :
  find_attribute key (a ++ b) =
    match find_attribute key a with Some x => Some x | None => find_attribute key b end.
Proof. induction a as [|[k x] a IH]; simpl; [done|]. by destruct (String.eqb k key). Qed.

Lemma no_delta_not_found key declared (t : list Ev) :
  is_delta key = true -> Forall no_delta t ->
  find_attribute key (recorded show_payload_id declared t) = None.
Proof.
  intros Hk. induction 1 as [|v t Hv _ IH]; [done|]. cbn.
  destruct v as [| |[| f x | f n | | | |]]; try exact IH; cbn in Hv |- *;
    (case_decide; [|exact IH]); cbn; (destruct (String.eqb_spec f key) as [->|_]; [congruence|exact IH]).
Qed.

Lemma samples_of_span span :
  (exists v, span_name span = get_payload_span v) ->
  samples "block_building_gas_delta" span =
    rec_value <$> delta_recording "gas_delta" "block_building_gas_delta" span /\
  samples "block_building_tx_count_delta" span =
    rec_value <$> delta_recording "tx_count_delta" "block_building_tx_count_delta" span.
Proof.
  intros [v Hv]. unfold samples, on_end, delta_recording. rewrite !omap_app, Hv.
  by destruct v, (find_attribute "gas_delta" (span_attributes span)),
    (find_attribute "tx_count_delta" (span_attributes span)).
Qed.

Lemma delta_in_range b l : - 2 ^ 63 <= gas_delta b l < 2 ^ 63 /\ - 2 ^ 63 <= tx_count_delta b l < 2 ^ 63.
Proof. split; apply as_i64_range. Qed.

(** In a run that shows the differences the span holds their text. *)
Lemma shown_attributes v created (t : list Ev) b l :
  find_attribute "gas_delta" created = None -> find_attribute "tx_count_delta" created = None ->
  records_deltas t b l ->
  let attrs := created ++ recorded show_payload_id (get_payload_fields v) t in
  find_attribute "gas_delta" attrs = Some (print_i64 (gas_delta b l)) /\
  find_attribute "tx_count_delta" attrs = Some (print_i64 (tx_count_delta b l)).
Proof.
  intros Hg Hx (t1 & t2 & H1 & H2 & ->). cbn zeta.
  rewrite !find_attribute_app, Hg, Hx, recorded_app, !find_attribute_app.
  rewrite (no_delta_not_found "gas_delta" _ t1), (no_delta_not_found "tx_count_delta" _ t1) by done.
  by destruct v.
Qed.

(** When the handler of getPayload ends, the processor records in each of the two
    histograms nothing, and then the builder's payload was not chosen, or exactly
    one value: the difference between a builder payload that the L2 node accepted
    (or built) in this run and the L2 payload of this run; the detour through
    decimal text loses nothing, and for gas below [2 ^ 53] the value is exact. *)
Theorem deltas_reach_histograms (sch : list bool) (id : PayloadId) (v : PayloadVersion)
    (start stop : Z) (st : Status) (created : list (string * string)) :
  find_attribute "gas_delta" created = None -> find_attribute "tx_count_delta" created = None ->
  every (server_get_payload (T := T) self sch id v) (fun t o =>
    let span := handler_span v start stop st created t in
    match o with
    | Panicked _ => True
    | Returned _ =>
        (samples "block_building_gas_delta" span = [] /\
         samples "block_building_tx_count_delta" span = [] /\ chose_builder ∉ t) \/
        exists r b l, EvAwait (L2, get_payload_request id v) r ∈ t /\
          get_payload_result L2 id v r = Ok l /\
          (if external_state_root self then built_by_l2 t v b else validated t b) /\
          samples "block_building_gas_delta" span =
            [Number_sample (f64_of_i64 (gas_delta b l))] /\
          samples "block_building_tx_count_delta" span =
            [Number_sample (f64_of_i64 (tx_count_delta b l))] /\
          (0 <= gas_used b < 2 ^ 53 -> 0 <= gas_used l < 2 ^ 53 ->
           f64_of_i64 (gas_delta b l) =
             {| negative := gas_used b <? gas_used l;
                magnitude := F64 (Z.abs (gas_used b - gas_used l)) 0 |})
    end).
Proof.
  intros Hg Hx. eapply every_mono; [|apply get_payload_deltas]. intros t [o|m] H; [|done].
  cbn zeta. destruct (samples_of_span (handler_span v start stop st created t)) as [-> ->];
    [by exists v|]. unfold delta_recording. cbn [span_attributes handler_span].
  destruct H as [H|(r & b & l & Hr & Hl & Hc & Hd)]; [left|right].
  - assert (Forall no_delta t) by (eapply Forall_impl; [exact H|by intros ? [? _]]).
    rewrite !find_attribute_app, Hg, Hx, !no_delta_not_found by done.
    split_and!; [done|done|]. intros Hin. rewrite Forall_forall in H. by apply H in Hin as [_ ?].
  - exists r, b, l. destruct (shown_attributes v created t b l Hg Hx Hd) as [-> ->].
    destruct (delta_in_range b l). cbn. rewrite !parse_i64_print_i64 by done.
    split_and!; try done. intros Hb Hl'. unfold gas_delta.
    rewrite !as_i64_small by (rewrite ?as_i64_small; lia). unfold f64_of_i64.
    rewrite f64_of_u64_exact by lia. f_equal.
    destruct (Z.ltb_spec (gas_used b) (gas_used l)), (Z.ltb_spec (gas_used b - gas_used l) 0); lia.
Qed.

End Deltas.

(** ** Setting up logging and tracing *)

(** [LevelFilter] and [Targets]: a default and the levels of single targets. *)
Inductive LevelFilter : Set := OFF | UpTo (l : Level).
Record Targets : Set := { default_level : LevelFilter; target_levels : list (string * LevelFilter) }.

Inductive LogWriter : Set := Stdout | AppendTo (path : string).

(** The tracing pipeline: where spans are exported to, what identifies the
    service, whether spans also feed the histograms, and which spans. *)
Record TracePipeline : Set := {
  endpoint : string;
  resource : list (string * string);
  span_metrics : bool;
  trace_filter : Targets
}.

(** The subscriber that becomes the global default. *)
Record Subscriber : Set := {
  global_filter : Targets;
  pipeline : option TracePipeline;
  json : bool;
  ansi : bool;
  writer : LogWriter;
  log_filter : Targets
}.

Section InitTracing.
Context {ET : EngineTypes} {JwtSecret : Set}.
(** The environment variables of the build, opening a file for appending, the
    OTLP exporter, and whether a global subscriber can still be set. *)
Context (CARGO_PKG_NAME CARGO_PKG_VERSION : string)
  (open_append : string -> result unit IoError) (exporter_build : string -> result unit string)
  (set_global_default : result unit string).

Abbreviation Args := (RollupBoostServiceArgs (JwtSecret := JwtSecret)).

Definition filter_name : string := "rollup_boost".

Definition log_writer (args : Args) : result LogWriter Report :=
  match log_file args with
  | Some path =>
      match open_append path with
      | Ok _ => Ok (AppendTo path)
      | Err _ => Err (Report_msg "Failed to open log file")
      end
  | None => Ok Stdout
  end.

(** The branch of [init_tracing] that exports spans. *)
Definition trace_pipeline (args : Args) : result (option TracePipeline) Report :=
  if arg_tracing args then
    match exporter_build (otlp_endpoint args) with
    | Err _ => Err (Report_msg "Failed to create OTLP exporter")
    | Ok _ =>
        Ok (Some {| endpoint := otlp_endpoint args;
                    resource := [("service.name", CARGO_PKG_NAME); ("service.version", CARGO_PKG_VERSION)];
                    span_metrics := arg_metrics args;
                    trace_filter := {| default_level := OFF; target_levels := [(filter_name, UpTo TRACE)] |} |})
    end
  else Ok None.

Definition init_tracing (args : Args) : result Subscriber Report :=
  match log_writer args with
  | Err e => Err e
  | Ok w =>
      match trace_pipeline args with
      | Err e => Err e
      | Ok pipeline =>
          match set_global_default with
          | Err m => Err (Report_msg m)
          | Ok _ =>
              Ok {| global_filter := {| default_level := UpTo INFO;
                                        target_levels := [(filter_name, UpTo TRACE)] |};
                    pipeline := pipeline;
                    json := match log_format args with Json => true | Text => false end;
                    ansi := false;
                    writer := w;
                    log_filter := {| default_level := UpTo INFO;
                                     target_levels := [(filter_name, UpTo (log_level args))] |} |}
          end
      end
  end.

(** The span metrics exist exactly when both tracing and metrics are enabled: with
    [--metrics] alone the processor is not installed. *)
Lemma span_metrics_need_both (args : Args) (s : Subscriber) :
  init_tracing args = Ok s ->
  (exists p, pipeline s = Some p /\ span_metrics p = true) <->
  arg_tracing args = true /\ arg_metrics args = true.
Proof.
  unfold init_tracing, trace_pipeline. destruct (log_writer args); [|done].
  destruct (arg_tracing args); [destruct (exporter_build _); [|done]|];
    (destruct set_global_default; [|done]); intros [= <-]; cbn.
  - split; [intros (p & [= <-] & ?); done|]. intros [_ ?]. eauto.
  - split; [by intros (p & ? & _)|]. by intros [? _].
Qed.

End InitTracing.

(** ** Version information *)

Record VersionInfo : Set := { vi_version : string; vi_build_timestamp : string; vi_git_sha : string }.

(** The gauge that is set: its name, its labels and its value. *)
Definition register_version_metrics (self : VersionInfo) : string * list (string * string) * Z :=
  ("builder_info",
   [("version", vi_version self); ("build_timestamp", vi_build_timestamp self);
    ("git_sha", vi_git_sha self)], 1).

(** build.rs: the first 8 bytes of the commit, [&sha[0..8]], which panics on a
    shorter one; [var] is the variable that vergen sets. *)
Fixpoint string_take (n : nat) (s : string) : option string :=
  match n, s with
  | O, _ => Some EmptyString
  | S n, String a s => String a <$> string_take n s
  | S _, EmptyString => None
  end.

Definition build_main {E} (emitted : result unit E) (var : result string E)
  : outcome (result string E) :=
  match emitted with
  | Err e => Returned (Err e)
  | Ok _ =>
      match var with
      | Err e => Returned (Err e)
      | Ok sha =>
          match string_take 8 sha with
          | Some sha_short => Returned (Ok ("cargo:rustc-env=VERGEN_GIT_SHA_SHORT=" ++ sha_short)%string)
          | None => Panicked "byte index 8 is out of bounds"
          end
      end
  end.

(** ** Concrete spans *)
Module TracingExamples.
Import Demo ServerExamples.

#[local] Instance builder_api : EngineApiExt unit := RpcClient_EngineApiExt builder.
#[local] Instance builder_laws : BuilderClient unit := RpcClient_BuilderClient builder eq_refl.
#[local] Instance builder_spans : ClientSpans unit := RpcClient_ClientSpans builder.

Definition get := server_get_payload (T := unit) (server false) [] 11 V3.

Lemma deltas_reach_histograms_witness :
  every get (fun t o =>
    let span := handler_span print_i64 V3 0 1 StatusUnset [("payload_id", "0xb")] t in
    match o with
    | Panicked _ => True
    | Returned _ =>
        (samples "block_building_gas_delta" span = [] /\ chose_builder ∉ t) \/
        exists b l, samples "block_building_gas_delta" span =
          [Number_sample (f64_of_i64 (gas_delta b l))]
    end).
Proof.
  eapply every_mono; [|apply (deltas_reach_histograms (server false) eq_refl print_i64 [] 11 V3 0 1
    StatusUnset [("payload_id", "0xb")]); reflexivity].
  intros t [o|m]; cbn zeta; [|done].
  intros [(H1 & _ & H2)|(r & b & l & _ & _ & _ & H & _)]; [by left|right; eauto].
Defined.

(** The builder used 21000 gas less than the L2 node. *)
Definition less_gas_env : env Reply Obs (Shared (T := unit)) :=
  {| respond := fun _ c =>
       match c as c return Reply c with
       | (src, Req_getPayloadV3 _) =>
           match envelope (match src with L2 => 63000 | Builder => 42000 end) 201 [] with
           | EnvelopeV3 p => Ok p
           | EnvelopeV4 _ => Err (ClientOther "unreachable")
           end
       | c => reply c
       end;
     interfere := fun _ s => s |}.

Example less_gas :
  samples "block_building_gas_delta"
    (handler_span print_i64 V3 0 5 StatusOk [] (run_trace less_gas_env get (after_fcu (server false)))) =
  [Number_sample {| negative := true; magnitude := F64 21000 0 |}].
Proof. by vm_compute. Qed.

Example short_sha :
  build_main (E := string) (Ok tt) (Ok "0123456789abcdef") =
    Returned (Ok "cargo:rustc-env=VERGEN_GIT_SHA_SHORT=01234567") /\
  build_main (E := string) (Ok tt) (Ok "0123") = Panicked "byte index 8 is out of bounds".
Proof. done. Qed.

End TracingExamples.
