(* ===== verification/Main.v ===== *)
(** * The rollup-boost program

    crates/rollup-boost/src/bin/main.rs, the whole of [RollupBoostServiceArgs::run]
    (cli.rs) over the parts that [Launch] models, and metrics.rs: the Prometheus
    recorder and its HTTP server.  The theorems say what holds of the program once
    it serves, and when it starts at all. *)
From S2P Require Import Prelude Async Payload PayloadTrace RpcClient F64 Selection Probe.
From S2P Require Import DebugApi FlashblockBuilder FlashblocksService Server ServerProps.
From S2P Require Import HealthCheck FlashblocksWs Proxy Net Launch Tracing.

Local Open Scope Z_scope.

(** ** The metrics server *)

Record HttpReply : Set := { reply_status : Z; content_type : option string; reply_body : string }.

(** The service function of [init_metrics_server]; [rendered] is what the recorder
    renders at that moment. *)
Definition metrics_response (path rendered : string) : HttpReply :=
  if String.eqb path "/metrics" then
    {| reply_status := 200; content_type := Some "text/plain"; reply_body := rendered |}
  else {| reply_status := 404; content_type := None; reply_body := "" |}.

Definition serve_connection (requests : list (string * string)) : list HttpReply :=
  map (fun r => metrics_response r.1 r.2) requests.

(** [init_metrics_server] on a finite run of accepted connections, each with the
    requests that arrive on it; an error of [accept] is logged and skipped. *)
Fixpoint metrics_accept_loop {E} (accepts : list (result (list (string * string)) E))
  : list (list HttpReply) :=
  match accepts with
  | [] => []
  | Ok requests :: rest => serve_connection requests :: metrics_accept_loop rest
  | Err _ :: rest => metrics_accept_loop rest
  end.

Definition init_metrics_server {E} (bound : result unit E)
    (accepts : list (result (list (string * string)) E)) : result (list (list HttpReply)) E :=
  match bound with Ok _ => Ok (metrics_accept_loop accepts) | Err e => Err e end.

(** Every accepted connection is served, whatever errors happen in between. *)
Lemma metrics_server_survives {E} (accepts : list (result (list (string * string)) E)) :
  init_metrics_server (Ok tt) accepts =
    Ok (map serve_connection
          (omap (fun a => match a with Ok rs => Some rs | Err _ => None end) accepts)).
Proof. cbn. f_equal. induction accepts as [|[rs|e] l IH]; cbn; [done|by rewrite IH|done]. Qed.

Section Main.
Context {ET : EngineTypes} (payload_id_optimism : B256 -> OpPayloadAttributes -> Z -> PayloadId).
Context {JwtSecret : Set} (JwtSecret_from_file : string -> result JwtSecret JwtError)
  (transport_build : string -> JwtSecret -> Z -> result unit JsonrpseeError)
  (bind_addr : IpAddr * Z -> result unit IoError).
(** The rest of the outside world: installing the recorder, binding the address of the
    metrics server, binding an address given as text, the signal handlers, and what
    [init_tracing] uses. *)
Context (recorder_install : result unit string) (metrics_bind : IpAddr * Z -> result unit IoError)
  (listen : string -> result unit IoError)
  (signal_handlers : result unit IoError)
  (CARGO_PKG_NAME CARGO_PKG_VERSION : string)
  (open_append : string -> result unit IoError) (exporter_build : string -> result unit string)
  (set_global_default : result unit string).

Abbreviation Args := (RollupBoostServiceArgs (JwtSecret := JwtSecret)).

(** The task that [init_metrics] spawns: the address, and what the task gets when it
    binds it. *)
Record MetricsTask : Set := {
  metrics_addr : IpAddr * Z;
  metrics_bound : result unit IoError
}.

(** [init_metrics]: the task that is spawned, if any.  Nothing waits for the task, so
    its error, if it cannot bind the address, is lost. *)
Definition init_metrics (args : Args) : result (option MetricsTask) Report :=
  if arg_metrics args then
    match recorder_install with
    | Err m => Err (Report_msg m)
    | Ok _ =>
        match parse_socket_addr (host_port (metrics_host args) (metrics_port args)) with
        | Some addr => Ok (Some {| metrics_addr := addr; metrics_bound := metrics_bind addr |})
        | None => Err Report_addr_parse
        end
    end
  else Ok None.

(** What the task answers on the connections that arrive, if it serves. *)
Definition metrics_replies (t : option MetricsTask)
    (accepts : list (result (list (string * string)) IoError)) : option (list (list HttpReply)) :=
  match t with
  | Some t => match init_metrics_server (metrics_bound t) accepts with Ok l => Some l | Err _ => None end
  | None => None
  end.

(** ** [RollupBoostServiceArgs::run] *)

Record Running : Type := {
  run_service : Service (JwtSecret := JwtSecret);
  run_metrics : option MetricsTask;
  run_rpc_addr : IpAddr * Z
}.

(** From the first line up to the [select!]. *)
Definition service_run (args : Args) (gauge : option f64) : result Running Report :=
  match init_metrics args with
  | Err e => Err e
  | Ok metrics_task =>
      let debug_addr := host_port (debug_host args) (debug_server_port args) in
      match service_args_run JwtSecret_from_file transport_build bind_addr (lib args) gauge
              (listen debug_addr) with
      | Err e => Err e
      | Ok sv =>
          match parse_socket_addr (host_port (rpc_host args) (rpc_port args)) with
          | None => Err Report_addr_parse
          | Some addr =>
              match bind_addr addr with
              | Err e => Err (Report_io e)
              | Ok _ =>
                  match signal_handlers with
                  | Err e => Err (Report_io e)
                  | Ok _ => Ok {| run_service := sv; run_metrics := metrics_task;
                                  run_rpc_addr := addr |}
                  end
              end
          end
      end
  end.

(** The [select!] at the end: what happened first, and whether the server is told
    to stop. *)
Inductive exit_event : Set := ServerStopped | HealthCheckStopped | Sigint | Sigterm.

Definition run_exit (e : exit_event) : bool :=
  match e with ServerStopped | HealthCheckStopped => false | Sigint | Sigterm => true end.

(** ** [main] *)

Definition main (args : Args) (gauge : option f64) : result (Subscriber * Running) Report :=
  match init_tracing CARGO_PKG_NAME CARGO_PKG_VERSION open_append exporter_build set_global_default args with
  | Err e => Err e
  | Ok s => match service_run args gauge with Ok r => Ok (s, r) | Err e => Err e end
  end.

(** What [init_metrics] leaves behind, once it has succeeded. *)
Lemma init_metrics_spec (args : Args) t :
  init_metrics args = Ok t ->
  let addr := parse_socket_addr (host_port (metrics_host args) (metrics_port args)) in
  metrics_addr <$> t = (if arg_metrics args then addr else None) /\
  (is_Some t <-> arg_metrics args = true) /\
  forall accepts l, metrics_replies t accepts = Some l <->
    arg_metrics args = true /\ (exists a, addr = Some a /\ metrics_bind a = Ok tt) /\
    l = map serve_connection (omap (fun a => match a with Ok rs => Some rs | Err _ => None end) accepts).
Proof.
  unfold init_metrics. destruct (arg_metrics args); [|intros [= <-]; split_and!; [done|by split; [intros []|]|]].
  2: { intros accepts l. cbn. naive_solver. }
  destruct recorder_install; [|done].
  destruct (parse_socket_addr _) as [a|]; [|done]. intros [= <-]. split_and!; [done|done|].
  intros accepts l. unfold metrics_replies. cbn [metrics_bound].
  destruct (metrics_bind a) as [[]|e] eqn:Hb.
  - rewrite metrics_server_survives. naive_solver.
  - cbn. split; [done|]. intros (_ & (a' & [= <-] & Ha) & _). congruence.
Qed.

(** C14: once the program serves, it serves on the configured address; a metrics server
    was started for its configured address exactly when metrics are enabled, and it
    answers every connection it accepts exactly if it could bind that address, a
    failure of which nothing reports; spans feed the histograms exactly when tracing and
    metrics are enabled; and everything holds that the theorems about the server assume:
    its L2 clients talk to the L2 node, its builder client keeps the contract of a
    builder client, it starts healthy in the configured mode, which the gauge shows, and
    with flashblocks both tasks that feed the service run. *)
Theorem main_serves (args : Args) (gauge : option f64) (s : Subscriber) (r : Running) :
  main args gauge = Ok (s, r) ->
  let addr := parse_socket_addr (host_port (metrics_host args) (metrics_port args)) in
  parse_socket_addr (host_port (rpc_host args) (rpc_port args)) = Some (run_rpc_addr r) /\
  metrics_addr <$> run_metrics r = (if arg_metrics args then addr else None) /\
  (is_Some (run_metrics r) <-> arg_metrics args = true) /\
  (forall accepts l, metrics_replies (run_metrics r) accepts = Some l <->
    arg_metrics args = true /\ (exists a, addr = Some a /\ metrics_bind a = Ok tt) /\
    l = map serve_connection (omap (fun a => match a with Ok rs => Some rs | Err _ => None end) accepts)) /\
  ((exists p, pipeline s = Some p /\ span_metrics p = true) <->
   arg_tracing args = true /\ arg_metrics args = true) /\
  service_ready payload_id_optimism (lib args) (run_service r).
Proof.
  unfold main. destruct (init_tracing _ _ _ _ _ _) as [s'|] eqn:Ht; [|done].
  unfold service_run. destruct (init_metrics args) as [ma|] eqn:Hm; [|done].
  destruct (service_args_run _ _ _ _ _ _) as [sv|] eqn:Hsv; [|done].
  destruct (parse_socket_addr (host_port (rpc_host args) (rpc_port args))) as [addr|]; [|done].
  destruct (bind_addr addr); [|done]. destruct signal_handlers; [|done]. intros [= <- <-]. cbn.
  destruct (init_metrics_spec args ma Hm) as (H1 & H2 & H3).
  split_and!; [done|exact H1|exact H2|exact H3|by eapply span_metrics_need_both|].
  by eapply started_service_wired.
Qed.

(** ** When the program starts *)

(** The text of an IPv4 address. *)
Definition v4_host (host : string) : Prop :=
  exists a b c d, is_octet a /\ is_octet b /\ is_octet c /\ is_octet d /\
    host = show_ip (IPv4 a b c d).

Lemma v4_host_port host port :
  v4_host host -> 0 <= port <= 65535 -> is_Some (parse_socket_addr (host_port host port)).
Proof.
  intros (a & b & c & d & Ha & Hb & Hc & Hd & ->) Hp. rewrite parse_host_port_v4 by done. eauto.
Qed.

Lemma v4_host_ip host : v4_host host -> is_Some (parse_ip host).
Proof. intros (a & b & c & d & Ha & Hb & Hc & Hd & ->). rewrite parse_show_v4 by done. eauto. Qed.

(** The outside world grants everything. *)
Record obliging : Prop := {
  ob_transport u k t : transport_build u k t = Ok tt;
  ob_bind a : bind_addr a = Ok tt;
  ob_listen a : listen a = Ok tt;
  ob_recorder : recorder_install = Ok tt;
  ob_signals : signal_handlers = Ok tt;
  ob_open p : open_append p = Ok tt;
  ob_exporter u : exporter_build u = Ok tt;
  ob_default : set_global_default = Ok tt
}.

(** C15: with secrets on the command line and IPv4 hosts, nothing but the outside world
    keeps the program from serving, for every combination of the other arguments. *)
Theorem main_starts (args : Args) (gauge : option f64) :
  obliging ->
  is_Some (p_jwt_token (l2_args (lib args))) -> is_Some (p_jwt_token (builder_args (lib args))) ->
  v4_host (rpc_host args) -> v4_host (metrics_host args) ->
  v4_host (Config.flashblocks_host (flashblocks_args (lib args))) ->
  0 <= rpc_port args <= 65535 -> 0 <= metrics_port args <= 65535 ->
  exists s r, main args gauge = Ok (s, r).
Proof.
  intros Hw [kl Hkl] [kb Hkb] Hrh Hmh Hfh Hrp Hmp.
  destruct (v4_host_port _ _ Hrh Hrp) as [ra Hra], (v4_host_port _ _ Hmh Hmp) as [ma Hma].
  destruct (v4_host_ip _ Hfh) as [fa Hfa].
  assert (exists s, init_tracing CARGO_PKG_NAME CARGO_PKG_VERSION open_append exporter_build
    set_global_default args = Ok s) as [s Hs].
  { unfold init_tracing, log_writer, trace_pipeline. rewrite (ob_default Hw).
    destruct (log_file args); [rewrite (ob_open Hw)|];
      (destruct (arg_tracing args); [rewrite (ob_exporter Hw)|]); eauto. }
  assert (exists sv, service_args_run JwtSecret_from_file transport_build bind_addr (lib args) gauge
    (listen (host_port (debug_host args) (debug_server_port args))) = Ok sv) as [sv Hsv].
  { apply (service_args_run_starts _ _ _ _ _ _ kl kb fa); try done; apply Hw. }
  unfold main, service_run, init_metrics. rewrite Hs, Hsv, Hra, (ob_bind Hw), (ob_signals Hw).
  destruct (arg_metrics args); [rewrite (ob_recorder Hw), Hma|]; eauto.
Qed.

End Main.

(** ** A concrete start *)
Module MainExamples.
Import Demo LaunchExamples.

(** Flashblocks, metrics and tracing enabled, everything else as it is by default. *)
Definition service_args : RollupBoostServiceArgs (JwtSecret := Z) :=
  let d := ServiceArgs_default (LaunchExamples.args true) in
  {| lib := lib d; rpc_host := rpc_host d; rpc_port := rpc_port d; arg_tracing := true;
     arg_metrics := true; metrics_host := metrics_host d; metrics_port := metrics_port d;
     otlp_endpoint := otlp_endpoint d; log_level := log_level d; log_format := log_format d;
     log_file := log_file d; debug_host := debug_host d; debug_server_port := debug_server_port d |}.

Definition demo_main_with (metrics_bind : IpAddr * Z -> result unit string)
    (a : RollupBoostServiceArgs (JwtSecret := Z)) :=
  main (ET := types) (fun _ => Err "no file"%string) (fun _ _ _ => Ok tt) (fun _ => Ok tt) (Ok tt)
    metrics_bind (fun _ => Ok tt) (Ok tt) "rollup-boost" "0.1.0" (fun _ => Ok tt) (fun _ => Ok tt) (Ok tt) a None.

Definition demo_main := demo_main_with (fun _ => Ok tt).

Lemma main_serves_witness :
  match demo_main service_args with
  | Ok (s, r) => metrics_addr <$> run_metrics r = Some (IPv4 127 0 0 1, 9090) /\
      service_ready (fun h _ _ => h) (lib service_args) (run_service r)
  | Err _ => False
  end.
Proof.
  destruct (demo_main service_args) as [[s r]|e] eqn:H; [|vm_compute in H; discriminate H].
  destruct (main_serves (fun h _ _ => h) _ _ _ _ _ _ _ _ _ _ _ _ _ _ _ _ H) as (_ & H2 & _ & _ & _ & H5).
  split; [rewrite H2; vm_compute; reflexivity|exact H5].
Defined.

Lemma main_starts_witness : exists s r, demo_main service_args = Ok (s, r).
Proof.
  apply main_starts; try (exists 127, 0, 0, 1; vm_compute; repeat split; discriminate).
  - by split.
  - by exists 7.
  - by exists 7.
  - vm_compute. split; discriminate.
  - vm_compute. split; discriminate.
Defined.

(** The address of the metrics server is taken: the program serves without metrics. *)
Example metrics_silently_missing :
  match demo_main_with (fun _ => Err "address in use"%string) service_args with
  | Ok (s, r) => metrics_replies (run_metrics r) [] = None
  | Err _ => False
  end.
Proof. vm_compute. reflexivity. Qed.

(** An RPC host that is a name stops the program, after the health checker, the
    debug server and the flashblocks tasks have been started. *)
Example localhost_rejected :
  match demo_main
    {| lib := LaunchExamples.args true; rpc_host := "localhost"; rpc_port := 8081;
       arg_tracing := false; arg_metrics := false; metrics_host := "127.0.0.1"; metrics_port := 9090;
       otlp_endpoint := ""; log_level := INFO; log_format := Text; log_file := None;
       debug_host := "127.0.0.1"; debug_server_port := 5555 |} with
  | Err e => e = Report_addr_parse
  | Ok _ => False
  end.
Proof. vm_compute. reflexivity. Qed.

End MainExamples.
